(* ===== verification/_CoqProject ===== *)
-Q . S2P
Prelude.v
Errors.v
Base64.v
Json.v
JsonFacts.v
JsonCodec.v
Types.v
Crypto.v
Toy.v
Jwk.v
JwkFacts.v
Jws.v
JwsFacts.v
Jwe.v
JweFacts.v
Helpers.v
HelpersFacts.v
JwkMade.v
Keys.v
KeysFacts.v
Pem.v
KeyStore.v
KeyStoreFacts.v
JwksTrustStore.v
JwksTrustStoreFacts.v
JwksProgress.v
JwksMutex.v
JwtSigner.v
JwtFacts.v
ServedKeys.v
ServedStore.v
JwksConcurrent.v
Interfaces.v
Cryptors.v
CryptorsFacts.v
BlockFacts.v
HmacSteps.v
JweCryptors.v
KeyGenerator.v
DirectAeadFacts.v
DirectBlockFacts.v
KeyEncryptionFacts.v
Hsm.v
HsmFacts.v
KeyGeneratorFacts.v
SavedKeys.v
Examples.v
ExamplesFacts.v
GeneratedServed.v
KeyExamples.v
HsmExamples.v
JweExamples.v
StoreExamples.v
ProgramExamples.v
