(* ===== verification/Prelude.v ===== *)
(** * A verification of the gose JOSE library

    gose makes and checks JWKs, JWSs, JWTs and JWEs in Go.  The package [jose]
    ([src/jose/]) has the data and their serialisations; the package [gose]
    ([src/]) has the keys, the signers and verifiers of tokens, the encryptors and
    decryptors, and the stores that keep keys; [src/hsm/] has decryption keys in a token,
    [src/examples/] two programs.  This library models them as pure functions, except
    for the calls of the JWKS store and of the HMAC key, which are also step relations
    for any interleaving, and proves what the parts promise.

    ** Conventions

    - A fallible function returns a [result]: [Ok], [Err] with the error the code
      returns, or [Panic] where the code panics (a nil dereference, an index out of
      range, a hash that is not linked).  "Never panics" is a theorem about [Panic].
    - A Go string is a [string], a [[]byte] a list of bytes, a [big.Int] that is not
      negative an [N], an [int] or [int64] a [Z] with its wrap-around written out.
      Nil and empty slices are told apart only where the code does.
    - A method that changes its receiver takes it and returns the changed one.  JWKs
      that are shared through pointers live in a [heap] ([Keys]), because making a
      verification key writes to the JWK it is given, and key objects read theirs
      again later.
    - Random sources are tapes of bytes; clocks, file contents and HTTP outcomes are
      arguments.
    - Cryptography is not computed: [Crypto] has a class for each package of the
      standard library ([X509], [Digests], [Rsa], [Ecdsa], [Signers], [Aes]) with its
      functions and the documented facts that are relied on, such as that a verifier
      accepts what the signer signed, and that a GCM ciphertext opens only to what it
      was sealed from.  [Toy] has an instance of every class, so that every theorem
      is applied to concrete keys ([KeyExamples], [JweExamples], [StoreExamples],
      [HsmExamples], [ProgramExamples]).  [Hsm] has a class [Crypto11] of its own for
      the calls to a token.

    ** The parts

    Foundations: [Prelude] (bytes, integers, the [result] monad, automation),
    [Errors] (sentinels of [errors.go] and [jose/types.go]), [Base64], [Json] and
    [JsonFacts] (the text level of [encoding/json]; parsing undoes printing),
    [JsonCodec] (decoding into and encoding from structs).

    - [Types]: [jose/types.go].  [Jwk], [JwkFacts]: [jose/jwk.go], [jose/jwks.go].
      A well-formed key of each of the five types survives [MarshalJSON] and
      [UnmarshalJwk]; what is imported is bounded, consistent, and certified by its
      first certificate.
    - [Jws], [JwsFacts]: [jose/jws.go], [jose/jwt.go].  One serialisation per token;
      round trips of claims, headers and tokens; claims are always written, and read
      again exactly if they name an audience.
    - [Jwe], [JweFacts]: [jose/jwe.go].  Both compact forms; the additional data are
      the header octets as received.
    - [Helpers], [HelpersFacts]: [helpers.go], [rsa_oaep_alg.go] and the tables of
      [signer.go].  When a key loads, what its identifier identifies, and round
      trips between JWKs and keys.
    - [Keys], [KeysFacts]: [signer.go], [verifier.go], [ecdsa_signer.go],
      [ecdsa_verifier.go], [rsa_private.go], [rsa_public.go].  What a key signs its
      verifier accepts; exactly what a verification key accepts; RSA keys that are
      labelled with EC algorithms.  [Pem]: their PEM form, which decodes to the DER.
    - [KeyGenerator], [KeyGeneratorFacts]: [key_generator.go].
    - [JwkMade]: what can be made with [helpers.go] and the setters.  The makers do not
      check operations, certificates and thumb-prints; a JWK that is made is written,
      and imported again exactly if these are what an import asks for.  [made] has rules
      under which that is so.  [SavedKeys]: so a generated signing key can be kept as
      text, and signs as before when it is loaded again.
    - [KeyStore], [KeyStoreFacts]: [keystore.go].  The store refines a specification
      of stored pairs, revoked pairs and known issuers; revocation is for good.
    - [JwksTrustStore], [JwksTrustStoreFacts], [JwksProgress]: [jwks_truststore.go].
      [JwksTrustStore_Get] is one call; [jwks_step] interleaves any number of them, a
      section that holds [mu] being one step and [fetchMu] a lock.  Keys are fresh when
      they are found, fetches are rate-limited, calls end.  [JwksMutex]: [mutex_step] has
      [mu] as a lock too, and takes the sections apart; they are atomic, so that [jwks_step]
      is enough for the others, and the two mutexes do not deadlock.
    - [JwtSigner], [JwtFacts]: [jwt_signer.go], [jwt_verifier.go].  The verifier is
      proved against the interface [TrustStore] and its laws, which both stores
      satisfy; a token signed with a key is accepted where its public JWK is trusted.
      [ServedKeys]: and where that JWK is in the key set that the issuer's server publishes.
      [ServedStore]: the JWKS store refines a specification over the published sets of
      JWKs, so that a token is accepted while its key is published, and no longer than the
      refresh interval after it is withdrawn.  [JwksConcurrent]: interleaved calls see the
      keys of the last usable response, never of two mixed, and never panic.
      [GeneratedServed]: from a generated key to the verifier that fetches its public half.
    - [Interfaces]: the classes of [interfaces.go] that the JWE components use.
      [Cryptors], with [CryptorsFacts] (AEAD) and [BlockFacts] (CBC and HMAC):
      [aes_gcm_cryptor.go], [aes_cbc_cryptor.go], [hmac_sha_cryptor.go],
      [jwe_hmac_verifier.go].  [HmacSteps]: concurrent calls of one HMAC key, which are
      equivalent to calls one after the other, and end.
    - [JweCryptors]: the [jwe_direct_*], [jwe_key_encryption_*] and
      [asymmetric_decryption_key_store.go] files, over the interfaces.
      [DirectAeadFacts]: round trip and authenticity.  [DirectBlockFacts]: a
      conversation stays in step, nothing is decrypted without its tag, and what the
      tag does not cover.  [KeyEncryptionFacts]: round trip, and that a recipient
      does not reveal whether the wrapped key unwrapped.
    - [Hsm], [HsmFacts]: [hsm/asymmetric_decryption_key.go] and its store, over the token.
      What the encryptor of a key encrypts the token decrypts; under which identifier
      the store finds the key of a JWE.
    - [Examples], [ExamplesFacts]: [examples/jwt/jwt.go] and [examples/jwe/jwe.go], from
      random bytes and clock readings to what is printed, through all the layers above.

    ** Fuel

    Only the JSON parser has fuel, two for each byte of the text and two more;
    [JsonFacts.parse_fuel] shows that any larger amount gives the same answer.  All
    other recursion is structural.  A run of [hmac_step] without new calls ends by a
    measure ([HmacSteps.hwork]), one of [jwks_step] by another ([JwksProgress.work]),
    one of [mutex_step] by a third ([JwksMutex.mwork]), provided that the HTTP client
    returns, which its timeout of thirty seconds sees to.

    ** Not modelled

    - crypto11 and the token behind it: a class of [Hsm], with no more said of it than
      the theorems name as hypotheses.
    - Reflection: a hash comes with its dynamic type, which [isHmac] reads.
    - The text of errors with values in them, white space inside raw JSON messages,
      logging, and allocation failure.
    - The bodies of messages of the HTTP exchange apart from status and content.
    - The layout of the text that the example programs print, and their exit codes.
    - Types of the source that no code uses: [Header] of [jose/types.go] and [JweRfc7516]
      of [jose/jwe.go]. *)

From Stdlib Require Export Strings.String Strings.Byte.
From Stdlib Require Export ZifyN ZifyNat ZifyBool.
From stdpp Require Export base gmap strings list list_numbers numbers option.

#[export] Set Default Goal Selector "!".
#[export] Set Warnings "-clear-no-such-hyp".

(** ** Bytes and strings

    A Go [string] is a Rocq [string]; a Go [[]byte] is a [bytes].  The
    conversions [[]byte(s)] and [string(b)] are [s2b] and [b2s]. *)
Abbreviation bytes := (list Byte.byte).

Definition s2b (s : string) : bytes := list_byte_of_string s.
Definition b2s (b : bytes) : string := string_of_list_byte b.

Lemma s2b_b2s b : s2b (b2s b) = b.
Proof. apply list_byte_of_string_of_list_byte. Qed.
Lemma b2s_s2b s : b2s (s2b s) = s.
Proof. apply string_of_list_byte_of_string. Qed.

Lemma s2b_inj s1 s2 : s2b s1 = s2b s2 → s1 = s2.
Proof. intros H. by rewrite <- (b2s_s2b s1), H, b2s_s2b. Qed.
Lemma b2s_inj b1 b2 : b2s b1 = b2s b2 → b1 = b2.
Proof. intros H. by rewrite <- (s2b_b2s b1), H, s2b_b2s. Qed.

#[export] Instance byte_eq_dec : EqDecision Byte.byte := Byte.byte_eq_dec.
#[export] Instance byte_countable : Countable Byte.byte :=
  inj_countable Byte.to_N Byte.of_N Byte.of_to_N.

(** The numeric value of a byte, and Go's [byte(n)] which truncates. *)
Definition b2n (b : Byte.byte) : N := Byte.to_N b.
Definition n2b (n : N) : Byte.byte := default Byte.x00 (Byte.of_N (n mod 256)).

Lemma b2n_lt b : (b2n b < 256)%N.
Proof. pose proof (Byte.to_N_bounded b). unfold b2n. lia. Qed.

Lemma n2b_b2n b : n2b (b2n b) = b.
Proof.
  unfold n2b. rewrite N.mod_small by apply b2n_lt.
  unfold b2n. by rewrite Byte.of_to_N.
Qed.

Lemma b2n_n2b n : b2n (n2b n) = (n mod 256)%N.
Proof.
  unfold n2b, b2n.
  pose proof (N.mod_lt n 256 ltac:(lia)) as Hlt.
  destruct (Byte.of_N (n mod 256)) as [b|] eqn:Hb; simpl.
  - by apply Byte.to_of_N_iff.
  - exfalso. pose proof (Byte.to_of_N_option_map (n mod 256)) as H.
    rewrite Hb in H. simpl in H. destruct (N.leb_spec (n mod 256) 255); [done|lia].
Qed.

Lemma b2n_inj b1 b2 : b2n b1 = b2n b2 → b1 = b2.
Proof. intros H. by rewrite <- (n2b_b2n b1), H, n2b_b2n. Qed.

Declare Scope gose_scope.
Delimit Scope gose_scope with gose.
Notation "x =b y" := (Byte.eqb x y%byte) (at level 70) : gose_scope.
Open Scope gose_scope.

Lemma byte_eqb_spec x y : reflect (x = y) (Byte.eqb x y).
Proof.
  destruct (Byte.eqb x y) eqn:E; constructor.
  - by apply Byte.byte_dec_bl.
  - by apply Byte.eqb_false.
Qed.

Lemma byte_eqb_refl x : Byte.eqb x x = true.
Proof. by apply Byte.byte_dec_lb. Qed.

(** ** Outcomes

    A Go call returns a value, returns an [error], or panics. *)
Inductive res (E A : Type) : Type :=
  | Ok (a : A)
  | Err (e : E)
  | Panic.
Arguments Ok {E A} a.
Arguments Err {E A} e.
Arguments Panic {E A}.

#[export] Instance res_ret {E} : MRet (res E) := λ A a, Ok a.
#[export] Instance res_bind {E} : MBind (res E) := λ A B f m,
  match m with Ok a => f a | Err e => Err e | Panic => Panic end.
#[export] Instance res_fmap {E} : FMap (res E) := λ A B f m,
  match m with Ok a => Ok (f a) | Err e => Err e | Panic => Panic end.

Section res.
  Context {E A B : Type}.
  Implicit Types (m : res E A) (f : A → res E B).

Lemma bind_Ok m f b : m ≫= f = Ok b ↔ ∃ a, m = Ok a ∧ f a = Ok b.
  Proof.
    split; [destruct m; simpl; intros H; try done; eauto|].
    by intros (a & -> & H).
  Qed.
Lemma bind_Err m f e : m ≫= f = Err e ↔ m = Err e ∨ ∃ a, m = Ok a ∧ f a = Err e.
  Proof.
    split; [destruct m; simpl; intros H; simplify_eq; eauto|].
    by intros [-> | (a & -> & H)].
  Qed.
Lemma bind_Panic m f : m ≫= f = Panic ↔ m = Panic ∨ ∃ a, m = Ok a ∧ f a = Panic.
  Proof.
    split; [destruct m; simpl; intros H; simplify_eq; eauto|].
    by intros [-> | (a & -> & H)].
  Qed.
Lemma bind_no_panic m f :
    m ≠ Panic → (∀ a, m = Ok a → f a ≠ Panic) → m ≫= f ≠ Panic.
  Proof. destruct m; simpl; auto. Qed.
End res.

(** Lift an [option] that stands for a failure into an error. *)
Definition from_option_err {E A} (e : E) (o : option A) : res E A :=
  match o with Some a => Ok a | None => Err e end.

(** [inv_res] takes apart hypotheses of the form [m ≫= f = Ok b] and
    [(if c then Err e else m) = Ok b], which is what the early returns of the
    source become. *)
Ltac inv_res :=
  repeat match goal with
  | H : (_ ≫= _) = Ok _ |- _ => apply bind_Ok in H as (? & ? & H)
  | H : Ok _ = Ok _ |- _ => injection H as H; try subst
  | H : Err _ = Ok _ |- _ => discriminate H
  | H : Panic = Ok _ |- _ => discriminate H
  | H : Ok _ = Err _ |- _ => discriminate H
  | H : Ok _ = Panic |- _ => discriminate H
  | H : Err _ = Panic |- _ => discriminate H
  | H : from_option_err _ ?o = Ok _ |- _ =>
      let E := fresh "Eo" in destruct o eqn:E; simpl in H
  | H : (if ?c then Err _ else _) = Ok _ |- _ =>
      let E := fresh "Ec" in destruct c eqn:E; [discriminate H|]
  | H : (if ?c then _ else Err _) = Ok _ |- _ =>
      let E := fresh "Ec" in destruct c eqn:E; [|discriminate H]
  | H : (if ?c then Panic else _) = Ok _ |- _ =>
      let E := fresh "Ec" in destruct c eqn:E; [discriminate H|]
  end.

(** ** Machine integers *)
Definition MaxInt64 : Z := 2 ^ 63 - 1.
Definition MinInt64 : Z := - 2 ^ 63.
Definition in_int64 (z : Z) : bool := (MinInt64 <=? z)%Z && (z <=? MaxInt64)%Z.
(** Two's-complement wrap-around of an [int64] / [int] result. *)
Definition wrap64 (z : Z) : Z := (z + 2 ^ 63) `mod` 2 ^ 64 - 2 ^ 63.
(** Conversion to [uint64]. *)
Definition to_uint64 (z : Z) : N := Z.to_N (z `mod` 2 ^ 64).

Lemma wrap64_id z : (- 2 ^ 63 ≤ z < 2 ^ 63)%Z → wrap64 z = z.
Proof. intros H. unfold wrap64. rewrite Z.mod_small by lia. lia. Qed.

Definition len {A} (l : list A) : N := N.of_nat (length l).
Definition slen (s : string) : N := N.of_nat (String.length s).

Lemma s2b_length s : length (s2b s) = String.length s.
Proof.
  unfold s2b, list_byte_of_string. rewrite List.length_map.
  induction s as [|a s IH]; [done|]. cbn. by rewrite IH.
Qed.
Lemma slen_len s : slen s = len (s2b s).
Proof. unfold slen, len. by rewrite s2b_length. Qed.

(** ** Big-endian byte strings, as [math/big] and [encoding/binary] use them *)

(** The value of a big-endian byte string: [big.Int.SetBytes]. *)
Definition be_to_N (l : bytes) : N := fold_left (λ acc b, acc * 256 + b2n b)%N l 0%N.

(** The [k] low-order base-256 digits, least significant first. *)
Fixpoint le_digits (k : nat) (n : N) : bytes :=
  match k with
  | O => []
  | S k => n2b n :: le_digits k (n / 256)
  end.

(** The big-endian representation in exactly [k] bytes ([FillBytes],
    [BigEndian.PutUint64]). *)
Definition be_fixed (k : nat) (n : N) : bytes := reverse (le_digits k n).

(** The number of bytes of the shortest representation. *)
Definition be_size (n : N) : nat := N.to_nat ((N.size n + 7) / 8).

(** The shortest big-endian representation: [big.Int.Bytes]. *)
Definition be_bytes (n : N) : bytes := be_fixed (be_size n) n.

Lemma le_digits_length k n : length (le_digits k n) = k.
Proof. revert n; induction k as [|k IH]; intros n; simpl; [done|by rewrite IH]. Qed.
Lemma be_fixed_length k n : length (be_fixed k n) = k.
Proof. unfold be_fixed. by rewrite length_reverse, le_digits_length. Qed.

Lemma be_to_N_app l1 l2 :
  be_to_N (l1 ++ l2) = (be_to_N l1 * 256 ^ len l2 + be_to_N l2)%N.
Proof.
  unfold be_to_N, len. revert l1. induction l2 as [|b l2 IH] using rev_ind; intros l1.
  - rewrite app_nil_r. simpl. lia.
  - rewrite app_assoc, fold_left_app, IH, length_app, fold_left_app. simpl.
    rewrite Nat.add_comm, Nat2N.inj_succ, N.pow_succ_r by lia. lia.
Qed.

Lemma be_to_N_snoc l b : be_to_N (l ++ [b]) = (be_to_N l * 256 + b2n b)%N.
Proof. unfold be_to_N. by rewrite fold_left_app. Qed.

Lemma be_to_N_bound l : (be_to_N l < 256 ^ len l)%N.
Proof.
  induction l as [|b l IH] using rev_ind; [by vm_compute|].
  rewrite be_to_N_snoc. unfold len in *. rewrite length_app, Nat.add_comm. simpl.
  rewrite Nat2N.inj_succ, N.pow_succ_r by lia. pose proof (b2n_lt b). lia.
Qed.

Lemma be_to_N_fixed k n : be_to_N (be_fixed k n) = (n mod 256 ^ N.of_nat k)%N.
Proof.
  unfold be_fixed. revert n. induction k as [|k IH]; intros n.
  - simpl. by rewrite N.mod_1_r.
  - cbn [le_digits]. rewrite reverse_cons, be_to_N_snoc, IH, b2n_n2b.
    rewrite Nat2N.inj_succ, N.pow_succ_r by lia.
    rewrite (N.Div0.mod_mul_r n 256 (256 ^ N.of_nat k)). lia.
Qed.

Lemma be_size_spec n : (n < 256 ^ N.of_nat (be_size n))%N.
Proof.
  unfold be_size. rewrite N2Nat.id.
  destruct n as [|p]; [by vm_compute|].
  pose proof (N.size_gt (N.pos p)) as Hs.
  assert (N.size (N.pos p) <= 8 * ((N.size (N.pos p) + 7) / 8))%N as Hle.
  { pose proof (N.div_mod (N.size (N.pos p) + 7) 8 ltac:(lia)).
    pose proof (N.mod_lt (N.size (N.pos p) + 7) 8 ltac:(lia)). lia. }
  change 256%N with (2 ^ 8)%N. rewrite <- N.pow_mul_r.
  eapply N.lt_le_trans; [exact Hs|]. by apply N.pow_le_mono_r.
Qed.

Lemma be_to_N_bytes n : be_to_N (be_bytes n) = n.
Proof.
  unfold be_bytes. rewrite be_to_N_fixed. apply N.mod_small, be_size_spec.
Qed.

Lemma be_fixed_to_N l : be_fixed (length l) (be_to_N l) = l.
Proof.
  unfold be_fixed. induction l as [|b l IH] using rev_ind; [done|].
  rewrite length_app, Nat.add_comm, be_to_N_snoc. cbn [le_digits length Nat.add].
  rewrite reverse_cons.
  replace ((be_to_N l * 256 + b2n b) / 256)%N with (be_to_N l).
  2:{ rewrite N.add_comm, N.div_add by lia. pose proof (b2n_lt b).
      rewrite N.div_small by lia. lia. }
  rewrite IH. f_equal. f_equal.
  apply b2n_inj. rewrite b2n_n2b, N.add_comm, N.Div0.mod_add.
  apply N.mod_small, b2n_lt.
Qed.

Lemma be_to_N_inj l1 l2 : length l1 = length l2 → be_to_N l1 = be_to_N l2 → l1 = l2.
Proof.
  intros Hl Hn. by rewrite <- (be_fixed_to_N l1), Hl, Hn, be_fixed_to_N.
Qed.

Lemma be_bytes_nil n : be_bytes n = [] ↔ n = 0%N.
Proof.
  split; [|by intros ->].
  intros H. rewrite <- (be_to_N_bytes n), H. done.
Qed.

Lemma be_bytes_length_le n k : (n < 256 ^ N.of_nat k)%N → length (be_bytes n) ≤ k.
Proof.
  intros H. unfold be_bytes. rewrite be_fixed_length. unfold be_size.
  destruct n as [|p]; [change (N.to_nat ((N.size 0 + 7) / 8)) with 0; lia|].
  assert (N.size (N.pos p) <= 8 * N.of_nat k)%N as Hs.
  { rewrite N.size_log2 by done. apply N.le_succ_l. apply N.log2_lt_pow2; [lia|].
    change 256%N with (2 ^ 8)%N in H. by rewrite <- N.pow_mul_r in H. }
  enough ((N.size (N.pos p) + 7) / 8 <= N.of_nat k)%N by lia.
  apply N.lt_succ_r, N.Div0.div_lt_upper_bound. lia.
Qed.

(** [big.Int.BitLen]. *)
Definition BitLen (n : N) : N := N.size n.
#[global] Arguments BitLen : simpl never.

Lemma BitLen_0 n : BitLen n = 0%N ↔ n = 0%N.
Proof. destruct n; unfold BitLen; simpl; split; try done; lia. Qed.

(** ** Lists *)

(** [bytes.Join]/[strings.Join] are folds of [++]; [List.concat] is the
    [append(tmp, s...)] loop. *)
Fixpoint join_with {A} (sep : list A) (ls : list (list A)) : list A :=
  match ls with
  | [] => []
  | [l] => l
  | l :: ls => l ++ sep ++ join_with sep ls
  end.

Lemma join_with_cons {A} (sep : list A) x y l :
  join_with sep (x :: y :: l) = x ++ sep ++ join_with sep (y :: l).
Proof. done. Qed.

Lemma Forallb_forall {A} (f : A → bool) l : forallb f l = true ↔ Forall (λ x, f x = true) l.
Proof. rewrite forallb_forall, List.Forall_forall. done. Qed.

(** The first [n] elements, with [n] binary ([io.LimitReader]). *)
Fixpoint takeN {A} (n : N) (l : list A) : list A :=
  match l with
  | [] => []
  | x :: l => if (n =? 0)%N then [] else x :: takeN (N.pred n) l
  end.

Lemma takeN_take {A} n (l : list A) : takeN n l = take (N.to_nat n) l.
Proof.
  revert n. induction l as [|x l IH]; intros n; simpl; [by rewrite take_nil|].
  destruct (N.eqb_spec n 0) as [->|Hn]; [done|].
  rewrite IH. replace (N.to_nat n) with (S (N.to_nat (N.pred n))) by lia. done.
Qed.

Lemma takeN_all {A} n (l : list A) : (len l <= n)%N → takeN n l = l.
Proof. intros H. rewrite takeN_take. apply take_ge. unfold len in H. lia. Qed.

Lemma len_takeN {A} n (l : list A) : (n <= len l)%N → len (takeN n l) = n.
Proof. intros H. rewrite takeN_take. unfold len in *. rewrite length_take. lia. Qed.

(** ** [strings.SplitN], [strings.Split] and [strings.Join], for a separator of
    one byte *)
Fixpoint cut (sep : Byte.byte) (s : bytes) : option (bytes * bytes) :=
  match s with
  | [] => None
  | c :: r => if Byte.eqb c sep then Some ([], r)
              else '(a, b) ← cut sep r; Some (c :: a, b)
  end.

Fixpoint split_n (n : nat) (sep : Byte.byte) (s : bytes) : list bytes :=
  match n with
  | O => []
  | S O => [s]
  | S n => match cut sep s with Some (a, b) => a :: split_n n sep b | None => [s] end
  end.

Fixpoint split_all (sep : Byte.byte) (s : bytes) : list bytes :=
  match s with
  | [] => [[]]
  | c :: r =>
    if Byte.eqb c sep then [] :: split_all sep r
    else match split_all sep r with x :: xs => (c :: x) :: xs | [] => [[c]] end
  end.

Definition SplitN (s : string) (sep : Byte.byte) (n : nat) : list string :=
  map b2s (split_n n sep (s2b s)).
Definition Split (s : string) (sep : Byte.byte) : list string := map b2s (split_all sep (s2b s)).
Definition Join (l : list string) (sep : Byte.byte) : string :=
  b2s (join_with [sep] (map s2b l)).

Lemma s2b_app a b : s2b (a +:+ b) = s2b a ++ s2b b.
Proof.
  unfold s2b. induction a as [|c a IH]; [done|].
  change (String c a +:+ b) with (String c (a +:+ b)).
  change (list_byte_of_string (String c ?x)) with (Ascii.byte_of_ascii c :: list_byte_of_string x).
  by rewrite IH.
Qed.
Lemma slen_app s t : slen (s +:+ t) = (slen s + slen t)%N.
Proof. rewrite !slen_len, s2b_app. unfold len. rewrite length_app. lia. Qed.

(** [strings.HasPrefix] and [strings.Contains]. *)
Fixpoint has_prefix (p s : bytes) : bool :=
  match p, s with
  | [], _ => true
  | c :: p, d :: s => Byte.eqb c d && has_prefix p s
  | _, _ => false
  end.
Fixpoint contains (s p : bytes) : bool :=
  has_prefix p s || match s with [] => false | _ :: s => contains s p end.
Definition Contains (s substr : string) : bool := contains (s2b s) (s2b substr).

Lemma has_prefix_spec p s : has_prefix p s = true ↔ ∃ r, s = p ++ r.
Proof.
  revert s. induction p as [|c p IH]; intros s; cbn; [by split; [exists s|]|].
  destruct s as [|d s]; [by split; [|intros (r & ?)]|]. rewrite andb_true_iff, IH. destruct (byte_eqb_spec c d) as [->|Hn].
  - split; [intros (_ & r & ->); by exists r|]. intros (r & [= ->]). split; [done|by exists r].
  - split; [by intros [? _]|]. intros (r & [= <- _]). done.
Qed.

Lemma Contains_spec s substr : Contains s substr = true ↔ ∃ a b, s = a +:+ substr +:+ b.
Proof.
  assert (∀ s p, contains s p = true ↔ ∃ a b, s = a ++ p ++ b) as Hc.
  { clear. intros s p. induction s as [|c s IH]; cbn; rewrite orb_true_iff, has_prefix_spec; [|rewrite IH]; split.
    - intros [(r & Hr)|?]; [by exists [], r|done].
    - intros (a & b & Hr). left. exists b. by destruct a.
    - intros [(r & Hr)|(a & b & ->)]; [by exists [], r|by exists (c :: a), b].
    - intros ([|a0 a] & b & Hr); [left; by exists b|right]. injection Hr as _ ->. by exists a, b. }
  unfold Contains. rewrite Hc. split.
  - intros (a & b & Hs). exists (b2s a), (b2s b). apply s2b_inj. by rewrite !s2b_app, !s2b_b2s.
  - intros (a & b & ->). exists (s2b a), (s2b b). by rewrite !s2b_app.
Qed.

(** A segment that holds no separator. *)
Definition no_sep (sep : Byte.byte) (s : bytes) : Prop := Forall (λ c, c ≠ sep) s.

Lemma cut_app sep a b : no_sep sep a → cut sep (a ++ sep :: b) = Some (a, b).
Proof.
  induction 1 as [|c a Hc Ha IH]; simpl; [by rewrite byte_eqb_refl|].
  destruct (byte_eqb_spec c sep); [done|]. by rewrite IH.
Qed.

Lemma cut_inv sep s a b : cut sep s = Some (a, b) → s = a ++ sep :: b ∧ no_sep sep a.
Proof.
  revert a b. induction s as [|c s IH]; intros a b; simpl; [done|].
  destruct (byte_eqb_spec c sep) as [->|Hc].
  - intros [= <- <-]. split; [done|constructor].
  - intros ([a' b'] & H & [= <- <-])%bind_Some.
    destruct (IH _ _ H) as [-> Hn]. split; [done|]. by constructor.
Qed.

Lemma split_n_SS n sep s : split_n (S (S n)) sep s =
  match cut sep s with Some (a, b) => a :: split_n (S n) sep b | None => [s] end.
Proof. done. Qed.

Lemma split_n_nonempty n sep s : split_n (S n) sep s ≠ [].
Proof. destruct n; simpl; [done|]. by repeat case_match. Qed.

Lemma split_n_join sep l x :
  Forall (no_sep sep) l → split_n (S (length l)) sep (join_with [sep] (l ++ [x])) = l ++ [x].
Proof.
  induction 1 as [|a l Ha Hl IH]; [done|].
  cbn [length app]. destruct (l ++ [x]) as [|y ys] eqn:E; [by destruct l|].
  rewrite join_with_cons. cbn [app].
  rewrite split_n_SS, cut_app by done. by rewrite IH.
Qed.

Lemma split_n_inv n sep s : n ≠ O →
  s = join_with [sep] (split_n n sep s) ∧
  Forall (no_sep sep) (take (n - 1) (split_n n sep s)) ∨ length (split_n n sep s) < n.
Proof.
  revert s. induction n as [|[|n] IH]; intros s Hn; [done|left; by split; [|constructor]|].
  rewrite split_n_SS. destruct (cut sep s) as [[a b]|] eqn:Hc; [|right; simpl; lia].
  apply cut_inv in Hc as [-> Ha]. destruct (IH b ltac:(done)) as [[Hb Hf]|Hlt].
  - left. split.
    + destruct (split_n (S n) sep b) as [|y ys] eqn:E; [by apply split_n_nonempty in E|].
      rewrite join_with_cons. rewrite Hb at 1. done.
    + cbn [Nat.sub] in *. rewrite ?Nat.sub_0_r in Hf. cbn [take]. by constructor.
  - right. cbn [length]. lia.
Qed.

Lemma SplitN_length s sep n : length (SplitN s sep n) = length (split_n n sep (s2b s)).
Proof. apply length_map. Qed.

(** Splitting into exactly [n] parts loses nothing. *)
Lemma SplitN_inv s sep n : n ≠ O → length (SplitN s sep n) = n →
  s = Join (SplitN s sep n) sep ∧ Forall (λ p, no_sep sep (s2b p)) (take (n - 1) (SplitN s sep n)).
Proof.
  intros Hn Hl. rewrite SplitN_length in Hl. unfold Join, SplitN.
  destruct (split_n_inv n sep (s2b s) Hn) as [[Hs Hf]|]; [|lia].
  rewrite map_map, (map_ext _ (λ b, b)), map_id by apply s2b_b2s.
  split; [by rewrite <- Hs, b2s_s2b|].
  rewrite firstn_map, List.Forall_map. eapply List.Forall_impl; [|exact Hf].
  intros p Hp. by rewrite s2b_b2s.
Qed.

Lemma SplitN_Join l x sep : Forall (λ p, no_sep sep (s2b p)) l →
  SplitN (Join (l ++ [x]) sep) sep (S (length l)) = l ++ [x].
Proof.
  intros Hl. unfold SplitN, Join. rewrite s2b_b2s, map_app.
  rewrite <- (length_map s2b l). cbn [map]. rewrite split_n_join by by apply List.Forall_map.
  rewrite map_app, map_map. cbn [map]. rewrite (map_ext _ (λ b, b)), map_id by apply b2s_s2b.
  by rewrite b2s_s2b.
Qed.

Lemma Join_cons x y l sep : Join (x :: y :: l) sep = x +:+ b2s [sep] +:+ Join (y :: l) sep.
Proof.
  apply s2b_inj. unfold Join. rewrite !s2b_app, !s2b_b2s. cbn [map]. by rewrite join_with_cons.
Qed.
Lemma Join_one x sep : Join [x] sep = x.
Proof. unfold Join. cbn. apply b2s_s2b. Qed.

Lemma join_with_inj sep a b : Forall (no_sep sep) a → Forall (no_sep sep) b → a ≠ [] → b ≠ [] →
  join_with [sep] a = join_with [sep] b → a = b.
Proof.
  intros Ha. revert b. induction Ha as [|x a Hx Ha IH]; intros b Hb Hna Hne; [done|].
  destruct Hb as [|y b Hy Hb]; [done|]. destruct a as [|x' a], b as [|y' b]; rewrite ?join_with_cons; cbn [join_with app].
  - by intros ->.
  - intros ->. exfalso. apply List.Forall_app in Hx as [_ Hx]. inversion Hx; subst; congruence.
  - intros <-. exfalso. apply List.Forall_app in Hy as [_ Hy]. inversion Hy; subst; congruence.
  - intros E. pose proof (f_equal (cut sep) E) as Ec. rewrite !cut_app in Ec by done. injection Ec as -> Ej.
    f_equal. by apply IH.
Qed.

(** Joining texts without the separator is injective. *)
Lemma Join_inj a b sep : Forall (λ p, no_sep sep (s2b p)) a → Forall (λ p, no_sep sep (s2b p)) b →
  a ≠ [] → b ≠ [] → Join a sep = Join b sep → a = b.
Proof.
  intros Ha Hb Hna Hnb E%b2s_inj. apply join_with_inj in E; [|by apply List.Forall_map..|by destruct a|by destruct b].
  apply (f_equal (map b2s)) in E. rewrite !map_map, !(map_ext (λ x, b2s (s2b x)) (λ x, x)), !map_id in E by apply b2s_s2b. done.
Qed.

(** Exhaustive checking of a boolean property of a byte, or of a small number. *)
Lemma byte_forall (f : Byte.byte → bool) :
  forallb (λ n, f (n2b (N.of_nat n))) (seq 0 256) = true → ∀ b, f b = true.
Proof.
  rewrite forallb_forall. intros H b.
  rewrite <- (n2b_b2n b), <- (N2Nat.id (b2n b)). apply H.
  apply in_seq. pose proof (b2n_lt b). lia.
Qed.

Lemma N_forall_lt (k : nat) (f : N → bool) :
  forallb (λ n, f (N.of_nat n)) (seq 0 k) = true → ∀ n, (n < N.of_nat k)%N → f n = true.
Proof.
  rewrite forallb_forall. intros H n Hn.
  rewrite <- (N2Nat.id n). apply H. apply in_seq. lia.
Qed.

(** ** Sums over a finite map: the work that concurrent calls have left *)
Definition total {A} (f : A → nat) (m : gmap nat A) : nat := sum_list_with (λ x, f (snd x)) (map_to_list m).

Lemma total_insert {A} (f : A → nat) m t p : m !! t = None → total f (<[t := p]> m) = f p + total f m.
Proof. intros Hn. unfold total. by rewrite map_to_list_insert. Qed.

Lemma total_update {A} (f : A → nat) m t p0 p : m !! t = Some p0 → total f (<[t := p]> m) + f p0 = total f m + f p.
Proof.
  intros Hs. rewrite <- (insert_delete_eq m), total_insert by apply lookup_delete_eq.
  rewrite <- (insert_delete_id m t p0 Hs) at 2. rewrite total_insert by apply lookup_delete_eq. lia.
Qed.

Lemma total_pos {A} (f : A → nat) m t p : m !! t = Some p → f p ≤ total f m.
Proof.
  intros Hs. rewrite <- (insert_delete_id m t p Hs), total_insert by apply lookup_delete_eq. lia.
Qed.

(** ** Automation *)
Create HintDb gose discriminated.
Create Rewrite HintDb gose.
#[export] Hint Rewrite s2b_b2s b2s_s2b n2b_b2n b2n_n2b be_to_N_bytes
  be_fixed_length s2b_length byte_eqb_refl : gose.
#[export] Hint Resolve b2n_lt be_to_N_bound : gose.

Ltac gose_simpl := autorewrite with gose in *; simpl in *.
