(* ===== verification/Errors.v ===== *)
(** Error values.

    [Jose.t] are the sentinel errors of [jose/types.go], [Gose.t] those of
    [errors.go] (and [ErrJwksStale] of [jwks_truststore.go]).  The two packages
    declare some errors under the same name; they are different values, so each
    package has its own type.  [std_error] are the errors the Go standard
    library returns to this code, one constructor per origin: their text is not
    modelled.  [EWrap] is [fmt.Errorf("...: %w", err)]. *)

From S2P Require Import Prelude.

Module Jose.
Inductive t :=
  | ErrJSONFormat
  | ErrBlobEmpty
  | ErrUnsupportedKeyType
  | ErrUnexpectedKeyType
  | ErrJwtFormat
  | ErrDuplicateKeyOps
  | ErrJwkInconsistentCertificateFields
  | ErrJwkCertificateKeyMismatch
  | ErrJwkInvalidFingerprintfomat
  | ErrJwkReservedClaimName
  | ErrJweFormat
  | ErrInvalidAlgorithm
  | ErrInvalidEncryption
  | ErrTooManyKeyOps
  | ErrCritHeaderNotSupported
  | ErrInputTooLarge.
#[global] Instance t_eq_dec : EqDecision t.
Proof. solve_decision. Defined.
End Jose.

Module Gose.
Inductive t :=
  | ErrInvalidKey
  | ErrInvalidKeyType
  | ErrUnsupportedKeyType
  | ErrInvalidSigningKeyURL
  | ErrInvalidOperations
  | ErrInvalidCertificateHeader
  | ErrUnknownKey
  | ErrInvalidSignature
  | ErrInconsistentKeyValues
  | ErrInvalidKeyLength
  | ErrHashUnavailable
  | ErrInvalidExponentEncoding
  | ErrInvalidExponent
  | ErrInvalidModulusEncoding
  | ErrInvalidXEncoding
  | ErrInvalidYEncoding
  | ErrInvalidNonce
  | ErrInvalidAuthenticationTag
  | ErrSealFailed
  | ErrInvalidJwsCompactEncoding
  | ErrInvalidJwsBase64HeaderEncoding
  | ErrInvalidJwsHeaderEncoding
  | ErrInvalidJwsBase64BodyEncoding
  | ErrInvalidJwsBase64SignatureEncoding
  | ErrInvalidJwkEncoding
  | ErrInvalidJwtEncoding
  | ErrInvalidJwtTimeframe
  | ErrInvalidKid
  | ErrNoExpectedAudience
  | ErrInvalidDelegateEncoding
  | ErrInvalidManifestEncoding
  | ErrInvalidKeySize
  | ErrInvalidAlgorithm
  | ErrInvalidEncryption
  | ErrZipCompressionNotSupported
  | ErrInputTooLarge
  | ErrJwksStale.
#[global] Instance t_eq_dec : EqDecision t.
Proof. solve_decision. Defined.
End Gose.

(** Errors that come out of the Go standard library. *)
Inductive std_error :=
  | Base64Corrupt           (** [base64.CorruptInputError] *)
  | JsonSyntax              (** [*json.SyntaxError] *)
  | JsonType                (** [*json.UnmarshalTypeError] *)
  | X509Parse               (** [x509.ParseCertificate] *)
  | CryptoFailure           (** an error of a [crypto/...] primitive *)
  | RandFailure             (** an error of the random source *)
  | NetFailure              (** an error of [net/http] or of the file system *)
  | HsmFailure.             (** an error of the PKCS#11 binding *)
#[export] Instance std_error_eq_dec : EqDecision std_error.
Proof. solve_decision. Defined.

Inductive error :=
  | EJose (e : Jose.t)
  | EGose (e : Gose.t)
  | EStd (e : std_error)
  | EInvalidFormat (what : string)      (** [&InvalidFormat{what}] built at run time *)
  | EText (what : string)               (** [errors.New]/[fmt.Errorf] without [%w] *)
  | EWrap (what : string) (e : error).  (** [fmt.Errorf("what: %w", e)] *)
#[export] Instance error_eq_dec : EqDecision error.
Proof. intros x y. unfold Decision. decide equality; apply (decide (_ = _)). Defined.

(** [errors.Is]: compare, then unwrap. *)
Fixpoint errors_Is (err target : error) : bool :=
  bool_decide (err = target) ||
  match err with EWrap _ e => errors_Is e target | _ => false end.

Abbreviation result := (res error).

(** Shorthands for failing with a sentinel of either package. *)
Definition jose_err {A} (e : Jose.t) : result A := Err (EJose e).
Definition gose_err {A} (e : Gose.t) : result A := Err (EGose e).
Definition std_err {A} (e : std_error) : result A := Err (EStd e).

Lemma errors_Is_refl e : errors_Is e e = true.
Proof. destruct e; simpl; by rewrite bool_decide_true. Qed.
Lemma errors_Is_wrap w e target : errors_Is e target = true → errors_Is (EWrap w e) target = true.
Proof. intros H. simpl. rewrite H. by rewrite orb_true_r. Qed.
#[export] Hint Resolve errors_Is_refl errors_Is_wrap : gose.

(** [wrap_err what m]: [if err != nil { return fmt.Errorf("what: %w", err) }]. *)
Definition wrap_err {A} (what : string) (m : result A) : result A :=
  match m with Err e => Err (EWrap what e) | m => m end.

Lemma wrap_err_Ok {A} w (m : result A) a : wrap_err w m = Ok a ↔ m = Ok a.
Proof. by destruct m. Qed.

(** [inv_res] through the shorthands above. *)
Ltac inv_err := unfold jose_err, gose_err, std_err in *; inv_res.
