(* ===== verification/Base64.v ===== *)
(** [encoding/base64] as the source uses it.

    Two encodings occur: [base64.RawURLEncoding] (URL alphabet, no padding) for
    every compact segment and JWK member, and [base64.StdEncoding] (standard
    alphabet, padded) for certificates.  Decoding is the library's: CR and LF are
    skipped anywhere, the trailing bits of the last quantum are ignored. *)

From S2P Require Import Prelude Errors.
Local Open Scope N_scope.

(** ** Alphabets *)
Inductive encoding := RawURLEncoding | StdEncoding.
#[export] Instance encoding_eq_dec : EqDecision encoding.
Proof. solve_decision. Defined.

Definition enc_char (e : encoding) (v : N) : Byte.byte :=
  if v <? 26 then n2b (v + 65)
  else if v <? 52 then n2b (v + 71)
  else if v <? 62 then n2b (v - 4)
  else if v =? 62 then (match e with RawURLEncoding => "-" | StdEncoding => "+" end)%byte
  else (match e with RawURLEncoding => "_" | StdEncoding => "/" end)%byte.

Definition dec_char (e : encoding) (c : Byte.byte) : option N :=
  let n := b2n c in
  if (65 <=? n) && (n <=? 90) then Some (n - 65)
  else if (97 <=? n) && (n <=? 122) then Some (n - 71)
  else if (48 <=? n) && (n <=? 57) then Some (n + 4)
  else match e with
       | RawURLEncoding => if c =b "-" then Some 62 else if c =b "_" then Some 63 else None
       | StdEncoding => if c =b "+" then Some 62 else if c =b "/" then Some 63 else None
       end.

Definition pad : Byte.byte := "="%byte.
Definition is_newline (c : Byte.byte) : bool := (c =b x0a) || (c =b x0d).

(** ** Sizes *)
Definition DecodedLen (e : encoding) (n : N) : N :=
  match e with
  | RawURLEncoding => n / 4 * 3 + n mod 4 * 6 / 8
  | StdEncoding => n / 4 * 3
  end.

Definition EncodedLen (e : encoding) (n : N) : N :=
  match e with
  | RawURLEncoding => n / 3 * 4 + (n mod 3 * 8 + 5) / 6
  | StdEncoding => (n + 2) / 3 * 4
  end.

(** ** Encoding *)
Section encode.
  Variable e : encoding.
Let C := enc_char e.

Definition enc3 (a b c : Byte.byte) : bytes :=
    let v := b2n a * 65536 + b2n b * 256 + b2n c in
    [C (v / 262144); C (v / 4096 mod 64); C (v / 64 mod 64); C (v mod 64)].

Definition enc2 (a b : Byte.byte) : bytes :=
    let v := b2n a * 256 + b2n b in
    [C (v / 1024); C (v / 16 mod 64); C (v mod 16 * 4)] ++
    match e with RawURLEncoding => [] | StdEncoding => [pad] end.

Definition enc1 (a : Byte.byte) : bytes :=
    let v := b2n a in
    [C (v / 4); C (v mod 4 * 16)] ++
    match e with RawURLEncoding => [] | StdEncoding => [pad; pad] end.

Fixpoint b64_encode (src : bytes) : bytes :=
    match src with
    | [] => []
    | [a] => enc1 a
    | [a; b] => enc2 a b
    | a :: b :: c :: rest => enc3 a b c ++ b64_encode rest
    end.
End encode.

(** ** Decoding *)

(** The bytes of a full quantum of four sextets, and of a last quantum of three
    or two.  The low bits a short quantum leaves over are dropped. *)
Definition dec4 (a b c d : N) : bytes :=
  let v := a * 262144 + b * 4096 + c * 64 + d in
  [n2b (v / 65536); n2b (v / 256); n2b v].
Definition dec3 (a b c : N) : bytes :=
  let v := a * 1024 + b * 16 + c / 4 in [n2b (v / 256); n2b v].
Definition dec2 (a b : N) : bytes := [n2b (a * 4 + b / 16)].
#[global] Arguments dec4 : simpl never.
#[global] Arguments dec3 : simpl never.
#[global] Arguments dec2 : simpl never.

(** Decoding of a text without CR and LF, quantum by quantum. *)
Fixpoint decode_quanta (e : encoding) (src : bytes) : option bytes :=
  match src with
  | [] => Some []
  | [_] => None
  | a :: b :: rest =>
    match dec_char e a, dec_char e b with
    | Some a, Some b =>
      match rest with
      | [] => match e with RawURLEncoding => Some (dec2 a b) | StdEncoding => None end
      | c :: rest =>
        match dec_char e c with
        | None =>
          (* not in the alphabet: padding is the only thing it may be *)
          match e, rest with
          | StdEncoding, [d] => if (c =b "=") && (d =b "=") then Some (dec2 a b) else None
          | _, _ => None
          end
        | Some c =>
          match rest with
          | [] => match e with RawURLEncoding => Some (dec3 a b c) | StdEncoding => None end
          | d :: rest =>
            match dec_char e d with
            | Some d => app (dec4 a b c d) <$> decode_quanta e rest
            | None =>
              match e, rest with
              | StdEncoding, [] => if d =b "=" then Some (dec3 a b c) else None
              | _, _ => None
              end
            end
          end
        end
      end
    | _, _ => None
    end
  end.

Definition b64_decode (e : encoding) (src : bytes) : option bytes :=
  decode_quanta e (filter (λ c, is_newline c = false) src).

(** [Encoding.EncodeToString] and [Encoding.DecodeString]. *)
Definition EncodeToString (e : encoding) (src : bytes) : string := b2s (b64_encode e src).
Definition DecodeString (e : encoding) (s : string) : result bytes :=
  from_option_err (EStd Base64Corrupt) (b64_decode e (s2b s)).

(** ** The alphabets are inverse to each other *)
Lemma dec_enc_char e v : v < 64 → dec_char e (enc_char e v) = Some v.
Proof.
  intros Hv. apply (proj1 (bool_decide_eq_true _)).
  revert v Hv. change 64 with (N.of_nat 64). apply N_forall_lt.
  by destruct e; vm_compute.
Qed.

Lemma enc_dec_char e c v : dec_char e c = Some v → enc_char e v = c ∧ v < 64.
Proof.
  enough (match dec_char e c with
          | Some v => Byte.eqb (enc_char e v) c && (v <? 64) | None => true end = true) as H.
  { intros Hv. rewrite Hv in H. apply andb_prop in H as [H1 H2].
    split; [by apply Byte.byte_dec_bl|by apply N.ltb_lt]. }
  revert c. apply byte_forall. by destruct e; vm_compute.
Qed.

(** The characters of the raw URL alphabet: none is a separator of a compact
    serialisation, a quote or a line break. *)
Definition is_b64url (c : Byte.byte) : bool := bool_decide (is_Some (dec_char RawURLEncoding c)).

Lemma is_b64url_enc v : v < 64 → is_b64url (enc_char RawURLEncoding v) = true.
Proof. intros Hv. apply (proj2 (bool_decide_eq_true _)). rewrite dec_enc_char by done. eauto. Qed.

Lemma is_b64url_plain c :
  is_b64url c = true → c ≠ "."%byte ∧ c ≠ x22 ∧ c ≠ x5c ∧ is_newline c = false ∧ 32 ≤ b2n c < 128.
Proof.
  intros H. apply (bool_decide_unpack _).
  enough (negb (is_b64url c) || bool_decide (c ≠ "."%byte ∧ c ≠ x22 ∧ c ≠ x5c ∧ is_newline c = false ∧ 32 ≤ b2n c < 128) = true) as Hc.
  { rewrite H in Hc. simpl in Hc. by rewrite Hc. }
  clear H. revert c. apply byte_forall. by vm_compute.
Qed.

(** ** Quanta: splitting bytes into sextets and back *)
Ltac byte_bounds :=
  repeat match goal with
  | b : Byte.byte |- _ =>
      lazymatch goal with
      | _ : b2n b < 256 |- _ => fail
      | _ => pose proof (b2n_lt b)
      end
  end.

Lemma sextets_3 v : v < 16777216 →
  v / 262144 * 262144 + v / 4096 mod 64 * 4096 + v / 64 mod 64 * 64 + v mod 64 = v.
Proof.
  intros _. change 262144 with (64 * 64 * 64). change 4096 with (64 * 64).
  rewrite <- !N.Div0.div_div.
  pose proof (N.div_mod v 64 ltac:(lia)).
  pose proof (N.div_mod (v / 64) 64 ltac:(lia)).
  pose proof (N.div_mod (v / 64 / 64) 64 ltac:(lia)). lia.
Qed.
Lemma sextets_2 v : v < 65536 →
  v / 1024 * 1024 + v / 16 mod 64 * 16 + v mod 16 * 4 / 4 = v.
Proof. lia. Qed.
Lemma sextets_1 v : v < 256 → v / 4 * 4 + v mod 4 * 16 / 16 = v.
Proof. lia. Qed.

Lemma n2b_eq n b : n mod 256 = b2n b → n2b n = b.
Proof. intros H. apply b2n_inj. by rewrite b2n_n2b. Qed.

Lemma dec4_bytes a b c :
  let v := b2n a * 65536 + b2n b * 256 + b2n c in
  dec4 (v / 262144) (v / 4096 mod 64) (v / 64 mod 64) (v mod 64) = [a; b; c].
Proof.
  intros v. byte_bounds. unfold dec4. rewrite sextets_3 by (subst v; lia).
  repeat f_equal; apply n2b_eq; subst v; lia.
Qed.

Lemma dec3_bytes a b :
  let v := b2n a * 256 + b2n b in
  dec3 (v / 1024) (v / 16 mod 64) (v mod 16 * 4) = [a; b].
Proof.
  intros v. byte_bounds. unfold dec3. rewrite sextets_2 by (subst v; lia).
  repeat f_equal; apply n2b_eq; subst v; lia.
Qed.

Lemma dec2_bytes a : dec2 (b2n a / 4) (b2n a mod 4 * 16) = [a].
Proof.
  byte_bounds. unfold dec2. rewrite sextets_1 by lia. by rewrite n2b_b2n.
Qed.

(** Induction three bytes (four characters) at a time. *)
Lemma list_ind3 {A} (P : list A → Prop) :
  P [] → (∀ a, P [a]) → (∀ a b, P [a; b]) →
  (∀ a b c l, P l → P (a :: b :: c :: l)) → ∀ l, P l.
Proof.
  intros H0 H1 H2 H3. fix IH 1. intros [|a [|b [|c l]]]; [apply H0|apply H1|apply H2|apply H3, IH].
Qed.

Lemma list_ind4 {A} (P : list A → Prop) :
  P [] → (∀ a, P [a]) → (∀ a b, P [a; b]) → (∀ a b c, P [a; b; c]) →
  (∀ a b c d l, P l → P (a :: b :: c :: d :: l)) → ∀ l, P l.
Proof.
  intros H0 H1 H2 H3 H4. fix IH 1. intros [|a [|b [|c [|d l]]]]; [apply H0|apply H1|apply H2|apply H3|apply H4, IH].
Qed.

Lemma decode_quanta_encode e src : decode_quanta e (b64_encode e src) = Some src.
Proof.
  induction src as [|a|a b|a b c l IH] using list_ind3; [done|..]; byte_bounds.
  - cbn [b64_encode]. unfold enc1. destruct e; cbn;
      rewrite !dec_enc_char by lia; by rewrite dec2_bytes.
  - cbn [b64_encode]. unfold enc2. destruct e; cbn;
      rewrite !dec_enc_char by lia; by rewrite dec3_bytes.
  - cbn [b64_encode]. unfold enc3. cbn. rewrite !dec_enc_char by lia.
    by rewrite dec4_bytes, IH.
Qed.

Lemma enc_char_not_newline e v : v < 64 → is_newline (enc_char e v) = false.
Proof.
  intros Hv. apply negb_true_iff. revert v Hv. change 64 with (N.of_nat 64).
  apply (N_forall_lt _ (λ v, negb (is_newline (enc_char e v)))). by destruct e; vm_compute.
Qed.

Lemma encode_no_newline e src :
  Forall (λ c, is_newline c = false) (b64_encode e src).
Proof.
  induction src as [|a|a b|a b c l IH] using list_ind3; [constructor|..]; byte_bounds;
    cbn [b64_encode].
  - unfold enc1. destruct e; cbn; repeat constructor; try apply enc_char_not_newline; lia.
  - unfold enc2. destruct e; cbn; repeat constructor; try apply enc_char_not_newline; lia.
  - unfold enc3. cbn. repeat constructor; try apply enc_char_not_newline; [lia..|done].
Qed.

Lemma filter_no_newline l :
  Forall (λ c, is_newline c = false) l → filter (λ c, is_newline c = false) l = l.
Proof.
  induction 1 as [|c l Hc _ IH]; [done|]. by rewrite filter_cons_True, IH.
Qed.

(** Decoding undoes encoding, for both encodings. *)
Lemma b64_decode_encode e src : b64_decode e (b64_encode e src) = Some src.
Proof.
  unfold b64_decode. rewrite filter_no_newline by apply encode_no_newline.
  apply decode_quanta_encode.
Qed.

Lemma DecodeString_EncodeToString e src : DecodeString e (EncodeToString e src) = Ok src.
Proof.
  unfold DecodeString, EncodeToString. by rewrite s2b_b2s, b64_decode_encode.
Qed.

(** ** Strict decoding

    Whatever decodes is, up to its line breaks and the trailing bits of its last
    quantum, the encoding of what it decodes to. *)

Lemma dec4_sextets e a b c d :
  a < 64 → b < 64 → c < 64 → d < 64 →
  ∃ x y z, dec4 a b c d = [x; y; z] ∧
    enc3 e x y z = [enc_char e a; enc_char e b; enc_char e c; enc_char e d].
Proof.
  intros. unfold dec4.
  set (v := a * 262144 + b * 4096 + c * 64 + d). do 3 eexists; split; [done|].
  unfold enc3. rewrite !b2n_n2b.
  replace ((v / 65536) mod 256 * 65536 + (v / 256) mod 256 * 256 + v mod 256) with v by (subst v; lia).
  repeat f_equal; subst v; lia.
Qed.

(** The decoded length is determined by the number of characters, and every
    character counts once line breaks are gone. *)
Lemma DecodedLen_add4 n : DecodedLen RawURLEncoding (n + 4) = DecodedLen RawURLEncoding n + 3.
Proof. unfold DecodedLen. lia. Qed.

Lemma len_cons {A} (x : A) l : len (x :: l) = len l + 1.
Proof. unfold len. simpl. lia. Qed.

Lemma decode_quanta_length src dst :
  decode_quanta RawURLEncoding src = Some dst → len dst = DecodedLen RawURLEncoding (len src).
Proof.
  revert dst. induction src as [|a|a b|a b c|a b c d l IH] using list_ind4;
    intros dst H; cbn -[len DecodedLen] in H; simplify_eq; try done;
    repeat case_match; simplify_eq; try done.
  apply fmap_Some in H as (r & Hr & ->).
  rewrite !len_cons. replace (len l + 1 + 1 + 1 + 1) with (len l + 4) by lia.
  rewrite DecodedLen_add4, <- (IH r) by done. unfold len.
  rewrite length_app. unfold dec4. simpl. lia.
Qed.

Lemma b64_encode_length_raw src :
  len (b64_encode RawURLEncoding src) = EncodedLen RawURLEncoding (len src).
Proof.
  induction src as [|a|a b|a b c l IH] using list_ind3; [done..|].
  cbn [b64_encode]. unfold enc3. rewrite !len_cons. simpl app. rewrite !len_cons, IH.
  unfold EncodedLen. lia.
Qed.

Lemma b64_encode_length_std src :
  len (b64_encode StdEncoding src) = EncodedLen StdEncoding (len src).
Proof.
  induction src as [|a|a b|a b c l IH] using list_ind3; [done..|].
  cbn [b64_encode]. unfold enc3. rewrite !len_cons. simpl app. rewrite !len_cons, IH.
  unfold EncodedLen. lia.
Qed.

Lemma b64_encode_length e src : len (b64_encode e src) = EncodedLen e (len src).
Proof. destruct e; [apply b64_encode_length_raw|apply b64_encode_length_std]. Qed.

Lemma EncodedLen_le e m n : (m <= n)%N → (EncodedLen e m <= EncodedLen e n)%N.
Proof.
  destruct e; unfold EncodedLen; intros H; [|lia].
  assert (∀ k, k / 3 * 4 + (k mod 3 * 8 + 5) / 6 = (k * 4 + 2) / 3)%N as E by lia. rewrite !E. lia.
Qed.
Lemma slen_EncodeToString e src : slen (EncodeToString e src) = EncodedLen e (len src).
Proof. unfold EncodeToString. by rewrite slen_len, s2b_b2s, b64_encode_length. Qed.

Lemma DecodedLen_EncodedLen_raw n : DecodedLen RawURLEncoding (EncodedLen RawURLEncoding n) = n.
Proof. unfold DecodedLen, EncodedLen. lia. Qed.

Lemma b64_encode_url src : Forall (λ c, is_b64url c = true) (b64_encode RawURLEncoding src).
Proof.
  induction src as [|a|a b|a b c l IH] using list_ind3; [constructor|..]; byte_bounds;
    cbn [b64_encode].
  - unfold enc1. cbn. repeat constructor; try apply is_b64url_enc; lia.
  - unfold enc2. cbn. repeat constructor; try apply is_b64url_enc; lia.
  - unfold enc3. cbn. repeat constructor; try apply is_b64url_enc; [lia..|done].
Qed.

Lemma b64_encode_nil e src : b64_encode e src = [] ↔ src = [].
Proof.
  split; [|by intros ->]. intros H.
  pose proof (b64_decode_encode e src) as Hd. rewrite H in Hd. by injection Hd.
Qed.

Lemma b64_encode_inj e s1 s2 : b64_encode e s1 = b64_encode e s2 → s1 = s2.
Proof.
  intros H. pose proof (b64_decode_encode e s1) as H1. rewrite H, b64_decode_encode in H1. congruence.
Qed.

#[export] Hint Rewrite b64_decode_encode DecodeString_EncodeToString : gose.
