(* ===== verification/JsonFacts.v ===== *)
(** Facts about the JSON text level: quoting and unquoting are inverse on valid
    UTF-8, and parsing undoes printing. *)

From S2P Require Import Prelude Errors Json.
Local Open Scope N_scope.

#[local] Arguments b2n : simpl never.

(** Strong induction on the length of a list. *)
Lemma list_len_ind {A} (P : list A → Prop) :
  (∀ l, (∀ l', (length l' < length l)%nat → P l') → P l) → ∀ l, P l.
Proof.
  intros H l. remember (length l) as n eqn:Hn. revert l Hn.
  induction n as [n IH] using lt_wf_ind. intros l ->. apply H. intros l' Hl'. by eapply IH.
Qed.

(** ** Quoting *)

(** The width of a rune is decided by the bytes it covers. *)
Lemma utf8_width_2 c c1 r r' : utf8_width c (c1 :: r) = 2%nat → utf8_width c (c1 :: r') = 2%nat.
Proof.
  unfold utf8_width. destruct (b2n c <? 0x80); [done|].
  destruct ((0xC2 <=? b2n c) && (b2n c <=? 0xDF) && is_cont c1); [done|].
  intros H. exfalso. repeat case_match; discriminate.
Qed.

Lemma utf8_width_3 c c1 c2 r r' :
  utf8_width c (c1 :: c2 :: r) = 3%nat → utf8_width c (c1 :: c2 :: r') = 3%nat.
Proof.
  unfold utf8_width. destruct (b2n c <? 0x80); [done|].
  destruct ((0xC2 <=? b2n c) && (b2n c <=? 0xDF) && is_cont c1); [done|].
  destruct (second_of_3 (b2n c) c1 && is_cont c2); [done|].
  intros H. exfalso. repeat case_match; discriminate.
Qed.

Lemma utf8_width_4 c c1 c2 c3 r r' :
  utf8_width c (c1 :: c2 :: c3 :: r) = 4%nat → utf8_width c (c1 :: c2 :: c3 :: r') = 4%nat.
Proof.
  unfold utf8_width. destruct (b2n c <? 0x80); [done|].
  destruct ((0xC2 <=? b2n c) && (b2n c <=? 0xDF) && is_cont c1); [done|].
  destruct (second_of_3 (b2n c) c1 && is_cont c2); [done|].
  destruct (second_of_4 (b2n c) c1 && is_cont c2 && is_cont c3); done.
Qed.

Lemma utf8_width_1 c r : utf8_width c r = 1%nat → b2n c < 128.
Proof.
  unfold utf8_width. destruct (N.ltb_spec (b2n c) 0x80); [done|].
  intros H'. exfalso. repeat case_match; discriminate.
Qed.

Lemma utf8_width_gt1 c r : utf8_width c r ≠ 1%nat → 128 ≤ b2n c.
Proof. unfold utf8_width. destruct (N.ltb_spec (b2n c) 0x80); done. Qed.

Lemma high_not_special c : 128 ≤ b2n c →
  (c =b x5c) = false ∧ (c =b x22) = false ∧ (b2n c <? 32) = false.
Proof.
  intros H.
  assert (∀ x, b2n x < 128 → (c =b x) = false) as Hne.
  { intros x Hx. destruct (byte_eqb_spec c x) as [->|]; [lia|done]. }
  rewrite !Hne by (by vm_compute). split_and!; [done..|]. by apply N.ltb_ge; lia.
Qed.

(** A case of the walk over a string: an ASCII byte, a well-formed sequence of
    two, three or four bytes, or a byte that starts none. *)
Inductive rune_view (c : Byte.byte) (r : bytes) : nat → Prop :=
  | RV1 : b2n c < 128 → rune_view c r 1
  | RV2 c1 r1 : r = c1 :: r1 → 128 ≤ b2n c → 128 ≤ b2n c1 → rune_view c r 2
  | RV3 c1 c2 r2 : r = c1 :: c2 :: r2 → 128 ≤ b2n c → 128 ≤ b2n c1 → 128 ≤ b2n c2 → rune_view c r 3
  | RV4 c1 c2 c3 r3 : r = c1 :: c2 :: c3 :: r3 →
      128 ≤ b2n c → 128 ≤ b2n c1 → 128 ≤ b2n c2 → 128 ≤ b2n c3 → rune_view c r 4
  | RV0 : 128 ≤ b2n c → rune_view c r 0.

Lemma is_cont_high c : is_cont c = true → 128 ≤ b2n c.
Proof. unfold is_cont, in_range. intros H. lia. Qed.
Lemma second_of_3_high n c : second_of_3 n c = true → 128 ≤ b2n c.
Proof. unfold second_of_3, is_cont, in_range. repeat case_match; lia. Qed.
Lemma second_of_4_high n c : second_of_4 n c = true → 128 ≤ b2n c.
Proof. unfold second_of_4, is_cont, in_range. repeat case_match; lia. Qed.
#[local] Hint Resolve is_cont_high second_of_3_high second_of_4_high : core.

Lemma rune_viewP c r : rune_view c r (utf8_width c r).
Proof.
  unfold utf8_width. destruct (N.ltb_spec (b2n c) 0x80); [by constructor|].
  destruct r as [|c1 r1]; [by constructor|].
  destruct (_ && is_cont c1) eqn:H1.
  { apply andb_prop in H1 as [_ H1]. eapply RV2; eauto. }
  destruct r1 as [|c2 r2]; [by constructor|].
  destruct (second_of_3 _ _ && _) eqn:H2.
  { apply andb_prop in H2 as [??]. eapply RV3; eauto. }
  destruct r2 as [|c3 r3]; [by constructor|].
  destruct (second_of_4 _ _ && _ && _) eqn:H3.
  { apply andb_prop in H3 as [H3 ?]. apply andb_prop in H3 as [??]. eapply RV4; eauto. }
  by constructor.
Qed.

(** What [unquote] does on each piece [quote] emits. *)
Lemma unquote_high c r : 128 ≤ b2n c →
  unquote (c :: r) =
    match utf8_width c r, r with
    | 1%nat, _ => c :: unquote r
    | 2%nat, c1 :: r1 => c :: c1 :: unquote r1
    | 3%nat, c1 :: c2 :: r2 => c :: c1 :: c2 :: unquote r2
    | 4%nat, c1 :: c2 :: c3 :: r3 => c :: c1 :: c2 :: c3 :: unquote r3
    | _, _ => rune_error ++ unquote r
    end.
Proof. intros H. cbn [unquote]. by destruct (high_not_special c H) as (-> & _ & _). Qed.

Lemma unquote_ascii c r : b2n c < 128 → unquote (quote_ascii c ++ r) = c :: unquote r.
Proof. intros H. destruct c; first [by vm_compute in H|reflexivity]. Qed.

Lemma unquote_line_sep c c1 c2 r : is_line_sep c c1 c2 = true →
  unquote ([bs; "u"; "2"; "0"; "2"; hex_digit (b2n c2 mod 16)]%byte ++ r) = c :: c1 :: c2 :: unquote r.
Proof.
  unfold is_line_sep. intros H.
  apply andb_prop in H as [H H2]. apply andb_prop in H as [H0 H1].
  apply Byte.byte_dec_bl in H0 as ->. apply Byte.byte_dec_bl in H1 as ->.
  apply orb_prop in H2 as [H2|H2]; apply Byte.byte_dec_bl in H2 as ->; reflexivity.
Qed.

(** Reading back what [json.Marshal] wrote for a valid string yields the string. *)
Lemma unquote_quote s : valid_utf8 s = true → unquote (quote s) = s.
Proof.
  induction s as [s IH] using list_len_ind. destruct s as [|c r]; [done|].
  cbn [valid_utf8 quote].
  destruct (utf8_width c r) as [|[|[|[|[|n]]]]] eqn:Hw; intros Hv.
  - by destruct r.
  - rewrite unquote_ascii by (by eapply utf8_width_1).
    rewrite IH; [done|simpl; lia|by destruct r].
  - pose proof (rune_viewP c r) as V. rewrite Hw in V. inversion V as [|c1 r1 Hr| | |]; subst.
    rewrite unquote_high by done.
    rewrite (utf8_width_2 _ _ _ (quote r1) Hw), IH; simpl; [done|lia|done].
  - pose proof (rune_viewP c r) as V. rewrite Hw in V. inversion V as [| |c1 c2 r2 Hr| |]; subst.
    destruct (is_line_sep c c1 c2) eqn:Hs.
    + rewrite (unquote_line_sep c c1 c2) by done. rewrite IH; simpl; [done|lia|done].
    + simpl app. rewrite unquote_high by done.
      rewrite (utf8_width_3 _ _ _ _ (quote r2) Hw), IH; simpl; [done|lia|done].
  - pose proof (rune_viewP c r) as V. rewrite Hw in V. inversion V as [| | |c1 c2 c3 r3 Hr|]; subst.
    rewrite unquote_high by done.
    rewrite (utf8_width_4 _ _ _ _ _ (quote r3) Hw), IH; simpl; [done|lia|done].
  - by destruct r as [|? [|? [|? ?]]].
Qed.

(** ** The scanner accepts what [quote] emits *)
Lemma raw_ok_high c r : 128 ≤ b2n c → raw_ok (c :: r) = raw_ok r.
Proof.
  intros H. cbn [raw_ok]. by destruct (high_not_special c H) as (-> & -> & ->).
Qed.

Lemma raw_ok_ascii c r : b2n c < 128 → raw_ok (quote_ascii c ++ r) = raw_ok r.
Proof. intros H. destruct c; first [by vm_compute in H|reflexivity]. Qed.

Lemma raw_ok_line_sep c c1 c2 r : is_line_sep c c1 c2 = true →
  raw_ok ([bs; "u"; "2"; "0"; "2"; hex_digit (b2n c2 mod 16)]%byte ++ r) = raw_ok r.
Proof.
  unfold is_line_sep. intros H. apply andb_prop in H as [_ H2].
  apply orb_prop in H2 as [H2|H2]; apply Byte.byte_dec_bl in H2 as ->; reflexivity.
Qed.

Lemma raw_ok_quote s : raw_ok (quote s) = true.
Proof.
  induction s as [s IH] using list_len_ind. destruct s as [|c r]; [done|].
  cbn [quote].
  destruct (rune_viewP c r) as [|c1 r1 ->|c1 c2 r2 ->|c1 c2 c3 r3 ->|].
  - rewrite raw_ok_ascii by done. by destruct r; apply IH; simpl; lia.
  - rewrite !raw_ok_high by done. apply IH; simpl; lia.
  - destruct (is_line_sep c c1 c2) eqn:Hs.
    + rewrite (raw_ok_line_sep c c1 c2) by done. apply IH; simpl; lia.
    + simpl app. rewrite !raw_ok_high by done. apply IH; simpl; lia.
  - rewrite !raw_ok_high by done. apply IH; simpl; lia.
  - change (raw_ok (quote r) = true). apply IH; simpl; lia.
Qed.

(** A byte takes at most six. *)
Lemma quote_length s : (length (quote s) <= 6 * length s)%nat.
Proof.
  induction s as [s IH] using list_len_ind.
  destruct s as [|c r]; [done|]. cbn [quote].
  assert (∀ c, (length (quote_ascii c) <= 6)%nat) as Hq by (intros x; unfold quote_ascii; repeat case_match; cbn; lia).
  assert (length (quote r) <= 6 * length r)%nat as Hr by (apply IH; cbn; lia).
  destruct (utf8_width c r) as [|[|[|[|[|n]]]]]; [cbn; lia|rewrite length_app; specialize (Hq c); cbn; lia|..];
    destruct r as [|c1 [|c2 [|c3 r]]]; cbn [length] in *; rewrite ?length_app; cbn [length]; try lia;
    try (destruct (is_line_sep _ _ _); cbn [length]); 
    repeat match goal with |- context [quote ?l] => lazymatch goal with Hl : (length (quote l) <= _)%nat |- _ => fail | _ => pose proof (IH l ltac:(cbn; lia)) end end; cbn [length] in *; lia.
Qed.

(** ** Scanning strings *)
Lemma scan_str_ok raw rest : raw_ok raw = true → scan_str (raw ++ dq :: rest) = Some (raw, rest).
Proof.
  induction raw as [raw IH] using list_len_ind. destruct raw as [|c r]; [done|].
  cbn [raw_ok scan_str app]. destruct (c =b x22); [done|].
  destruct (c =b x5c).
  - destruct r as [|e r1]; [done|]. cbn [app].
    destruct (simple_escape e); [intros H; rewrite IH; simpl; [done|lia|done]|].
    destruct (e =b "u"); [|done].
    destruct r1 as [|h1 [|h2 [|h3 [|h4 r2]]]]; try done. cbn [app].
    destruct (hex4 h1 h2 h3 h4); [|done]. intros H. rewrite IH; simpl; [done|lia|done].
  - destruct (b2n c <? 32); [done|]. intros H. rewrite IH; simpl; [done|lia|done].
Qed.

Ltac inv_opt :=
  repeat match goal with
  | H : (_ ≫= _) = Some _ |- _ => apply bind_Some in H as (? & ? & H)
  | H : Some _ = Some _ |- _ => injection H as H; try subst
  | H : None = Some _ |- _ => discriminate H
  | H : (let '(_, _) := ?x in _) = _ |- _ => destruct x as [? ?]
  end.

Lemma scan_str_inv s raw k : scan_str s = Some (raw, k) → raw_ok raw = true ∧ s = raw ++ dq :: k.
Proof.
  revert raw k. induction s as [s IH] using list_len_ind. intros raw k.
  destruct s as [|c r]; [done|]. cbn [scan_str].
  destruct (byte_eqb_spec c x22) as [->|Hq]; [intros [= <- <-]; done|].
  destruct (c =b x5c) eqn:Hbs.
  - destruct r as [|e r1]; [done|].
    destruct (simple_escape e) eqn:He.
    { intros H. inv_opt. destruct (IH r1 ltac:(simpl; lia) _ _ H0) as [Hok ->].
      cbn [raw_ok]. rewrite Hbs, He. destruct (byte_eqb_spec c x22); done. }
    destruct (e =b "u") eqn:Hu; [|done].
    destruct r1 as [|h1 [|h2 [|h3 [|h4 r2]]]]; try done.
    destruct (hex4 h1 h2 h3 h4) eqn:Hh; [|done].
    intros H. inv_opt. destruct (IH r2 ltac:(simpl; lia) _ _ H0) as [Hok ->].
    cbn [raw_ok]. rewrite Hbs, He, Hu, Hh. destruct (byte_eqb_spec c x22); done.
  - destruct (b2n c <? 32) eqn:Hc; [done|].
    intros H. inv_opt. destruct (IH r ltac:(simpl; lia) _ _ H0) as [Hok ->].
    cbn [raw_ok]. rewrite Hbs, Hc. destruct (byte_eqb_spec c x22); done.
Qed.

Lemma scan_str_length s raw k : scan_str s = Some (raw, k) → (length k < length s)%nat.
Proof. intros [_ ->]%scan_str_inv. rewrite length_app. simpl. lia. Qed.

(** ** Scanning numbers *)

(** What may follow a value: nothing, or one of the structural characters. *)
Definition delim (s : bytes) : Prop :=
  match s with [] => True | c :: _ => c = ","%byte ∨ c = x5d ∨ c = x7d end.

Lemma delim_ws s : delim s → skip_ws s = s.
Proof. destruct s as [|c s]; [done|]. by intros [-> | [-> | ->]]. Qed.

Lemma span_digits_app s ds k : span_digits s = (ds, k) →
  (k ≠ [] → ∀ rest, span_digits (s ++ rest) = (ds, k ++ rest)) ∧
  (k = [] → ∀ rest, delim rest → span_digits (s ++ rest) = (ds, rest)).
Proof.
  revert ds k. induction s as [|c s IH]; intros ds k; cbn [span_digits app].
  - intros [= <- <-]. split; [done|]. intros _ rest Hd.
    destruct rest as [|c rest]; [done|]. by destruct Hd as [-> | [-> | ->]].
  - destruct (is_digit c) eqn:Hc.
    + destruct (span_digits s) as [ds' k'] eqn:Hs. intros [= <- <-].
      destruct (IH _ _ eq_refl) as [IH1 IH2].
      split; intros Hk rest; [|intros Hd].
      * rewrite IH1 by done. done.
      * rewrite IH2 by done. done.
    + intros [= <- <-]. split; [|done]. intros _ rest. done.
Qed.

Lemma span_digits_inv s ds k : span_digits s = (ds, k) → s = ds ++ k.
Proof.
  revert ds k. induction s as [|c s IH]; intros ds k; cbn [span_digits].
  - by intros [= <- <-].
  - destruct (is_digit c).
    + destruct (span_digits s) as [ds' k'] eqn:Hs. intros [= <- <-]. by rewrite (IH _ _ eq_refl).
    + by intros [= <- <-].
Qed.

Lemma span_sign_inv p s sg k : span_sign p s = (sg, k) → s = sg ++ k.
Proof. destruct s as [|c s]; cbn; [by intros [= <- <-]|]. case_match; by intros [= <- <-]. Qed.

Lemma scan_exp_app acc s l : scan_exp acc s = Some (l, []) →
  ∀ rest, delim rest → scan_exp acc (s ++ rest) = Some (l, rest).
Proof.
  destruct s as [|c s]; cbn.
  - intros [= <-] rest Hd. destruct rest as [|c rest]; [done|]. by destruct Hd as [-> | [-> | ->]].
  - destruct ((c =b "e") || (c =b "E")); [|done].
    destruct (span_sign true s) as [sg r1] eqn:Hsg.
    destruct (span_digits r1) as [ds r2] eqn:Hds.
    destruct ds as [|d ds]; [done|]. intros [= <- ->] rest Hd.
    assert (span_sign true (s ++ rest) = (sg, r1 ++ rest)) as ->.
    { destruct s as [|c' s]; cbn in *.
      - injection Hsg as <- <-. done.
      - destruct ((c' =b "-") || (c' =b "+")); by injection Hsg as <- <-. }
    by rewrite (proj2 (span_digits_app _ _ _ Hds)).
Qed.

Lemma scan_frac_app acc s l : scan_frac acc s = Some (l, []) →
  ∀ rest, delim rest → scan_frac acc (s ++ rest) = Some (l, rest).
Proof.
  destruct s as [|c s]; intros H rest Hd.
  - cbn in H. injection H as <-. destruct rest as [|c rest]; [done|].
    by destruct Hd as [-> | [-> | ->]].
  - unfold scan_frac in *. cbn [app]. destruct (c =b ".").
    + destruct (span_digits s) as [ds k] eqn:Hs. destruct ds as [|d ds]; [done|].
      destruct k as [|c' k].
      * rewrite (proj2 (span_digits_app _ _ _ Hs)) by done.
        cbn in H. injection H as <-. by apply (scan_exp_app _ [] _ eq_refl).
      * rewrite (proj1 (span_digits_app _ _ _ Hs)) by done. by apply scan_exp_app.
    + rewrite app_comm_cons. by apply scan_exp_app.
Qed.

Lemma scan_num_app lit rest : num_ok lit = true → delim rest →
  scan_num (lit ++ rest) = Some (lit, rest).
Proof.
  intros H Hd. unfold num_ok in H. apply bool_decide_eq_true in H. unfold scan_num in *.
  destruct (span_sign false lit) as [sg s1] eqn:Hsg.
  destruct s1 as [|c r]; [done|].
  assert (span_sign false (lit ++ rest) = (sg, c :: r ++ rest)) as ->.
  { destruct lit as [|c' s]; cbn in *; [done|].
    destruct ((c' =b "-") || false); injection Hsg as <- E; simplify_eq; done. }
  destruct (c =b "0"); [by apply scan_frac_app|].
  rewrite app_comm_cons.
  destruct (span_digits (c :: r)) as [ds k] eqn:Hs. destruct ds as [|d ds]; [done|].
  destruct k as [|c' k].
  - rewrite (proj2 (span_digits_app _ _ _ Hs)) by done. by apply (scan_frac_app _ []).
  - rewrite (proj1 (span_digits_app _ _ _ Hs)) by done. by apply scan_frac_app.
Qed.

(** ** Parsing what was printed *)

(** The fuel a tree needs. *)
Fixpoint json_size (t : json) : nat :=
  match t with
  | JArr l => S (fold_right (λ t n, S (json_size t + n))%nat O l)
  | JObj m => S (fold_right (λ kv n, S (json_size kv.2 + n))%nat O m)
  | _ => 1%nat
  end.

Definition num_start (c : Byte.byte) : bool := (c =b "-") || is_digit c.

Lemma num_start_tests c : num_start c = true →
  is_ws c = false ∧ (c =b x7b) = false ∧ (c =b x5b) = false ∧ (c =b x22) = false ∧ (c =b x5d) = false.
Proof.
  enough (negb (num_start c) || bool_decide (is_ws c = false ∧ (c =b x7b) = false ∧
    (c =b x5b) = false ∧ (c =b x22) = false ∧ (c =b x5d) = false) = true) as H.
  { intros Hc. rewrite Hc in H. cbn in H. by apply bool_decide_eq_true in H. }
  revert c. apply byte_forall. by vm_compute.
Qed.

Lemma num_ok_start lit : num_ok lit = true → ∃ c r, lit = c :: r ∧ num_start c = true.
Proof.
  unfold num_ok. intros H%bool_decide_eq_true. unfold scan_num in H.
  destruct lit as [|c r]; [done|]. exists c, r. split; [done|].
  unfold num_start. cbn in H. destruct (c =b "-"); [done|]. cbn in H |- *.
  destruct (byte_eqb_spec c "0") as [->|]; [done|].
  destruct (is_digit c); [done|]. done.
Qed.

(** The first character of a printed value. *)
Lemma print_head t : json_wf t = true →
  ∃ c r, json_print t = c :: r ∧ is_ws c = false ∧ (c =b x5d) = false.
Proof.
  destruct t as [|[]|lit|raw|l|m]; intros Hwf; cbn [json_print]; try by do 2 eexists.
  destruct (num_ok_start lit Hwf) as (c & r & -> & Hc).
  exists c, r. destruct (num_start_tests c Hc) as (?&?&?&?&?). done.
Qed.

Lemma skip_ws_head c r : is_ws c = false → skip_ws (c :: r) = c :: r.
Proof. intros H. cbn. by rewrite H. Qed.

Lemma skip_ws_print t rest : json_wf t = true → skip_ws (json_print t ++ rest) = json_print t ++ rest.
Proof. intros Hwf. destruct (print_head t Hwf) as (c & r & -> & Hc & _). by apply skip_ws_head. Qed.

Definition parses (t : json) : Prop := ∀ f d rest,
  json_wf t = true → d + json_depth t <= maxNestingDepth → (json_size t <= f)%nat → delim rest →
  parse_value f d (json_print t ++ rest) = Some (t, rest).

Lemma parse_elems_print l : l ≠ [] → Forall parses l → ∀ f d rest,
  forallb json_wf l = true →
  d + fold_right N.max 0 (map json_depth l) <= maxNestingDepth →
  (fold_right (λ t n, S (json_size t + n)) O l <= f)%nat →
  parse_elems f d (join_with [","%byte] (map json_print l) ++ x5d :: rest) = Some (l, rest).
Proof.
  intros Hne HP. induction HP as [|t l Ht HP IH]; [done|].
  intros f d rest Hwf Hd Hf. simpl in Hwf, Hd, Hf. apply andb_prop in Hwf as [Hwt Hwl].
  destruct f as [|f]; [lia|]. cbn [parse_elems].
  destruct l as [|t' l'].
  - cbn [map join_with]. rewrite (Ht f d (x5d :: rest)); [|done|lia|lia|by right; left].
    reflexivity.
  - cbn [map]. rewrite join_with_cons. rewrite <- !app_assoc. cbn [app].
    rewrite (Ht f d); [|done|lia|lia|by left]. cbn [mbind option_bind].
    rewrite skip_ws_head by done. cbn [Byte.eqb]. rewrite byte_eqb_refl.
    unfold parses in IH. cbn [map] in IH.
    rewrite IH; [done|done|done|simpl in Hd |- *; lia|lia].
Qed.

Lemma parse_members_print m : m ≠ [] → Forall (λ kv, parses kv.2) m → ∀ f d rest,
  forallb (λ kv, raw_ok kv.1 && json_wf kv.2) m = true →
  d + fold_right N.max 0 (map (λ kv, json_depth kv.2) m) <= maxNestingDepth →
  (fold_right (λ kv n, S (json_size kv.2 + n)) O m <= f)%nat →
  parse_members f d (join_with [","%byte] (map (λ kv, quoted kv.1 ++ ":"%byte :: json_print kv.2) m) ++ x7d :: rest)
    = Some (m, rest).
Proof.
  intros Hne HP. induction HP as [|[k t] m Ht HP IH]; [done|].
  intros f d rest Hwf Hd Hf. simpl in Hwf, Hd, Hf, Ht.
  apply andb_prop in Hwf as [[Hwk Hwt]%andb_prop Hwl].
  destruct f as [|f]; [lia|].
  assert (∀ k', parse_members (S f) d (quoted k ++ ":"%byte :: json_print t ++ k') =
    ('(t, r) ← parse_value f d (json_print t ++ k');
     match skip_ws r with
     | c1 :: r1 =>
       if c1 =b "," then '(m, k0) ← parse_members f d r1; Some ((k, t) :: m, k0)
       else if c1 =b x7d then Some ([(k, t)], r1) else None
     | [] => None
     end)) as Hstep.
  { intros k'. unfold quoted. cbn [parse_members app]. rewrite skip_ws_head by done.
    cbn [Byte.eqb]. change (dq =b x22) with true. cbn [mbind].
    rewrite <- app_assoc. cbn [app]. rewrite scan_str_ok by done. cbn [mbind option_bind].
    rewrite skip_ws_head by done. reflexivity. }
  destruct m as [|kv' m'].
  - cbn [map join_with fst snd]. rewrite <- app_assoc. cbn [app]. rewrite Hstep.
    rewrite (Ht f d); [|done|lia|lia|by right; right]. reflexivity.
  - cbn [map fst snd]. rewrite join_with_cons.
    set (J := join_with _ _) in *. rewrite <- !app_assoc. cbn [app].
    rewrite <- ?app_assoc. cbn [app]. rewrite Hstep.
    rewrite (Ht f d); [|done|lia|lia|by left]. cbn [mbind option_bind].
    rewrite skip_ws_head by done. rewrite byte_eqb_refl.
    cbn [map] in IH.
    rewrite IH; [done|done|done|simpl in Hd |- *; lia|lia].
Qed.

Lemma parses_all t : parses t.
Proof.
  induction t as [|b|lit|raw|l IH|m IH] using json_ind'; intros [|f] d rest Hwf Hd Hf Hr;
    try (simpl in Hf; lia).
  - reflexivity.
  - by destruct b.
  - destruct (num_ok_start lit Hwf) as (c & r & E & Hc).
    destruct (num_start_tests c Hc) as (H1 & H2 & H3 & H4 & _).
    cbn [parse_value json_print]. rewrite E. cbn [app]. rewrite skip_ws_head by done.
    rewrite H2, H3, H4. unfold num_start in Hc. rewrite Hc.
    rewrite app_comm_cons, <- E, scan_num_app by done. reflexivity.
  - cbn [parse_value json_print quoted]. unfold quoted. cbn [app].
    rewrite skip_ws_head by done. change (dq =b x22) with true. cbn [Byte.eqb].
    rewrite <- app_assoc. cbn [app]. rewrite scan_str_ok by done. reflexivity.
  - cbn [parse_value json_print]. cbn [app]. rewrite skip_ws_head by done.
    change ("[" =b x7b) with false. change ("[" =b x5b) with true. cbn iota.
    simpl in Hd, Hf, Hwf. rewrite <- app_assoc. cbn [app].
    destruct (N.leb_spec maxNestingDepth d); [lia|].
    destruct l as [|t l]; [reflexivity|].
    assert (∃ c r, join_with [","%byte] (map json_print (t :: l)) = c :: r ∧
      is_ws c = false ∧ (c =b x5d) = false) as (c & r & Hj & Hc1 & Hc2).
    { simpl in Hwf. apply andb_prop in Hwf as [Hwt _].
      destruct (print_head t Hwt) as (c & r & E & Hc1 & Hc2).
      destruct l as [|t' l]; cbn [map]; [|rewrite join_with_cons]; rewrite E; eauto. }
    pose proof (parse_elems_print (t :: l) ltac:(done) IH f (d + 1) rest Hwf
      ltac:(simpl in *; lia) ltac:(simpl in *; lia)) as Hp.
    rewrite Hj in Hp |- *. cbn [app] in *. rewrite skip_ws_head by done. by rewrite Hc2, Hp.
  - cbn [parse_value json_print]. cbn [app]. rewrite skip_ws_head by done.
    change (x7b =b x7b) with true. cbn iota.
    simpl in Hd, Hf, Hwf. rewrite <- app_assoc. cbn [app].
    destruct (N.leb_spec maxNestingDepth d); [lia|].
    destruct m as [|kv m]; [reflexivity|].
    assert (∃ r, join_with [","%byte]
      (map (λ kv, quoted kv.1 ++ ":"%byte :: json_print kv.2) (kv :: m)) = dq :: r) as (r & Hj).
    { destruct m as [|kv' m]; cbn [map]; [|rewrite join_with_cons]; unfold quoted; cbn [app]; eauto. }
    pose proof (parse_members_print (kv :: m) ltac:(done) IH f (d + 1) rest Hwf
      ltac:(simpl in *; lia) ltac:(simpl in *; lia)) as Hp.
    rewrite Hj in Hp |- *. cbn [app] in *. rewrite skip_ws_head by done.
    change (dq =b x7d) with false. cbn iota. by rewrite Hp.
Qed.

Lemma join_with_length {A} (c : A) (ls : list (list A)) : ls ≠ [] →
  (length (join_with [c] ls) + 1 = fold_right (λ l n, length l + 1 + n) 0 ls)%nat.
Proof.
  induction ls as [|l ls IH]; [done|]. intros _. destruct ls as [|l' ls].
  - cbn [join_with fold_right]. lia.
  - specialize (IH ltac:(done)). rewrite join_with_cons, !length_app.
    cbn [length fold_right] in *. lia.
Qed.

Lemma json_size_print t : json_wf t = true → (json_size t <= length (json_print t))%nat.
Proof.
  induction t as [|[]|lit|raw|l IH|m IH] using json_ind'; intros Hwf; try (simpl; lia).
  - destruct (num_ok_start lit Hwf) as (c & r & -> & _). simpl. lia.
  - cbn [json_size json_print length]. rewrite length_app. cbn [length]. destruct l as [|t l]; [simpl; lia|].
    assert ((fold_right (λ t n, S (json_size t + n)) 0 (t :: l) <=
      fold_right (λ l n, length l + 1 + n) 0 (map json_print (t :: l)))%nat) as Hle.
    { simpl in Hwf. revert Hwf. change (json_wf t && forallb json_wf l) with (forallb json_wf (t :: l)).
      induction IH as [|t' l' Ht _ IHl]; [done|]. simpl. intros [Hwt Hwl]%andb_prop.
      specialize (Ht Hwt). specialize (IHl Hwl). lia. }
    rewrite <- (join_with_length ","%byte) in Hle by done. lia.
  - cbn [json_size json_print length]. rewrite length_app. cbn [length]. destruct m as [|kv m]; [simpl; lia|].
    assert ((fold_right (λ kv n, S (json_size kv.2 + n)) 0 (kv :: m) <=
      fold_right (λ l n, length l + 1 + n) 0
        (map (λ kv, quoted kv.1 ++ ":"%byte :: json_print kv.2) (kv :: m)))%nat) as Hle.
    { simpl in Hwf. revert Hwf.
      change (raw_ok kv.1 && json_wf kv.2 && forallb (λ kv, raw_ok kv.1 && json_wf kv.2) m)
        with (forallb (λ kv, raw_ok kv.1 && json_wf kv.2) (kv :: m)).
      induction IH as [|kv' m' Ht _ IHl]; [done|]. simpl. intros [[_ Hwt]%andb_prop Hwl]%andb_prop.
      specialize (Ht Hwt). specialize (IHl Hwl). unfold quoted in *. simpl in *.
      rewrite length_app. simpl. lia. }
    rewrite <- (join_with_length ","%byte) in Hle by done. lia.
Qed.

(** A printed document parses back to the tree it was printed from. *)
Lemma json_parse_print t : json_wf t = true → json_depth t <= maxNestingDepth →
  json_parse (json_print t) = Some t.
Proof.
  intros Hwf Hd. unfold json_parse.
  pose proof (parses_all t (parse_fuel_for (json_print t)) 0 [] Hwf ltac:(lia)) as H.
  rewrite app_nil_r in H. rewrite H; [done| |done].
  pose proof (json_size_print t Hwf). unfold parse_fuel_for. lia.
Qed.

(** So does the first value of a stream. *)
Lemma json_parse_first_print t : json_wf t = true → json_depth t <= maxNestingDepth →
  json_parse_first (json_print t) = Some t.
Proof.
  intros Hwf Hd. unfold json_parse_first.
  pose proof (parses_all t (parse_fuel_for (json_print t)) 0 [] Hwf ltac:(lia)) as H. rewrite app_nil_r in H. rewrite H; [done| |done].
  pose proof (json_size_print t Hwf). unfold parse_fuel_for. lia.
Qed.

(** ** The fuel is enough *)
Lemma skip_ws_length s : (length (skip_ws s) <= length s)%nat.
Proof. induction s as [|c s IH]; simpl; [done|]. destruct (is_ws c); simpl; lia. Qed.

Lemma span_digits_length s ds k : span_digits s = (ds, k) → (length k + length ds = length s)%nat.
Proof. intros ->%span_digits_inv. rewrite length_app. lia. Qed.

Lemma scan_exp_length acc s l k : scan_exp acc s = Some (l, k) → (length k <= length s)%nat.
Proof.
  destruct s as [|c s]; cbn; [by intros [= <- <-]|].
  case_match; [|by intros [= <- <-]].
  destruct (span_sign true s) as [sg r1] eqn:Hsg. destruct (span_digits r1) as [ds r2] eqn:Hds.
  apply span_sign_inv in Hsg as ->. apply span_digits_length in Hds.
  destruct ds; [done|]. intros [= <- <-]. rewrite length_app. simpl in *. lia.
Qed.

Lemma scan_frac_length acc s l k : scan_frac acc s = Some (l, k) → (length k <= length s)%nat.
Proof.
  destruct s as [|c s]; [intros [= <- <-]; simpl; lia|]. unfold scan_frac. case_match.
  - destruct (span_digits s) as [ds r1] eqn:Hds. apply span_digits_length in Hds.
    destruct ds; [done|]. intros ?%scan_exp_length. simpl. lia.
  - apply scan_exp_length.
Qed.

Lemma scan_num_length s l k : scan_num s = Some (l, k) → (length k < length s)%nat.
Proof.
  unfold scan_num. destruct (span_sign false s) as [sg s1] eqn:Hsg.
  apply span_sign_inv in Hsg as ->. destruct s1 as [|c r]; [done|]. rewrite length_app.
  case_match; [intros ?%scan_frac_length; simpl; lia|].
  destruct (span_digits (c :: r)) as [ds r1] eqn:Hds. apply span_digits_length in Hds.
  destruct ds; [done|]. intros ?%scan_frac_length. simpl in *. lia.
Qed.

Lemma strip_prefix_length p s k : strip_prefix p s = Some k → (length k <= length s)%nat.
Proof. unfold strip_prefix. case_bool_decide; [|done]. intros [= <-]. rewrite length_drop. lia. Qed.

Lemma skip_ws_cons s c r : skip_ws s = c :: r → (length r < length s)%nat.
Proof. intros H. pose proof (skip_ws_length s) as Hl. rewrite H in Hl. simpl in Hl. lia. Qed.

Ltac lengths :=
  repeat match goal with
  | H : skip_ws _ = _ :: _ |- _ => apply skip_ws_cons in H
  | H : scan_str _ = Some _ |- _ => apply scan_str_length in H
  | H : scan_num _ = Some _ |- _ => apply scan_num_length in H
  | H : strip_prefix _ _ = Some _ |- _ => apply strip_prefix_length in H
  end; simpl in *.

(** Walk a successful run of the parser down to its recursive calls. *)
Ltac parse_inv :=
  repeat (case_match; simplify_eq; try done); inv_opt; simplify_eq; try done;
  repeat (case_match; simplify_eq; try done); inv_opt; simplify_eq; try done;
  repeat (case_match; simplify_eq; try done); inv_opt; simplify_eq; try done;
  repeat (case_match; simplify_eq; try done); inv_opt; simplify_eq; try done.

Lemma parse_length f :
  (∀ d s t k, parse_value f d s = Some (t, k) → (length k < length s)%nat) ∧
  (∀ d s l k, parse_elems f d s = Some (l, k) → (length k < length s)%nat) ∧
  (∀ d s m k, parse_members f d s = Some (m, k) → (length k < length s)%nat).
Proof.
  induction f as [|f (IHv & IHe & IHm)]; [done|].
  split_and!; intros d s x k H;
    cbn [parse_value parse_elems parse_members] in H; parse_inv;
    repeat match goal with
    | H : parse_value f _ _ = Some _ |- _ => apply IHv in H
    | H : parse_elems f _ _ = Some _ |- _ => apply IHe in H
    | H : parse_members f _ _ = Some _ |- _ => apply IHm in H
    end; lengths; lia.
Qed.

(** Any two amounts of fuel that cover the text give the same answer. *)
Lemma parse_fuel f :
  (∀ f' d s, (2 * length s + 1 <= f)%nat → (2 * length s + 1 <= f')%nat →
     parse_value f d s = parse_value f' d s) ∧
  (∀ f' d s, (2 * length s + 2 <= f)%nat → (2 * length s + 2 <= f')%nat →
     parse_elems f d s = parse_elems f' d s) ∧
  (∀ f' d s, (2 * length s + 2 <= f)%nat → (2 * length s + 2 <= f')%nat →
     parse_members f d s = parse_members f' d s).
Proof.
  induction f as [|f (IHv & IHe & IHm)]; [split_and!; intros; lia|].
  split_and!; intros [|f'] d s Hf Hf'; try lia;
    cbn [parse_value parse_elems parse_members].
  - destruct (skip_ws s) as [|c r] eqn:Hs; [done|]. apply skip_ws_cons in Hs.
    rewrite (IHm f' (d + 1) r), (IHe f' (d + 1) r) by lia. done.
  - rewrite (IHv f' d s) by lia. destruct (parse_value f' d s) as [[t r]|] eqn:Hv; [|done].
    apply parse_length in Hv. cbn [mbind option_bind].
    destruct (skip_ws r) as [|c r1] eqn:Hr; [done|]. apply skip_ws_cons in Hr.
    rewrite (IHe f' d r1) by lia. done.
  - destruct (skip_ws s) as [|q s1] eqn:Hs; [done|]. apply skip_ws_cons in Hs.
    destruct (q =b x22); [|done].
    destruct (scan_str s1) as [[key s2]|] eqn:Hk; [|done]. apply scan_str_length in Hk.
    cbn [mbind option_bind].
    destruct (skip_ws s2) as [|c s3] eqn:Hs2; [done|]. apply skip_ws_cons in Hs2.
    destruct (c =b ":"); [|done].
    rewrite (IHv f' d s3) by lia. destruct (parse_value f' d s3) as [[t r]|] eqn:Hv; [|done].
    apply parse_length in Hv. cbn [mbind option_bind].
    destruct (skip_ws r) as [|c1 r1] eqn:Hr; [done|]. apply skip_ws_cons in Hr.
    rewrite (IHm f' d r1) by lia. done.
Qed.

(** ** What is parsed is the tree of some text *)
Lemma scan_str_raw_ok s raw k : scan_str s = Some (raw, k) → raw_ok raw = true.
Proof. by intros [H _]%scan_str_inv. Qed.

Lemma span_digits_self s ds k : span_digits s = (ds, k) → span_digits ds = (ds, []).
Proof.
  revert ds k. induction s as [|c s IH]; intros ds k; cbn [span_digits].
  - by intros [= <- <-].
  - destruct (is_digit c) eqn:Hc.
    + destruct (span_digits s) as [ds' k'] eqn:Hs. intros [= <- <-].
      cbn [span_digits]. rewrite Hc. by rewrite (IH _ _ eq_refl).
    + by intros [= <- <-].
Qed.

(** A scanner's result is its accumulator, extended by text it accepts alone. *)
Lemma scan_exp_self acc s l k : scan_exp acc s = Some (l, k) →
  ∃ x, l = acc ++ x ∧ (∀ acc', scan_exp acc' x = Some (acc' ++ x, [])) ∧
    (x = [] ∨ ∃ c x', x = c :: x' ∧ is_digit c = false ∧ (c =b ".") = false).
Proof.
  destruct s as [|c s]; cbn.
  - intros [= <- <-]. exists []. rewrite app_nil_r. split_and!; [done| |by left].
    intros acc'. by rewrite app_nil_r.
  - destruct ((c =b "e") || (c =b "E")) eqn:Hc.
    + destruct (span_sign true s) as [sg r1] eqn:Hsg.
      destruct (span_digits r1) as [ds r2] eqn:Hds.
      destruct ds as [|d ds]; [done|]. intros [= <- <-].
      exists (c :: sg ++ d :: ds). split_and!; [done| |].
      * intros acc'. cbn [scan_exp]. rewrite Hc.
        assert (span_sign true (sg ++ d :: ds) = (sg, d :: ds)) as ->.
        { assert (is_digit d = true) as Hd.
          { destruct r1 as [|c1 r1]; [done|]. cbn in Hds. destruct (is_digit c1) eqn:?; [|done].
            destruct (span_digits r1). by injection Hds as -> _ _. }
          destruct s as [|c' s]; cbn in Hsg.
          - injection Hsg as <- <-. by cbn in Hds.
          - destruct ((c' =b "-") || (c' =b "+")) eqn:Hc'; injection Hsg as <- <-.
            + cbn. by rewrite Hc'.
            + cbn. cbn in Hds. destruct (is_digit c') eqn:?; [|done].
              destruct (span_digits s). injection Hds as -> _ _. by rewrite Hc'. }
        by rewrite (span_digits_self _ _ _ Hds).
      * right. exists c, (sg ++ d :: ds). split_and!; [done|..].
        -- apply orb_prop in Hc as [Hc|Hc]; apply Byte.byte_dec_bl in Hc as ->; done.
        -- apply orb_prop in Hc as [Hc|Hc]; apply Byte.byte_dec_bl in Hc as ->; done.
    + intros [= <- <-]. exists []. rewrite app_nil_r. split_and!; [done| |by left].
      intros acc'. by rewrite app_nil_r.
Qed.

Lemma span_digits_stop ds x :
  span_digits ds = (ds, []) → (x = [] ∨ ∃ c x', x = c :: x' ∧ is_digit c = false) →
  span_digits (ds ++ x) = (ds, x).
Proof.
  induction ds as [|d ds IH]; cbn [app].
  - intros _ [-> | (c & x' & -> & Hc)]; cbn; [done|]. by rewrite Hc.
  - cbn [span_digits]. destruct (is_digit d); [|done].
    destruct (span_digits ds) as [ds' k] eqn:Hs. intros [= -> ->] Hx. by rewrite IH.
Qed.

Lemma scan_frac_self acc s l k : scan_frac acc s = Some (l, k) →
  ∃ x, l = acc ++ x ∧ (∀ acc', scan_frac acc' x = Some (acc' ++ x, [])) ∧
    (x = [] ∨ ∃ c x', x = c :: x' ∧ is_digit c = false).
Proof.
  assert (∀ s, scan_exp acc s = Some (l, k) → ∃ x, l = acc ++ x ∧
    (∀ acc', scan_frac acc' x = Some (acc' ++ x, [])) ∧
    (x = [] ∨ ∃ c x', x = c :: x' ∧ is_digit c = false)) as Hexp.
  { intros s' (x & -> & Hx & Hd)%scan_exp_self. exists x. split_and!; [done| |].
    - intros acc'. destruct Hd as [-> | (c & x' & -> & _ & Hc)]; cbn [scan_frac].
      + by rewrite app_nil_r.
      + rewrite Hc. apply Hx.
    - destruct Hd as [-> | (c & x' & -> & Hc & _)]; [by left|right; eauto]. }
  destruct s as [|c s]; [apply (Hexp [])|]. cbn [scan_frac].
  destruct (c =b ".") eqn:Hc; [|apply Hexp].
  destruct (span_digits s) as [ds r1] eqn:Hds. destruct ds as [|d ds]; [done|].
  intros (x & -> & Hx & Hd)%scan_exp_self. exists (c :: (d :: ds) ++ x).
  split_and!; [by rewrite <- app_assoc| |].
  - intros acc'. cbn [scan_frac]. rewrite Hc.
    rewrite (span_digits_stop (d :: ds) x).
    + rewrite Hx. by rewrite <- app_assoc.
    + by eapply span_digits_self.
    + destruct Hd as [-> | (c' & x' & -> & Hc' & _)]; eauto.
  - right. exists c, ((d :: ds) ++ x). split; [done|]. by apply Byte.byte_dec_bl in Hc as ->.
Qed.

Lemma scan_num_ok s lit k : scan_num s = Some (lit, k) → num_ok lit = true.
Proof.
  intros H. unfold num_ok. apply bool_decide_eq_true. unfold scan_num in H.
  destruct (span_sign false s) as [sg s1] eqn:Hsg.
  destruct s1 as [|c r]; [done|].
  assert (∀ y, (c =b "-") = false → span_sign false (sg ++ c :: y) = (sg, c :: y)) as Hsign.
  { intros y Hc. destruct s as [|c' s]; cbn in Hsg; [done|].
    destruct (c' =b "-") eqn:Hc'; cbn in Hsg; simplify_eq; cbn.
    - by rewrite Hc'.
    - by rewrite Hc. }
  destruct (c =b "0") eqn:Hc.
  - apply scan_frac_self in H as (x & -> & Hx & _).
    apply Byte.byte_dec_bl in Hc as ->. unfold scan_num.
    rewrite <- app_assoc. cbn [app]. rewrite Hsign by done. cbn. by rewrite Hx, <- app_assoc.
  - destruct (span_digits (c :: r)) as [ds r1] eqn:Hds. destruct ds as [|d ds]; [done|].
    assert (d = c ∧ is_digit c = true) as [-> Hd].
    { cbn in Hds. destruct (is_digit c); [|done]. destruct (span_digits r). by injection Hds as -> _ _. }
    assert ((c =b "-") = false) as Hm.
    { destruct (byte_eqb_spec c "-") as [->|]; done. }
    apply scan_frac_self in H as (x & -> & Hx & Hd').
    unfold scan_num. rewrite <- app_assoc. cbn [app]. rewrite Hsign by done. rewrite Hc.
    rewrite (app_comm_cons ds x c), (span_digits_stop (c :: ds) x); [|by eapply span_digits_self|done].
    rewrite Hx. by rewrite <- app_assoc.
Qed.

Lemma parse_wf f :
  (∀ d s t k, parse_value f d s = Some (t, k) → json_wf t = true) ∧
  (∀ d s l k, parse_elems f d s = Some (l, k) → forallb json_wf l = true) ∧
  (∀ d s m k, parse_members f d s = Some (m, k) →
     forallb (λ kv, raw_ok kv.1 && json_wf kv.2) m = true).
Proof.
  induction f as [|f (IHv & IHe & IHm)]; [done|].
  split_and!; intros d s x k H;
    cbn [parse_value parse_elems parse_members] in H; parse_inv;
    repeat match goal with
    | H : parse_value f _ _ = Some _ |- _ => apply IHv in H
    | H : parse_elems f _ _ = Some _ |- _ => apply IHe in H
    | H : parse_members f _ _ = Some _ |- _ => apply IHm in H
    | H : scan_num _ = Some _ |- _ => apply scan_num_ok in H
    | H : scan_str _ = Some _ |- _ => apply scan_str_raw_ok in H
    end; simpl; rewrite ?andb_true_r; rewrite ?andb_true_iff; done.
Qed.

Lemma json_parse_wf s t : json_parse s = Some t → json_wf t = true.
Proof.
  unfold json_parse. destruct (parse_value _ 0 s) as [[t' k]|] eqn:H; [|done].
  destruct (skip_ws k); [|done]. intros [= <-]. by eapply parse_wf.
Qed.

(** Parsed trees respect the nesting bound. *)
Lemma parse_depth f :
  (∀ d s t k, parse_value f d s = Some (t, k) → d <= maxNestingDepth → d + json_depth t <= maxNestingDepth) ∧
  (∀ d s l k, parse_elems f d s = Some (l, k) → d <= maxNestingDepth →
     d + fold_right N.max 0 (map json_depth l) <= maxNestingDepth) ∧
  (∀ d s m k, parse_members f d s = Some (m, k) → d <= maxNestingDepth →
     d + fold_right N.max 0 (map (λ kv, json_depth kv.2) m) <= maxNestingDepth).
Proof.
  induction f as [|f (IHv & IHe & IHm)]; [done|].
  split_and!; intros d s x k H Hd;
    cbn [parse_value parse_elems parse_members] in H; parse_inv;
    repeat match goal with
    | H : parse_value f _ _ = Some _ |- _ => apply IHv in H; [|lia]
    | H : parse_elems f _ _ = Some _ |- _ => apply IHe in H; [|lia]
    | H : parse_members f _ _ = Some _ |- _ => apply IHm in H; [|lia]
    end; simpl; try lia.
Qed.

Lemma json_parse_depth s t : json_parse s = Some t → json_depth t <= maxNestingDepth.
Proof.
  unfold json_parse. destruct (parse_value _ 0 s) as [[t' k]|] eqn:H; [|done].
  destruct (skip_ws k); [|done]. intros [= <-].
  pose proof (proj1 (parse_depth _) _ _ _ _ H). unfold maxNestingDepth in *. lia.
Qed.
