(* ===== verification/JsonCodec.v ===== *)
(** [encoding/json]: decoding into and encoding from Go values.

    A decoder takes the JSON value and the current Go value, as
    [decodeState.value] does.  A mismatch of types is remembered and decoding
    goes on ([saveError]); an error of an [UnmarshalJSON] method stops it.  Object
    keys select struct fields by exact name, then case-insensitively; the last
    of two equal keys wins; [null] leaves strings, numbers and structs alone and
    empties slices and pointers.  White space inside a [json.RawMessage] is not
    kept: see [Json]. *)

From Stdlib Require Import DecimalString DecimalN DecimalZ DecimalFacts.
From S2P Require Import Prelude Errors Base64 Json JsonFacts.

(** ** Decoding *)

(** The decoded value and the first remembered error; or the error that stopped. *)
Abbreviation decoded A := (result (A * option error)).
Abbreviation decoder A := (json → A → decoded A).

Definition done_with {A} (a : A) : decoded A := Ok (a, None).
Definition type_error {A} (a : A) : decoded A := Ok (a, Some (EStd JsonType)).

(** Keep the first of two remembered errors. *)
Definition first_err (e1 e2 : option error) : option error :=
  match e1 with Some _ => e1 | None => e2 end.

(** [json.Unmarshal]. *)
Definition finish {A} (d : decoded A) : result A :=
  match d with
  | Ok (a, None) => Ok a
  | Ok (_, Some e) => Err e
  | Err e => Err e
  | Panic => Panic
  end.

Definition json_Unmarshal {A} (dec : decoder A) (src : bytes) (cur : A) : result A :=
  match json_parse src with
  | Some t => finish (dec t cur)
  | None => Err (EStd JsonSyntax)
  end.

(** The Go string a JSON string denotes. *)
Definition str_of (raw : bytes) : string := b2s (unquote raw).

Definition dec_string : decoder string := λ t cur,
  match t with
  | JNull => done_with cur
  | JStr raw => done_with (str_of raw)
  | _ => type_error cur
  end.

(** [strconv.ParseInt(lit, 10, 64)]. *)
Definition parse_int (lit : bytes) : option Z :=
  match NilZero.int_of_string (b2s lit) with
  | Some d => let z := Z.of_int d in if in_int64 z then Some z else None
  | None => None
  end.

Definition dec_int64 : decoder Z := λ t cur,
  match t with
  | JNull => done_with cur
  | JNum lit => match parse_int lit with Some z => done_with z | None => type_error cur end
  | _ => type_error cur
  end.

(** An array into a slice; [None] is the nil slice.  Each element starts from
    the zero value. *)
Fixpoint dec_list {A} (dec : decoder A) (zero : A) (l : list json) : decoded (list A) :=
  match l with
  | [] => done_with []
  | t :: l =>
    '(a, e1) ← dec t zero;
    '(r, e2) ← dec_list dec zero l;
    Ok (a :: r, first_err e1 e2)
  end.

Definition dec_slice {A} (dec : decoder A) (zero : A) : decoder (option (list A)) := λ t cur,
  match t with
  | JNull => done_with None
  | JArr l => '(r, e) ← dec_list dec zero l; Ok (Some r, e)
  | _ => type_error cur
  end.

Definition dec_uint8 : decoder Byte.byte := λ t cur,
  match t with
  | JNull => done_with cur
  | JNum lit =>
    match parse_int lit with
    | Some z => if ((0 <=? z) && (z <=? 255))%Z then done_with (n2b (Z.to_N z)) else type_error cur
    | None => type_error cur
    end
  | _ => type_error cur
  end.

(** [[]byte]: a base64 string, or an array of numbers. *)
Definition dec_bytes : decoder (option bytes) := λ t cur,
  match t with
  | JStr raw =>
    match b64_decode StdEncoding (unquote raw) with
    | Some b => done_with (Some b)
    | None => Ok (cur, Some (EStd Base64Corrupt))
    end
  | _ => dec_slice dec_uint8 x00 t cur
  end.

(** A value whose type has an [UnmarshalJSON] method: it gets the raw text. *)
Definition dec_unmarshaler {A} (u : bytes → result A) : decoder A := λ t _,
  a ← u (json_print t); done_with a.

(** A pointer to such a value. *)
Definition dec_ptr {A} (u : bytes → result A) : decoder (option A) := λ t _,
  match t with
  | JNull => done_with None
  | _ => a ← u (json_print t); done_with (Some a)
  end.

(** *** Structs *)

(** [foldName]: ASCII letters in upper case, and the two other runes that fold
    to an ASCII letter (U+017F and U+212A). *)
Definition upper (c : Byte.byte) : Byte.byte := if in_range 97 122 c then n2b (b2n c - 32) else c.

Fixpoint fold_name (s : bytes) : bytes :=
  match s with
  | [] => []
  | c :: r =>
    match r with
    | [] => [upper c]
    | c1 :: r1 =>
      if (c =b xc5) && (c1 =b xbf) then "S"%byte :: fold_name r1
      else match r1 with
           | [] => upper c :: fold_name r
           | c2 :: r2 =>
             if (c =b xe2) && (c1 =b x84) && (c2 =b xaa) then "K"%byte :: fold_name r2
             else upper c :: fold_name r
           end
    end
  end.

(** A field of a struct [S]: its JSON name and how its value is decoded. *)
Definition field (S : Type) : Type := string * decoder S.

Definition find_field {S} (fs : list (field S)) (key : bytes) : option (decoder S) :=
  match List.find (λ f, bool_decide (s2b f.1 = key)) fs with
  | Some f => Some f.2
  | None => snd <$> List.find (λ f, bool_decide (fold_name (s2b f.1) = fold_name key)) fs
  end.

Fixpoint dec_members {S} (fs : list (field S)) (m : list (bytes * json)) (s : S) : decoded S :=
  match m with
  | [] => done_with s
  | (k, t) :: m =>
    '(s, e1) ← match find_field fs (unquote k) with Some dec => dec t s | None => done_with s end;
    '(s, e2) ← dec_members fs m s;
    Ok (s, first_err e1 e2)
  end.

Definition dec_struct {S} (fs : list (field S)) : decoder S := λ t s,
  match t with
  | JNull => done_with s
  | JObj m => dec_members fs m s
  | _ => type_error s
  end.

(** A field of [S] held at type [A]. *)
Definition field_at {S A} (name : string) (get : S → A) (set : A → S → S) (dec : decoder A) : field S :=
  (name, λ t s, '(a, e) ← dec t (get s); Ok (set a s, e)).

(** A [map[string]json.RawMessage]: the last of two equal keys wins. *)
Definition dec_raw_map (t : json) (cur : gmap string json) : decoded (gmap string json) :=
  match t with
  | JNull => done_with ∅
  | JObj m => done_with (fold_left (λ acc kv, <[str_of kv.1 := kv.2]> acc) m cur)
  | _ => type_error cur
  end.

(** ** Encoding *)
Definition enc_string (s : string) : json := JStr (quote (s2b s)).
Definition print_int (z : Z) : bytes := s2b (NilZero.string_of_int (Z.to_int z)).
Definition enc_int64 (z : Z) : json := JNum (print_int z).
Definition enc_bytes (b : option bytes) : json :=
  match b with Some b => JStr (b64_encode StdEncoding b) | None => JNull end.
Definition enc_slice {A} (enc : A → json) (l : option (list A)) : json :=
  match l with Some l => JArr (map enc l) | None => JNull end.

(** [compact] with HTML escaping, which [json.Marshal] applies to what a
    [MarshalJSON] method or a [json.RawMessage] supplies. *)
Fixpoint html_escape (s : bytes) : bytes :=
  match s with
  | [] => []
  | c :: r =>
    if (c =b "<") || (c =b ">") || (c =b "&") then u00 (b2n c) ++ html_escape r
    else match r with
         | c1 :: c2 :: r2 =>
           if is_line_sep c c1 c2
           then [bs; "u"; "2"; "0"; "2"; hex_digit (b2n c2 mod 16)]%byte ++ html_escape r2
           else c :: html_escape r
         | _ => c :: html_escape r
         end
  end.

Fixpoint compact (t : json) : json :=
  match t with
  | JStr raw => JStr (html_escape raw)
  | JArr l => JArr (map compact l)
  | JObj m => JObj (map (λ kv, (html_escape kv.1, compact kv.2)) m)
  | _ => t
  end.

(** A value with a [MarshalJSON] method. *)
Definition enc_marshaler (m : result bytes) : result json :=
  b ← wrap_err "json: error calling MarshalJSON" m;
  match json_parse b with Some t => Ok (compact t) | None => Err (EStd JsonSyntax) end.

(** Members of an object: an [omitempty] member is absent when it is empty. *)
Definition member (name : string) (t : json) : list (bytes * json) := [(quote (s2b name), t)].
Definition omitempty (empty : bool) (name : string) (t : json) : list (bytes * json) :=
  if empty then [] else member name t.
Definition omit_nil {A} (name : string) (enc : A → result json) (o : option A) : result (list (bytes * json)) :=
  match o with Some a => member name <$> enc a | None => Ok [] end.

Definition str_empty (s : string) : bool := bool_decide (s = EmptyString).
Lemma str_empty_true s : str_empty s = true → s = EmptyString.
Proof. apply bool_decide_eq_true. Qed.
Definition slice_empty {A} (l : option (list A)) : bool :=
  match l with Some (_ :: _) => false | _ => true end.

(** ** Facts *)

Lemma first_err_None e1 e2 : first_err e1 e2 = None ↔ e1 = None ∧ e2 = None.
Proof. destruct e1, e2; simpl; split; intros; try done; by destruct_and?. Qed.

Lemma finish_Ok {A} (d : decoded A) a : finish d = Ok a ↔ d = Ok (a, None).
Proof. destruct d as [[a' [e|]]| |]; simpl; split; intros; simplify_eq; done. Qed.

Lemma json_Unmarshal_print {A} (dec : decoder A) t cur :
  json_wf t = true → (json_depth t <= maxNestingDepth)%N →
  json_Unmarshal dec (json_print t) cur = finish (dec t cur).
Proof. intros Hwf Hd. unfold json_Unmarshal. by rewrite json_parse_print. Qed.

(** *** Strings *)
Definition utf8 (s : string) : bool := valid_utf8 (s2b s).

Lemma dec_enc_string s cur : utf8 s = true → dec_string (enc_string s) cur = done_with s.
Proof.
  intros H. unfold dec_string, enc_string, str_of. by rewrite unquote_quote, b2s_s2b.
Qed.

(** *** Integers *)
Lemma uint_digits d : span_digits (s2b (NilEmpty.string_of_uint d)) = (s2b (NilEmpty.string_of_uint d), []).
Proof.
  induction d; [done|..]; cbn -[s2b span_digits];
    match goal with |- context [s2b (String ?c ?s)] =>
      change (s2b (String c s)) with (Ascii.byte_of_ascii c :: s2b s) end;
    cbn [span_digits]; match goal with |- context [is_digit ?c] =>
      change (is_digit c) with true end; cbn iota; by rewrite IHd.
Qed.

Lemma unorm_scan d : Decimal.unorm d = d → ∃ c r,
  s2b (NilZero.string_of_uint d) = c :: r ∧ is_digit c = true ∧
  (c = "0"%byte → r = []) ∧ span_digits (c :: r) = (c :: r, []).
Proof.
  intros Hn. pose proof (uint_digits d) as Hd.
  destruct d as [|d|d|d|d|d|d|d|d|d|d];
    [discriminate Hn|
     |by do 2 eexists; split_and!; [reflexivity|reflexivity|intros ?; discriminate|exact Hd]..].
  assert (d = Decimal.Nil) as ->; [|do 2 eexists; split_and!; [reflexivity|done..]].
  unfold Decimal.unorm in Hn. destruct (Decimal.nzhead (Decimal.D0 d)) eqn:Hz; try discriminate.
  - by injection Hn.
  - exfalso. injection Hn as ->. by eapply DecimalFacts.nzhead_nonzero.
Qed.

Lemma scan_frac_nil acc : scan_frac acc [] = Some (acc, []).
Proof. done. Qed.

Lemma num_ok_print_int z : num_ok (print_int z) = true.
Proof.
  assert (∀ n, ∃ c r, s2b (NilZero.string_of_uint (N.to_uint n)) = c :: r ∧ is_digit c = true ∧
    (c = "0"%byte → r = []) ∧ span_digits (c :: r) = (c :: r, [])) as Hu.
  { intros n. apply unorm_scan. by rewrite <- DecimalN.Unsigned.to_of, DecimalN.Unsigned.of_to. }
  unfold num_ok. apply bool_decide_eq_true. unfold print_int.
  assert (∀ sg n, span_sign false sg = (sg, []) →
    scan_num (sg ++ s2b (NilZero.string_of_uint (N.to_uint n))) =
    Some (sg ++ s2b (NilZero.string_of_uint (N.to_uint n)), [])) as Hs.
  { intros sg n Hsg. destruct (Hu n) as (c & r & -> & Hc & H0 & Hsp). unfold scan_num.
    assert (span_sign false (sg ++ c :: r) = (sg, c :: r)) as ->.
    { destruct sg as [|s0 sg]; cbn in Hsg |- *.
      - destruct (byte_eqb_spec c "-") as [->|]; done.
      - destruct (s0 =b "-"); cbn in *; by simplify_eq. }
    destruct (byte_eqb_spec c "0") as [->|]; [by rewrite (H0 eq_refl)|].
    rewrite Hsp. done. }
  destruct z as [|p|p]; cbn [Z.to_int NilZero.string_of_int].
  - exact (Hs [] 0%N eq_refl).
  - exact (Hs [] (N.pos p) eq_refl).
  - exact (Hs ["-"%byte] (N.pos p) eq_refl).
Qed.

Lemma parse_print_int z : in_int64 z = true → parse_int (print_int z) = Some z.
Proof.
  intros Hz. unfold parse_int, print_int. rewrite b2s_s2b.
  rewrite NilZero.isi; [by rewrite DecimalZ.of_to, Hz|..];
    destruct z as [|p|p]; simpl; try done; intros [= H];
    by apply (DecimalPos.Unsigned.to_uint_nonnil p).
Qed.

Lemma dec_enc_int64 z cur : in_int64 z = true → dec_int64 (enc_int64 z) cur = done_with z.
Proof. intros H. unfold dec_int64, enc_int64. by rewrite parse_print_int. Qed.

(** *** Objects *)
Lemma dec_members_app {S} (fs : list (field S)) m1 m2 s s1 :
  dec_members fs m1 s = done_with s1 → dec_members fs (m1 ++ m2) s = dec_members fs m2 s1.
Proof.
  revert s. induction m1 as [|[k t] m1 IH]; intros s; cbn [dec_members app].
  - by intros [= ->].
  - destruct (match find_field fs (unquote k) with Some dec => dec t s | None => done_with s end)
      as [[s' e1]| |]; try done.
    cbn [mbind res_bind]. destruct (dec_members fs m1 s') as [[s'' e2]| |] eqn:H; try done.
    cbn. intros [= -> He]. apply first_err_None in He as [-> ->].
    rewrite (IH s') by done. destruct (dec_members fs m2 s1) as [[? []]| |]; done.
Qed.

Lemma dec_omitempty {S} (fs : list (field S)) e name t s s' dec :
  find_field fs (unquote (quote (s2b name))) = Some dec →
  (e = true → s' = s) → (e = false → dec t s = done_with s') →
  dec_members fs (omitempty e name t) s = done_with s'.
Proof.
  intros Hf Ht Hd. destruct e; simpl; [by rewrite Ht|].
  rewrite Hf, Hd by done. done.
Qed.

Lemma dec_member {S} (fs : list (field S)) name t s s' dec :
  find_field fs (unquote (quote (s2b name))) = Some dec → dec t s = done_with s' →
  dec_members fs (member name t) s = done_with s'.
Proof. intros Hf Hd. by apply (dec_omitempty fs false name t s s' dec). Qed.

(** *** Embedded structs

    The fields of an embedded struct are the fields of the struct around it. *)
Definition lift_field {S T} (get : T → S) (set : S → T → T) (f : field S) : field T :=
  field_at f.1 get set f.2.

(** The lens laws. *)
Record lens {S T} (get : T → S) (set : S → T → T) : Prop := {
  lens_get_set a t : get (set a t) = a;
  lens_set_set a b t : set a (set b t) = set a t;
  lens_set_get t : set (get t) t = t;
}.

(** The object keys [names] of [fs0] are found in [fs] with their lifted decoders. *)
Definition embeds {S T} (get : T → S) (set : S → T → T) (fs0 : list (field S)) (fs : list (field T)) : Prop :=
  Forall (λ name, snd <$> List.find (λ f, bool_decide (s2b f.1 = s2b name)) (map (lift_field get set) fs0) =
                  snd <$> List.find (λ f, bool_decide (s2b f.1 = s2b name)) fs) (map fst fs0).

(** Members whose keys are, as JSON text, names of the list. *)
Definition keys_in (names : list string) (m : list (bytes * json)) : Prop :=
  Forall (λ kv, ∃ name, name ∈ names ∧ unquote kv.1 = s2b name) m.

Lemma keys_in_app names m1 m2 : keys_in names m1 → keys_in names m2 → keys_in names (m1 ++ m2).
Proof. apply Forall_app_2. Qed.

Lemma keys_in_omitempty names e name t :
  utf8 name = true → name ∈ names → keys_in names (omitempty e name t).
Proof.
  intros Hu Hn. destruct e; simpl; [constructor|]. repeat constructor. exists name.
  split; [done|]. simpl. by apply unquote_quote.
Qed.

Lemma keys_in_mono names names' m : names ⊆ names' → keys_in names m → keys_in names' m.
Proof. intros Hs. apply Forall_impl. intros kv (name & Hn & Hk). exists name. auto. Qed.

Lemma find_map_lift {S T} (get : T → S) (set : S → T → T) k fs0 :
  List.find (λ f, bool_decide (s2b f.1 = k)) (map (lift_field get set) fs0) =
  lift_field get set <$> List.find (λ f, bool_decide (s2b f.1 = k)) fs0.
Proof. induction fs0 as [|f fs0 IH]; [done|]. simpl. by destruct (bool_decide _). Qed.

Lemma find_name_some {S} (fs : list (field S)) name : name ∈ map fst fs →
  ∃ f, List.find (λ f, bool_decide (s2b f.1 = s2b name)) fs = Some f.
Proof.
  induction fs as [|f fs IH]; simpl; [by intros ?%elem_of_nil|].
  intros [->|H]%elem_of_cons.
  - exists f. by rewrite bool_decide_true.
  - destruct (bool_decide _); [by eexists|]. by apply IH.
Qed.

(** Decoding members of the embedded struct only changes that struct. *)
Lemma dec_members_lift {S T} (get : T → S) (set : S → T → T) fs0 fs m t :
  lens get set → embeds get set fs0 fs → keys_in (map fst fs0) m →
  dec_members fs m t = '(a, e) ← dec_members fs0 m (get t); Ok (set a t, e).
Proof.
  intros [Hgs Hss Hsg] Hemb Hkeys. revert t.
  induction Hkeys as [|[k v] m (name & Hn & Hk) Hm IH]; intros t; simpl.
  { by rewrite Hsg. }
  simpl in Hk. rewrite Hk.
  destruct (find_name_some fs0 name Hn) as [f Hf].
  assert (find_field fs0 (s2b name) = Some f.2) as Hf0 by (unfold find_field; by rewrite Hf).
  assert (find_field fs (s2b name) = Some (lift_field get set f).2) as Hf1.
  { unfold embeds in Hemb. rewrite Forall_forall in Hemb.
    specialize (Hemb _ (proj1 (list_elem_of_In _ _) Hn)). unfold find_field.
    rewrite (find_map_lift get set), Hf in Hemb.
    unfold field in *. revert Hemb. destruct (List.find _ fs) as [g|]; cbn; intros Hemb; [|done].
    by injection Hemb as <-. }
  rewrite Hf0, Hf1. cbn [lift_field field_at snd].
  destruct (f.2 v (get t)) as [[a e]| |]; [|done..]. cbn.
  rewrite IH, Hgs. destruct (dec_members fs0 m a) as [[a' e']| |]; [|done..]. cbn.
  by rewrite Hss.
Qed.

Lemma dec_members_lift_done {S T} (get : T → S) (set : S → T → T) fs0 fs m t a :
  lens get set → embeds get set fs0 fs → keys_in (map fst fs0) m →
  dec_members fs0 m (get t) = done_with a → dec_members fs m t = done_with (set a t).
Proof. intros Hl He Hk Hd. by rewrite (dec_members_lift get set fs0 fs m t Hl He Hk), Hd. Qed.

(** *** Slices without a nil state *)
Definition dec_vec {A} (dec : decoder A) (zero : A) : decoder (list A) := λ t cur,
  '(r, e) ← dec_slice dec zero t (Some cur); Ok (default [] r, e).

Lemma dec_list_map {A B} (dec : decoder A) zero (enc : B → json) (f : B → A) l :
  Forall (λ x, dec (enc x) zero = done_with (f x)) l →
  dec_list dec zero (map enc l) = done_with (map f l).
Proof. induction 1 as [|x l Hx Hl IH]; [done|]. simpl. rewrite Hx. cbn. by rewrite IH. Qed.

Lemma dec_vec_map {A B} (dec : decoder A) zero (enc : B → json) (f : B → A) l cur :
  Forall (λ x, dec (enc x) zero = done_with (f x)) l →
  dec_vec dec zero (JArr (map enc l)) cur = done_with (map f l).
Proof. intros H. unfold dec_vec, dec_slice. by rewrite (dec_list_map _ _ _ f). Qed.

(** *** Documents *)

(** [json.Marshal] of a struct with the given members. *)
Definition marshal_obj (m : result (list (bytes * json))) : result bytes :=
  (λ m, json_print (JObj m)) <$> m.

(** Members a scanner accepts, nested at most [d] deep. *)
Definition members_ok (d : N) (m : list (bytes * json)) : Prop :=
  Forall (λ kv, raw_ok kv.1 = true ∧ json_wf kv.2 = true ∧ (json_depth kv.2 <= d)%N) m.

Lemma members_ok_app d m1 m2 : members_ok d m1 → members_ok d m2 → members_ok d (m1 ++ m2).
Proof. apply Forall_app_2. Qed.

Lemma members_ok_omitempty d e name t :
  json_wf t = true → (json_depth t <= d)%N → members_ok d (omitempty e name t).
Proof.
  intros Hw Hd. destruct e; simpl; [constructor|]. repeat constructor; [|done..].
  apply raw_ok_quote.
Qed.

Lemma members_ok_wf d m : members_ok d m → json_wf (JObj m) = true.
Proof.
  intros H. simpl. apply forallb_forall. intros kv Hin.
  unfold members_ok in H. rewrite List.Forall_forall in H.
  destruct (H kv Hin) as (-> & -> & _). done.
Qed.

Lemma members_ok_depth d m : members_ok d m → (json_depth (JObj m) <= 1 + d)%N.
Proof.
  intros H. cbn [json_depth]. enough (fold_right N.max 0%N (map (λ kv, json_depth kv.2) m) <= d)%N by lia.
  induction H as [|kv m (_ & _ & Hd) Hm IH]; simpl; lia.
Qed.

Lemma unmarshal_obj {A} (dec : decoder A) d m cur :
  members_ok d m → (1 + d <= maxNestingDepth)%N →
  json_Unmarshal dec (json_print (JObj m)) cur = finish (dec (JObj m) cur).
Proof.
  intros Hm Hd. apply json_Unmarshal_print; [by eapply members_ok_wf|].
  pose proof (members_ok_depth d m Hm). lia.
Qed.

Lemma json_wf_strings l (f : string → json) : (∀ s, json_wf (f s) = true) →
  json_wf (JArr (map f l)) = true.
Proof. intros H. simpl. induction l as [|s l IH]; [done|]. simpl. by rewrite H, IH. Qed.

Lemma json_depth_flat {A} (f : A → json) l : (∀ s, json_depth (f s) = 0%N) →
  (json_depth (JArr (map f l)) <= 1)%N.
Proof.
  intros H. cbn [json_depth]. enough (fold_right N.max 0%N (map json_depth (map f l)) = 0%N) by lia.
  induction l as [|s l IH]; [done|]. simpl. by rewrite H, IH.
Qed.

Lemma json_wf_enc_string s : json_wf (enc_string s) = true.
Proof. apply raw_ok_quote. Qed.
Lemma json_wf_enc_int64 z : json_wf (enc_int64 z) = true.
Proof. apply num_ok_print_int. Qed.

#[export] Hint Resolve json_wf_enc_string json_wf_enc_int64 : gose.

(** *** Safe decoders

    A decoder is safe for [P] when it never panics and keeps [P]. *)
Definition dec_safe {A} (P : A → Prop) (dec : decoder A) : Prop :=
  ∀ t a, P a → dec t a ≠ Panic ∧ ∀ b e, dec t a = Ok (b, e) → P b.

(** The same from one starting value only. *)
Definition dec_safe_from {A} (zero : A) (P : A → Prop) (dec : decoder A) : Prop :=
  ∀ t, dec t zero ≠ Panic ∧ ∀ b e, dec t zero = Ok (b, e) → P b.

Lemma dec_safe_at {A} zero (P : A → Prop) dec : dec_safe P dec → P zero → dec_safe_from zero P dec.
Proof. intros H Hz t. by apply H. Qed.

Lemma safe_Ok {A} (P : A → Prop) a e' : P a →
  (Ok (a, e') : decoded A) ≠ Panic ∧ ∀ b e, (Ok (a, e') : decoded A) = Ok (b, e) → P b.
Proof. intros Ha. split; [done|]. by intros b e [= <- <-]. Qed.

Lemma dec_safe_string : dec_safe (λ _, True) dec_string.
Proof. intros t a _. split; [by destruct t|done]. Qed.

Lemma dec_safe_int64 : dec_safe (λ z, in_int64 z = true) dec_int64.
Proof.
  intros t a Ha. unfold dec_int64. destruct t as [| |lit| | |]; try by apply safe_Ok.
  destruct (parse_int lit) as [z|] eqn:Hp; apply safe_Ok; [|done].
  unfold parse_int in Hp. repeat case_match; by simplify_eq.
Qed.

Lemma dec_safe_list {A} zero (P : A → Prop) dec l : dec_safe_from zero P dec →
  dec_list dec zero l ≠ Panic ∧ ∀ b e, dec_list dec zero l = Ok (b, e) → Forall P b.
Proof.
  intros Hd. induction l as [|t l [IHn IHp]]; simpl; [split; [done|by intros b e [= <- <-]]|].
  destruct (Hd t) as [Hn Hp]. destruct (dec t zero) as [[a e1]| |]; [|done..]. cbn.
  destruct (dec_list dec zero l) as [[r e2]| |]; [|done..]. cbn. split; [done|].
  intros b e [= <- <-]. constructor; [by eapply Hp|by eapply IHp].
Qed.

Lemma dec_safe_vec {A} zero (P : A → Prop) dec : dec_safe_from zero P dec →
  dec_safe (Forall P) (dec_vec dec zero).
Proof.
  intros Hd t a Ha. unfold dec_vec, dec_slice. destruct t as [| | | |l|];
    try (cbn; apply (safe_Ok (Forall P)); first [done|constructor]).
  destruct (dec_safe_list zero P dec l Hd) as [Hn Hp].
  destruct (dec_list dec zero l) as [[r e2]| |]; [|done..]. cbn. split; [done|].
  intros b e [= <- <-]. by eapply Hp.
Qed.

Lemma dec_safe_unmarshaler {A} zero (P : A → Prop) u :
  (∀ b, u b ≠ Panic) → (∀ b a, u b = Ok a → P a) → dec_safe_from zero P (dec_unmarshaler u).
Proof.
  intros Hn Hp t. unfold dec_unmarshaler. specialize (Hn (json_print t)). specialize (Hp (json_print t)).
  destruct (u (json_print t)); [|done..]. cbn. split; [done|]. intros b e [= <- <-]. by apply Hp.
Qed.

Lemma dec_safe_unmarshaler' {A} (P : A → Prop) u :
  (∀ b, u b ≠ Panic) → (∀ b a, u b = Ok a → P a) → dec_safe P (dec_unmarshaler u).
Proof. intros Hn Hp t a _. by apply (dec_safe_unmarshaler a). Qed.

Lemma dec_safe_ptr {A} (P : A → Prop) u :
  (∀ b, u b ≠ Panic) → (∀ b a, u b = Ok a → P a) → dec_safe (λ o, ∀ a, o = Some a → P a) (dec_ptr u).
Proof.
  intros Hn Hp t a _.
  assert (∀ b, (x ← u b; done_with (Some x)) ≠ Panic ∧
    ∀ o e, (x ← u b; done_with (Some x)) = Ok (o, e) → ∀ a, o = Some a → P a) as Hu.
  { intros b. specialize (Hn b). specialize (Hp b). destruct (u b); [|done..]. cbn. split; [done|].
    intros o e [= <- <-] x [= <-]. by apply Hp. }
  destruct t; [by apply safe_Ok|apply Hu..].
Qed.

Lemma dec_safe_field_at {S A} (P : S → Prop) (Q : A → Prop) name get set dec :
  dec_safe Q dec → (∀ s, P s → Q (get s)) → (∀ a s, Q a → P s → P (set a s)) →
  dec_safe P (field_at name get set dec).2.
Proof.
  intros Hd Hg Hs t s HP. cbn [field_at snd]. destruct (Hd t (get s) (Hg s HP)) as [Hn Hp].
  destruct (dec t (get s)) as [[a e]| |]; [|done..]. cbn. split; [done|].
  intros b e' [= <- <-]. apply Hs; [by eapply Hp|done].
Qed.

Definition fields_safe {S} (P : S → Prop) (fs : list (field S)) : Prop := Forall (λ f, dec_safe P f.2) fs.

Lemma fields_safe_lift {S T} (P : T → Prop) (Q : S → Prop) get set fs :
  fields_safe Q fs → (∀ s, P s → Q (get s)) → (∀ a s, Q a → P s → P (set a s)) →
  fields_safe P (map (lift_field get set) fs).
Proof.
  intros Hf Hg Hs. induction Hf as [|f fs Hd Hf IH]; constructor; [|done].
  by eapply dec_safe_field_at.
Qed.

Lemma find_field_in {S} (fs : list (field S)) k dec : find_field fs k = Some dec → ∃ f, In f fs ∧ f.2 = dec.
Proof.
  unfold find_field, field in *. intros E. case_match eqn:Hf.
  - injection E as E. eexists. split; [|exact E]. by apply find_some in Hf as [? _].
  - apply fmap_Some in E as (f & Hf' & E). exists f. by apply find_some in Hf' as [? _].
Qed.

Lemma dec_safe_members {S} (P : S → Prop) fs m s : fields_safe P fs → P s →
  dec_members fs m s ≠ Panic ∧ ∀ b e, dec_members fs m s = Ok (b, e) → P b.
Proof.
  intros Hf. revert s. induction m as [|[k t] m IH]; intros s HP; simpl.
  { split; [done|]. by intros b e [= <- <-]. }
  destruct (find_field fs (unquote k)) as [dec|] eqn:Hk.
  - apply find_field_in in Hk as (f & Hin & <-). unfold fields_safe in Hf. rewrite List.Forall_forall in Hf.
    destruct (Hf f Hin t s HP) as [Hn Hp].
    destruct (f.2 t s) as [[s1 e1]| |]; [|done..]. cbn. specialize (Hp _ _ eq_refl).
    destruct (IH s1 Hp) as [IHn IHp]. destruct (dec_members fs m s1) as [[s2 e2]| |]; [|done..].
    cbn. split; [done|]. intros b e [= <- <-]. by eapply IHp.
  - cbn. destruct (IH s HP) as [IHn IHp]. destruct (dec_members fs m s) as [[s2 e2]| |]; [|done..].
    cbn. split; [done|]. intros b e [= <- <-]. by eapply IHp.
Qed.

Lemma dec_safe_struct {S} (P : S → Prop) fs : fields_safe P fs → dec_safe P (dec_struct fs).
Proof.
  intros Hf t s HP. destruct t; try by apply safe_Ok. by apply dec_safe_members.
Qed.

Lemma json_Unmarshal_safe {A} (P : A → Prop) dec src cur : dec_safe P dec → P cur →
  json_Unmarshal dec src cur ≠ Panic ∧ ∀ a, json_Unmarshal dec src cur = Ok a → P a.
Proof.
  intros Hd HP. unfold json_Unmarshal. destruct (json_parse src) as [t|]; [|done].
  destruct (Hd t cur HP) as [Hn Hp]. split.
  - by destruct (dec t cur) as [[? []]| |].
  - intros a Ha%finish_Ok. by eapply Hp.
Qed.

Lemma dec_safe_uint8 : dec_safe (λ _, True) dec_uint8.
Proof.
  intros t a _. unfold dec_uint8. destruct t as [| |lit| | |]; try by apply safe_Ok.
  destruct (parse_int lit) as [z|]; [|by apply safe_Ok]. by destruct (_ && _); apply safe_Ok.
Qed.

Lemma dec_safe_slice {A} zero (dec : decoder A) : dec_safe_from zero (λ _, True) dec →
  dec_safe (λ _, True) (dec_slice dec zero).
Proof.
  intros Hd t a _. unfold dec_slice. destruct t as [| | | |l|]; try by apply safe_Ok.
  destruct (dec_safe_list zero _ dec l Hd) as [Hn _].
  destruct (dec_list dec zero l) as [[r e]| |]; [|done..]. by apply safe_Ok.
Qed.

Lemma dec_safe_bytes : dec_safe (λ _, True) dec_bytes.
Proof.
  intros t a _. unfold dec_bytes.
  destruct t; try (apply dec_safe_slice; [apply dec_safe_at; [apply dec_safe_uint8|done]|done]).
  by destruct (b64_decode _ _); apply safe_Ok.
Qed.

Lemma dec_safe_raw_map : dec_safe (λ _, True) dec_raw_map.
Proof. intros t a _. by destruct t; apply safe_Ok. Qed.

(** A decoder that never panics. *)
Lemma dec_safe_total {A} (P : A → Prop) dec : dec_safe (λ _, True) dec → (∀ a, P a) → dec_safe P dec.
Proof. intros Hd HP t a _. split; [by apply Hd|done]. Qed.

Lemma dec_safe_field_total {S A} name get set (dec : decoder A) :
  dec_safe (λ _, True) dec → dec_safe (λ _ : S, True) (field_at name get set dec).2.
Proof. intros Hd. by eapply dec_safe_field_at. Qed.

Lemma dec_safe_vec_total {A} zero (dec : decoder A) : dec_safe (λ _, True) dec →
  dec_safe (λ _, True) (dec_vec dec zero).
Proof.
  intros Hd t a _. destruct (dec_safe_vec zero (λ _, True) dec (dec_safe_at _ _ _ Hd I) t a) as [Hn _]; [|done].
  by apply list.Forall_forall.
Qed.

Lemma dec_safe_ptr_total {A} (u : bytes → result A) : (∀ b, u b ≠ Panic) → dec_safe (λ _, True) (dec_ptr u).
Proof.
  intros Hu t a _. by destruct (dec_safe_ptr (λ _, True) u Hu (λ _ _ _, I) t None).
Qed.

(** *** Escaping twice changes nothing *)
Definition inert (c : Byte.byte) : bool := negb ((c =b "<") || (c =b ">") || (c =b "&") || (c =b xe2)).

Lemma html_escape_inert c r : inert c = true → html_escape (c :: r) = c :: html_escape r.
Proof.
  unfold inert. intros H. cbn [html_escape]. unfold is_line_sep.
  destruct (c =b "<"), (c =b ">"), (c =b "&"), (c =b xe2); try done.
  by destruct r as [|? [|? ?]].
Qed.

Lemma html_escape_inerts l r : forallb inert l = true → html_escape (l ++ r) = l ++ html_escape r.
Proof.
  induction l as [|c l IH]; [done|]. cbn [forallb app]. intros [Hc Hl]%andb_prop.
  by rewrite html_escape_inert, IH.
Qed.

Lemma inert_quote_ascii c : (b2n c < 128)%N → forallb inert (quote_ascii c) = true.
Proof. intros H. destruct c; first [by vm_compute in H|reflexivity]. Qed.

Lemma inert_range c : (128 <= b2n c)%N → (b2n c ≠ 226)%N → inert c = true.
Proof. intros H1 H2. destruct c; first [reflexivity|vm_compute in H1; congruence|by destruct H2]. Qed.

Lemma inert_cont c : is_cont c = true → inert c = true.
Proof. unfold is_cont, in_range. intros H. apply inert_range; lia. Qed.

Lemma html_escape_3 c c1 c2 r :
  is_line_sep c c1 c2 = false → (128 <= b2n c)%N → inert c1 = true → inert c2 = true →
  html_escape (c :: c1 :: c2 :: r) = c :: c1 :: c2 :: html_escape r.
Proof.
  intros Hs Hc H1 H2. cbn [html_escape] in *. rewrite Hs.
  assert (((c =b "<") || (c =b ">") || (c =b "&")) = false) as ->.
  { destruct c; first [reflexivity|by vm_compute in Hc]. }
  f_equal. change (html_escape (c1 :: c2 :: r) = c1 :: c2 :: html_escape r).
  by rewrite !html_escape_inert.
Qed.

(** The pieces of a rune. *)
Lemma utf8_pieces c r :
  match utf8_width c r, r with
  | 1%nat, _ => (b2n c < 128)%N
  | 2%nat, c1 :: _ => inert c = true ∧ inert c1 = true
  | 3%nat, c1 :: c2 :: _ => (128 <= b2n c)%N ∧ inert c1 = true ∧ inert c2 = true
  | 4%nat, c1 :: c2 :: c3 :: _ => inert c = true ∧ inert c1 = true ∧ inert c2 = true ∧ inert c3 = true
  | _, _ => True
  end.
Proof.
  unfold utf8_width. destruct (N.ltb_spec (b2n c) 0x80); [done|].
  destruct r as [|c1 r1]; [done|].
  destruct (_ && is_cont c1) eqn:H1.
  { apply andb_prop in H1 as [H1 Hc]. split; [apply inert_range; lia|by apply inert_cont]. }
  destruct r1 as [|c2 r2]; [done|].
  destruct (second_of_3 _ _ && _) eqn:H2.
  { apply andb_prop in H2 as [H2 Hc]. split_and!; [done| |by apply inert_cont].
    unfold second_of_3, is_cont, in_range in H2. apply inert_range; repeat case_match; lia. }
  destruct r2 as [|c3 r3]; [done|].
  destruct (second_of_4 _ _ && _ && _) eqn:H3; [|done].
  apply andb_prop in H3 as [H3 Hc3]. apply andb_prop in H3 as [H3 Hc2].
  unfold second_of_4, is_cont, in_range in H3.
  split_and!; [apply inert_range; repeat case_match; lia..|by apply inert_cont|by apply inert_cont].
Qed.

Lemma html_escape_quote s : html_escape (quote s) = quote s.
Proof.
  induction s as [s IH] using list_len_ind. destruct s as [|c r]; [done|].
  cbn [quote]. pose proof (utf8_pieces c r) as V.
  assert (html_escape ([bs; "u"; "f"; "f"; "f"; "d"]%byte ++ quote r) =
    [bs; "u"; "f"; "f"; "f"; "d"]%byte ++ quote r) as Herr.
  { rewrite html_escape_inerts by done. rewrite IH; [done|simpl; lia]. }
  destruct (utf8_width c r) as [|[|[|[|[|n]]]]], r as [|c1 [|c2 [|c3 r3]]]; try exact Herr;
    try (rewrite html_escape_inerts by (by apply inert_quote_ascii); rewrite IH; [done|simpl; lia]);
    try (destruct V as (V1 & V2); rewrite !html_escape_inert by done; rewrite IH; [done|simpl; lia]);
    try (destruct V as (V1 & V2 & V3 & V4); rewrite !html_escape_inert by done; rewrite IH; [done|simpl; lia]);
    destruct V as (V1 & V2 & V3); (destruct (is_line_sep c c1 c2) eqn:Hs;
      [rewrite html_escape_inerts; [rewrite IH; [done|simpl; lia]|]
      |cbn [app]; rewrite html_escape_3 by done; rewrite IH; [done|simpl; lia]]).
  all: unfold is_line_sep in Hs; destruct c2; first [by rewrite !andb_false_r in Hs|reflexivity].
Qed.

Lemma compact_enc_string s : compact (enc_string s) = enc_string s.
Proof. unfold enc_string. cbn. by rewrite html_escape_quote. Qed.

Lemma compact_strings l : compact (JArr (map enc_string l)) = JArr (map enc_string l).
Proof. cbn. f_equal. rewrite map_map. apply map_ext. apply compact_enc_string. Qed.

(** ** Automation for fields and their names

    [each_field] splits the obligations of a field list; [find_name] looks a literal
    member name up; [in_names] finds it in a list of names. *)
Ltac each_field := unfold fields_safe; repeat apply Forall_cons_2; try apply Forall_nil_2.
Ltac in_names := apply list_elem_of_In; vm_compute; tauto.
Ltac find_name := first [reflexivity | vm_compute; reflexivity].
Ltac solve_embeds := repeat constructor.
