(* ===== verification/Types.v ===== *)
(** [jose/types.go]: the identifiers of the JOSE registries, the parser bounds,
    and the base64url members of a JWK ([BigNum], [Blob]).

    [type Alg string] and its siblings are plain Go strings.  A [big.Int] that
    only ever comes from [SetBytes] is not negative, so [BigNum] is an [N]. *)

From S2P Require Import Prelude Errors Base64 Json JsonFacts JsonCodec.

Abbreviation Alg := string.
Abbreviation Crv := string.
Abbreviation Kty := string.
Abbreviation KeyUse := string.
Abbreviation KeyOps := string.
Abbreviation JwsType := string.
Abbreviation Enc := string.
Abbreviation Zip := string.

Definition AlgRS256 : Alg := "RS256".
Definition AlgRS384 : Alg := "RS384".
Definition AlgRS512 : Alg := "RS512".
Definition AlgPS256 : Alg := "PS256".
Definition AlgPS384 : Alg := "PS384".
Definition AlgPS512 : Alg := "PS512".
Definition AlgES256 : Alg := "ES256".
Definition AlgES384 : Alg := "ES384".
Definition AlgES512 : Alg := "ES512".
Definition AlgA128GCM : Alg := "A128GCM".
Definition AlgA192GCM : Alg := "A192GCM".
Definition AlgA256GCM : Alg := "A256GCM".
Definition AlgA256CBC : Alg := "A256CBC".
Definition AlgDir : Alg := "dir".
Definition AlgRSAOAEP : Alg := "RSA-OAEP".
Definition AlgRSAOAEPSHA1 : Alg := "RSA-OAEP".
Definition AlgRSAOAEPSHA2 : Alg := "RSA-OAEP-256".

Definition CrvP256 : Crv := "P-256".
Definition CrvP384 : Crv := "P-384".
Definition CrvP521 : Crv := "P-521".

Definition KtyRSA : Kty := "RSA".
Definition KtyEC : Kty := "EC".
Definition KtyOct : Kty := "oct".

Definition KeyUseEnc : KeyUse := "enc".
Definition KeyUseSig : KeyUse := "sig".

Definition KeyOpsSign : KeyOps := "sign".
Definition KeyOpsVerify : KeyOps := "verify".
Definition KeyOpsEncrypt : KeyOps := "encrypt".
Definition KeyOpsDecrypt : KeyOps := "decrypt".
Definition KeyOpsWrapKey : KeyOps := "wrapKey".
Definition KeyOpsUnwrapKey : KeyOps := "unwrapKey".
Definition KeyOpsDeriveKey : KeyOps := "deriveKey".
Definition KeyOpsDeriveBits : KeyOps := "deriveBits".

Definition JwtType : JwsType := "JWT".

Definition EncA128GCM : Enc := "A128GCM".
Definition EncA192GCM : Enc := "A192GCM".
Definition EncA256GCM : Enc := "A256GCM".
Definition EncA256CBC : Enc := "A256CBC".

Definition DeflateZip : Zip := "DEF".

(** ** Parser bounds *)
Definition MaxCompactSize : N := 1048576.
Definition MaxJwksSize : N := 1048576.
Definition MaxBlobSize : N := 65536.

(** ** Base64 members *)
Definition unmarshalJSONBlob (src : bytes) (enc : encoding) : result bytes :=
  let srcLen := len src in
  if (srcLen <? 3)%N || negb (bool_decide (src !! 0 = Some dq)) || negb (bool_decide (src !! (length src - 1) = Some dq))
  then jose_err Jose.ErrBlobEmpty
  else if (MaxBlobSize <? DecodedLen enc (srcLen - 2))%N then jose_err Jose.ErrInputTooLarge
  else from_option_err (EStd Base64Corrupt)
         (b64_decode enc (take (length src - 2) (drop 1 src))).

Definition marshalJSONBlob (src : bytes) (enc : encoding) : result bytes :=
  match src with
  | [] => jose_err Jose.ErrBlobEmpty
  | _ => Ok (quoted (b64_encode enc src))
  end.

(** ** [BigNum] *)
Definition BigNum := N.

Definition BigNum_SetBytes (val : bytes) : BigNum := be_to_N val.
(** [b.b.SetBytes(val.Bytes())]: the absolute value. *)
Definition BigNum_Set (val : Z) : BigNum := be_to_N (be_bytes (Z.abs_N val)).
Definition BigNum_Int (b : BigNum) : N := b.
Definition BigNum_Empty (b : BigNum) : bool := (BitLen b =? 0)%N.
Definition BigNum_MarshalJSON (b : BigNum) : result bytes := marshalJSONBlob (be_bytes b) RawURLEncoding.
Definition BigNum_UnmarshalJSON (src : bytes) : result BigNum :=
  dst ← unmarshalJSONBlob src RawURLEncoding; Ok (BigNum_SetBytes dst).

(** ** [Blob] *)
Definition Blob := bytes.

Definition Blob_Bytes (b : Blob) : bytes := b.
Definition Blob_SetBytes (val : bytes) : Blob := val.
Definition Blob_UnmarshalJSON (src : bytes) : result Blob := unmarshalJSONBlob src RawURLEncoding.
Definition Blob_MarshalJSON (b : Blob) : result bytes := marshalJSONBlob b RawURLEncoding.

(** Decode base64url, then JSON, into [inst]. *)
Definition unmarshalURLBase64 {A} (data : string) (dec : decoder A) (inst : A) : result A :=
  raw ← DecodeString RawURLEncoding data;
  json_Unmarshal dec raw inst.

(** ** Facts *)

Lemma unmarshal_quoted raw e :
  raw ≠ [] → unmarshalJSONBlob (quoted raw) e =
    if (MaxBlobSize <? DecodedLen e (len raw))%N then jose_err Jose.ErrInputTooLarge
    else from_option_err (EStd Base64Corrupt) (b64_decode e raw).
Proof.
  intros Hne. unfold unmarshalJSONBlob, quoted.
  assert (len (dq :: raw ++ [dq]) = len raw + 2)%N as ->.
  { unfold len. cbn [length]. rewrite length_app. cbn [length]. lia. }
  assert (len raw ≠ 0)%N as Hl by (destruct raw; [done|unfold len; simpl; lia]).
  destruct (N.ltb_spec (len raw + 2) 3); [lia|].
  rewrite bool_decide_true by done.
  rewrite (bool_decide_true (_ !! (_ - 1) = _)).
  2:{ cbn [length]. rewrite length_app. cbn [length].
      replace (S (length raw + 1) - 1) with (S (length raw)) by lia.
      change ((raw ++ [dq]) !! length raw = Some dq). by apply list_lookup_middle. }
  cbn [negb orb]. replace (len raw + 2 - 2)%N with (len raw) by lia.
  cbn [length]. rewrite length_app. cbn [length].
  replace (S (length raw + 1) - 2) with (length raw) by lia.
  change (drop 1 (dq :: raw ++ [dq])) with (raw ++ [dq]). by rewrite take_app_length.
Qed.

(** A blob that was marshalled is read back, unless it exceeds the bound. *)
Lemma unmarshal_marshal_blob b e s : marshalJSONBlob b e = Ok s →
  (DecodedLen e (EncodedLen e (len b)) <= MaxBlobSize)%N → unmarshalJSONBlob s e = Ok b.
Proof.
  intros Hm Hl. destruct b as [|x b]; [done|].
  assert (s = quoted (b64_encode e (x :: b))) as -> by (by injection Hm).
  rewrite unmarshal_quoted by (by rewrite b64_encode_nil).
  rewrite b64_encode_length. destruct (N.ltb_spec MaxBlobSize (DecodedLen e (EncodedLen e (len (x :: b))))); [lia|].
  by rewrite b64_decode_encode.
Qed.

(** The JSON form of a blob: base64 text needs no escape. *)
Definition plain_char (c : Byte.byte) : bool :=
  negb ((c =b x22) || (c =b x5c) || (b2n c <? 32)%N || (c =b "<") || (c =b ">") || (c =b "&") || (c =b xe2)).

Lemma enc_char_plain e v : (v < 64)%N → plain_char (enc_char e v) = true.
Proof.
  revert v. change 64%N with (N.of_nat 64).
  apply (N_forall_lt _ (λ v, plain_char (enc_char e v))). by destruct e; vm_compute.
Qed.

Lemma b64_encode_plain e b : Forall (λ c, plain_char c = true) (b64_encode e b).
Proof.
  induction b as [|x|x y|x y z l IH] using list_ind3; [constructor|..]; byte_bounds; cbn [b64_encode].
  - unfold enc1. destruct e; cbn; repeat constructor; try apply enc_char_plain; lia.
  - unfold enc2. destruct e; cbn; repeat constructor; try apply enc_char_plain; lia.
  - unfold enc3. cbn. repeat constructor; try apply enc_char_plain; [lia..|done].
Qed.

Lemma raw_ok_plain s : Forall (λ c, plain_char c = true) s → raw_ok s = true.
Proof.
  induction 1 as [|c l Hc Hl IH]; [done|]. unfold plain_char in Hc. cbn [raw_ok].
  destruct (byte_eqb_spec c x22); [by subst|].
  destruct (byte_eqb_spec c x5c); [by subst|].
  destruct (N.ltb_spec (b2n c) 32); [|done].
  exfalso. destruct (N.ltb_spec (b2n c) 32); [|lia]. by destruct (c =b x22), (c =b x5c).
Qed.

Lemma plain_char_not c x : plain_char c = true →
  x ∈ [x22; x5c; "<"; ">"; "&"; xe2]%byte → (c =b x) = false.
Proof.
  intros Hc Hx. destruct (byte_eqb_spec c x) as [->|]; [|done]. exfalso. revert Hc.
  repeat (apply elem_of_cons in Hx as [->|Hx]; [by vm_compute|]). by apply elem_of_nil in Hx.
Qed.

Lemma html_escape_plain s : Forall (λ c, plain_char c = true) s → html_escape s = s.
Proof.
  induction 1 as [|c l Hc Hl IH]; [done|]. cbn [html_escape]. unfold is_line_sep.
  rewrite !(plain_char_not c) by (done || set_solver). cbn [orb andb]. rewrite IH.
  by destruct l as [|? [|? ?]].
Qed.

Lemma raw_ok_b64 e b : raw_ok (b64_encode e b) = true.
Proof. apply raw_ok_plain, b64_encode_plain. Qed.
Lemma html_escape_b64 e b : html_escape (b64_encode e b) = b64_encode e b.
Proof. apply html_escape_plain, b64_encode_plain. Qed.

Lemma enc_marshal_blob e b : b ≠ [] →
  enc_marshaler (marshalJSONBlob b e) = Ok (JStr (b64_encode e b)).
Proof.
  intros Hb. unfold enc_marshaler, marshalJSONBlob. destruct b as [|x b]; [done|].
  cbn [wrap_err mbind res_bind].
  change (quoted ?r) with (json_print (JStr r)).
  rewrite json_parse_print; [|apply raw_ok_b64|done].
  cbn [compact]. by rewrite html_escape_b64.
Qed.

Lemma enc_blob b : b ≠ [] →
  enc_marshaler (Blob_MarshalJSON b) = Ok (JStr (b64_encode RawURLEncoding b)).
Proof. apply enc_marshal_blob. Qed.

Lemma enc_bignum n : n ≠ 0%N →
  enc_marshaler (BigNum_MarshalJSON n) = Ok (JStr (b64_encode RawURLEncoding (be_bytes n))).
Proof.
  intros Hn. apply (enc_blob (be_bytes n)). by rewrite be_bytes_nil.
Qed.

Lemma enc_bignum_0 : enc_marshaler (BigNum_MarshalJSON 0%N) =
  Err (EWrap "json: error calling MarshalJSON" (EJose Jose.ErrBlobEmpty)).
Proof. done. Qed.

Lemma dec_blob b : b ≠ [] → (len b <= MaxBlobSize)%N →
  Blob_UnmarshalJSON (json_print (JStr (b64_encode RawURLEncoding b))) = Ok b.
Proof.
  intros Hb Hl. unfold Blob_UnmarshalJSON. eapply unmarshal_marshal_blob.
  - by destruct b.
  - by rewrite DecodedLen_EncodedLen_raw.
Qed.

Lemma dec_bignum n : n ≠ 0%N → (len (be_bytes n) <= MaxBlobSize)%N →
  BigNum_UnmarshalJSON (json_print (JStr (b64_encode RawURLEncoding (be_bytes n)))) = Ok n.
Proof.
  intros Hn Hl. unfold BigNum_UnmarshalJSON.
  change (unmarshalJSONBlob ?x RawURLEncoding) with (Blob_UnmarshalJSON x).
  rewrite dec_blob; [|by rewrite be_bytes_nil|done].
  cbn. unfold BigNum_SetBytes. by rewrite be_to_N_bytes.
Qed.

(** What a member decodes to is bounded, whatever the document says. *)
Lemma decode_quanta_bound e src dst :
  decode_quanta e src = Some dst → (len dst <= DecodedLen e (len src))%N.
Proof.
  destruct e; [intros H%decode_quanta_length; lia|].
  revert dst. induction src as [|a|a b|a b c|a b c d l IH] using list_ind4;
    intros dst H; cbn -[len DecodedLen] in H; simplify_eq; try done;
    repeat case_match; simplify_eq; try done.
  - apply fmap_Some in H as (r & Hr & ->). specialize (IH _ Hr).
    unfold DecodedLen in *. rewrite !len_cons. unfold len in *. rewrite length_app.
    unfold dec4. cbn [length]. lia.
Qed.

Lemma unmarshalJSONBlob_bound src e dst :
  unmarshalJSONBlob src e = Ok dst → (len dst <= MaxBlobSize)%N.
Proof.
  unfold unmarshalJSONBlob. intros H. inv_res.
  destruct (_ || _) in H; [done|].
  destruct (N.ltb_spec MaxBlobSize (DecodedLen e (len src - 2))) as [|Hle]; [done|].
  destruct (b64_decode e _) as [d|] eqn:Hd; [|done]. injection H as <-.
  unfold b64_decode in Hd. apply decode_quanta_bound in Hd.
  etransitivity; [exact Hd|]. etransitivity; [|exact Hle].
  pose proof (length_filter (λ c, is_newline c = false) (take (length src - 2) (drop 1 src))) as Hf.
  rewrite length_take in Hf. unfold DecodedLen, len. destruct e; lia.
Qed.

(** Base64 text denotes itself in a JSON string. *)
Definition ascii_plain (c : Byte.byte) : bool := (b2n c <? 128)%N && negb (c =b x5c).

Lemma b64_encode_ascii e b : Forall (λ c, ascii_plain c = true) (b64_encode e b).
Proof.
  assert (∀ v, (v < 64)%N → ascii_plain (enc_char e v) = true) as He.
  { intros v. change 64%N with (N.of_nat 64).
    apply (N_forall_lt _ (λ v, ascii_plain (enc_char e v))). by destruct e; vm_compute. }
  induction b as [|x|x y|x y z l IH] using list_ind3; [constructor|..]; byte_bounds; cbn [b64_encode].
  - unfold enc1. destruct e; cbn; repeat constructor; try apply He; lia.
  - unfold enc2. destruct e; cbn; repeat constructor; try apply He; lia.
  - unfold enc3. cbn. repeat constructor; try apply He; [lia..|done].
Qed.

Lemma unquote_ascii_plain s : Forall (λ c, ascii_plain c = true) s → unquote s = s.
Proof.
  induction 1 as [|c l Hc Hl IH]; [done|]. unfold ascii_plain in Hc. apply andb_prop in Hc as [Ha Hb].
  cbn [unquote]. destruct (c =b x5c); [done|]. unfold utf8_width. rewrite Ha. by rewrite IH.
Qed.

Lemma unquote_b64 e b : unquote (b64_encode e b) = b64_encode e b.
Proof. apply unquote_ascii_plain, b64_encode_ascii. Qed.

Lemma dec_enc_bytes b cur : dec_bytes (enc_bytes b) cur = done_with b.
Proof. destruct b as [b|]; [|done]. cbn [enc_bytes dec_bytes]. by rewrite unquote_b64, b64_decode_encode. Qed.

(** *** What the members can decode to *)
Lemma unmarshalJSONBlob_no_panic src e : unmarshalJSONBlob src e ≠ Panic.
Proof.
  unfold unmarshalJSONBlob. destruct (_ || _); [done|]. destruct (N.ltb _ _); [done|].
  by destruct (b64_decode e _).
Qed.

Lemma BigNum_no_panic src : BigNum_UnmarshalJSON src ≠ Panic.
Proof. apply bind_no_panic; [apply unmarshalJSONBlob_no_panic|done]. Qed.

Lemma Blob_no_panic src : Blob_UnmarshalJSON src ≠ Panic.
Proof. apply unmarshalJSONBlob_no_panic. Qed.

(** A number whose bytes fit the bound of a member. *)
Definition bn_bounded (n : BigNum) : Prop := (len (be_bytes n) <= MaxBlobSize)%N.

Lemma be_bytes_to_N_len l : (len (be_bytes (be_to_N l)) <= len l)%N.
Proof.
  unfold len. pose proof (be_bytes_length_le (be_to_N l) (length l) (be_to_N_bound l)). lia.
Qed.

Lemma BigNum_UnmarshalJSON_bounded src n : BigNum_UnmarshalJSON src = Ok n → bn_bounded n.
Proof.
  unfold BigNum_UnmarshalJSON. intros H. inv_res. unfold bn_bounded, BigNum_SetBytes.
  etransitivity; [apply be_bytes_to_N_len|by eapply unmarshalJSONBlob_bound].
Qed.

Lemma Blob_UnmarshalJSON_bounded src b : Blob_UnmarshalJSON src = Ok b → (len b <= MaxBlobSize)%N.
Proof. apply unmarshalJSONBlob_bound. Qed.
