(* ===== verification/Crypto.v ===== *)
(** What the library uses of [crypto/...] and [crypto/x509].

    The primitives are not modelled bit by bit: each package is a type class
    that holds its functions and the documented facts the library relies on.
    Data the library reads field by field (keys, certificates, curve parameters)
    is concrete.  [Toy] has an instance of every class. *)

From S2P Require Import Prelude Errors.

(** ** [crypto.Hash] *)
Inductive Hash :=
  | SHA1
  | SHA256
  | SHA384
  | SHA512
  | OtherHash.  (** any other [crypto.Hash]; not linked into the program *)
#[export] Instance Hash_eq_dec : EqDecision Hash.
Proof. solve_decision. Defined.

Definition Hash_Size (h : Hash) : N :=
  match h with SHA1 => 20 | SHA256 => 32 | SHA384 => 48 | SHA512 => 64 | OtherHash => 0 end.

(** [h.Available()]: [rsa_oaep_alg.go] and the imports of the package link all four. *)
Definition Hash_Available (h : Hash) : bool := negb (bool_decide (h = OtherHash)).

Class Digests := {
  Digest : Hash → bytes → bytes;
  Digest_len : ∀ h b, h ≠ OtherHash → len (Digest h b) = Hash_Size h;
}.

(** [digester := h.New(); digester.Write(data); digester.Sum(nil)].  [New]
    panics for a hash that is not linked; [Write] never fails. *)
Definition hash_sum `{Digests} (h : Hash) (data : bytes) : result bytes :=
  if Hash_Available h then Ok (Digest h data) else Panic.

Lemma hash_sum_Ok `{Digests} h data : Hash_Available h = true → hash_sum h data = Ok (Digest h data).
Proof. unfold hash_sum. by intros ->. Qed.

(** ** [elliptic.Curve] *)
Inductive Curve := P224 | P256 | P384 | P521.
#[export] Instance Curve_eq_dec : EqDecision Curve.
Proof. solve_decision. Defined.

(** [curve.Params()]. *)
Definition Curve_Name (c : Curve) : string :=
  match c with P224 => "P-224" | P256 => "P-256" | P384 => "P-384" | P521 => "P-521" end.
Definition Curve_BitSize (c : Curve) : N :=
  match c with P224 => 224 | P256 => 256 | P384 => 384 | P521 => 521 end.
(** The order of the base point. *)
Definition Curve_N (c : Curve) : N :=
  match c with
  | P224 => 0xffffffffffffffffffffffffffff16a2e0b8f03e13dd29455c5c2a3d
  | P256 => 0xffffffff00000000ffffffffffffffffbce6faada7179e84f3b9cac2fc632551
  | P384 => 0xffffffffffffffffffffffffffffffffffffffffffffffffc7634d81f4372ddf581a0db248b0a77aecec196accc52973
  | P521 => 0x1fffffffffffffffffffffffffffffffffffffffffffffffffffffffffffffffffa51868783bf2f966b7fcc0148f709a5d03bb5c9b8899c47aebb6fb71e91386409
  end.

(** ** Public keys and certificates

    [big.Int] fields that hold a modulus, a coordinate or a private value are
    never negative; [rsa.PublicKey.E] is an [int]. *)
Record RsaPublicKey := { RsaPub_N : N; RsaPub_E : Z }.
Record EcdsaPublicKey := { EcPub_Curve : Curve; EcPub_X : N; EcPub_Y : N }.

(** [crypto.PublicKey], an [any]. *)
Inductive PublicKey :=
  | PubRSA (k : RsaPublicKey)
  | PubECDSA (k : EcdsaPublicKey)
  | PubOther.

(** [x509.SignatureAlgorithm]: the values the library tells apart. *)
Inductive SignatureAlgorithm :=
  | SHA256WithRSA | SHA384WithRSA | SHA512WithRSA
  | SHA256WithRSAPSS | SHA384WithRSAPSS | SHA512WithRSAPSS
  | OtherSignatureAlgorithm.

(** [x509.Certificate]: the fields the library reads. *)
Record x509_Certificate := {
  Cert_Raw : bytes;
  Cert_PublicKey : PublicKey;
  Cert_SignatureAlgorithm : SignatureAlgorithm;
}.

Class X509 := {
  ParseCertificate : bytes → option x509_Certificate;
  (** [Raw] is the complete DER content. *)
  ParseCertificate_Raw b c : ParseCertificate b = Some c → Cert_Raw c = b;
}.

(** A certificate that [ParseCertificate] produced. *)
Definition cert_parsed `{X509} (c : x509_Certificate) : Prop := ParseCertificate (Cert_Raw c) = Some c.

(** ** Random sources

    An [io.Reader] of random bytes is a tape. *)
Definition tape := bytes.

(** [io.ReadFull(r, buf)] with [len(buf) = n]: [n] bytes, or an error when the
    source runs dry. *)
Definition ReadFull (n : N) (r : tape) : result (bytes * tape) :=
  if (n <=? len r)%N then Ok (takeN n r, drop (N.to_nat n) r) else std_err RandFailure.

Lemma ReadFull_Ok n r b r' : ReadFull n r = Ok (b, r') → len b = n ∧ r = b ++ r'.
Proof.
  unfold ReadFull. intros H. inv_err. rewrite takeN_take. unfold len in *. split.
  - rewrite length_take. lia.
  - by rewrite take_drop.
Qed.

(** ** Private keys and signing *)
Record RsaPrivateKey := { RsaPriv_Pub : RsaPublicKey; RsaPriv_D : N; RsaPriv_Primes : list N }.
Record RsaPrecomputed := { Pre_Dp : N; Pre_Dq : N; Pre_Qinv : N }.
Record EcdsaPrivateKey := { EcPriv_Pub : EcdsaPublicKey; EcPriv_D : N }.

(** [crypto.Signer]. *)
Inductive Signer :=
  | SignerRSA (k : RsaPrivateKey)
  | SignerECDSA (k : EcdsaPrivateKey)
  | SignerOther.

(** [crypto.SignerOpts]: a [crypto.Hash], [*rsa.PSSOptions], or the
    [*ECDSAOptions] of [ecdsa_signer.go]. *)
Record PSSOptions := { PSS_SaltLength : Z; PSS_Hash : Hash }.
Record ECDSAOptions := { EO_Hash : Hash; keySizeBytes : N; curveBits : N; curve : Curve }.
Inductive SignerOpts :=
  | OptsHash (h : Hash)
  | OptsPSS (o : PSSOptions)
  | OptsECDSA (o : ECDSAOptions).

Definition ECDSAOptions_HashFunc (opts : ECDSAOptions) : Hash := EO_Hash opts.
(** [opts.HashFunc()]. *)
Definition HashFunc (opts : SignerOpts) : Hash :=
  match opts with
  | OptsHash h => h
  | OptsPSS o => PSS_Hash o
  | OptsECDSA o => ECDSAOptions_HashFunc o
  end.

(** [crypto/rsa].  [rsa_Validate] is nil on a consistent key; [rsa_Precompute]
    yields no values when it fails. *)
Class Rsa := {
  rsa_Validate : RsaPrivateKey → option std_error;
  rsa_Precompute : RsaPrivateKey → option RsaPrecomputed;
  rsa_SignPSS : tape → RsaPrivateKey → Hash → bytes → PSSOptions → result bytes;
  rsa_SignPKCS1v15 : tape → RsaPrivateKey → Hash → bytes → result bytes;
  rsa_VerifyPSS : RsaPublicKey → Hash → bytes → bytes → PSSOptions → bool;
  rsa_VerifyPKCS1v15 : RsaPublicKey → Hash → bytes → bytes → bool;
  rsa_EncryptOAEP : Hash → tape → RsaPublicKey → bytes → result (bytes * tape);
  rsa_DecryptOAEP : Hash → RsaPrivateKey → bytes → result bytes;
  rsa_GenerateKey : tape → N → result RsaPrivateKey;

  (** [Validate] checks what [Precompute] needs. *)
  rsa_Validate_Precompute k : rsa_Validate k = None → is_Some (rsa_Precompute k);
  rsa_Validate_product k : rsa_Validate k = None → RsaPub_N (RsaPriv_Pub k) = fold_right N.mul 1%N (RsaPriv_Primes k);
  (** A signature verifies under the same options. *)
  rsa_sign_verify_pss r k h d o s : rsa_Validate k = None → rsa_SignPSS r k h d o = Ok s →
    rsa_VerifyPSS (RsaPriv_Pub k) h d s o = true;
  rsa_sign_verify_pkcs r k d h s : rsa_Validate k = None → rsa_SignPKCS1v15 r k h d = Ok s →
    rsa_VerifyPKCS1v15 (RsaPriv_Pub k) h d s = true;
  (** Encryption and decryption under the same digest. *)
  rsa_oaep h r k m c r' : rsa_Validate k = None → rsa_EncryptOAEP h r (RsaPriv_Pub k) m = Ok (c, r') →
    rsa_DecryptOAEP h k c = Ok m;
  rsa_SignPSS_no_panic r k h d o : rsa_SignPSS r k h d o ≠ Panic;
  rsa_SignPKCS1v15_no_panic r k h d : rsa_SignPKCS1v15 r k h d ≠ Panic;
  rsa_EncryptOAEP_no_panic h r k m : rsa_EncryptOAEP h r k m ≠ Panic;
  rsa_GenerateKey_no_panic r n : rsa_GenerateKey r n ≠ Panic;
  rsa_GenerateKey_valid r n k : rsa_GenerateKey r n = Ok k →
    rsa_Validate k = None ∧ length (RsaPriv_Primes k) = 2 ∧ BitLen (RsaPub_N (RsaPriv_Pub k)) = n ∧
    RsaPub_E (RsaPriv_Pub k) = 65537%Z;
  (** its other values are reduced *)
  rsa_GenerateKey_bounds r n k : rsa_GenerateKey r n = Ok k →
    Forall (λ x, (BitLen x <= n)%N) (RsaPriv_D k :: RsaPriv_Primes k) ∧
    ∀ pre, rsa_Precompute k = Some pre → Forall (λ x, (BitLen x <= n)%N) [Pre_Dp pre; Pre_Dq pre; Pre_Qinv pre];
  rsa_DecryptOAEP_no_panic h k c : rsa_DecryptOAEP h k c ≠ Panic;
}.

(** [rsa.PrivateKey.Sign]: PSS when the options ask for it, PKCS #1 v1.5 otherwise. *)
Definition rsa_Sign `{Rsa} (r : tape) (k : RsaPrivateKey) (digest : bytes) (opts : SignerOpts) : result bytes :=
  match opts with
  | OptsPSS o => rsa_SignPSS r k (PSS_Hash o) digest o
  | _ => rsa_SignPKCS1v15 r k (HashFunc opts) digest
  end.

(** The [Sign] method of a [crypto.Signer] that is not an RSA key. *)
Class Signers := { other_Sign : tape → Signer → bytes → SignerOpts → result bytes }.

Definition Signer_Sign `{Rsa, Signers} (r : tape) (s : Signer) (digest : bytes) (opts : SignerOpts) : result bytes :=
  match s with
  | SignerRSA k => rsa_Sign r k digest opts
  | _ => other_Sign r s digest opts
  end.

(** [crypto/ecdsa] and the part of [crypto/ecdh] that derives a public point:
    [ecdh_PublicKey c d] is the uncompressed point of the scalar [d], or nothing
    when [NewPrivateKey] refuses [d]. *)
Class Ecdsa := {
  ecdh_PublicKey : Curve → bytes → option bytes;
  ecdsa_Sign : tape → EcdsaPrivateKey → bytes → result (N * N);
  ecdsa_Verify : EcdsaPublicKey → bytes → N → N → bool;
  ecdsa_GenerateKey : Curve → tape → result EcdsaPrivateKey;

  ecdh_PublicKey_len c d b : ecdh_PublicKey c d = Some b → len b = (1 + 2 * ((Curve_BitSize c + 7) / 8))%N;
  (** A signature's two numbers are below the order of the curve. *)
  ecdsa_Sign_range r k d x y : ecdsa_Sign r k d = Ok (x, y) →
    (x < Curve_N (EcPub_Curve (EcPriv_Pub k)))%N ∧ (y < Curve_N (EcPub_Curve (EcPriv_Pub k)))%N;
  ecdsa_Sign_no_panic r k d : ecdsa_Sign r k d ≠ Panic;
  ecdsa_GenerateKey_no_panic c r : ecdsa_GenerateKey c r ≠ Panic;
}.

(** The public half of an EC key is the point of its private half. *)
Definition ec_pair `{Ecdsa} (k : EcdsaPrivateKey) : Prop :=
  let c := EcPub_Curve (EcPriv_Pub k) in
  let size := N.to_nat ((Curve_BitSize c + 7) / 8) in
  ∃ b, ecdh_PublicKey c (be_fixed size (EcPriv_D k mod Curve_N c)) = Some b ∧
    EcPub_X (EcPriv_Pub k) = be_to_N (take size (drop 1 b)) ∧
    EcPub_Y (EcPriv_Pub k) = be_to_N (drop size (drop 1 b)).

(** What [crypto/ecdsa] promises about a key pair. *)
Class EcdsaLaws `{Ecdsa} := {
  ecdsa_GenerateKey_valid c r k : ecdsa_GenerateKey c r = Ok k → EcPub_Curve (EcPriv_Pub k) = c ∧ ec_pair k;
  ecdsa_sign_verify r k d x y : ec_pair k → ecdsa_Sign r k d = Ok (x, y) → ecdsa_Verify (EcPriv_Pub k) d x y = true;
}.

(** ** Symmetric ciphers

    [cipher.AEAD].  A nil nonce is [None]; [Open] never fails to check lengths: it
    panics on a nonce of the wrong size, as [Seal] does. *)
Record AEAD := {
  NonceSize : N;
  Overhead : N;
  aead_Seal : option bytes → bytes → bytes → result bytes;  (** nonce, plaintext, additional data *)
  aead_Open : bytes → bytes → bytes → result bytes;
}.

(** What [cipher.AEAD] documents, for plaintexts that GCM can encrypt. *)
Record aead_laws (a : AEAD) : Prop := {
  aead_Seal_Ok n p d : len n = NonceSize a → (len p <= 2 ^ 36 - 32)%N →
    ∃ c, aead_Seal a (Some n) p d = Ok c ∧ len c = (len p + Overhead a)%N;
  aead_Seal_nonce n p d : (∀ n', n = Some n' → len n' ≠ NonceSize a) → aead_Seal a n p d = Panic;
  aead_Open_Seal n p d c : aead_Seal a (Some n) p d = Ok c → aead_Open a n c d = Ok p;
  (** what opens was sealed *)
  aead_Open_valid n p d c : aead_Open a n c d = Ok p → aead_Seal a (Some n) p d = Ok c ∧ len c = (len p + Overhead a)%N;
  aead_Open_no_panic n c d : len n = NonceSize a → aead_Open a n c d ≠ Panic;
}.

(** [aes.NewCipher] accepts keys of 16, 24 and 32 bytes. *)
Definition aes_key (k : bytes) : bool := (len k =? 16)%N || (len k =? 24)%N || (len k =? 32)%N.

(** AES: one block with a key, and [cipher.NewGCM] of it. *)
Class Aes := {
  gcm : bytes → AEAD;
  aes_enc : bytes → bytes → bytes;
  aes_dec : bytes → bytes → bytes;
  gcm_NonceSize k : NonceSize (gcm k) = 12%N;
  gcm_Overhead k : Overhead (gcm k) = 16%N;
  gcm_laws k : aes_key k = true → aead_laws (gcm k);
  aes_enc_len k b : length b = 16 → length (aes_enc k b) = 16;
  aes_dec_len k b : length b = 16 → length (aes_dec k b) = 16;
  aes_dec_enc k b : length b = 16 → aes_dec k (aes_enc k b) = b;
}.

(** [aes.NewCipher(key)], then [cipher.NewGCM]. *)
Definition NewGCM `{Aes} (key : bytes) : result AEAD := if aes_key key then Ok (gcm key) else std_err CryptoFailure.

(** [cipher.BlockMode]: encrypting or decrypting changes the state of the mode.
    [bm_crypt] is given whole blocks. *)
Record BlockMode := {
  bm_state : Type;
  BlockSize : N;
  bm_crypt : bm_state → bytes → bytes * bm_state;
}.

(** [CryptBlocks(dst, src)], with [dst] of [dstLen] zero bytes; the result is [dst]. *)
Definition CryptBlocks (m : BlockMode) (st : bm_state m) (dstLen : N) (src : bytes) : result (bytes * bm_state m) :=
  if negb (len src mod BlockSize m =? 0)%N then Panic
  else if (dstLen <? len src)%N then Panic
  else
    let '(out, st) := bm_crypt m st src in
    Ok (out ++ replicate (N.to_nat (dstLen - len src)) x00, st).

Definition xor_bytes (a b : bytes) : bytes := zip_with (λ x y, n2b (N.lxor (b2n x) (b2n y))) a b.

(** The blocks of a byte string of [k] blocks. *)
Fixpoint blocks (k : nat) (l : bytes) : list bytes :=
  match k with O => [] | S k => take 16 l :: blocks k (drop 16 l) end.

Fixpoint cbc_enc_blocks `{Aes} (key iv : bytes) (bs : list bytes) : bytes * bytes :=
  match bs with
  | [] => ([], iv)
  | b :: bs =>
    let c := aes_enc key (xor_bytes b iv) in
    let '(out, iv) := cbc_enc_blocks key c bs in (c ++ out, iv)
  end.
Fixpoint cbc_dec_blocks `{Aes} (key iv : bytes) (bs : list bytes) : bytes * bytes :=
  match bs with
  | [] => ([], iv)
  | c :: bs =>
    let '(out, iv') := cbc_dec_blocks key c bs in (xor_bytes (aes_dec key c) iv ++ out, iv')
  end.

(** [cipher.NewCBCEncrypter] and [cipher.NewCBCDecrypter] on AES: the state is the
    chaining value, which starts as the initialization vector. *)
Definition NewCBCEncrypter `{Aes} (key : bytes) : BlockMode :=
  {| bm_state := bytes; BlockSize := 16; bm_crypt := λ iv src, cbc_enc_blocks key iv (blocks (length src / 16) src) |}.
Definition NewCBCDecrypter `{Aes} (key : bytes) : BlockMode :=
  {| bm_state := bytes; BlockSize := 16; bm_crypt := λ iv src, cbc_dec_blocks key iv (blocks (length src / 16) src) |}.

(** [reflect.Type], of the types that have methods: a named type, or a pointer, which
    has no name. *)
Inductive reflect_Type :=
  | TypeNamed (name pkgPath : string)
  | TypePointer (elem : reflect_Type).
Definition Type_Name (t : reflect_Type) : string := match t with TypeNamed name _ => name | TypePointer _ => "" end.
Definition Type_PkgPath (t : reflect_Type) : string := match t with TypeNamed _ path => path | TypePointer _ => "" end.

(** [hash.Hash], as far as the code sees it: the sum of what was written since the
    last reset, its dynamic type, and whether that type has the method [IsKeyedHash]. *)
Record hash_Hash := { hash_mac : bytes → bytes; hash_type : reflect_Type; hash_IsKeyedHash : bool }.
