(* ===== verification/Toy.v ===== *)
(** Small concrete instances of the classes of [Crypto], for the examples that
    evaluate the development. None of them is secure. *)

From S2P Require Import Prelude Errors Crypto.

(** The low-order bytes of the message, as many as the hash has. *)
Definition toy_digest (h : Hash) (b : bytes) : bytes := be_fixed (N.to_nat (Hash_Size h)) (be_to_N b).

Lemma toy_digest_len h b : h ≠ OtherHash → len (toy_digest h b) = Hash_Size h.
Proof. intros _. unfold len, toy_digest. rewrite be_fixed_length. lia. Qed.

Definition toy_Digests : Digests := {| Digest := toy_digest; Digest_len := toy_digest_len |}.

(** ["R" ‖ modulus] is an RSA certificate with exponent 65537, ["E" ‖ x] one for
    the point (x, 1) of P-256. *)
Definition toy_ParseCertificate (b : bytes) : option x509_Certificate :=
  match b with
  | x52 :: r => Some {| Cert_Raw := b; Cert_PublicKey := PubRSA {| RsaPub_N := be_to_N r; RsaPub_E := 65537 |};
                        Cert_SignatureAlgorithm := SHA256WithRSA |}
  | x45 :: r => Some {| Cert_Raw := b; Cert_PublicKey := PubECDSA {| EcPub_Curve := P256; EcPub_X := be_to_N r; EcPub_Y := 1 |};
                        Cert_SignatureAlgorithm := OtherSignatureAlgorithm |}
  | _ => None
  end%byte.

Lemma toy_ParseCertificate_Raw b c : toy_ParseCertificate b = Some c → Cert_Raw c = b.
Proof. unfold toy_ParseCertificate. intros H. repeat case_match; by simplify_eq. Qed.

Definition toy_X509 : X509 :=
  {| ParseCertificate := toy_ParseCertificate; ParseCertificate_Raw := toy_ParseCertificate_Raw |}.

(** ** RSA: a signature is the modulus and the digest, a ciphertext a byte and the message *)
Definition toy_product (k : RsaPrivateKey) : N := fold_right N.mul 1%N (RsaPriv_Primes k).
Definition toy_Validate (k : RsaPrivateKey) : option std_error :=
  if (RsaPub_N (RsaPriv_Pub k) =? toy_product k)%N then None else Some CryptoFailure.
Definition toy_signature (k : RsaPublicKey) (h : Hash) (d : bytes) : bytes := be_bytes (RsaPub_N k) ++ d.
Definition toy_generate (n : N) : RsaPrivateKey :=
  let p := if (n =? 0)%N then 0%N else (2 ^ (n - 1))%N in
  {| RsaPriv_Pub := {| RsaPub_N := p; RsaPub_E := 65537 |}; RsaPriv_D := 3; RsaPriv_Primes := [p; 1%N] |}.

Lemma toy_generate_valid n : toy_Validate (toy_generate n) = None ∧ BitLen (RsaPub_N (RsaPriv_Pub (toy_generate n))) = n.
Proof.
  unfold toy_Validate, toy_product, toy_generate. cbn. destruct (N.eqb_spec n 0) as [->|Hn]; [done|]. split.
  - rewrite !N.mul_1_r. by rewrite N.eqb_refl.
  - unfold BitLen. rewrite N.size_log2 by by apply N.pow_nonzero. rewrite N.log2_pow2 by lia. lia.
Qed.

Definition toy_Rsa : Rsa.
Proof.
  refine {|
    rsa_Validate := toy_Validate;
    rsa_Precompute _ := Some {| Pre_Dp := 3; Pre_Dq := 5; Pre_Qinv := 7 |};
    rsa_SignPSS _ k h d _ := Ok (toy_signature (RsaPriv_Pub k) h d);
    rsa_SignPKCS1v15 _ k h d := Ok (toy_signature (RsaPriv_Pub k) h d);
    rsa_VerifyPSS k h d s _ := bool_decide (s = toy_signature k h d);
    rsa_VerifyPKCS1v15 k h d s := bool_decide (s = toy_signature k h d);
    rsa_EncryptOAEP h r k m := Ok (x01 :: m, r);
    rsa_DecryptOAEP h k c := match c with x01 :: m => Ok m | _ => std_err CryptoFailure end;
    rsa_GenerateKey _ n := if (n <? 3)%N then std_err CryptoFailure else Ok (toy_generate n);
  |}; try done.
  - unfold toy_Validate. intros k. by destruct (N.eqb_spec (RsaPub_N (RsaPriv_Pub k)) (toy_product k)).
  - intros r k h d o s _ [= <-]. by apply bool_decide_eq_true.
  - intros r k d h s _ [= <-]. by apply bool_decide_eq_true.
  - by intros h r k m c r' _ [= <- <-].
  - intros r n. by destruct (n <? 3)%N.
  - intros r n k. destruct (n <? 3)%N; [done|]. intros [= <-]. destruct (toy_generate_valid n). by split_and!.
  - intros r n k. destruct (N.ltb_spec n 3); [done|]. intros [= <-]. destruct (toy_generate_valid n) as [_ Hb].
    assert (∀ x, (BitLen x <=? 3)%N = true → (BitLen x <= n)%N) as Hs by (intros x Hx; lia).
    split; [repeat apply Forall_cons_2; try apply Forall_nil_2; [by apply Hs| |by apply Hs]|intros pre [= <-]; repeat apply Forall_cons_2; try apply Forall_nil_2; by apply Hs].
    change (BitLen (RsaPub_N (RsaPriv_Pub (toy_generate n))) <= n)%N. lia.
  - intros h k c. by repeat case_match.
Defined.

Definition toy_Signers : Signers := {| other_Sign _ _ _ _ := std_err CryptoFailure |}.

(** ** ECDSA: the point of [d] is (d, 1); a signature is (digest mod n, 1) *)
Definition toy_size (c : Curve) : nat := N.to_nat ((Curve_BitSize c + 7) / 8).
Definition toy_point (c : Curve) (d : bytes) : bytes := x04 :: be_fixed (toy_size c) (be_to_N d) ++ be_fixed (toy_size c) 1.
Definition toy_ec_key (c : Curve) : EcdsaPrivateKey :=
  {| EcPriv_Pub := {| EcPub_Curve := c; EcPub_X := 1; EcPub_Y := 1 |}; EcPriv_D := 1 |}.

Lemma Curve_N_gt c : (1 < Curve_N c)%N.
Proof. by destruct c. Qed.

Definition toy_Ecdsa : Ecdsa.
Proof.
  refine {|
    ecdh_PublicKey c d := Some (toy_point c d);
    ecdsa_Sign _ k d := Ok ((be_to_N d mod Curve_N (EcPub_Curve (EcPriv_Pub k)))%N, 1%N);
    ecdsa_Verify k d x y := (x =? be_to_N d mod Curve_N (EcPub_Curve k))%N && (y =? 1)%N;
    ecdsa_GenerateKey c _ := Ok (toy_ec_key c);
  |}; try done.
  - intros c d b [= <-]. unfold len, toy_point, toy_size. cbn [length]. rewrite length_app, !be_fixed_length.
    rewrite Nat2N.inj_succ, Nat2N.inj_add, N2Nat.id. destruct c; vm_compute; reflexivity.
  - intros r k d x y [= <- <-]. pose proof (Curve_N_gt (EcPub_Curve (EcPriv_Pub k))).
    split; [apply N.mod_lt; lia|done].
Defined.

Definition toy_EcdsaLaws : @EcdsaLaws toy_Ecdsa.
Proof.
  split.
  - intros c r k [= <-]. split; [done|]. eexists. split; [reflexivity|]. cbn.
    split; destruct c; vm_compute; reflexivity.
  - intros r k d x y _ [= <- <-]. cbn. by rewrite !N.eqb_refl.
Defined.

(** ** AES: a block is reversed, a tag is the sum of everything *)
Definition toy_tag (k n p d : bytes) : bytes := be_fixed 16 (be_to_N k + be_to_N n + be_to_N p + be_to_N d).
#[global] Arguments toy_tag : simpl never.
Definition toy_gcm (k : bytes) : AEAD := {|
  NonceSize := 12;
  Overhead := 16;
  aead_Seal n p d := match n with
                     | Some n => if (len n =? 12)%N then Ok (p ++ toy_tag k n p d) else Panic
                     | None => Panic
                     end;
  aead_Open n c d :=
    let p := take (length c - 16) c in
    if negb (len n =? 12)%N then Panic
    else if bool_decide (c = p ++ toy_tag k n p d) then Ok p else std_err CryptoFailure;
|}.

Lemma toy_gcm_laws k : aead_laws (toy_gcm k).
Proof.
  split; cbn [NonceSize Overhead aead_Seal aead_Open toy_gcm].
  - intros n p d -> _. eexists. split; [done|]. unfold len. rewrite length_app. unfold toy_tag. rewrite (be_fixed_length 16). lia.
  - intros [n|] p d Hn; [|done]. destruct (N.eqb_spec (len n) 12); [|done]. by destruct (Hn n eq_refl).
  - intros n p d c. destruct (len n =? 12)%N; [|done]. intros [= <-]. cbn [negb].
    assert (take (length (p ++ toy_tag k n p d) - 16) (p ++ toy_tag k n p d) = p) as ->.
    { rewrite length_app. unfold toy_tag at 1. rewrite (be_fixed_length 16), Nat.add_sub. apply take_app_length. }
    by rewrite bool_decide_true.
  - intros n p d c. destruct (len n =? 12)%N; [|done]. cbn [negb]. case_bool_decide as Hc; [|done]. intros [= Hp].
    rewrite Hp in Hc. rewrite <- Hc. split; [done|]. rewrite Hc at 1. unfold len, toy_tag. rewrite length_app, be_fixed_length. lia.
  - intros n c d ->. cbn. by case_bool_decide.
Qed.

Definition toy_Aes : Aes.
Proof.
  refine {| gcm := toy_gcm; aes_enc _ b := reverse b; aes_dec _ b := reverse b |}; try done.
  - intros k _. apply toy_gcm_laws.
  - intros k b Hb. by rewrite length_reverse.
  - intros k b Hb. by rewrite length_reverse.
  - intros k b _. apply reverse_involutive.
Defined.

(** A keyed hash: the 32 low-order bytes of the key and the data. *)
Definition toy_hmac (key : bytes) : hash_Hash :=
  {| hash_mac data := be_fixed 32 (be_to_N (key ++ data)); hash_type := TypePointer (TypeNamed "HMAC" "crypto/internal/fips140/hmac");
     hash_IsKeyedHash := false |}.
