(* ===== verification/Jwk.v ===== *)
(** [jose/jwk.go] and [jose/jwks.go]: JSON Web Keys and key sets.

    A Go [Jwk] is an interface over pointers to five struct types; [Jwk] is the
    sum of the five.  A [*x509.Certificate] may be nil ([Certificate] is an
    [option]) and using a nil one panics.  The embedded [*jwkFields],
    [*PublicRsaKeyFields], ... of the marshalling structs become field lists that
    are lifted into the struct around them ([JsonCodec.lift_field]). *)

From S2P Require Import Prelude Errors Base64 Json JsonFacts JsonCodec Types Crypto.

Section jwk.
Context `{X509, Digests}.

(** ** Certificates and fingerprints *)
Definition Certificate := option x509_Certificate.

Definition Certificate_MarshalJSON (c : Certificate) : result bytes :=
  match c with
  | Some c => marshalJSONBlob (Cert_Raw c) StdEncoding
  | None => Panic
  end.

Definition Certificate_UnmarshalJSON (src : bytes) : result Certificate :=
  b ← unmarshalJSONBlob src StdEncoding;
  match ParseCertificate b with
  | Some c => Ok (Some c)
  | None => std_err X509Parse
  end.

(** A SHA-1 digest. *)
Definition Fingerprint := bytes.

Definition Fingerprint_Bytes (f : Fingerprint) : bytes := f.
Definition Fingerprint_SetBytes (val : bytes) : Fingerprint := val.

Definition Fingerprint_UnmarshalJSON (src : bytes) : result Fingerprint :=
  digest ← unmarshalJSONBlob src RawURLEncoding;
  if negb (len digest =? 20)%N then jose_err Jose.ErrJwkInvalidFingerprintfomat
  else Ok digest.

Definition Fingerprint_MarshalJSON (f : Fingerprint) : result bytes :=
  if negb (len f =? 20)%N then jose_err Jose.ErrJwkInvalidFingerprintfomat
  else marshalJSONBlob f RawURLEncoding.

(** ** The common fields *)
Record jwkFields := {
  KeyUse : Types.KeyUse;
  KeyOps : list Types.KeyOps;
  KeyAlg : Alg;
  KeyKid : string;
  KeyX5C : list Certificate;
  KeyX5T : option Fingerprint;
}.

Definition jwkFields_zero : jwkFields :=
  {| KeyUse := ""; KeyOps := []; KeyAlg := ""; KeyKid := ""; KeyX5C := []; KeyX5T := None |}.

Definition jwkFields_Use (j : jwkFields) : Types.KeyUse := KeyUse j.
Definition jwkFields_SetUse (use : Types.KeyUse) (j : jwkFields) : jwkFields :=
  {| KeyUse := use; KeyOps := KeyOps j; KeyAlg := KeyAlg j; KeyKid := KeyKid j;
     KeyX5C := KeyX5C j; KeyX5T := KeyX5T j |}.
Definition jwkFields_Ops (j : jwkFields) : list Types.KeyOps := KeyOps j.
Definition jwkFields_SetOps (ops : list Types.KeyOps) (j : jwkFields) : jwkFields :=
  {| KeyUse := KeyUse j; KeyOps := ops; KeyAlg := KeyAlg j; KeyKid := KeyKid j;
     KeyX5C := KeyX5C j; KeyX5T := KeyX5T j |}.
Definition jwkFields_Alg (j : jwkFields) : Alg := KeyAlg j.
Definition jwkFields_SetAlg (alg : Alg) (j : jwkFields) : jwkFields :=
  {| KeyUse := KeyUse j; KeyOps := KeyOps j; KeyAlg := alg; KeyKid := KeyKid j;
     KeyX5C := KeyX5C j; KeyX5T := KeyX5T j |}.
Definition jwkFields_Kid (j : jwkFields) : string := KeyKid j.
Definition jwkFields_SetKid (kid : string) (j : jwkFields) : jwkFields :=
  {| KeyUse := KeyUse j; KeyOps := KeyOps j; KeyAlg := KeyAlg j; KeyKid := kid;
     KeyX5C := KeyX5C j; KeyX5T := KeyX5T j |}.
Definition set_KeyX5C (x5c : list Certificate) (j : jwkFields) : jwkFields :=
  {| KeyUse := KeyUse j; KeyOps := KeyOps j; KeyAlg := KeyAlg j; KeyKid := KeyKid j;
     KeyX5C := x5c; KeyX5T := KeyX5T j |}.
Definition jwkFields_X5T (j : jwkFields) : option Fingerprint := KeyX5T j.
Definition jwkFields_SetX5T (blob : option Fingerprint) (j : jwkFields) : jwkFields :=
  {| KeyUse := KeyUse j; KeyOps := KeyOps j; KeyAlg := KeyAlg j; KeyKid := KeyKid j;
     KeyX5C := KeyX5C j; KeyX5T := blob |}.

(** [X5C] copies the pointers out; [SetX5C] appends to what is there. *)
Definition jwkFields_X5C (j : jwkFields) : list (option x509_Certificate) :=
  map (λ c : Certificate, c) (KeyX5C j).
Definition jwkFields_SetX5C (x5c : list (option x509_Certificate)) (j : jwkFields) : jwkFields :=
  set_KeyX5C (KeyX5C j ++ x5c) j.

Definition maxKeyOps : N := 64.

(** The loop over [key_ops] with its [seen] set. *)
Fixpoint check_key_ops (seen : gset string) (ops : list Types.KeyOps) : result unit :=
  match ops with
  | [] => Ok tt
  | op :: ops =>
    if bool_decide (op ∈ seen) then jose_err Jose.ErrDuplicateKeyOps
    else check_key_ops ({[op]} ∪ seen) ops
  end.

(** [subtle.ConstantTimeCompare(x, y) == 1]. *)
Definition ConstantTimeCompare (x y : bytes) : bool := bool_decide (x = y).

Definition jwkFields_CheckConsistency (j : jwkFields) : result unit :=
  if (maxKeyOps <? len (KeyOps j))%N then jose_err Jose.ErrTooManyKeyOps
  else
    _ ← check_key_ops ∅ (KeyOps j);
    match KeyX5C j with
    | [] => Ok tt
    | c :: _ =>
      match KeyX5T j with
      | None => Ok tt
      | Some x5t =>
        match c with
        | None => Panic
        | Some c =>
          digest ← hash_sum SHA1 (Cert_Raw c);
          if negb (ConstantTimeCompare digest x5t)
          then jose_err Jose.ErrJwkInconsistentCertificateFields
          else Ok tt
        end
      end
    end.

(** [nil, nil] when there is no certificate. *)
Definition jwkFields_x5cLeaf (j : jwkFields) : result (option x509_Certificate) :=
  match KeyX5C j with
  | [] => Ok None
  | c :: _ =>
    match c with
    | None => jose_err Jose.ErrJwkInconsistentCertificateFields
    | Some leaf => Ok (Some leaf)
    end
  end.

(** ** The key types *)
Record PublicRsaKeyFields := { Rsa_N : BigNum; Rsa_E : BigNum }.
Record PublicRsaKey := { PubRsa_jwk : jwkFields; PubRsa_fields : PublicRsaKeyFields }.
Record PrivateRsaKeyFields := {
  Rsa_D : BigNum; Rsa_P : BigNum; Rsa_Q : BigNum;
  Rsa_Dp : BigNum; Rsa_Dq : BigNum; Rsa_Qi : BigNum;
}.
Record PrivateRsaKey := { PrivRsa_pub : PublicRsaKey; PrivRsa_fields : PrivateRsaKeyFields }.
Record PublicEcKeyFields := { Ec_Crv : Crv; Ec_X : BigNum; Ec_Y : BigNum }.
Record PublicEcKey := { PubEc_jwk : jwkFields; PubEc_fields : PublicEcKeyFields }.
Record PrivateEcKeyFields := { Ec_D : BigNum }.
Record PrivateEcKey := { PrivEc_pub : PublicEcKey; PrivEc_fields : PrivateEcKeyFields }.
Record OctSecretKeyFields := { Oct_K : Blob }.
Record OctSecretKey := { Oct_jwk : jwkFields; Oct_fields : OctSecretKeyFields }.

(** The parts of a key, as the promoted fields of the Go structs reach them. *)
Definition PubRsa_set_jwk v k := {| PubRsa_jwk := v; PubRsa_fields := PubRsa_fields k |}.
Definition PubRsa_set_fields v k := {| PubRsa_jwk := PubRsa_jwk k; PubRsa_fields := v |}.
Definition PrivRsa_jwk (k : PrivateRsaKey) := PubRsa_jwk (PrivRsa_pub k).
Definition PrivRsa_set_jwk v k :=
  {| PrivRsa_pub := PubRsa_set_jwk v (PrivRsa_pub k); PrivRsa_fields := PrivRsa_fields k |}.
Definition PrivRsa_pubfields (k : PrivateRsaKey) := PubRsa_fields (PrivRsa_pub k).
Definition PrivRsa_set_pubfields v k :=
  {| PrivRsa_pub := PubRsa_set_fields v (PrivRsa_pub k); PrivRsa_fields := PrivRsa_fields k |}.
Definition PrivRsa_set_fields v k := {| PrivRsa_pub := PrivRsa_pub k; PrivRsa_fields := v |}.
Definition PubEc_set_jwk v k := {| PubEc_jwk := v; PubEc_fields := PubEc_fields k |}.
Definition PubEc_set_fields v k := {| PubEc_jwk := PubEc_jwk k; PubEc_fields := v |}.
Definition PrivEc_jwk (k : PrivateEcKey) := PubEc_jwk (PrivEc_pub k).
Definition PrivEc_set_jwk v k :=
  {| PrivEc_pub := PubEc_set_jwk v (PrivEc_pub k); PrivEc_fields := PrivEc_fields k |}.
Definition PrivEc_pubfields (k : PrivateEcKey) := PubEc_fields (PrivEc_pub k).
Definition PrivEc_set_pubfields v k :=
  {| PrivEc_pub := PubEc_set_fields v (PrivEc_pub k); PrivEc_fields := PrivEc_fields k |}.
Definition PrivEc_set_fields v k := {| PrivEc_pub := PrivEc_pub k; PrivEc_fields := v |}.
Definition Oct_set_jwk v k := {| Oct_jwk := v; Oct_fields := Oct_fields k |}.
Definition Oct_set_fields v k := {| Oct_jwk := Oct_jwk k; Oct_fields := v |}.

Definition PublicRsaKey_checkX5CMatchesKey (k : PublicRsaKey) : result unit :=
  leaf ← jwkFields_x5cLeaf (PubRsa_jwk k);
  match leaf with
  | None => Ok tt
  | Some leaf =>
    match Cert_PublicKey leaf with
    | PubRSA certPub =>
      if negb (bool_decide (RsaPub_N certPub = Rsa_N (PubRsa_fields k)))
         || negb (bool_decide (RsaPub_E certPub = Z.of_N (Rsa_E (PubRsa_fields k))))
      then jose_err Jose.ErrJwkCertificateKeyMismatch
      else Ok tt
    | _ => jose_err Jose.ErrJwkCertificateKeyMismatch
    end
  end.

Definition PublicEcKey_checkX5CMatchesKey (k : PublicEcKey) : result unit :=
  leaf ← jwkFields_x5cLeaf (PubEc_jwk k);
  match leaf with
  | None => Ok tt
  | Some leaf =>
    match Cert_PublicKey leaf with
    | PubECDSA certPub =>
      if negb (bool_decide (EcPub_X certPub = Ec_X (PubEc_fields k)))
         || negb (bool_decide (EcPub_Y certPub = Ec_Y (PubEc_fields k)))
      then jose_err Jose.ErrJwkCertificateKeyMismatch
      else if negb (str_empty (Ec_Crv (PubEc_fields k)))
              && negb (bool_decide (Curve_Name (EcPub_Curve certPub) = Ec_Crv (PubEc_fields k)))
      then jose_err Jose.ErrJwkCertificateKeyMismatch
      else Ok tt
    | _ => jose_err Jose.ErrJwkCertificateKeyMismatch
    end
  end.

(** ** JSON members *)
Definition jwkFields_json : list (field jwkFields) := [
  field_at "use" KeyUse jwkFields_SetUse dec_string;
  field_at "key_ops" KeyOps jwkFields_SetOps (dec_vec dec_string "");
  field_at "alg" KeyAlg jwkFields_SetAlg dec_string;
  field_at "kid" KeyKid jwkFields_SetKid dec_string;
  field_at "x5c" KeyX5C set_KeyX5C (dec_vec (dec_unmarshaler Certificate_UnmarshalJSON) None);
  field_at "x5t" KeyX5T jwkFields_SetX5T (dec_ptr Fingerprint_UnmarshalJSON)
].

Definition jwkFields_members (j : jwkFields) : result (list (bytes * json)) :=
  x5c ← mapM (λ c, enc_marshaler (Certificate_MarshalJSON c)) (KeyX5C j);
  x5t ← omit_nil "x5t" (λ f, enc_marshaler (Fingerprint_MarshalJSON f)) (KeyX5T j);
  Ok (omitempty (str_empty (KeyUse j)) "use" (enc_string (KeyUse j)) ++
      omitempty (bool_decide (KeyOps j = [])) "key_ops" (JArr (map enc_string (KeyOps j))) ++
      omitempty (str_empty (KeyAlg j)) "alg" (enc_string (KeyAlg j)) ++
      omitempty (str_empty (KeyKid j)) "kid" (enc_string (KeyKid j)) ++
      omitempty (bool_decide (x5c = [])) "x5c" (JArr x5c) ++
      x5t).

Definition bignum_member (name : string) (b : BigNum) : result (list (bytes * json)) :=
  member name <$> enc_marshaler (BigNum_MarshalJSON b).
Definition dec_bignum_at {S} (name : string) (get : S → BigNum) (set : BigNum → S → S) : field S :=
  field_at name get set (dec_unmarshaler BigNum_UnmarshalJSON).

Definition PublicRsaKeyFields_json : list (field PublicRsaKeyFields) := [
  dec_bignum_at "n" Rsa_N (λ v f, {| Rsa_N := v; Rsa_E := Rsa_E f |});
  dec_bignum_at "e" Rsa_E (λ v f, {| Rsa_N := Rsa_N f; Rsa_E := v |})
].
Definition PublicRsaKeyFields_members (f : PublicRsaKeyFields) : result (list (bytes * json)) :=
  n ← bignum_member "n" (Rsa_N f);
  e ← bignum_member "e" (Rsa_E f);
  Ok (n ++ e).

Definition PrivateRsaKeyFields_json : list (field PrivateRsaKeyFields) := [
  dec_bignum_at "d" Rsa_D (λ v f, {| Rsa_D := v; Rsa_P := Rsa_P f; Rsa_Q := Rsa_Q f; Rsa_Dp := Rsa_Dp f; Rsa_Dq := Rsa_Dq f; Rsa_Qi := Rsa_Qi f |});
  dec_bignum_at "p" Rsa_P (λ v f, {| Rsa_D := Rsa_D f; Rsa_P := v; Rsa_Q := Rsa_Q f; Rsa_Dp := Rsa_Dp f; Rsa_Dq := Rsa_Dq f; Rsa_Qi := Rsa_Qi f |});
  dec_bignum_at "q" Rsa_Q (λ v f, {| Rsa_D := Rsa_D f; Rsa_P := Rsa_P f; Rsa_Q := v; Rsa_Dp := Rsa_Dp f; Rsa_Dq := Rsa_Dq f; Rsa_Qi := Rsa_Qi f |});
  dec_bignum_at "dp" Rsa_Dp (λ v f, {| Rsa_D := Rsa_D f; Rsa_P := Rsa_P f; Rsa_Q := Rsa_Q f; Rsa_Dp := v; Rsa_Dq := Rsa_Dq f; Rsa_Qi := Rsa_Qi f |});
  dec_bignum_at "dq" Rsa_Dq (λ v f, {| Rsa_D := Rsa_D f; Rsa_P := Rsa_P f; Rsa_Q := Rsa_Q f; Rsa_Dp := Rsa_Dp f; Rsa_Dq := v; Rsa_Qi := Rsa_Qi f |});
  dec_bignum_at "qi" Rsa_Qi (λ v f, {| Rsa_D := Rsa_D f; Rsa_P := Rsa_P f; Rsa_Q := Rsa_Q f; Rsa_Dp := Rsa_Dp f; Rsa_Dq := Rsa_Dq f; Rsa_Qi := v |})
].
Definition PrivateRsaKeyFields_members (f : PrivateRsaKeyFields) : result (list (bytes * json)) :=
  d ← bignum_member "d" (Rsa_D f);
  p ← bignum_member "p" (Rsa_P f);
  q ← bignum_member "q" (Rsa_Q f);
  dp ← bignum_member "dp" (Rsa_Dp f);
  dq ← bignum_member "dq" (Rsa_Dq f);
  qi ← bignum_member "qi" (Rsa_Qi f);
  Ok (d ++ p ++ q ++ dp ++ dq ++ qi).

Definition PublicEcKeyFields_json : list (field PublicEcKeyFields) := [
  field_at "crv" Ec_Crv (λ v f, {| Ec_Crv := v; Ec_X := Ec_X f; Ec_Y := Ec_Y f |}) dec_string;
  dec_bignum_at "x" Ec_X (λ v f, {| Ec_Crv := Ec_Crv f; Ec_X := v; Ec_Y := Ec_Y f |});
  dec_bignum_at "y" Ec_Y (λ v f, {| Ec_Crv := Ec_Crv f; Ec_X := Ec_X f; Ec_Y := v |})
].
Definition PublicEcKeyFields_members (f : PublicEcKeyFields) : result (list (bytes * json)) :=
  x ← bignum_member "x" (Ec_X f);
  y ← bignum_member "y" (Ec_Y f);
  Ok (member "crv" (enc_string (Ec_Crv f)) ++ x ++ y).

Definition PrivateEcKeyFields_json : list (field PrivateEcKeyFields) := [
  dec_bignum_at "d" Ec_D (λ v _, {| Ec_D := v |})
].
Definition PrivateEcKeyFields_members (f : PrivateEcKeyFields) : result (list (bytes * json)) :=
  bignum_member "d" (Ec_D f).

Definition OctSecretKeyFields_json : list (field OctSecretKeyFields) := [
  field_at "k" Oct_K (λ v _, {| Oct_K := v |}) (dec_unmarshaler Blob_UnmarshalJSON)
].
Definition OctSecretKeyFields_members (f : OctSecretKeyFields) : result (list (bytes * json)) :=
  member "k" <$> enc_marshaler (Blob_MarshalJSON (Oct_K f)).

(** The [Kty] field of the marshalling structs, next to the key. *)
Definition kty_field {K} : field (Kty * K) := field_at "kty" fst (λ v s, (v, s.2)) dec_string.
Definition key_fields {K S} (get : K → S) (set : S → K → K) (fs : list (field S)) : list (field (Kty * K)) :=
  map (lift_field (λ s, get s.2) (λ v s, (s.1, set v s.2))) fs.

(** ** [MarshalJSON] and [UnmarshalJSON] *)
Definition PublicRsaKey_MarshalJSON (k : PublicRsaKey) : result bytes :=
  marshal_obj (
    j ← jwkFields_members (PubRsa_jwk k);
    f ← PublicRsaKeyFields_members (PubRsa_fields k);
    Ok (j ++ f ++ member "kty" (enc_string KtyRSA))).

Definition PublicRsaKey_json : list (field (Kty * PublicRsaKey)) :=
  key_fields PubRsa_jwk PubRsa_set_jwk jwkFields_json ++
  key_fields PubRsa_fields PubRsa_set_fields PublicRsaKeyFields_json ++
  [kty_field].

Definition PublicRsaKey_UnmarshalJSON (src : bytes) (k : PublicRsaKey) : result PublicRsaKey :=
  '(kty, k) ← json_Unmarshal (dec_struct PublicRsaKey_json) src ("", k);
  if negb (bool_decide (kty = KtyRSA)) then jose_err Jose.ErrUnexpectedKeyType
  else
    _ ← jwkFields_CheckConsistency (PubRsa_jwk k);
    _ ← PublicRsaKey_checkX5CMatchesKey k;
    Ok k.

Definition PrivateRsaKey_MarshalJSON (k : PrivateRsaKey) : result bytes :=
  marshal_obj (
    j ← jwkFields_members (PrivRsa_jwk k);
    f ← PublicRsaKeyFields_members (PrivRsa_pubfields k);
    p ← PrivateRsaKeyFields_members (PrivRsa_fields k);
    Ok (member "kty" (enc_string KtyRSA) ++ j ++ f ++ p)).

Definition PrivateRsaKey_json : list (field (Kty * PrivateRsaKey)) :=
  [kty_field] ++
  key_fields PrivRsa_jwk PrivRsa_set_jwk jwkFields_json ++
  key_fields PrivRsa_pubfields PrivRsa_set_pubfields PublicRsaKeyFields_json ++
  key_fields PrivRsa_fields PrivRsa_set_fields PrivateRsaKeyFields_json.

Definition PrivateRsaKey_UnmarshalJSON (src : bytes) (k : PrivateRsaKey) : result PrivateRsaKey :=
  '(kty, k) ← json_Unmarshal (dec_struct PrivateRsaKey_json) src ("", k);
  if negb (bool_decide (kty = KtyRSA)) then jose_err Jose.ErrUnexpectedKeyType
  else
    _ ← jwkFields_CheckConsistency (PrivRsa_jwk k);
    _ ← PublicRsaKey_checkX5CMatchesKey (PrivRsa_pub k);
    Ok k.

Definition PublicEcKey_MarshalJSON (k : PublicEcKey) : result bytes :=
  marshal_obj (
    j ← jwkFields_members (PubEc_jwk k);
    f ← PublicEcKeyFields_members (PubEc_fields k);
    Ok (j ++ f ++ member "kty" (enc_string KtyEC))).

Definition PublicEcKey_json : list (field (Kty * PublicEcKey)) :=
  [kty_field] ++
  key_fields PubEc_jwk PubEc_set_jwk jwkFields_json ++
  key_fields PubEc_fields PubEc_set_fields PublicEcKeyFields_json.

Definition PublicEcKey_UnmarshalJSON (src : bytes) (k : PublicEcKey) : result PublicEcKey :=
  '(kty, k) ← json_Unmarshal (dec_struct PublicEcKey_json) src ("", k);
  if negb (bool_decide (kty = KtyEC)) then jose_err Jose.ErrUnexpectedKeyType
  else
    _ ← jwkFields_CheckConsistency (PubEc_jwk k);
    _ ← PublicEcKey_checkX5CMatchesKey k;
    Ok k.

Definition PrivateEcKey_MarshalJSON (k : PrivateEcKey) : result bytes :=
  marshal_obj (
    j ← jwkFields_members (PrivEc_jwk k);
    f ← PublicEcKeyFields_members (PrivEc_pubfields k);
    p ← PrivateEcKeyFields_members (PrivEc_fields k);
    Ok (member "kty" (enc_string KtyEC) ++ j ++ f ++ p)).

Definition PrivateEcKey_json : list (field (Kty * PrivateEcKey)) :=
  [kty_field] ++
  key_fields PrivEc_jwk PrivEc_set_jwk jwkFields_json ++
  key_fields PrivEc_pubfields PrivEc_set_pubfields PublicEcKeyFields_json ++
  key_fields PrivEc_fields PrivEc_set_fields PrivateEcKeyFields_json.

Definition PrivateEcKey_UnmarshalJSON (src : bytes) (k : PrivateEcKey) : result PrivateEcKey :=
  '(kty, k) ← json_Unmarshal (dec_struct PrivateEcKey_json) src ("", k);
  if negb (bool_decide (kty = KtyEC)) then jose_err Jose.ErrUnexpectedKeyType
  else
    _ ← jwkFields_CheckConsistency (PrivEc_jwk k);
    _ ← PublicEcKey_checkX5CMatchesKey (PrivEc_pub k);
    Ok k.

Definition OctSecretKey_MarshalJSON (k : OctSecretKey) : result bytes :=
  marshal_obj (
    j ← jwkFields_members (Oct_jwk k);
    f ← OctSecretKeyFields_members (Oct_fields k);
    Ok (j ++ f ++ member "kty" (enc_string KtyOct))).

Definition OctSecretKey_json : list (field (Kty * OctSecretKey)) :=
  key_fields Oct_jwk Oct_set_jwk jwkFields_json ++
  key_fields Oct_fields Oct_set_fields OctSecretKeyFields_json ++
  [kty_field].

Definition OctSecretKey_UnmarshalJSON (src : bytes) (k : OctSecretKey) : result OctSecretKey :=
  '(kty, k) ← json_Unmarshal (dec_struct OctSecretKey_json) src ("", k);
  if negb (bool_decide (kty = KtyOct)) then jose_err Jose.ErrUnexpectedKeyType
  else
    _ ← jwkFields_CheckConsistency (Oct_jwk k);
    Ok k.

(** ** The [Jwk] interface *)
Inductive Jwk :=
  | JPublicRsa (k : PublicRsaKey)
  | JPrivateRsa (k : PrivateRsaKey)
  | JPublicEc (k : PublicEcKey)
  | JPrivateEc (k : PrivateEcKey)
  | JOct (k : OctSecretKey).

Definition Jwk_Kty (j : Jwk) : Kty :=
  match j with
  | JPublicRsa _ | JPrivateRsa _ => KtyRSA
  | JPublicEc _ | JPrivateEc _ => KtyEC
  | JOct _ => KtyOct
  end.

(** The promoted [jwkFields] of a key. *)
Definition Jwk_fields (j : Jwk) : jwkFields :=
  match j with
  | JPublicRsa k => PubRsa_jwk k
  | JPrivateRsa k => PrivRsa_jwk k
  | JPublicEc k => PubEc_jwk k
  | JPrivateEc k => PrivEc_jwk k
  | JOct k => Oct_jwk k
  end.

Definition Jwk_update (f : jwkFields → jwkFields) (j : Jwk) : Jwk :=
  match j with
  | JPublicRsa k => JPublicRsa (PubRsa_set_jwk (f (PubRsa_jwk k)) k)
  | JPrivateRsa k => JPrivateRsa (PrivRsa_set_jwk (f (PrivRsa_jwk k)) k)
  | JPublicEc k => JPublicEc (PubEc_set_jwk (f (PubEc_jwk k)) k)
  | JPrivateEc k => JPrivateEc (PrivEc_set_jwk (f (PrivEc_jwk k)) k)
  | JOct k => JOct (Oct_set_jwk (f (Oct_jwk k)) k)
  end.

Definition Jwk_Ops (j : Jwk) : list Types.KeyOps := jwkFields_Ops (Jwk_fields j).
Definition Jwk_Alg (j : Jwk) : Alg := jwkFields_Alg (Jwk_fields j).
Definition Jwk_Kid (j : Jwk) : string := jwkFields_Kid (Jwk_fields j).
Definition Jwk_X5C (j : Jwk) : list (option x509_Certificate) := jwkFields_X5C (Jwk_fields j).
Definition Jwk_SetOps (ops : list Types.KeyOps) : Jwk → Jwk := Jwk_update (jwkFields_SetOps ops).
Definition Jwk_SetAlg (alg : Alg) : Jwk → Jwk := Jwk_update (jwkFields_SetAlg alg).
Definition Jwk_SetKid (kid : string) : Jwk → Jwk := Jwk_update (jwkFields_SetKid kid).
Definition Jwk_SetX5C (x5c : list (option x509_Certificate)) : Jwk → Jwk := Jwk_update (jwkFields_SetX5C x5c).

(** [json.Marshal(jwk)], through the [MarshalJSON] method of the dynamic type. *)
Definition Jwk_MarshalJSON (j : Jwk) : result bytes :=
  match j with
  | JPublicRsa k => PublicRsaKey_MarshalJSON k
  | JPrivateRsa k => PrivateRsaKey_MarshalJSON k
  | JPublicEc k => PublicEcKey_MarshalJSON k
  | JPrivateEc k => PrivateEcKey_MarshalJSON k
  | JOct k => OctSecretKey_MarshalJSON k
  end.

(** ** [UnmarshalJwk] *)
Definition PublicRsaKey_zero : PublicRsaKey :=
  {| PubRsa_jwk := jwkFields_zero; PubRsa_fields := {| Rsa_N := 0%N; Rsa_E := 0%N |} |}.
Definition PrivateRsaKey_zero : PrivateRsaKey :=
  {| PrivRsa_pub := PublicRsaKey_zero;
     PrivRsa_fields := {| Rsa_D := 0%N; Rsa_P := 0%N; Rsa_Q := 0%N; Rsa_Dp := 0%N; Rsa_Dq := 0%N; Rsa_Qi := 0%N |} |}.
Definition PublicEcKey_zero : PublicEcKey :=
  {| PubEc_jwk := jwkFields_zero; PubEc_fields := {| Ec_Crv := ""; Ec_X := 0%N; Ec_Y := 0%N |} |}.
Definition PrivateEcKey_zero : PrivateEcKey :=
  {| PrivEc_pub := PublicEcKey_zero; PrivEc_fields := {| Ec_D := 0%N |} |}.
Definition OctSecretKey_zero : OctSecretKey :=
  {| Oct_jwk := jwkFields_zero; Oct_fields := {| Oct_K := [] |} |}.

(** [json.Unmarshal] into a value with an [UnmarshalJSON] method. *)
Definition unmarshal_with {A} (u : bytes → result A) (src : bytes) : result A :=
  match json_parse src with
  | Some t => u (json_print t)
  | None => std_err JsonSyntax
  end.

Definition UnmarshalJwk (reader : bytes) : result Jwk :=
  let src := takeN (MaxJwksSize + 1) reader in
  if (MaxJwksSize <? len src)%N then jose_err Jose.ErrInputTooLarge
  else
    kty ← json_Unmarshal (dec_struct [field_at "kty" (λ s, s) (λ v _, v) dec_string]) src "";
    if bool_decide (kty = KtyRSA) then
      rsa ← unmarshal_with (λ b, PrivateRsaKey_UnmarshalJSON b PrivateRsaKey_zero) src;
      if (BitLen (BigNum_Int (Rsa_D (PrivRsa_fields rsa))) =? 0)%N
      then Ok (JPublicRsa (PrivRsa_pub rsa))
      else Ok (JPrivateRsa rsa)
    else if bool_decide (kty = KtyEC) then
      ec ← unmarshal_with (λ b, PrivateEcKey_UnmarshalJSON b PrivateEcKey_zero) src;
      if (BitLen (BigNum_Int (Ec_D (PrivEc_fields ec))) =? 0)%N
      then Ok (JPublicEc (PrivEc_pub ec))
      else Ok (JPrivateEc ec)
    else if bool_decide (kty = KtyOct) then
      oct ← unmarshal_with (λ b, OctSecretKey_UnmarshalJSON b OctSecretKey_zero) src;
      Ok (JOct oct)
    else jose_err Jose.ErrUnsupportedKeyType.

(** ** [Jwks] *)
Definition Jwks := list Jwk.

(** A [json.RawMessage] that was never set is the empty text. *)
Definition dec_raw : decoder (option json) := λ t _, done_with (Some t).
Definition raw_bytes (t : option json) : bytes := match t with Some t => json_print t | None => [] end.

Fixpoint Jwks_append (keys : list (option json)) (j : Jwks) : result Jwks :=
  match keys with
  | [] => Ok j
  | blob :: keys => jwk ← UnmarshalJwk (raw_bytes blob); Jwks_append keys (j ++ [jwk])
  end.

Definition Jwks_UnmarshalJSON (data : bytes) (j : Jwks) : result Jwks :=
  if (MaxJwksSize <? len data)%N then jose_err Jose.ErrInputTooLarge
  else
    keys ← json_Unmarshal (dec_struct [field_at "keys" (λ s, s) (λ v _, v) (dec_vec dec_raw None)]) data [];
    Jwks_append keys j.
End jwk.
