(* ===== verification/JwkFacts.v ===== *)
(** Properties of [Jwk]: round trips, the checks of an imported key, totality. *)

From S2P Require Import Prelude Errors Base64 Json JsonFacts JsonCodec Types Crypto Toy Jwk.

(** ** Groups of members

    The members of a struct read back to the struct. *)
Definition group_ok {S} (fs : list (field S)) (zero : S) (m : result (list (bytes * json))) (s : S) : Prop :=
  ∃ ms, m = Ok ms ∧ members_ok 1 ms ∧ keys_in (map fst fs) ms ∧ dec_members fs ms zero = done_with s.

Definition bignum_ok (n : BigNum) : Prop := n ≠ 0%N ∧ (len (be_bytes n) <= MaxBlobSize)%N.

Lemma bignum_member_Ok name n : n ≠ 0%N →
  bignum_member name n = Ok (member name (JStr (b64_encode RawURLEncoding (be_bytes n)))).
Proof. intros Hn. unfold bignum_member. by rewrite enc_bignum. Qed.

Lemma dec_bignum_member {S} (fs : list (field S)) name n s s' get set :
  bignum_ok n → utf8 name = true → find_field fs (s2b name) = Some (dec_bignum_at name get set).2 →
  s' = set n s →
  dec_members fs (member name (JStr (b64_encode RawURLEncoding (be_bytes n)))) s = done_with s'.
Proof.
  intros [Hn Hl] Hu Hf ->. eapply dec_member.
  - unfold utf8 in Hu. by rewrite unquote_quote.
  - cbn [dec_bignum_at field_at snd]. unfold dec_unmarshaler. by rewrite dec_bignum.
Qed.

Lemma members_ok_b64 d e name b : members_ok d (member name (JStr (b64_encode e b))).
Proof. apply (members_ok_omitempty d false); [apply raw_ok_b64|simpl; lia]. Qed.

Lemma keys_in_member names name t : utf8 name = true → name ∈ names → keys_in names (member name t).
Proof. apply (keys_in_omitempty names false). Qed.

(** Reading two groups in sequence. *)
Ltac read_group H := rewrite (dec_members_app _ _ _ _ _ H).

Lemma PublicRsaKeyFields_group f : bignum_ok (Rsa_N f) → bignum_ok (Rsa_E f) →
  group_ok PublicRsaKeyFields_json {| Rsa_N := 0%N; Rsa_E := 0%N |} (PublicRsaKeyFields_members f) f.
Proof.
  intros Hn He. unfold PublicRsaKeyFields_members.
  rewrite !bignum_member_Ok by (apply Hn || apply He). eexists. split; [reflexivity|].
  split; [by repeat apply members_ok_app; apply members_ok_b64|].
  split; [repeat apply keys_in_app; apply keys_in_member; [done|in_names|done|in_names]|].
  erewrite dec_members_app by (eapply dec_bignum_member; [exact Hn|done|find_name|reflexivity]).
  eapply dec_bignum_member; [exact He|done|find_name|by destruct f].
Qed.

(** A chain of [BigNum] members. *)
Ltac bignum_keys :=
  repeat apply keys_in_app; apply keys_in_member; first [done | in_names].
Ltac read_bignum H := eapply dec_bignum_member; [exact H|done|find_name|reflexivity].

Definition PrivateRsaKeyFields_ok (f : PrivateRsaKeyFields) : Prop :=
  bignum_ok (Rsa_D f) ∧ bignum_ok (Rsa_P f) ∧ bignum_ok (Rsa_Q f) ∧
  bignum_ok (Rsa_Dp f) ∧ bignum_ok (Rsa_Dq f) ∧ bignum_ok (Rsa_Qi f).

Lemma PrivateRsaKeyFields_group f : PrivateRsaKeyFields_ok f →
  group_ok PrivateRsaKeyFields_json (PrivRsa_fields PrivateRsaKey_zero) (PrivateRsaKeyFields_members f) f.
Proof.
  intros (Hd & Hp & Hq & Hdp & Hdq & Hqi). unfold PrivateRsaKeyFields_members.
  rewrite !bignum_member_Ok by (apply Hd || apply Hp || apply Hq || apply Hdp || apply Hdq || apply Hqi).
  eexists. split; [reflexivity|].
  split; [by repeat apply members_ok_app; apply members_ok_b64|].
  split; [bignum_keys|].
  erewrite dec_members_app by read_bignum Hd.
  erewrite dec_members_app by read_bignum Hp.
  erewrite dec_members_app by read_bignum Hq.
  erewrite dec_members_app by read_bignum Hdp.
  erewrite dec_members_app by read_bignum Hdq.
  eapply dec_bignum_member; [exact Hqi|done|find_name|by destruct f].
Qed.

Definition PublicEcKeyFields_ok (f : PublicEcKeyFields) : Prop :=
  utf8 (Ec_Crv f) = true ∧ bignum_ok (Ec_X f) ∧ bignum_ok (Ec_Y f).

Lemma dec_string_member {S} (fs : list (field S)) name v s s' get set :
  utf8 v = true → utf8 name = true →
  find_field fs (s2b name) = Some (field_at name get set dec_string).2 → s' = set v s →
  dec_members fs (member name (enc_string v)) s = done_with s'.
Proof.
  intros Hv Hu Hf ->. eapply dec_member.
  - unfold utf8 in Hu. by rewrite unquote_quote.
  - cbn [field_at snd]. by rewrite dec_enc_string.
Qed.

Lemma members_ok_string d name v : members_ok d (member name (enc_string v)).
Proof. apply (members_ok_omitempty d false); [apply json_wf_enc_string|simpl; lia]. Qed.

Lemma PublicEcKeyFields_group f : PublicEcKeyFields_ok f →
  group_ok PublicEcKeyFields_json (PubEc_fields PublicEcKey_zero) (PublicEcKeyFields_members f) f.
Proof.
  intros (Hc & Hx & Hy). unfold PublicEcKeyFields_members.
  rewrite !bignum_member_Ok by (apply Hx || apply Hy). eexists. split; [reflexivity|].
  split; [repeat apply members_ok_app; first [apply members_ok_b64|apply members_ok_string]|].
  split; [bignum_keys|].
  erewrite dec_members_app by (eapply dec_string_member; [exact Hc|done|find_name|reflexivity]).
  erewrite dec_members_app by read_bignum Hx.
  eapply dec_bignum_member; [exact Hy|done|find_name|by destruct f].
Qed.

Lemma PrivateEcKeyFields_group f : bignum_ok (Ec_D f) →
  group_ok PrivateEcKeyFields_json (PrivEc_fields PrivateEcKey_zero) (PrivateEcKeyFields_members f) f.
Proof.
  intros Hd. unfold PrivateEcKeyFields_members. rewrite bignum_member_Ok by apply Hd.
  eexists. split; [reflexivity|]. split; [apply members_ok_b64|]. split; [bignum_keys|].
  eapply dec_bignum_member; [exact Hd|done|find_name|by destruct f].
Qed.

Definition blob_ok (b : Blob) : Prop := b ≠ [] ∧ (len b <= MaxBlobSize)%N.

Lemma OctSecretKeyFields_group f : blob_ok (Oct_K f) →
  group_ok OctSecretKeyFields_json (Oct_fields OctSecretKey_zero) (OctSecretKeyFields_members f) f.
Proof.
  intros [Hk Hl]. unfold OctSecretKeyFields_members. rewrite enc_blob by done.
  eexists. split; [reflexivity|]. split; [apply members_ok_b64|]. split; [bignum_keys|].
  eapply dec_member; [find_name|]. cbn [field_at snd]. unfold dec_unmarshaler.
  rewrite dec_blob by done. by destruct f.
Qed.

(** ** The common fields *)
Section fields.
Context `{X509, Digests}.

(** A certificate that is written and read back. *)
Definition Certificate_ok (c : Certificate) : Prop :=
  match c with
  | Some x => cert_parsed x ∧ Cert_Raw x ≠ [] ∧
      (DecodedLen StdEncoding (EncodedLen StdEncoding (len (Cert_Raw x))) <= MaxBlobSize)%N
  | None => False
  end.

Definition cert_json (c : Certificate) : json :=
  match c with Some x => JStr (b64_encode StdEncoding (Cert_Raw x)) | None => JNull end.

Lemma enc_certificate c : Certificate_ok c → enc_marshaler (Certificate_MarshalJSON c) = Ok (cert_json c).
Proof. destruct c as [x|]; [|done]. intros (_ & Hne & _). by apply enc_marshal_blob. Qed.

Lemma enc_certificates l : Forall Certificate_ok l →
  mapM (λ c, enc_marshaler (Certificate_MarshalJSON c)) l = Ok (map cert_json l).
Proof.
  induction 1 as [|c l Hc Hl IH]; [done|]. cbn [mapM map]. by rewrite enc_certificate, IH.
Qed.

Lemma dec_certificate c cur : Certificate_ok c →
  dec_unmarshaler Certificate_UnmarshalJSON (cert_json c) cur = done_with c.
Proof.
  destruct c as [x|]; [|done]. intros (Hp & Hne & Hb).
  unfold dec_unmarshaler, Certificate_UnmarshalJSON, cert_json. cbn [json_print].
  rewrite unmarshal_quoted by (by rewrite b64_encode_nil).
  rewrite b64_encode_length. destruct (N.ltb_spec MaxBlobSize (DecodedLen StdEncoding (EncodedLen StdEncoding (len (Cert_Raw x)))));
    [lia|].
  rewrite b64_decode_encode. cbn. by rewrite Hp.
Qed.

Record jwkFields_ok (j : jwkFields) : Prop := {
  ok_use : utf8 (KeyUse j) = true;
  ok_ops : Forall (λ op, utf8 op = true) (KeyOps j);
  ok_alg : utf8 (KeyAlg j) = true;
  ok_kid : utf8 (KeyKid j) = true;
  ok_x5c : Forall Certificate_ok (KeyX5C j);
  ok_x5t : ∀ f, KeyX5T j = Some f → len f = 20%N;
}.

Lemma enc_fingerprint f : len f = 20%N →
  enc_marshaler (Fingerprint_MarshalJSON f) = Ok (JStr (b64_encode RawURLEncoding f)).
Proof.
  intros Hf. unfold Fingerprint_MarshalJSON. rewrite Hf. cbn [negb N.eqb Pos.eqb].
  apply enc_marshal_blob. by intros ->.
Qed.

Lemma dec_fingerprint f cur : len f = 20%N →
  dec_ptr Fingerprint_UnmarshalJSON (JStr (b64_encode RawURLEncoding f)) cur = done_with (Some f).
Proof.
  intros Hf. unfold dec_ptr, Fingerprint_UnmarshalJSON.
  change (unmarshalJSONBlob ?x RawURLEncoding) with (Blob_UnmarshalJSON x).
  rewrite dec_blob; [|by intros ->|rewrite Hf; done]. cbn. by rewrite Hf.
Qed.

Definition jwkFields_x5t_members (j : jwkFields) : list (bytes * json) :=
  match KeyX5T j with Some f => member "x5t" (JStr (b64_encode RawURLEncoding f)) | None => [] end.

Lemma jwkFields_members_Ok j : jwkFields_ok j →
  jwkFields_members j = Ok (
    omitempty (str_empty (KeyUse j)) "use" (enc_string (KeyUse j)) ++
    omitempty (bool_decide (KeyOps j = [])) "key_ops" (JArr (map enc_string (KeyOps j))) ++
    omitempty (str_empty (KeyAlg j)) "alg" (enc_string (KeyAlg j)) ++
    omitempty (str_empty (KeyKid j)) "kid" (enc_string (KeyKid j)) ++
    omitempty (bool_decide (map cert_json (KeyX5C j) = [])) "x5c" (JArr (map cert_json (KeyX5C j))) ++
    jwkFields_x5t_members j).
Proof.
  intros [? ? ? ? Hc Ht]. unfold jwkFields_members, jwkFields_x5t_members.
  rewrite enc_certificates by done. cbn [mbind res_bind].
  destruct (KeyX5T j) as [f|]; [|done]. cbn [omit_nil]. by rewrite enc_fingerprint by auto.
Qed.

Lemma cert_json_wf c : Certificate_ok c → json_wf (cert_json c) = true ∧ json_depth (cert_json c) = 0%N.
Proof. destruct c; [|done]. intros _. split; [apply raw_ok_b64|done]. Qed.

Lemma jwkFields_members_wf j ms : jwkFields_ok j → jwkFields_members j = Ok ms →
  members_ok 1 ms ∧ keys_in (map fst jwkFields_json) ms.
Proof.
  intros Hj. rewrite jwkFields_members_Ok by done. intros [= <-]. destruct Hj as [? ? ? ? Hc Ht].
  assert (json_wf (JArr (map cert_json (KeyX5C j))) = true ∧
          (json_depth (JArr (map cert_json (KeyX5C j))) <= 1)%N) as [Hw Hd].
  { cbn [json_wf json_depth]. induction Hc as [|c l Hc Hl IH]; [done|]. cbn [map forallb fold_right].
    destruct (cert_json_wf c Hc) as [-> ->]. destruct IH as [-> IH]. split; [done|lia]. }
  split.
  - repeat apply members_ok_app; try (apply members_ok_omitempty);
      try apply json_wf_enc_string; try (simpl; lia); try done.
    + apply json_wf_strings, json_wf_enc_string.
    + by apply json_depth_flat.
    + unfold jwkFields_x5t_members. destruct (KeyX5T j); [apply members_ok_b64|constructor].
  - repeat apply keys_in_app; try (apply keys_in_omitempty; [done|in_names]).
    unfold jwkFields_x5t_members. destruct (KeyX5T j); [|constructor].
    apply keys_in_member; [done|in_names].
Qed.

Lemma jwkFields_dec j ms : jwkFields_ok j → jwkFields_members j = Ok ms →
  dec_members jwkFields_json ms jwkFields_zero = done_with j.
Proof.
  intros Hj. rewrite jwkFields_members_Ok by done. intros [= <-]. destruct Hj as [Hu Ho Ha Hk Hc Ht].
  destruct j as [use ops alg kid x5c x5t]. unfold jwkFields_zero, jwkFields_x5t_members. simpl in *.
  erewrite dec_members_app; last first.
  { apply dec_omitempty with (dec := (field_at "use" KeyUse jwkFields_SetUse dec_string).2)
      (s' := Build_jwkFields use [] "" "" [] None); [find_name|by intros ->%str_empty_true|].
    intros _. cbn [field_at snd]. by rewrite dec_enc_string. }
  erewrite dec_members_app; last first.
  { apply dec_omitempty with (dec := (field_at "key_ops" KeyOps jwkFields_SetOps (dec_vec dec_string "")).2)
      (s' := Build_jwkFields use ops "" "" [] None); [find_name|by intros ->%bool_decide_eq_true|].
    intros _. cbn [field_at snd]. rewrite (dec_vec_map _ _ _ (λ s, s)), map_id; [done|].
    eapply Forall_impl; [|exact Ho]. intros op Hop. by apply dec_enc_string. }
  erewrite dec_members_app; last first.
  { apply dec_omitempty with (dec := (field_at "alg" KeyAlg jwkFields_SetAlg dec_string).2)
      (s' := Build_jwkFields use ops alg "" [] None); [find_name|by intros ->%str_empty_true|].
    intros _. cbn [field_at snd]. by rewrite dec_enc_string. }
  erewrite dec_members_app; last first.
  { apply dec_omitempty with (dec := (field_at "kid" KeyKid jwkFields_SetKid dec_string).2)
      (s' := Build_jwkFields use ops alg kid [] None); [find_name|by intros ->%str_empty_true|].
    intros _. cbn [field_at snd]. by rewrite dec_enc_string. }
  erewrite dec_members_app; last first.
  { apply dec_omitempty with
      (dec := (field_at "x5c" KeyX5C set_KeyX5C (dec_vec (dec_unmarshaler Certificate_UnmarshalJSON) None)).2)
      (s' := Build_jwkFields use ops alg kid x5c None); [find_name|..].
    - intros Hx%bool_decide_eq_true. by destruct x5c.
    - intros _. cbn [field_at snd]. rewrite (dec_vec_map _ _ _ (λ c, c)), map_id; [done|].
      eapply Forall_impl; [|exact Hc]. intros c Hcc. by apply dec_certificate. }
  destruct x5t as [f|]; [|done].
  apply dec_member with (dec := (field_at "x5t" KeyX5T jwkFields_SetX5T (dec_ptr Fingerprint_UnmarshalJSON)).2);
    [find_name|]. cbn [field_at snd]. by rewrite dec_fingerprint by auto.
Qed.

Lemma jwkFields_group j : jwkFields_ok j → group_ok jwkFields_json jwkFields_zero (jwkFields_members j) j.
Proof.
  intros Hj. pose proof (jwkFields_members_Ok j Hj) as Hm. eexists. split; [exact Hm|].
  destruct (jwkFields_members_wf j _ Hj Hm). split; [done|]. split; [done|]. by apply jwkFields_dec.
Qed.

(** ** Keys *)

(** Projecting a part of a key next to its [kty]. *)
Definition snd_get {K S} (get : K → S) (s : Kty * K) : S := get s.2.
Definition snd_set {K S} (set : S → K → K) (v : S) (s : Kty * K) : Kty * K := (s.1, set v s.2).

Lemma snd_lens {K S} (get : K → S) (set : S → K → K) : lens get set → lens (snd_get get) (snd_set set).
Proof.
  intros [Hg Hs Hi]. split; unfold snd_get, snd_set; simpl; intros; [apply Hg|by rewrite Hs|].
  rewrite Hi. by destruct t.
Qed.

Lemma key_group {K S} (get : K → S) (set : S → K → K) fs0 zero m a (fs : list (field (Kty * K))) :
  group_ok fs0 zero m a → lens get set → embeds (snd_get get) (snd_set set) fs0 fs →
  ∃ ms, m = Ok ms ∧ members_ok 1 ms ∧ keys_in (map fst fs0) ms ∧
    ∀ kty k, get k = zero → dec_members fs ms (kty, k) = done_with (kty, set a k).
Proof.
  intros (ms & Hm & Hok & Hk & Hd) Hl He. exists ms. do 3 (split; [done|]). intros kty k Hz.
  rewrite (dec_members_lift_done _ _ _ _ _ (kty, k) a (snd_lens get set Hl) He Hk); [done|].
  unfold snd_get. simpl. by rewrite Hz.
Qed.

Lemma dec_kty_member {K} (fs : list (field (Kty * K))) v kty k :
  utf8 v = true → find_field fs (s2b "kty") = Some (kty_field (K := K)).2 →
  dec_members fs (member "kty" (enc_string v)) (kty, k) = done_with (v, k).
Proof. intros Hv Hf. by eapply dec_string_member. Qed.

(** Members that are none of the fields are skipped. *)
Lemma dec_members_skip {S} (fs : list (field S)) names m s :
  keys_in names m → Forall (λ name, find_field fs (s2b name) = None) names →
  dec_members fs m s = done_with s.
Proof.
  intros Hk Hn. rewrite List.Forall_forall in Hn.
  induction Hk as [|[k t] m (name & Hin & Hk) Hm IH]; [done|]. simpl in Hk |- *.
  rewrite Hk, (Hn name) by (by apply list_elem_of_In). cbn. by rewrite IH.
Qed.

Definition only_kty : list (field Kty) := [field_at "kty" (λ s, s) (λ v _, v) dec_string].

Lemma dec_only_kty v s : utf8 v = true → dec_members only_kty (member "kty" (enc_string v)) s = done_with v.
Proof. intros Hv. eapply dec_string_member; [done|done|find_name|done]. Qed.

Lemma skip_only_kty ms names s : keys_in names ms →
  Forall (λ name, find_field only_kty (s2b name) = None) names →
  dec_members only_kty ms s = done_with s.
Proof. apply dec_members_skip. Qed.

(** [UnmarshalJwk] on a document the marshaller could have written. *)
Lemma UnmarshalJwk_dispatch ms kty :
  members_ok 1 ms → (len (json_print (JObj ms)) <= MaxJwksSize)%N →
  dec_members only_kty ms "" = done_with kty →
  UnmarshalJwk (json_print (JObj ms)) =
    if bool_decide (kty = KtyRSA) then
      rsa ← PrivateRsaKey_UnmarshalJSON (json_print (JObj ms)) PrivateRsaKey_zero;
      if (BitLen (Rsa_D (PrivRsa_fields rsa)) =? 0)%N
      then Ok (JPublicRsa (PrivRsa_pub rsa)) else Ok (JPrivateRsa rsa)
    else if bool_decide (kty = KtyEC) then
      ec ← PrivateEcKey_UnmarshalJSON (json_print (JObj ms)) PrivateEcKey_zero;
      if (BitLen (Ec_D (PrivEc_fields ec)) =? 0)%N
      then Ok (JPublicEc (PrivEc_pub ec)) else Ok (JPrivateEc ec)
    else if bool_decide (kty = KtyOct) then
      oct ← OctSecretKey_UnmarshalJSON (json_print (JObj ms)) OctSecretKey_zero; Ok (JOct oct)
    else jose_err Jose.ErrUnsupportedKeyType.
Proof.
  intros Hok Hlen Hk. unfold UnmarshalJwk. rewrite takeN_all by lia.
  destruct (N.ltb_spec MaxJwksSize (len (json_print (JObj ms)))); [lia|].
  rewrite (unmarshal_obj _ 1) by done. cbn [dec_struct]. fold only_kty. rewrite Hk.
  cbn [finish done_with mbind res_bind].
  assert (json_parse (json_print (JObj ms)) = Some (JObj ms)) as Hp.
  { apply json_parse_print; [by eapply members_ok_wf|].
    pose proof (members_ok_depth 1 ms Hok). unfold maxNestingDepth. lia. }
  unfold unmarshal_with. rewrite Hp. done.
Qed.

(** A key that [MarshalJSON] writes and an import accepts: printable strings,
    non-zero members within the bounds, and the consistency checks. *)
Definition Jwk_ok (j : Jwk) : Prop :=
  jwkFields_ok (Jwk_fields j) ∧ jwkFields_CheckConsistency (Jwk_fields j) = Ok tt ∧
  match j with
  | JPublicRsa k =>
    bignum_ok (Rsa_N (PubRsa_fields k)) ∧ bignum_ok (Rsa_E (PubRsa_fields k)) ∧
    PublicRsaKey_checkX5CMatchesKey k = Ok tt
  | JPrivateRsa k =>
    (bignum_ok (Rsa_N (PubRsa_fields (PrivRsa_pub k))) ∧ bignum_ok (Rsa_E (PubRsa_fields (PrivRsa_pub k))) ∧
    PublicRsaKey_checkX5CMatchesKey (PrivRsa_pub k) = Ok tt) ∧ PrivateRsaKeyFields_ok (PrivRsa_fields k)
  | JPublicEc k => PublicEcKeyFields_ok (PubEc_fields k) ∧ PublicEcKey_checkX5CMatchesKey k = Ok tt
  | JPrivateEc k =>
    PublicEcKeyFields_ok (PubEc_fields (PrivEc_pub k)) ∧
    PublicEcKey_checkX5CMatchesKey (PrivEc_pub k) = Ok tt ∧ bignum_ok (Ec_D (PrivEc_fields k))
  | JOct k => blob_ok (Oct_K (Oct_fields k))
  end.

Ltac destruct_keys := repeat match goal with
  | k : PrivateRsaKey |- _ => destruct k | k : PublicRsaKey |- _ => destruct k
  | k : PrivateEcKey |- _ => destruct k | k : PublicEcKey |- _ => destruct k
  | k : OctSecretKey |- _ => destruct k end.
Ltac solve_lens := split; intros; destruct_keys; done.

Lemma members_ok_kty v : members_ok 1 (member "kty" (enc_string v)).
Proof. apply members_ok_string. Qed.

(** What an import reads from a written document. *)
Definition reads {K} (fs : list (field (Kty * K))) (zero : K) (m : result bytes) (kty : Kty) (k : K) : Prop :=
  ∃ ms, m = Ok (json_print (JObj ms)) ∧ members_ok 1 ms ∧ dec_members only_kty ms "" = done_with kty ∧
    dec_members fs ms ("", zero) = done_with (kty, k).

Ltac skip_names := repeat (constructor; [find_name|]); try constructor.

(** [use_group G get set fs ms E O K D]: read the members of group [G] at [get]. *)
Tactic Notation "use_group" constr(G) constr(get) constr(set) constr(fs) simple_intropattern(p) :=
  destruct (key_group get set _ _ _ _ fs G) as p; [solve_lens|solve_embeds|].

Lemma PublicRsaKey_reads k : Jwk_ok (JPublicRsa k) →
  reads PrivateRsaKey_json PrivateRsaKey_zero (PublicRsaKey_MarshalJSON k) KtyRSA
    {| PrivRsa_pub := k; PrivRsa_fields := PrivRsa_fields PrivateRsaKey_zero |}.
Proof.
  intros (Hj & Hc & Hn & He & Hx).
  use_group (jwkFields_group _ Hj) PrivRsa_jwk PrivRsa_set_jwk PrivateRsaKey_json (m1 & E1 & O1 & K1 & D1).
  use_group (PublicRsaKeyFields_group _ Hn He) PrivRsa_pubfields PrivRsa_set_pubfields PrivateRsaKey_json
    (m2 & E2 & O2 & K2 & D2).
  exists (m1 ++ m2 ++ member "kty" (enc_string KtyRSA)). simpl in E1. split_and!.
  - unfold PublicRsaKey_MarshalJSON. by rewrite E1, E2.
  - repeat apply members_ok_app; [done..|apply members_ok_kty].
  - erewrite !dec_members_app by (eapply skip_only_kty; [done|skip_names]). by apply dec_only_kty.
  - erewrite dec_members_app by (by apply D1). erewrite dec_members_app by (by apply D2).
    destruct k. by apply dec_kty_member.
Qed.

Lemma PrivateRsaKey_reads k : Jwk_ok (JPrivateRsa k) →
  reads PrivateRsaKey_json PrivateRsaKey_zero (PrivateRsaKey_MarshalJSON k) KtyRSA k.
Proof.
  intros (Hj & Hc & (Hn & He & Hx) & Hp).
  use_group (jwkFields_group _ Hj) PrivRsa_jwk PrivRsa_set_jwk PrivateRsaKey_json (m1 & E1 & O1 & K1 & D1).
  use_group (PublicRsaKeyFields_group _ Hn He) PrivRsa_pubfields PrivRsa_set_pubfields PrivateRsaKey_json
    (m2 & E2 & O2 & K2 & D2).
  use_group (PrivateRsaKeyFields_group _ Hp) PrivRsa_fields PrivRsa_set_fields PrivateRsaKey_json
    (m3 & E3 & O3 & K3 & D3).
  exists (member "kty" (enc_string KtyRSA) ++ m1 ++ m2 ++ m3). simpl in E1. split_and!.
  - unfold PrivateRsaKey_MarshalJSON, PrivRsa_pubfields. by rewrite E1, E2, E3.
  - repeat apply members_ok_app; [apply members_ok_kty|done..].
  - erewrite dec_members_app by (by apply dec_only_kty).
    erewrite !dec_members_app by (eapply skip_only_kty; [done|skip_names]).
    eapply skip_only_kty; [done|skip_names].
  - erewrite dec_members_app by (by apply dec_kty_member). erewrite dec_members_app by (by apply D1).
    erewrite dec_members_app by (by apply D2). rewrite D3 by done. by destruct_keys.
Qed.

Lemma PublicEcKey_reads k : Jwk_ok (JPublicEc k) →
  reads PrivateEcKey_json PrivateEcKey_zero (PublicEcKey_MarshalJSON k) KtyEC
    {| PrivEc_pub := k; PrivEc_fields := PrivEc_fields PrivateEcKey_zero |}.
Proof.
  intros (Hj & Hc & Hf & Hx).
  use_group (jwkFields_group _ Hj) PrivEc_jwk PrivEc_set_jwk PrivateEcKey_json (m1 & E1 & O1 & K1 & D1).
  use_group (PublicEcKeyFields_group _ Hf) PrivEc_pubfields PrivEc_set_pubfields PrivateEcKey_json
    (m2 & E2 & O2 & K2 & D2).
  exists (m1 ++ m2 ++ member "kty" (enc_string KtyEC)). simpl in E1. split_and!.
  - unfold PublicEcKey_MarshalJSON. by rewrite E1, E2.
  - repeat apply members_ok_app; [done..|apply members_ok_kty].
  - erewrite !dec_members_app by (eapply skip_only_kty; [done|skip_names]). by apply dec_only_kty.
  - erewrite dec_members_app by (by apply D1). erewrite dec_members_app by (by apply D2).
    destruct k. by apply dec_kty_member.
Qed.

Lemma PrivateEcKey_reads k : Jwk_ok (JPrivateEc k) →
  reads PrivateEcKey_json PrivateEcKey_zero (PrivateEcKey_MarshalJSON k) KtyEC k.
Proof.
  intros (Hj & Hc & Hf & Hx & Hd).
  use_group (jwkFields_group _ Hj) PrivEc_jwk PrivEc_set_jwk PrivateEcKey_json (m1 & E1 & O1 & K1 & D1).
  use_group (PublicEcKeyFields_group _ Hf) PrivEc_pubfields PrivEc_set_pubfields PrivateEcKey_json
    (m2 & E2 & O2 & K2 & D2).
  use_group (PrivateEcKeyFields_group _ Hd) PrivEc_fields PrivEc_set_fields PrivateEcKey_json
    (m3 & E3 & O3 & K3 & D3).
  exists (member "kty" (enc_string KtyEC) ++ m1 ++ m2 ++ m3). simpl in E1. split_and!.
  - unfold PrivateEcKey_MarshalJSON, PrivEc_pubfields. by rewrite E1, E2, E3.
  - repeat apply members_ok_app; [apply members_ok_kty|done..].
  - erewrite dec_members_app by (by apply dec_only_kty).
    erewrite !dec_members_app by (eapply skip_only_kty; [done|skip_names]).
    eapply skip_only_kty; [done|skip_names].
  - erewrite dec_members_app by (by apply dec_kty_member). erewrite dec_members_app by (by apply D1).
    erewrite dec_members_app by (by apply D2). rewrite D3 by done. by destruct_keys.
Qed.

Lemma OctSecretKey_reads k : Jwk_ok (JOct k) →
  reads OctSecretKey_json OctSecretKey_zero (OctSecretKey_MarshalJSON k) KtyOct k.
Proof.
  intros (Hj & Hc & Hk).
  use_group (jwkFields_group _ Hj) Oct_jwk Oct_set_jwk OctSecretKey_json (m1 & E1 & O1 & K1 & D1).
  use_group (OctSecretKeyFields_group _ Hk) Oct_fields Oct_set_fields OctSecretKey_json
    (m2 & E2 & O2 & K2 & D2).
  exists (m1 ++ m2 ++ member "kty" (enc_string KtyOct)). simpl in E1. split_and!.
  - unfold OctSecretKey_MarshalJSON. by rewrite E1, E2.
  - repeat apply members_ok_app; [done..|apply members_ok_kty].
  - erewrite !dec_members_app by (eapply skip_only_kty; [done|skip_names]). by apply dec_only_kty.
  - erewrite dec_members_app by (by apply D1). erewrite dec_members_app by (by apply D2).
    destruct_keys. by apply dec_kty_member.
Qed.

Lemma BitLen_pos n : n ≠ 0%N → (BitLen n =? 0)%N = false.
Proof. intros Hn. apply N.eqb_neq. by rewrite BitLen_0. Qed.

(** A well-formed key is an object, which reads as the key. *)
Lemma MarshalJSON_doc j : Jwk_ok j →
  ∃ ms, members_ok 1 ms ∧ Jwk_MarshalJSON j = Ok (json_print (JObj ms)) ∧
    ((len (json_print (JObj ms)) <= MaxJwksSize)%N → UnmarshalJwk (json_print (JObj ms)) = Ok j).
Proof.
  intros Hj. pose proof Hj as (Hf & Hc & Hk). destruct j as [k|k|k|k|k]; simpl in Hc, Hk.
  - destruct (PublicRsaKey_reads k Hj) as (ms & Em & Om & Dk & Dm). exists ms. split; [exact Om|]. split; [exact Em|].
    intros Hl. rewrite (UnmarshalJwk_dispatch ms KtyRSA) by done. rewrite bool_decide_true by done.
    unfold PrivateRsaKey_UnmarshalJSON. rewrite (unmarshal_obj _ 1) by done. cbn [dec_struct].
    rewrite Dm. cbn. unfold PrivRsa_jwk. cbn. rewrite Hc. cbn. destruct Hk as (_ & _ & ->). done.
  - destruct (PrivateRsaKey_reads k Hj) as (ms & Em & Om & Dk & Dm). exists ms. split; [exact Om|]. split; [exact Em|].
    intros Hl. rewrite (UnmarshalJwk_dispatch ms KtyRSA) by done. rewrite bool_decide_true by done.
    unfold PrivateRsaKey_UnmarshalJSON. rewrite (unmarshal_obj _ 1) by done. cbn [dec_struct].
    rewrite Dm. cbn. rewrite Hc. cbn. destruct Hk as ((_ & _ & ->) & (Hd & _) & _).
    rewrite bool_decide_true by done. cbn -[N.eqb]. by rewrite BitLen_pos by done.
  - destruct (PublicEcKey_reads k Hj) as (ms & Em & Om & Dk & Dm). exists ms. split; [exact Om|]. split; [exact Em|].
    intros Hl. rewrite (UnmarshalJwk_dispatch ms KtyEC) by done.
    rewrite bool_decide_false, bool_decide_true by done.
    unfold PrivateEcKey_UnmarshalJSON. rewrite (unmarshal_obj _ 1) by done. cbn [dec_struct].
    rewrite Dm. cbn. unfold PrivEc_jwk. cbn. rewrite Hc. cbn. destruct Hk as (_ & ->). done.
  - destruct (PrivateEcKey_reads k Hj) as (ms & Em & Om & Dk & Dm). exists ms. split; [exact Om|]. split; [exact Em|].
    intros Hl. rewrite (UnmarshalJwk_dispatch ms KtyEC) by done.
    rewrite bool_decide_false, bool_decide_true by done.
    unfold PrivateEcKey_UnmarshalJSON. rewrite (unmarshal_obj _ 1) by done. cbn [dec_struct].
    rewrite Dm. cbn. rewrite Hc. cbn. destruct Hk as (_ & -> & (Hd & _)).
    rewrite bool_decide_true by done. cbn -[N.eqb]. by rewrite BitLen_pos by done.
  - destruct (OctSecretKey_reads k Hj) as (ms & Em & Om & Dk & Dm). exists ms. split; [exact Om|]. split; [exact Em|].
    intros Hl. rewrite (UnmarshalJwk_dispatch ms KtyOct) by done.
    rewrite !bool_decide_false, bool_decide_true by done.
    unfold OctSecretKey_UnmarshalJSON. rewrite (unmarshal_obj _ 1) by done. cbn [dec_struct].
    rewrite Dm. cbn. rewrite Hc. done.
Qed.
Lemma MarshalJSON_reads j : Jwk_ok j →
  ∃ doc, Jwk_MarshalJSON j = Ok doc ∧ ((len doc <= MaxJwksSize)%N → UnmarshalJwk doc = Ok j).
Proof. intros (ms & _ & Hm & Hr)%MarshalJSON_doc. by eexists. Qed.

(** C11. Every well-formed key is written, and reading the document gives it back,
    with its dynamic type. *)
Theorem UnmarshalJwk_MarshalJSON j : Jwk_ok j →
  ∃ doc, Jwk_MarshalJSON j = Ok doc ∧ ((len doc <= MaxJwksSize)%N → UnmarshalJwk doc = Ok j).
Proof. exact (MarshalJSON_reads j). Qed.

(** ** Imported keys *)

(** Certificates of an imported key are never nil. *)
Definition jwkFields_safe (j : jwkFields) : Prop :=
  Forall is_Some (KeyX5C j) ∧ (∀ f, KeyX5T j = Some f → len f = 20%N).

Lemma Certificate_no_panic src : Certificate_UnmarshalJSON src ≠ Panic.
Proof.
  apply bind_no_panic; [apply unmarshalJSONBlob_no_panic|].
  intros b _. by destruct (ParseCertificate b).
Qed.

Lemma Certificate_Some src c : Certificate_UnmarshalJSON src = Ok c → is_Some c.
Proof.
  unfold Certificate_UnmarshalJSON. intros H1. inv_res.
  destruct (ParseCertificate x); [|done]. injection H1 as <-. by eexists.
Qed.

Lemma Fingerprint_no_panic src : Fingerprint_UnmarshalJSON src ≠ Panic.
Proof. apply bind_no_panic; [apply unmarshalJSONBlob_no_panic|]. intros b _. by case_match. Qed.

Lemma Fingerprint_len src f : Fingerprint_UnmarshalJSON src = Ok f → len f = 20%N.
Proof.
  unfold Fingerprint_UnmarshalJSON. intros H1. inv_res.
  destruct (N.eqb_spec (len x) 20) as [Hl|]; [|done]. by injection H1 as <-.
Qed.


Lemma jwkFields_json_safe : fields_safe jwkFields_safe jwkFields_json.
Proof.
  each_field.
  1,3,4: by eapply (dec_safe_field_at _ (λ _, True)); [apply dec_safe_string|intros; done|intros ? ? _ []].
  - eapply (dec_safe_field_at _ (Forall (λ _, True)));
      [apply dec_safe_vec, dec_safe_at; [apply dec_safe_string|done]|
       intros; by apply list.Forall_forall|intros ? ? _ []; done].
  - eapply (dec_safe_field_at _ (Forall is_Some));
      [apply dec_safe_vec, dec_safe_unmarshaler; [apply Certificate_no_panic|apply Certificate_Some]
      |by intros ? []|by intros ? ? ? []].
  - eapply (dec_safe_field_at _ (λ o, ∀ f, o = Some f → len f = 20%N));
      [apply dec_safe_ptr; [apply Fingerprint_no_panic|apply Fingerprint_len]
      |by intros ? []|by intros ? ? ? []].
Qed.

Lemma dec_safe_bignum {S} (P : S → Prop) name get set :
  (∀ s, P s → bn_bounded (get s)) → (∀ a s, bn_bounded a → P s → P (set a s)) →
  dec_safe P (dec_bignum_at name get set).2.
Proof.
  intros Hg Hs. apply (dec_safe_field_at _ bn_bounded); [|done..].
  apply dec_safe_unmarshaler'; [apply BigNum_no_panic|apply BigNum_UnmarshalJSON_bounded].
Qed.

Definition PublicRsaKeyFields_bounded f := bn_bounded (Rsa_N f) ∧ bn_bounded (Rsa_E f).
Definition PrivateRsaKeyFields_bounded f :=
  bn_bounded (Rsa_D f) ∧ bn_bounded (Rsa_P f) ∧ bn_bounded (Rsa_Q f) ∧
  bn_bounded (Rsa_Dp f) ∧ bn_bounded (Rsa_Dq f) ∧ bn_bounded (Rsa_Qi f).
Definition PublicEcKeyFields_bounded f := bn_bounded (Ec_X f) ∧ bn_bounded (Ec_Y f).
Definition PrivateEcKeyFields_bounded f := bn_bounded (Ec_D f).
Definition OctSecretKeyFields_bounded f := (len (Oct_K f) <= MaxBlobSize)%N.

Ltac safe_bignums := each_field; apply dec_safe_bignum; unfold PublicRsaKeyFields_bounded,
  PrivateRsaKeyFields_bounded, PublicEcKeyFields_bounded, PrivateEcKeyFields_bounded; simpl; tauto.

Lemma PublicRsaKeyFields_json_safe : fields_safe PublicRsaKeyFields_bounded PublicRsaKeyFields_json.
Proof. safe_bignums. Qed.
Lemma PrivateRsaKeyFields_json_safe : fields_safe PrivateRsaKeyFields_bounded PrivateRsaKeyFields_json.
Proof. safe_bignums. Qed.
Lemma PrivateEcKeyFields_json_safe : fields_safe PrivateEcKeyFields_bounded PrivateEcKeyFields_json.
Proof. safe_bignums. Qed.
Lemma PublicEcKeyFields_json_safe : fields_safe PublicEcKeyFields_bounded PublicEcKeyFields_json.
Proof.
  constructor; [|safe_bignums].
  by apply (dec_safe_field_at _ (λ _, True)); [apply dec_safe_string|intros; done|intros ? ? _ []].
Qed.
Lemma OctSecretKeyFields_json_safe : fields_safe OctSecretKeyFields_bounded OctSecretKeyFields_json.
Proof.
  constructor; [|constructor].
  apply (dec_safe_field_at _ (λ b, (len b <= MaxBlobSize)%N)); [|done..].
  apply dec_safe_unmarshaler'; [apply Blob_no_panic|apply Blob_UnmarshalJSON_bounded].
Qed.

(** Every member of a key is within the parser bounds. *)
Definition Jwk_bounded (j : Jwk) : Prop :=
  match j with
  | JPublicRsa k => PublicRsaKeyFields_bounded (PubRsa_fields k)
  | JPrivateRsa k => PublicRsaKeyFields_bounded (PrivRsa_pubfields k) ∧ PrivateRsaKeyFields_bounded (PrivRsa_fields k)
  | JPublicEc k => PublicEcKeyFields_bounded (PubEc_fields k)
  | JPrivateEc k => PublicEcKeyFields_bounded (PrivEc_pubfields k) ∧ PrivateEcKeyFields_bounded (PrivEc_fields k)
  | JOct k => OctSecretKeyFields_bounded (Oct_fields k)
  end.

Definition PrivateRsaKey_safe (s : Kty * PrivateRsaKey) : Prop :=
  jwkFields_safe (PrivRsa_jwk s.2) ∧ Jwk_bounded (JPrivateRsa s.2).
Definition PrivateEcKey_safe (s : Kty * PrivateEcKey) : Prop :=
  jwkFields_safe (PrivEc_jwk s.2) ∧ Jwk_bounded (JPrivateEc s.2).
Definition OctSecretKey_safe (s : Kty * OctSecretKey) : Prop :=
  jwkFields_safe (Oct_jwk s.2) ∧ Jwk_bounded (JOct s.2).

Ltac safe_kty := apply (dec_safe_field_at _ (λ _, True)); [apply dec_safe_string|intros; done|by intros ? []].
Ltac safe_part L := eapply fields_safe_lift; [apply L|by intros [? ?] (? & ?); simpl in *; try tauto|
  by intros ? [? ?] ? (? & ?); split; simpl in *; try tauto].

Lemma PrivateRsaKey_json_safe : fields_safe PrivateRsaKey_safe PrivateRsaKey_json.
Proof.
  unfold fields_safe, PrivateRsaKey_json, key_fields. rewrite !Forall_app. split_and!.
  - constructor; [safe_kty|constructor].
  - safe_part jwkFields_json_safe.
  - safe_part PublicRsaKeyFields_json_safe.
  - safe_part PrivateRsaKeyFields_json_safe.
Qed.

Lemma PrivateEcKey_json_safe : fields_safe PrivateEcKey_safe PrivateEcKey_json.
Proof.
  unfold fields_safe, PrivateEcKey_json, key_fields. rewrite !Forall_app. split_and!.
  - constructor; [safe_kty|constructor].
  - safe_part jwkFields_json_safe.
  - safe_part PublicEcKeyFields_json_safe.
  - safe_part PrivateEcKeyFields_json_safe.
Qed.

Lemma OctSecretKey_json_safe : fields_safe OctSecretKey_safe OctSecretKey_json.
Proof.
  unfold fields_safe, OctSecretKey_json, key_fields. rewrite !Forall_app. split_and!.
  - safe_part jwkFields_json_safe.
  - safe_part OctSecretKeyFields_json_safe.
  - constructor; [safe_kty|constructor].
Qed.

(** [CheckConsistency] *)
Lemma check_key_ops_spec seen ops :
  check_key_ops seen ops = if bool_decide (NoDup ops ∧ Forall (λ op, op ∉ seen) ops)
                           then Ok tt else jose_err Jose.ErrDuplicateKeyOps.
Proof.
  revert seen. induction ops as [|op ops IH]; intros seen; cbn [check_key_ops].
  { rewrite bool_decide_true; [done|]. split; constructor. }
  destruct (decide (op ∈ seen)) as [Hin|Hin].
  { rewrite bool_decide_true by done. rewrite bool_decide_false; [done|].
    intros [_ Hs]. by inversion Hs. }
  rewrite (bool_decide_false (op ∈ seen)) by done. rewrite IH.
  rewrite (bool_decide_ext _ (NoDup (op :: ops) ∧ Forall (λ op, op ∉ seen) (op :: ops))); [done|].
  rewrite list.NoDup_cons, list.Forall_cons, !list.Forall_forall.
  setoid_rewrite not_elem_of_union. setoid_rewrite not_elem_of_singleton. naive_solver.
Qed.

Lemma check_key_ops_empty ops :
  check_key_ops ∅ ops = if bool_decide (NoDup ops) then Ok tt else jose_err Jose.ErrDuplicateKeyOps.
Proof.
  rewrite check_key_ops_spec. rewrite (bool_decide_ext _ (NoDup ops)); [done|].
  split; [by intros [? _]|]. intros Hn. split; [done|]. apply list.Forall_forall. set_solver.
Qed.

(** What a thumb-print promises about the first certificate. *)
Definition x5t_matches (j : jwkFields) : Prop :=
  ∀ c x5t, KeyX5C j !! 0 = Some c → KeyX5T j = Some x5t →
    ∃ leaf, c = Some leaf ∧ Digest SHA1 (Cert_Raw leaf) = x5t.

(** [CheckConsistency] succeeds exactly on a key with at most 64 distinct
    operations whose thumb-print, if any, is that of its first certificate. *)
Theorem CheckConsistency_spec j :
  jwkFields_CheckConsistency j = Ok tt ↔
  (len (KeyOps j) <= maxKeyOps)%N ∧ NoDup (KeyOps j) ∧ x5t_matches j.
Proof.
  unfold jwkFields_CheckConsistency, x5t_matches.
  destruct (N.ltb_spec maxKeyOps (len (KeyOps j))) as [Hlt|Hle]; [split; [done|lia]|].
  rewrite check_key_ops_empty. case_bool_decide as Hd; [|by split; [|intros (_ & ? & _)]].
  cbn [mbind res_bind].
  destruct (KeyX5C j) as [|c cs]; [split; [|done]; intros _; split_and!; [done..|by intros ? ? ?]|].
  destruct (KeyX5T j) as [x5t|]; [|split; [|done]; intros _; split_and!; [done..|by intros ? ? ? ?]].
  destruct c as [leaf|].
  - rewrite hash_sum_Ok by done. cbn. unfold ConstantTimeCompare. case_bool_decide as He; cbn.
    + split; [|done]. intros _. split_and!; [done..|]. intros c x [= <-] [= <-]. by eexists.
    + split; [done|]. intros (_ & _ & Hx). destruct (Hx _ _ eq_refl eq_refl) as (l & [= <-] & Hl). done.
  - split; [done|]. intros (_ & _ & Hx). by destruct (Hx _ _ eq_refl eq_refl) as (l & ? & _).
Qed.

Lemma CheckConsistency_no_panic j : jwkFields_safe j → jwkFields_CheckConsistency j ≠ Panic.
Proof.
  intros [Hc _]. unfold jwkFields_CheckConsistency. destruct (_ <? _)%N; [done|].
  rewrite check_key_ops_empty. case_bool_decide; [|done]. cbn [mbind res_bind].
  destruct (KeyX5C j) as [|c cs]; [done|]. destruct (KeyX5T j); [|done].
  apply list.Forall_cons in Hc as [[leaf ->] _]. rewrite hash_sum_Ok by done. cbn. by destruct (negb _).
Qed.

(** The first certificate certifies the public key of [j]. *)
Definition certified (j : Jwk) : Prop :=
  ∀ c, KeyX5C (Jwk_fields j) !! 0 = Some c → ∃ leaf, c = Some leaf ∧
    match j with
    | JPublicRsa {| PubRsa_fields := f |} | JPrivateRsa {| PrivRsa_pub := {| PubRsa_fields := f |} |} =>
      Cert_PublicKey leaf = PubRSA {| RsaPub_N := Rsa_N f; RsaPub_E := Z.of_N (Rsa_E f) |}
    | JPublicEc {| PubEc_fields := f |} | JPrivateEc {| PrivEc_pub := {| PubEc_fields := f |} |} =>
      ∃ crv, Cert_PublicKey leaf = PubECDSA {| EcPub_Curve := crv; EcPub_X := Ec_X f; EcPub_Y := Ec_Y f |} ∧
             (Ec_Crv f = "" ∨ Ec_Crv f = Curve_Name crv)
    | JOct _ => True
    end.

Lemma rsa_check_spec k : PublicRsaKey_checkX5CMatchesKey k = Ok tt ↔ certified (JPublicRsa k).
Proof.
  destruct k as [j [n e]]. unfold PublicRsaKey_checkX5CMatchesKey, certified, jwkFields_x5cLeaf. simpl.
  destruct (KeyX5C j) as [|[leaf|] cs]; cbn; [done| |].
  2:{ split; [done|]. intros Hc. by destruct (Hc _ eq_refl) as (? & ? & _). }
  assert (∀ Q : Prop, (∀ c, Some (Some leaf) = Some c → ∃ l, c = Some l ∧ Cert_PublicKey l = PubRSA {| RsaPub_N := n; RsaPub_E := Z.of_N e |})
    ↔ Cert_PublicKey leaf = PubRSA {| RsaPub_N := n; RsaPub_E := Z.of_N e |}) as Hq.
  { intros _. split; [intros Hc; by destruct (Hc _ eq_refl) as (l & [= <-] & ?)|]. intros Hl c [= <-]. by eexists. }
  rewrite (Hq True). destruct (Cert_PublicKey leaf) as [[n' e']| |]; [|done..]. simpl.
  do 2 case_bool_decide; simpl; split; intros; simplify_eq; done.
Qed.

Lemma ec_check_spec k : PublicEcKey_checkX5CMatchesKey k = Ok tt ↔ certified (JPublicEc k).
Proof.
  destruct k as [j [crv x y]]. unfold PublicEcKey_checkX5CMatchesKey, certified, jwkFields_x5cLeaf. simpl.
  destruct (KeyX5C j) as [|[leaf|] cs]; cbn; [done| |].
  2:{ split; [done|]. intros Hc. by destruct (Hc _ eq_refl) as (? & ? & _). }
  trans (∃ cv, Cert_PublicKey leaf = PubECDSA {| EcPub_Curve := cv; EcPub_X := x; EcPub_Y := y |} ∧
             (crv = "" ∨ crv = Curve_Name cv)).
  2:{ split; [intros Hl c [= <-]; by eexists|]. intros Hc. by destruct (Hc _ eq_refl) as (l & [= <-] & ?). }
  destruct (Cert_PublicKey leaf) as [|[cv' x' y']|]; [by split; [|intros (? & ? & _)]| |by split; [|intros (? & ? & _)]].
  simpl. unfold str_empty. do 4 case_bool_decide; simpl; split; try done; intros; simplify_eq; eauto;
    destruct_and?; naive_solver.
Qed.

Lemma rsa_check_no_panic k : PublicRsaKey_checkX5CMatchesKey k ≠ Panic.
Proof.
  unfold PublicRsaKey_checkX5CMatchesKey, jwkFields_x5cLeaf.
  destruct (KeyX5C _) as [|[leaf|] ?]; cbn; [done| |done].
  destruct (Cert_PublicKey leaf); [|done..]. by destruct (_ || _).
Qed.

Lemma ec_check_no_panic k : PublicEcKey_checkX5CMatchesKey k ≠ Panic.
Proof.
  unfold PublicEcKey_checkX5CMatchesKey, jwkFields_x5cLeaf.
  destruct (KeyX5C _) as [|[leaf|] ?]; cbn; [done| |done].
  destruct (Cert_PublicKey leaf); [done| |done]. destruct (_ || _); [done|]. by destruct (_ && _).
Qed.

Lemma unit_Ok (m : result unit) u : m = Ok u → m = Ok tt.
Proof. by destruct u. Qed.

Lemma PrivateRsaKey_Unmarshal_sound src :
  PrivateRsaKey_UnmarshalJSON src PrivateRsaKey_zero ≠ Panic ∧
  ∀ k, PrivateRsaKey_UnmarshalJSON src PrivateRsaKey_zero = Ok k →
    jwkFields_CheckConsistency (PrivRsa_jwk k) = Ok tt ∧ certified (JPrivateRsa k) ∧ Jwk_bounded (JPrivateRsa k).
Proof.
  unfold PrivateRsaKey_UnmarshalJSON.
  destruct (json_Unmarshal_safe PrivateRsaKey_safe (dec_struct PrivateRsaKey_json) src ("", PrivateRsaKey_zero)) as [Hn Hp].
  { apply dec_safe_struct, PrivateRsaKey_json_safe. }
  { by repeat constructor. }
  destruct (json_Unmarshal _ _ _) as [[kty k]| |]; [|done..]. cbn [mbind res_bind].
  destruct (Hp _ eq_refl) as [Hj Hb]. cbn [snd] in Hj, Hb. destruct (negb _); [done|]. split.
  - apply bind_no_panic; [by apply CheckConsistency_no_panic|]. intros _ _.
    by apply bind_no_panic; [apply rsa_check_no_panic|].
  - intros k' H1. inv_res. split_and!; [by eapply unit_Ok| |done].
    match goal with H : PublicRsaKey_checkX5CMatchesKey _ = _ |- _ => apply unit_Ok, rsa_check_spec in H end.
    by destruct k' as [[] ?].
Qed.

Lemma PrivateEcKey_Unmarshal_sound src :
  PrivateEcKey_UnmarshalJSON src PrivateEcKey_zero ≠ Panic ∧
  ∀ k, PrivateEcKey_UnmarshalJSON src PrivateEcKey_zero = Ok k →
    jwkFields_CheckConsistency (PrivEc_jwk k) = Ok tt ∧ certified (JPrivateEc k) ∧ Jwk_bounded (JPrivateEc k).
Proof.
  unfold PrivateEcKey_UnmarshalJSON.
  destruct (json_Unmarshal_safe PrivateEcKey_safe (dec_struct PrivateEcKey_json) src ("", PrivateEcKey_zero)) as [Hn Hp].
  { apply dec_safe_struct, PrivateEcKey_json_safe. }
  { by repeat constructor. }
  destruct (json_Unmarshal _ _ _) as [[kty k]| |]; [|done..]. cbn [mbind res_bind].
  destruct (Hp _ eq_refl) as [Hj Hb]. cbn [snd] in Hj, Hb. destruct (negb _); [done|]. split.
  - apply bind_no_panic; [by apply CheckConsistency_no_panic|]. intros _ _.
    by apply bind_no_panic; [apply ec_check_no_panic|].
  - intros k' H1. inv_res. split_and!; [by eapply unit_Ok| |done].
    match goal with H : PublicEcKey_checkX5CMatchesKey _ = _ |- _ => apply unit_Ok, ec_check_spec in H end.
    by destruct k' as [[] ?].
Qed.

Lemma OctSecretKey_Unmarshal_sound src :
  OctSecretKey_UnmarshalJSON src OctSecretKey_zero ≠ Panic ∧
  ∀ k, OctSecretKey_UnmarshalJSON src OctSecretKey_zero = Ok k →
    jwkFields_CheckConsistency (Oct_jwk k) = Ok tt ∧ certified (JOct k) ∧ Jwk_bounded (JOct k).
Proof.
  unfold OctSecretKey_UnmarshalJSON.
  destruct (json_Unmarshal_safe OctSecretKey_safe (dec_struct OctSecretKey_json) src ("", OctSecretKey_zero)) as [Hn Hp].
  { apply dec_safe_struct, OctSecretKey_json_safe. }
  { by repeat constructor. }
  destruct (json_Unmarshal _ _ _) as [[kty k]| |]; [|done..]. cbn [mbind res_bind].
  destruct (Hp _ eq_refl) as [Hj Hb]. cbn [snd] in Hj, Hb. destruct (negb _); [done|]. split.
  - by apply bind_no_panic; [apply CheckConsistency_no_panic|].
  - intros k' H1. inv_res. split_and!; [by eapply unit_Ok| |done].
    intros c Hc. destruct Hj as [Hj _]. eapply list.Forall_lookup_1 in Hj as [leaf ->]; [|exact Hc]. by exists leaf.
Qed.

Lemma unmarshal_with_no_panic {A} (u : bytes → result A) src : (∀ b, u b ≠ Panic) → unmarshal_with u src ≠ Panic.
Proof. intros Hu. unfold unmarshal_with. by destruct (json_parse src). Qed.

Lemma unmarshal_with_Ok {A} (u : bytes → result A) src a : unmarshal_with u src = Ok a → ∃ b, u b = Ok a.
Proof. unfold unmarshal_with. destruct (json_parse src); [eauto|done]. Qed.

(** A private key has a private exponent; a key without one is public. *)
Definition kind_by_d (j : Jwk) : Prop :=
  match j with
  | JPrivateRsa k => Rsa_D (PrivRsa_fields k) ≠ 0%N
  | JPrivateEc k => Ec_D (PrivEc_fields k) ≠ 0%N
  | _ => True
  end.

(** No document makes the import panic, whatever its size and contents. *)
Theorem UnmarshalJwk_no_panic doc : UnmarshalJwk doc ≠ Panic.
Proof.
  unfold UnmarshalJwk. destruct (_ <? _)%N; [done|]. apply bind_no_panic.
  { apply (json_Unmarshal_safe (λ _, True)); [|done]. apply dec_safe_struct. each_field. safe_kty. }
  intros kty _. case_bool_decide; [|case_bool_decide; [|case_bool_decide; [|done]]].
  - apply bind_no_panic; [apply unmarshal_with_no_panic; intros; apply PrivateRsaKey_Unmarshal_sound|].
    intros k _. by destruct (_ =? _)%N.
  - apply bind_no_panic; [apply unmarshal_with_no_panic; intros; apply PrivateEcKey_Unmarshal_sound|].
    intros k _. by destruct (_ =? _)%N.
  - by apply bind_no_panic; [apply unmarshal_with_no_panic; intros; apply OctSecretKey_Unmarshal_sound|].
Qed.

Lemma BitLen_nz n : (BitLen n =? 0)%N = false → n ≠ 0%N.
Proof. intros Hn%N.eqb_neq ->. by apply Hn. Qed.

(** What an imported key satisfies. *)
Definition imported (j : Jwk) : Prop :=
  (len (KeyOps (Jwk_fields j)) <= maxKeyOps)%N ∧ NoDup (KeyOps (Jwk_fields j)) ∧
  x5t_matches (Jwk_fields j) ∧ certified j ∧ kind_by_d j ∧ Jwk_bounded j.

Lemma UnmarshalJwk_sound doc j : UnmarshalJwk doc = Ok j → (len doc <= MaxJwksSize)%N ∧ imported j.
Proof.
  unfold UnmarshalJwk. intros H1. inv_err. split.
  { rewrite takeN_take in Ec. unfold len in *. rewrite length_take in Ec. lia. }
  unfold imported. enough (jwkFields_CheckConsistency (Jwk_fields j) = Ok tt ∧ certified j ∧ kind_by_d j ∧ Jwk_bounded j)
    as (Hc%CheckConsistency_spec & ?); [tauto|].
  case_bool_decide; [|case_bool_decide; [|case_bool_decide; [|done]]]; inv_res;
    match goal with H : unmarshal_with _ _ = Ok _ |- _ => apply unmarshal_with_Ok in H as [? Hu] end.
  - apply PrivateRsaKey_Unmarshal_sound in Hu as (Hc & Hx & Hb). destruct x0 as [[] ?].
    match goal with H : context [(BitLen ?n =? 0)%N] |- _ => destruct (BitLen n =? 0)%N eqn:Hd end;
      inv_res; split_and!; try done; [by apply Hb|by apply BitLen_nz].
  - apply PrivateEcKey_Unmarshal_sound in Hu as (Hc & Hx & Hb). destruct x0 as [[] ?].
    match goal with H : context [(BitLen ?n =? 0)%N] |- _ => destruct (BitLen n =? 0)%N eqn:Hd end;
      inv_res; split_and!; try done; [by apply Hb|by apply BitLen_nz].
  - apply OctSecretKey_Unmarshal_sound in Hu as (Hc & Hx & Hb). by split_and!.
Qed.

(** C17. Every key the import returns satisfies [imported], and its document is within the bound. *)
Theorem UnmarshalJwk_imported doc j : UnmarshalJwk doc = Ok j → (len doc <= MaxJwksSize)%N ∧ imported j.
Proof. exact (UnmarshalJwk_sound doc j). Qed.

(** ** Key sets *)
Lemma Jwks_append_spec keys j j' : Jwks_append keys j = Ok j' →
  ∃ ks, j' = j ++ ks ∧ Forall2 (λ blob k, UnmarshalJwk (raw_bytes blob) = Ok k) keys ks.
Proof.
  revert j. induction keys as [|blob keys IH]; intros j; cbn [Jwks_append]; intros H1.
  { injection H1 as <-. exists []. by rewrite app_nil_r. }
  apply bind_Ok in H1 as (k & Hk & H1). apply IH in H1 as (ks & -> & Hf).
  exists (k :: ks). rewrite <- app_assoc. split; [done|]. by constructor.
Qed.

Lemma Jwks_append_no_panic keys j : Jwks_append keys j ≠ Panic.
Proof.
  revert j. induction keys as [|blob keys IH]; intros j; cbn [Jwks_append]; [done|].
  apply bind_no_panic; [apply UnmarshalJwk_no_panic|]. intros k _. apply IH.
Qed.

(** A key set document is read without panicking, it is not larger than the
    bound, and it appends keys that each satisfy what [UnmarshalJwk] promises. *)
Theorem Jwks_UnmarshalJSON_imported data j :
  Jwks_UnmarshalJSON data j ≠ Panic ∧
  ∀ j', Jwks_UnmarshalJSON data j = Ok j' →
    (len data <= MaxJwksSize)%N ∧ ∃ ks, j' = j ++ ks ∧ Forall imported ks.
Proof.
  unfold Jwks_UnmarshalJSON. destruct (N.ltb_spec MaxJwksSize (len data)); [done|].
  destruct (json_Unmarshal_safe (Forall (λ _, True))
    (dec_struct [field_at "keys" (λ s, s) (λ v _, v) (dec_vec dec_raw None)]) data []) as [Hn _].
  { apply dec_safe_struct. each_field.
    apply (dec_safe_field_at _ (Forall (λ _, True))); [|done..].
    apply dec_safe_vec. intros t. by apply (safe_Ok (λ _ : option json, True)). }
  { constructor. }
  split.
  - apply bind_no_panic; [done|]. intros keys _. apply Jwks_append_no_panic.
  - intros j' Hj. split; [done|]. apply bind_Ok in Hj as (keys & _ & (ks & -> & Hf)%Jwks_append_spec).
    exists ks. split; [done|]. clear -Hf. induction Hf as [|b k keys ks Hk Hf IH]; constructor; [|done].
    by eapply UnmarshalJwk_sound.
Qed.
End fields.

(** ** Examples *)
Section examples.
Local Existing Instance toy_Digests.
Local Existing Instance toy_X509.

Definition example_cert : x509_Certificate :=
  {| Cert_Raw := s2b "R!~"; Cert_PublicKey := PubRSA {| RsaPub_N := be_to_N (s2b "!~"); RsaPub_E := 65537 |};
     Cert_SignatureAlgorithm := SHA256WithRSA |}.

Definition example_rsa : Jwk := JPrivateRsa {|
  PrivRsa_pub := {|
    PubRsa_jwk := {| KeyUse := "sig"; KeyOps := ["sign"]; KeyAlg := "PS256"; KeyKid := "a<b";
                     KeyX5C := [Some example_cert]; KeyX5T := Some (toy_digest SHA1 (s2b "R!~")) |};
    PubRsa_fields := {| Rsa_N := be_to_N (s2b "!~"); Rsa_E := 65537%N |} |};
  PrivRsa_fields := {| Rsa_D := 3%N; Rsa_P := 5%N; Rsa_Q := 7%N; Rsa_Dp := 11%N; Rsa_Dq := 13%N; Rsa_Qi := 300%N |} |}.

Lemma example_rsa_ok : Jwk_ok example_rsa.
Proof.
  assert (∀ n, (len (be_bytes n) <=? 3)%N && negb (n =? 0)%N = true → bignum_ok n) as Hb.
  { intros n Hn. unfold bignum_ok, MaxBlobSize. lia. }
  split; [|split; [by vm_compute|split; [|repeat (split; [by apply Hb|]); by apply Hb]]].
  - split; try reflexivity.
    + by repeat constructor.
    + constructor; [|constructor]. split_and!; [reflexivity|done|done].
    + by intros f [= <-].
  - split; [by apply Hb|split; [by apply Hb|by vm_compute]].
Qed.

Lemma UnmarshalJwk_MarshalJSON_witness : ∃ doc,
  Jwk_MarshalJSON example_rsa = Ok doc ∧ ((len doc <= MaxJwksSize)%N → UnmarshalJwk doc = Ok example_rsa).
Proof. exact (UnmarshalJwk_MarshalJSON example_rsa example_rsa_ok). Defined.

Definition example_oct_doc : bytes :=
  s2b "{" ++ [dq] ++ s2b "kty" ++ [dq] ++ s2b ":" ++ [dq] ++ s2b "oct" ++ [dq] ++ s2b " ," ++
  [dq] ++ s2b "k" ++ [dq] ++ s2b ":" ++ [dq] ++ s2b "AQI" ++ [dq] ++ s2b "}".
Definition example_oct : Jwk := JOct {| Oct_jwk := jwkFields_zero; Oct_fields := {| Oct_K := [x01; x02] |} |}.

Lemma UnmarshalJwk_imported_witness : (len example_oct_doc <= MaxJwksSize)%N ∧ imported example_oct.
Proof. apply (UnmarshalJwk_imported example_oct_doc example_oct). vm_compute. reflexivity. Defined.
End examples.
