(* ===== verification/Jws.v ===== *)
(** [jose/jws.go] and [jose/jwt.go]: headers, compact JWS and JWT.

    A [json.RawMessage] is modelled by the JSON value it holds.  [Jws] is generic
    in the type its [Payload] interface points to; a nil pointer is [None]. *)

From stdpp Require Import sorting.
From S2P Require Import Prelude Errors Base64 Json JsonFacts JsonCodec Types.

(** ** Headers *)
Record JwsHeader := {
  Jws_Alg : Alg;
  Jws_Jku : string;
  Jws_Kid : string;
  Jws_X5U : string;
  Jws_X5C : list (option bytes);
  Jws_X5T : option Blob;
  Jws_X5T256 : option Blob;
  Jws_Typ : JwsType;
  Jws_Cty : JwsType;
  Jws_Crit : list string;
}.

Definition JwsHeader_zero : JwsHeader :=
  {| Jws_Alg := ""; Jws_Jku := ""; Jws_Kid := ""; Jws_X5U := ""; Jws_X5C := []; Jws_X5T := None;
     Jws_X5T256 := None; Jws_Typ := ""; Jws_Cty := ""; Jws_Crit := [] |}.

Definition set_Alg v h := {| Jws_Alg := v; Jws_Jku := Jws_Jku h; Jws_Kid := Jws_Kid h; Jws_X5U := Jws_X5U h; Jws_X5C := Jws_X5C h; Jws_X5T := Jws_X5T h; Jws_X5T256 := Jws_X5T256 h; Jws_Typ := Jws_Typ h; Jws_Cty := Jws_Cty h; Jws_Crit := Jws_Crit h |}.
Definition set_Jku v h := {| Jws_Alg := Jws_Alg h; Jws_Jku := v; Jws_Kid := Jws_Kid h; Jws_X5U := Jws_X5U h; Jws_X5C := Jws_X5C h; Jws_X5T := Jws_X5T h; Jws_X5T256 := Jws_X5T256 h; Jws_Typ := Jws_Typ h; Jws_Cty := Jws_Cty h; Jws_Crit := Jws_Crit h |}.
Definition set_Kid v h := {| Jws_Alg := Jws_Alg h; Jws_Jku := Jws_Jku h; Jws_Kid := v; Jws_X5U := Jws_X5U h; Jws_X5C := Jws_X5C h; Jws_X5T := Jws_X5T h; Jws_X5T256 := Jws_X5T256 h; Jws_Typ := Jws_Typ h; Jws_Cty := Jws_Cty h; Jws_Crit := Jws_Crit h |}.
Definition set_X5U v h := {| Jws_Alg := Jws_Alg h; Jws_Jku := Jws_Jku h; Jws_Kid := Jws_Kid h; Jws_X5U := v; Jws_X5C := Jws_X5C h; Jws_X5T := Jws_X5T h; Jws_X5T256 := Jws_X5T256 h; Jws_Typ := Jws_Typ h; Jws_Cty := Jws_Cty h; Jws_Crit := Jws_Crit h |}.
Definition set_X5C v h := {| Jws_Alg := Jws_Alg h; Jws_Jku := Jws_Jku h; Jws_Kid := Jws_Kid h; Jws_X5U := Jws_X5U h; Jws_X5C := v; Jws_X5T := Jws_X5T h; Jws_X5T256 := Jws_X5T256 h; Jws_Typ := Jws_Typ h; Jws_Cty := Jws_Cty h; Jws_Crit := Jws_Crit h |}.
Definition set_X5T v h := {| Jws_Alg := Jws_Alg h; Jws_Jku := Jws_Jku h; Jws_Kid := Jws_Kid h; Jws_X5U := Jws_X5U h; Jws_X5C := Jws_X5C h; Jws_X5T := v; Jws_X5T256 := Jws_X5T256 h; Jws_Typ := Jws_Typ h; Jws_Cty := Jws_Cty h; Jws_Crit := Jws_Crit h |}.
Definition set_X5T256 v h := {| Jws_Alg := Jws_Alg h; Jws_Jku := Jws_Jku h; Jws_Kid := Jws_Kid h; Jws_X5U := Jws_X5U h; Jws_X5C := Jws_X5C h; Jws_X5T := Jws_X5T h; Jws_X5T256 := v; Jws_Typ := Jws_Typ h; Jws_Cty := Jws_Cty h; Jws_Crit := Jws_Crit h |}.
Definition set_Typ v h := {| Jws_Alg := Jws_Alg h; Jws_Jku := Jws_Jku h; Jws_Kid := Jws_Kid h; Jws_X5U := Jws_X5U h; Jws_X5C := Jws_X5C h; Jws_X5T := Jws_X5T h; Jws_X5T256 := Jws_X5T256 h; Jws_Typ := v; Jws_Cty := Jws_Cty h; Jws_Crit := Jws_Crit h |}.
Definition set_Cty v h := {| Jws_Alg := Jws_Alg h; Jws_Jku := Jws_Jku h; Jws_Kid := Jws_Kid h; Jws_X5U := Jws_X5U h; Jws_X5C := Jws_X5C h; Jws_X5T := Jws_X5T h; Jws_X5T256 := Jws_X5T256 h; Jws_Typ := Jws_Typ h; Jws_Cty := v; Jws_Crit := Jws_Crit h |}.
Definition set_Crit v h := {| Jws_Alg := Jws_Alg h; Jws_Jku := Jws_Jku h; Jws_Kid := Jws_Kid h; Jws_X5U := Jws_X5U h; Jws_X5C := Jws_X5C h; Jws_X5T := Jws_X5T h; Jws_X5T256 := Jws_X5T256 h; Jws_Typ := Jws_Typ h; Jws_Cty := Jws_Cty h; Jws_Crit := v |}.

Definition JwsHeader_json : list (field JwsHeader) := [
  field_at "alg" Jws_Alg set_Alg dec_string;
  field_at "jku" Jws_Jku set_Jku dec_string;
  field_at "kid" Jws_Kid set_Kid dec_string;
  field_at "x5u" Jws_X5U set_X5U dec_string;
  field_at "x5c" Jws_X5C set_X5C (dec_vec dec_bytes None);
  field_at "x5t" Jws_X5T set_X5T (dec_ptr Blob_UnmarshalJSON);
  field_at "x5t#S256" Jws_X5T256 set_X5T256 (dec_ptr Blob_UnmarshalJSON);
  field_at "typ" Jws_Typ set_Typ dec_string;
  field_at "cty" Jws_Cty set_Cty dec_string;
  field_at "crit" Jws_Crit set_Crit (dec_vec dec_string "")
].

Definition JwsHeader_members (h : JwsHeader) : result (list (bytes * json)) :=
  x5t ← omit_nil "x5t" (λ b, enc_marshaler (Blob_MarshalJSON b)) (Jws_X5T h);
  x5t256 ← omit_nil "x5t#S256" (λ b, enc_marshaler (Blob_MarshalJSON b)) (Jws_X5T256 h);
  Ok (member "alg" (enc_string (Jws_Alg h)) ++
      omitempty (str_empty (Jws_Jku h)) "jku" (enc_string (Jws_Jku h)) ++
      omitempty (str_empty (Jws_Kid h)) "kid" (enc_string (Jws_Kid h)) ++
      omitempty (str_empty (Jws_X5U h)) "x5u" (enc_string (Jws_X5U h)) ++
      omitempty (bool_decide (Jws_X5C h = [])) "x5c" (JArr (map enc_bytes (Jws_X5C h))) ++
      x5t ++ x5t256 ++
      omitempty (str_empty (Jws_Typ h)) "typ" (enc_string (Jws_Typ h)) ++
      omitempty (str_empty (Jws_Cty h)) "cty" (enc_string (Jws_Cty h)) ++
      omitempty (bool_decide (Jws_Crit h = [])) "crit" (JArr (map enc_string (Jws_Crit h)))).

(** ** [Audiences]

    [None] is the nil slice. *)
Definition Audiences := option (list string).

Fixpoint audience_strings (l : list json) : option (list string) :=
  match l with
  | [] => Some []
  | JStr raw :: l => (str_of raw ::.) <$> audience_strings l
  | _ :: _ => None
  end.

(** [append(aud, items...)]; appending nothing to nil leaves nil. *)
Definition append_audience (aud : Audiences) (items : list string) : Audiences :=
  match aud, items with
  | None, [] => None
  | _, _ => Some (default [] aud ++ items)
  end.

Definition Audiences_UnmarshalJSON (audiences : Audiences) (src : bytes) : result Audiences :=
  match json_parse src with
  | None => std_err JsonSyntax
  | Some (JStr raw) => Ok (append_audience audiences [str_of raw])
  | Some (JArr l) =>
    match audience_strings l with
    | Some items => Ok (append_audience audiences items)
    | None => jose_err Jose.ErrJSONFormat
    end
  | Some _ => jose_err Jose.ErrJSONFormat
  end.

Definition Audiences_MarshalJSON (audiences : Audiences) : result bytes :=
  Ok (json_print match audiences with
                 | Some [aud] => enc_string aud
                 | _ => enc_slice enc_string audiences
                 end).

(** ** [Jws] *)
Record Jws (P : Type) := {
  Jws_Header : option JwsHeader;
  Jws_Payload : option P;
  Jws_Signature : bytes;
}.
Arguments Jws_Header {P}.
Arguments Jws_Payload {P}.
Arguments Jws_Signature {P}.

(** [json.Marshal] of a pointer. *)
Definition marshal_ptr {A} (enc : A → result json) (p : option A) : result bytes :=
  match p with Some a => json_print <$> enc a | None => Ok (json_print JNull) end.

Definition enc_JwsHeader (h : JwsHeader) : result json := JObj <$> JwsHeader_members h.

Definition Jws_MarshalBody {P} (enc_payload : P → result json) (jws : Jws P) : result string :=
  match Jws_Header jws with
  | None => Panic
  | Some h =>
    if negb (bool_decide (Jws_Typ h = JwtType)) then jose_err Jose.ErrJwtFormat
    else if negb (str_empty (Jws_Cty h)) && negb (bool_decide (Jws_Cty h = JwtType))
    then jose_err Jose.ErrJwtFormat
    else
      header ← marshal_ptr enc_JwsHeader (Some h);
      claims ← marshal_ptr enc_payload (Jws_Payload jws);
      Ok (EncodeToString RawURLEncoding header +:+ "." +:+ EncodeToString RawURLEncoding claims)
  end.

Definition Jws_Body {P} (enc_payload : P → result json) (jws : Jws P) : result string :=
  Jws_MarshalBody enc_payload jws.

Definition strictCompactB64 (s : string) : result bytes :=
  b ← DecodeString RawURLEncoding s;
  if negb (bool_decide (EncodeToString RawURLEncoding b = s)) then jose_err Jose.ErrJwtFormat
  else Ok b.

(** Decoding into a [**JwsHeader]: a nil pointer is allocated, [null] makes it nil. *)
Definition dec_JwsHeader_ptr : decoder (option JwsHeader) := λ t cur,
  match t with
  | JNull => done_with None
  | _ => '(h, e) ← dec_struct JwsHeader_json t (default JwsHeader_zero cur); Ok (Some h, e)
  end.

(** The mutated receiver and the body. *)
Definition Jws_Unmarshal {P} (dec_payload : decoder (option P)) (jws : Jws P) (src : string)
    : result (Jws P * string) :=
  if (MaxCompactSize <? slen src)%N then jose_err Jose.ErrInputTooLarge
  else
    match SplitN src "." 3 with
    | [p0; p1; p2] =>
      header ← unmarshalURLBase64 p0 dec_JwsHeader_ptr (Jws_Header jws);
      payload ← unmarshalURLBase64 p1 dec_payload (Jws_Payload jws);
      match strictCompactB64 p2 with
      | Ok signature =>
        Ok ({| Jws_Header := header; Jws_Payload := payload; Jws_Signature := signature |}, Join [p0; p1] ".")
      | Err _ => jose_err Jose.ErrJwtFormat
      | Panic => Panic
      end
    | _ => jose_err Jose.ErrJwtFormat
    end.

Definition MarshalJws (body : string) (signature : bytes) : string :=
  body +:+ "." +:+ EncodeToString RawURLEncoding signature.

(** ** Claims *)
Record AutomaticJwtClaims := { Issuer : string; IssuedAt : Z; JwtID : string }.
Record SettableJwtClaims := { Subject : string; Aud : Audiences; Expiration : Z; NotBefore : Z }.
Abbreviation UntypedClaims := (gmap string json).
Record JwtClaims := {
  AutoClaims : AutomaticJwtClaims;
  SetClaims : SettableJwtClaims;
  Untyped : UntypedClaims;
}.

Definition JwtClaims_zero : JwtClaims :=
  {| AutoClaims := {| Issuer := ""; IssuedAt := 0; JwtID := "" |};
     SetClaims := {| Subject := ""; Aud := None; Expiration := 0; NotBefore := 0 |};
     Untyped := ∅ |}.

Definition reservedJwtClaims : list string := ["iss"; "iat"; "jti"; "sub"; "aud"; "exp"; "nbf"].

(** One field of [unmarshalTypedClaims]: the claim of exactly that name is read
    into the field and removed. *)
Definition typed_claim {A} (dec : decoder A) (name : string) (claims : gmap string json) (cur : A)
    : result (gmap string json * A) :=
  match claims !! name with
  | Some value => a ← finish (dec value cur); Ok (delete name claims, a)
  | None => Ok (claims, cur)
  end.

Definition unmarshal_AutomaticJwtClaims (claims : gmap string json) (into : AutomaticJwtClaims)
    : result (gmap string json * AutomaticJwtClaims) :=
  '(claims, iss) ← typed_claim dec_string "iss" claims (Issuer into);
  '(claims, iat) ← typed_claim dec_int64 "iat" claims (IssuedAt into);
  '(claims, jti) ← typed_claim dec_string "jti" claims (JwtID into);
  Ok (claims, {| Issuer := iss; IssuedAt := iat; JwtID := jti |}).

(** [Audiences.UnmarshalJSON] appends to what the field holds. *)
Definition dec_Audiences : decoder Audiences := λ t cur,
  aud ← Audiences_UnmarshalJSON cur (json_print t); done_with aud.

Definition unmarshal_SettableJwtClaims (claims : gmap string json) (into : SettableJwtClaims)
    : result (gmap string json * SettableJwtClaims) :=
  '(claims, sub) ← typed_claim dec_string "sub" claims (Subject into);
  '(claims, aud) ← typed_claim dec_Audiences "aud" claims (Aud into);
  '(claims, exp) ← typed_claim dec_int64 "exp" claims (Expiration into);
  '(claims, nbf) ← typed_claim dec_int64 "nbf" claims (NotBefore into);
  Ok (claims, {| Subject := sub; Aud := aud; Expiration := exp; NotBefore := nbf |}).

Definition JwtClaims_UnmarshalJSON (c : JwtClaims) (data : bytes) : result JwtClaims :=
  claims ← json_Unmarshal dec_raw_map data ∅;
  '(claims, auto) ← unmarshal_AutomaticJwtClaims claims (AutoClaims c);
  '(claims, settable) ← unmarshal_SettableJwtClaims claims (SetClaims c);
  Ok {| AutoClaims := auto; SetClaims := settable; Untyped := claims |}.

(** The decoder stands for the Go type of the target. *)
Definition JwtClaims_UnmarshalCustomClaim {A} (dec : decoder A) (c : JwtClaims) (name : string) (claim : A)
    : result A :=
  match Untyped c !! name with
  | Some targetClaim => finish (dec targetClaim claim)
  | None => Ok claim
  end.

(** [json.Marshal] of a map: members in the order of their keys. *)
Fixpoint bytes_leb (a b : bytes) : bool :=
  match a, b with
  | [], _ => true
  | _, [] => false
  | x :: a, y :: b => (b2n x <? b2n y)%N || ((b2n x =? b2n y)%N && bytes_leb a b)
  end.

Definition key_le (x y : string * json) : Prop := bytes_leb (s2b x.1) (s2b y.1) = true.
#[export] Instance key_le_dec x y : Decision (key_le x y) := decide (_ = true).

Definition enc_raw_map (m : gmap string json) : json :=
  JObj (map (λ kv, (quote (s2b kv.1), compact kv.2)) (merge_sort key_le (map_to_list m))).

Definition enc_Audiences (a : Audiences) : result json := enc_marshaler (Audiences_MarshalJSON a).

Definition typed_members (c : JwtClaims) : result (list (bytes * json)) :=
  let auto := AutoClaims c in
  let set := SetClaims c in
  aud ← enc_Audiences (Aud set);
  Ok (omitempty (str_empty (Issuer auto)) "iss" (enc_string (Issuer auto)) ++
      omitempty (bool_decide (IssuedAt auto = 0%Z)) "iat" (enc_int64 (IssuedAt auto)) ++
      omitempty (str_empty (JwtID auto)) "jti" (enc_string (JwtID auto)) ++
      omitempty (str_empty (Subject set)) "sub" (enc_string (Subject set)) ++
      member "aud" aud ++
      omitempty (bool_decide (Expiration set = 0%Z)) "exp" (enc_int64 (Expiration set)) ++
      omitempty (bool_decide (NotBefore set = 0%Z)) "nbf" (enc_int64 (NotBefore set))).

Definition reserved (k : string) : bool := bool_decide (k ∈ reservedJwtClaims).
Definition has_reserved (m : gmap string json) : bool := existsb (λ kv, reserved kv.1) (map_to_list m).

Definition JwtClaims_MarshalJSON (c : JwtClaims) : result bytes :=
  typed ← marshal_obj (typed_members c);
  merged ← json_Unmarshal dec_raw_map typed ∅;
  if has_reserved (Untyped c) then jose_err Jose.ErrJwkReservedClaimName
  else Ok (json_print (enc_raw_map (Untyped c ∪ merged))).

(** ** [Jwt] *)
Record Jwt := { Jwt_Header : JwsHeader; Jwt_Claims : JwtClaims; Jwt_Signature : bytes }.

Definition Jwt_zero : Jwt := {| Jwt_Header := JwsHeader_zero; Jwt_Claims := JwtClaims_zero; Jwt_Signature := [] |}.

Definition Jwt_Verify (jwt : Jwt) : result unit :=
  let h := Jwt_Header jwt in
  if negb (bool_decide (Jws_Typ h = JwtType)) then jose_err Jose.ErrJwtFormat
  else if negb (str_empty (Jws_Cty h)) && negb (bool_decide (Jws_Cty h = JwtType))
  then jose_err Jose.ErrJwtFormat
  else if (0 <? len (Jws_Crit h))%N then jose_err Jose.ErrCritHeaderNotSupported
  else if has_reserved (Untyped (Jwt_Claims jwt)) then jose_err Jose.ErrJwkReservedClaimName
  else Ok tt.

Definition enc_JwtClaims (c : JwtClaims) : result json := enc_marshaler (JwtClaims_MarshalJSON c).

Definition Jwt_MarshalBody (jwt : Jwt) : result string :=
  _ ← Jwt_Verify jwt;
  Jws_MarshalBody enc_JwtClaims
    {| Jws_Header := Some (Jwt_Header jwt); Jws_Payload := Some (Jwt_Claims jwt); Jws_Signature := [] |}.

(** Decoding into the [interface{}] that holds a [*JwtClaims]: [null] makes the
    interface nil and leaves the claims alone.  The interface is never nil before
    that, so the last case is not reached. *)
Definition dec_JwtClaims : decoder (option JwtClaims) := λ t cur,
  match t, cur with
  | JNull, _ => done_with None
  | _, Some c => c ← JwtClaims_UnmarshalJSON c (json_print t); done_with (Some c)
  | _, None => type_error None
  end.

(** The header and the claims of [jwt] are shared with [jws]: what a [null]
    segment leaves is their zero value, since the receiver was reset. *)
Definition Jwt_Unmarshal (jwt : Jwt) (src : string) : result (Jwt * string) :=
  let jwt := Jwt_zero in
  '(jws, body) ← Jws_Unmarshal dec_JwtClaims
    {| Jws_Header := Some (Jwt_Header jwt); Jws_Payload := Some (Jwt_Claims jwt); Jws_Signature := [] |} src;
  let jwt := {| Jwt_Header := default (Jwt_Header jwt) (Jws_Header jws);
                Jwt_Claims := default (Jwt_Claims jwt) (Jws_Payload jws);
                Jwt_Signature := Jws_Signature jws |} in
  _ ← Jwt_Verify jwt;
  Ok (jwt, body).
