(* ===== verification/JwsFacts.v ===== *)
(** Properties of compact JWS and JWT: one serialisation per token, what a parsed
    token satisfies, and round trips. *)

From stdpp Require Import sorting.
From S2P Require Import Prelude Errors Base64 Json JsonFacts JsonCodec Types Jws.

(** ** Segments *)
Lemma no_dot_encoded b : no_sep "." (s2b (EncodeToString RawURLEncoding b)).
Proof.
  unfold EncodeToString. rewrite s2b_b2s. eapply List.Forall_impl; [|apply b64_encode_url].
  intros c Hc. by apply is_b64url_plain in Hc as [? _].
Qed.

Lemma DecodeString_no_panic e s : DecodeString e s ≠ Panic.
Proof. unfold DecodeString. by destruct (b64_decode _ _). Qed.

(** [strictCompactB64] accepts exactly the encodings: two strings that decode to
    the same bytes are the same string. *)
Theorem strictCompactB64_canonical s b :
  strictCompactB64 s = Ok b ↔ s = EncodeToString RawURLEncoding b.
Proof.
  unfold strictCompactB64. split.
  - intros H. inv_err. by apply negb_false_iff, bool_decide_eq_true in Ec.
  - intros ->. rewrite DecodeString_EncodeToString. cbn. by rewrite bool_decide_true.
Qed.

Lemma strictCompactB64_no_panic s : strictCompactB64 s ≠ Panic.
Proof. apply bind_no_panic; [apply DecodeString_no_panic|]. intros b _. by case_bool_decide. Qed.

Lemma Join_two a b sep : Join [a; b] sep = a +:+ b2s [sep] +:+ b.
Proof. by rewrite Join_cons, Join_one. Qed.

Lemma app_assoc_str (a b c : string) : (a +:+ b) +:+ c = a +:+ (b +:+ c).
Proof. apply s2b_inj. by rewrite !s2b_app, app_assoc. Qed.

(** Splitting a token. *)
Lemma SplitN_3_inv s p0 p1 p2 : SplitN s "." 3 = [p0; p1; p2] → s = p0 +:+ "." +:+ p1 +:+ "." +:+ p2.
Proof.
  intros H. destruct (SplitN_inv s "." 3) as [Hs _]; [done|by rewrite H|].
  rewrite Hs, H, !Join_cons, Join_one. done.
Qed.

Lemma SplitN_3 p0 p1 p2 : no_sep "." (s2b p0) → no_sep "." (s2b p1) →
  SplitN (p0 +:+ "." +:+ p1 +:+ "." +:+ p2) "." 3 = [p0; p1; p2].
Proof.
  intros H0 H1. pose proof (SplitN_Join [p0; p1] p2 ".") as Hs.
  cbn [app length] in Hs. rewrite !Join_cons, Join_one in Hs. apply Hs. by repeat constructor.
Qed.

Section jws.
Context {P : Type} (dec_payload : decoder (option P)).

Lemma Jws_Unmarshal_inv (jws jws' : Jws P) src body :
  Jws_Unmarshal dec_payload jws src = Ok (jws', body) →
  (slen src <= MaxCompactSize)%N ∧ ∃ p0 p1,
    body = p0 +:+ "." +:+ p1 ∧ src = MarshalJws body (Jws_Signature jws') ∧
    unmarshalURLBase64 p0 dec_JwsHeader_ptr (Jws_Header jws) = Ok (Jws_Header jws') ∧
    unmarshalURLBase64 p1 dec_payload (Jws_Payload jws) = Ok (Jws_Payload jws').
Proof.
  unfold Jws_Unmarshal. intros H. inv_err. split; [lia|].
  destruct (SplitN src "." 3) as [|p0 [|p1 [|p2 [|]]]] eqn:Hs; try done.
  apply SplitN_3_inv in Hs as ->. inv_err.
  destruct (strictCompactB64 p2) as [sig| |] eqn:Hsig; try done. injection H as <- <-.
  apply strictCompactB64_canonical in Hsig as ->. exists p0, p1. rewrite Join_two. split_and!; try done.
  unfold MarshalJws. by rewrite !app_assoc_str.
Qed.
End jws.

(** ** Nothing panics *)

Lemma JwsHeader_json_safe : fields_safe (λ _, True) JwsHeader_json.
Proof.
  each_field; apply dec_safe_field_total; first
    [apply dec_safe_string | apply dec_safe_ptr_total, Blob_no_panic
    |apply dec_safe_vec_total; first [apply dec_safe_string|apply dec_safe_bytes]].
Qed.

Lemma dec_JwsHeader_ptr_safe : dec_safe (λ _, True) dec_JwsHeader_ptr.
Proof.
  intros t cur _. unfold dec_JwsHeader_ptr.
  destruct (dec_safe_struct _ _ JwsHeader_json_safe t (default JwsHeader_zero cur) I) as [Hn _].
  destruct t; [by apply safe_Ok|..]; destruct (dec_struct _ _ _) as [[h e]| |]; try done; by apply safe_Ok.
Qed.

Lemma Audiences_no_panic a src : Audiences_UnmarshalJSON a src ≠ Panic.
Proof.
  unfold Audiences_UnmarshalJSON. destruct (json_parse src) as [[]|]; try done.
  by destruct (audience_strings l).
Qed.

Lemma dec_Audiences_safe : dec_safe (λ _, True) dec_Audiences.
Proof.
  intros t cur _. unfold dec_Audiences. pose proof (Audiences_no_panic cur (json_print t)).
  destruct (Audiences_UnmarshalJSON _ _); [|done..]. by apply safe_Ok.
Qed.

Lemma finish_no_panic {A} (d : decoded A) : d ≠ Panic → finish d ≠ Panic.
Proof. by destruct d as [[? []]| |]. Qed.

Lemma typed_claim_no_panic {A} (dec : decoder A) name claims cur :
  dec_safe (λ _, True) dec → typed_claim dec name claims cur ≠ Panic.
Proof.
  intros Hd. unfold typed_claim. destruct (claims !! name); [|done].
  apply bind_no_panic; [by apply finish_no_panic, Hd|done].
Qed.

Ltac claim_step := apply bind_no_panic; [apply typed_claim_no_panic|intros [? ?] _].

Lemma dec_safe_int64' : dec_safe (λ _, True) dec_int64.
Proof. intros t a _. unfold dec_int64. destruct t; try by apply safe_Ok. by destruct (parse_int _); apply safe_Ok. Qed.

Lemma JwtClaims_no_panic c data : JwtClaims_UnmarshalJSON c data ≠ Panic.
Proof.
  pose proof dec_safe_string. pose proof dec_safe_int64'. pose proof dec_Audiences_safe.
  apply bind_no_panic; [by apply (json_Unmarshal_safe (λ _, True)); [apply dec_safe_raw_map|]|]. intros claims _.
  apply bind_no_panic; [unfold unmarshal_AutomaticJwtClaims; by repeat (claim_step; [done|])|].
  intros [? ?] _.
  apply bind_no_panic; [unfold unmarshal_SettableJwtClaims; by repeat (claim_step; [done|])|].
  by intros [? ?] _.
Qed.

Lemma dec_JwtClaims_safe : dec_safe (λ _, True) dec_JwtClaims.
Proof.
  intros t cur _. unfold dec_JwtClaims.
  destruct t; (destruct cur as [c|]; [|by apply (safe_Ok (λ _, True))]); [by apply (safe_Ok (λ _, True))|..];
    match goal with |- context [JwtClaims_UnmarshalJSON c ?s] => pose proof (JwtClaims_no_panic c s);
      destruct (JwtClaims_UnmarshalJSON c s); [by apply (safe_Ok (λ _, True))|done..] end.
Qed.

Lemma unmarshalURLBase64_no_panic {A} s (dec : decoder A) cur :
  dec_safe (λ _, True) dec → unmarshalURLBase64 s dec cur ≠ Panic.
Proof.
  intros Hd. apply bind_no_panic; [apply DecodeString_no_panic|]. intros raw _.
  by apply (json_Unmarshal_safe (λ _, True)).
Qed.

Lemma Jws_Unmarshal_no_panic {P} (dec : decoder (option P)) jws src :
  dec_safe (λ _, True) dec → Jws_Unmarshal dec jws src ≠ Panic.
Proof.
  intros Hd. unfold Jws_Unmarshal. destruct (_ <? _)%N; [done|].
  destruct (SplitN src "." 3) as [|p0 [|p1 [|p2 [|]]]]; try done.
  apply bind_no_panic; [apply unmarshalURLBase64_no_panic, dec_JwsHeader_ptr_safe|]. intros h _.
  apply bind_no_panic; [by apply unmarshalURLBase64_no_panic|]. intros p _.
  pose proof (strictCompactB64_no_panic p2). by destruct (strictCompactB64 p2).
Qed.

Lemma Jwt_Verify_no_panic jwt : Jwt_Verify jwt ≠ Panic.
Proof. unfold Jwt_Verify. repeat match goal with |- context [if ?b then _ else _] => destruct b end; done. Qed.

(** Parsing a token never panics, whatever the token. *)
Theorem Jwt_Unmarshal_no_panic jwt src : Jwt_Unmarshal jwt src ≠ Panic.
Proof.
  apply bind_no_panic; [apply Jws_Unmarshal_no_panic, dec_JwtClaims_safe|]. intros [jws body] _.
  by apply bind_no_panic; [apply Jwt_Verify_no_panic|].
Qed.

(** ** What a parsed token satisfies *)
Lemma has_reserved_false m : has_reserved m = false ↔ ∀ k, k ∈ reservedJwtClaims → m !! k = None.
Proof.
  unfold has_reserved. rewrite <- not_true_iff_false, existsb_exists. split.
  - intros Hn k Hk. destruct (m !! k) as [v|] eqn:Hv; [|done]. exfalso. apply Hn. exists (k, v).
    split; [by apply list_elem_of_In, elem_of_map_to_list|]. by apply bool_decide_eq_true.
  - intros Hn ([k v] & Hin & Hr). unfold reserved in Hr. simpl in Hr. apply bool_decide_eq_true in Hr.
    apply list_elem_of_In, elem_of_map_to_list in Hin. by rewrite (Hn k Hr) in Hin.
Qed.

(** A verified header and claims: a JWT, not nested in something else, without
    critical extensions, and without a registered claim among the untyped ones. *)
Definition jwt_valid (jwt : Jwt) : Prop :=
  Jws_Typ (Jwt_Header jwt) = JwtType ∧
  (Jws_Cty (Jwt_Header jwt) = "" ∨ Jws_Cty (Jwt_Header jwt) = JwtType) ∧
  Jws_Crit (Jwt_Header jwt) = [] ∧
  ∀ k, k ∈ reservedJwtClaims → Untyped (Jwt_Claims jwt) !! k = None.

Lemma Jwt_Verify_spec jwt : Jwt_Verify jwt = Ok tt ↔ jwt_valid jwt.
Proof.
  unfold Jwt_Verify, jwt_valid, str_empty. rewrite <- has_reserved_false.
  case_bool_decide; [|by split; [|intros (? & _)]]. cbn [negb].
  assert (negb (bool_decide (Jws_Cty (Jwt_Header jwt) = "")) && negb (bool_decide (Jws_Cty (Jwt_Header jwt) = JwtType)) = false
    ↔ (Jws_Cty (Jwt_Header jwt) = "" ∨ Jws_Cty (Jwt_Header jwt) = JwtType)) as <-.
  { do 2 case_bool_decide; simpl; intuition done. }
  destruct (negb _ && negb _); [by split; [|intros (_ & ? & _)]|].
  destruct (N.ltb_spec 0 (len (Jws_Crit (Jwt_Header jwt)))) as [Hl|Hl].
  { split; [done|]. intros (_ & _ & Hc & _). by rewrite Hc in Hl. }
  assert (Jws_Crit (Jwt_Header jwt) = []) as ->.
  { destruct (Jws_Crit _); [done|]. unfold len in Hl. simpl in Hl. lia. }
  destruct (has_reserved _); [by split; [|intros (_ & _ & _ & ?)]|]. by split.
Qed.

(** C27. A token that is parsed is a valid JWT within the size bound, and it is the one
    serialisation of its signed body and its signature: no other string carries
    the same signature bytes for that body. *)
Theorem Jwt_Unmarshal_spec jwt src jwt' body :
  Jwt_Unmarshal jwt src = Ok (jwt', body) →
  jwt_valid jwt' ∧ (slen src <= MaxCompactSize)%N ∧ src = MarshalJws body (Jwt_Signature jwt').
Proof.
  unfold Jwt_Unmarshal. intros H. apply bind_Ok in H as ([jws b] & Hu & H).
  apply bind_Ok in H as ([] & Hv & H). injection H as <- <-.
  apply Jws_Unmarshal_inv in Hu as (Hl & p0 & p1 & -> & Hs & _). by apply Jwt_Verify_spec in Hv.
Qed.

(** The receiver does not leak into the result. *)
Lemma Jwt_Unmarshal_reset jwt1 jwt2 src : Jwt_Unmarshal jwt1 src = Jwt_Unmarshal jwt2 src.
Proof. done. Qed.

(** ** Maps of claims *)
Definition map_ins (acc : gmap string json) (kv : bytes * json) : gmap string json := <[str_of kv.1 := kv.2]> acc.

Lemma dec_raw_map_obj m cur : dec_raw_map (JObj m) cur = done_with (fold_left map_ins m cur).
Proof. done. Qed.

Definition cond_insert (e : bool) (k : string) (v : json) (m : gmap string json) : gmap string json :=
  if e then m else <[k := v]> m.

Lemma lookup_cond_insert e k v m k' :
  cond_insert e k v m !! k' = if negb e && bool_decide (k = k') then Some v else m !! k'.
Proof.
  destruct e; [done|]. cbn. case_bool_decide as Hk; [subst; by rewrite lookup_insert_eq|by rewrite lookup_insert_ne].
Qed.

Lemma map_ins_quote acc k v : utf8 k = true → map_ins acc (quote (s2b k), v) = <[k := v]> acc.
Proof. intros Hu. unfold map_ins, str_of. cbn [fst snd]. by rewrite unquote_quote, b2s_s2b by exact Hu. Qed.

Lemma cond_insert_Some e k t m k' v : cond_insert e k t m !! k' = Some v → k = k' ∧ v = t ∨ m !! k' = Some v.
Proof.
  rewrite lookup_cond_insert. destruct (negb e && _) eqn:He; [|by right].
  apply andb_prop in He as [_ ->%bool_decide_eq_true]. intros [= ->]. by left.
Qed.

Lemma fold_omitempty e name t rest acc : utf8 name = true →
  fold_left map_ins (omitempty e name t ++ rest) acc = fold_left map_ins rest (cond_insert e name t acc).
Proof.
  intros Hu. destruct e; [done|].
  change (fold_left map_ins rest (map_ins acc (quote (s2b name), t)) = fold_left map_ins rest (<[name:=t]> acc)).
  by rewrite map_ins_quote.
Qed.

Lemma fold_map_ins (l : list (string * json)) acc :
  NoDup l.*1 → Forall (λ kv, utf8 kv.1 = true) l →
  fold_left map_ins (map (λ kv, (quote (s2b kv.1), kv.2)) l) acc = list_to_map l ∪ acc.
Proof.
  intros Hn Hu. revert acc. induction Hu as [|[k v] l Hk Hl IH]; intros acc.
  { cbn. by rewrite map_empty_union. }
  rewrite list_to_map_cons. cbn [map fold_left fst snd].
  apply list.NoDup_cons in Hn as [Hni Hn]. rewrite map_ins_quote, IH by done.
  rewrite <- insert_union_r by (by apply not_elem_of_list_to_map_1). by rewrite insert_union_l.
Qed.

(** A value as [json.Marshal] writes it. *)
Definition value_ok (v : json) : Prop :=
  json_wf v = true ∧ (json_depth v + 1 <= maxNestingDepth)%N ∧ compact v = v.
Definition map_ok (m : gmap string json) : Prop := ∀ k v, m !! k = Some v → utf8 k = true ∧ value_ok v.

Definition raw_map_members (m : gmap string json) : list (bytes * json) :=
  map (λ kv, (quote (s2b kv.1), kv.2)) (merge_sort key_le (map_to_list m)).

Lemma sorted_entries m : Permutation (merge_sort key_le (map_to_list m)) (map_to_list m).
Proof. apply merge_sort_Permutation. Qed.

Lemma sorted_ok m : map_ok m →
  Forall (λ kv, utf8 kv.1 = true ∧ value_ok kv.2) (merge_sort key_le (map_to_list m)).
Proof.
  intros Hm. apply list.Forall_forall. intros [k v] Hin. rewrite sorted_entries in Hin.
  apply elem_of_map_to_list in Hin. by apply Hm.
Qed.

Lemma enc_raw_map_ok m : map_ok m → enc_raw_map m = JObj (raw_map_members m).
Proof.
  intros Hm%sorted_ok. unfold enc_raw_map, raw_map_members. f_equal.
  induction Hm as [|[k v] l [_ (_ & _ & Hc)] Hl IH]; [done|].
  cbn in Hc |- *. by rewrite Hc, IH.
Qed.

Lemma raw_map_members_ok m : map_ok m → members_ok (maxNestingDepth - 1) (raw_map_members m).
Proof.
  intros Hm%sorted_ok. unfold raw_map_members. induction Hm as [|[k v] l [_ (Hw & Hd & _)] Hl IH]; [constructor|].
  constructor; [|done]. split; [apply raw_ok_quote|]. cbn [snd] in *. split; [done|].
  unfold maxNestingDepth in *. lia.
Qed.

Lemma compact_raw_map m : map_ok m → compact (JObj (raw_map_members m)) = JObj (raw_map_members m).
Proof.
  intros Hm%sorted_ok. cbn. f_equal. unfold raw_map_members.
  induction Hm as [|[k v] l [_ (_ & _ & Hc)] Hl IH]; [done|]. cbn in *.
  by rewrite html_escape_quote, Hc, IH.
Qed.

(** A map that is written is read back. *)
Lemma read_raw_map m : map_ok m → json_Unmarshal dec_raw_map (json_print (enc_raw_map m)) ∅ = Ok m.
Proof.
  intros Hm. rewrite enc_raw_map_ok by done.
  rewrite (unmarshal_obj _ (maxNestingDepth - 1)) by (by apply raw_map_members_ok || done).
  rewrite dec_raw_map_obj. cbn [finish done_with]. unfold raw_map_members. rewrite fold_map_ins.
  - rewrite (list_to_map_proper _ (map_to_list m)).
    + by rewrite list_to_map_to_list, map_union_empty.
    + rewrite sorted_entries. apply NoDup_fst_map_to_list.
    + apply sorted_entries.
  - rewrite sorted_entries. apply NoDup_fst_map_to_list.
  - eapply List.Forall_impl; [|by apply sorted_ok]. by intros ? [? _].
Qed.

(** ** The claims *)
Definition aud_json (a : Audiences) : json :=
  match a with Some [aud] => enc_string aud | _ => enc_slice enc_string a end.

Lemma aud_json_wf a : json_wf (aud_json a) = true ∧ (json_depth (aud_json a) <= 1)%N ∧ compact (aud_json a) = aud_json a.
Proof.
  assert (∀ l, json_wf (JArr (map enc_string l)) = true ∧ (json_depth (JArr (map enc_string l)) <= 1)%N ∧
    compact (JArr (map enc_string l)) = JArr (map enc_string l)) as Hl.
  { intros l. split_and!; [apply json_wf_strings, json_wf_enc_string|by apply json_depth_flat|apply compact_strings]. }
  destruct a as [[|x [|y l]]|]; [apply Hl| |apply Hl|done].
  split_and!; [apply json_wf_enc_string|done|apply compact_enc_string].
Qed.

Lemma enc_Audiences_Ok a : enc_Audiences a = Ok (aud_json a).
Proof.
  destruct (aud_json_wf a) as (Hw & Hd & Hc). unfold enc_Audiences, enc_marshaler, Audiences_MarshalJSON.
  fold (aud_json a). cbn [wrap_err mbind res_bind].
  rewrite json_parse_print by (done || unfold maxNestingDepth; lia). by rewrite Hc.
Qed.

Definition typed_members_list (c : JwtClaims) : list (bytes * json) :=
  let auto := AutoClaims c in
  let set := SetClaims c in
  omitempty (str_empty (Issuer auto)) "iss" (enc_string (Issuer auto)) ++
  omitempty (bool_decide (IssuedAt auto = 0%Z)) "iat" (enc_int64 (IssuedAt auto)) ++
  omitempty (str_empty (JwtID auto)) "jti" (enc_string (JwtID auto)) ++
  omitempty (str_empty (Subject set)) "sub" (enc_string (Subject set)) ++
  omitempty false "aud" (aud_json (Aud set)) ++
  omitempty (bool_decide (Expiration set = 0%Z)) "exp" (enc_int64 (Expiration set)) ++
  omitempty (bool_decide (NotBefore set = 0%Z)) "nbf" (enc_int64 (NotBefore set)) ++ [].

(** The map the typed claims become. *)
Definition typed_map (c : JwtClaims) : gmap string json :=
  let auto := AutoClaims c in
  let set := SetClaims c in
  cond_insert (bool_decide (NotBefore set = 0%Z)) "nbf" (enc_int64 (NotBefore set)) (
  cond_insert (bool_decide (Expiration set = 0%Z)) "exp" (enc_int64 (Expiration set)) (
  cond_insert false "aud" (aud_json (Aud set)) (
  cond_insert (str_empty (Subject set)) "sub" (enc_string (Subject set)) (
  cond_insert (str_empty (JwtID auto)) "jti" (enc_string (JwtID auto)) (
  cond_insert (bool_decide (IssuedAt auto = 0%Z)) "iat" (enc_int64 (IssuedAt auto)) (
  cond_insert (str_empty (Issuer auto)) "iss" (enc_string (Issuer auto)) ∅)))))).

Lemma typed_members_Ok c : typed_members c = Ok (typed_members_list c).
Proof. unfold typed_members, typed_members_list. rewrite enc_Audiences_Ok. cbn [mbind res_bind]. by rewrite app_nil_r. Qed.

Lemma typed_members_wf c : members_ok 1 (typed_members_list c).
Proof.
  destruct (aud_json_wf (Aud (SetClaims c))) as (Hw & Hd & _).
  repeat apply members_ok_app; try (apply members_ok_omitempty; [first
    [apply json_wf_enc_string|apply json_wf_enc_int64|done]|first [done|simpl; lia]]). constructor.
Qed.

Lemma read_typed_members c :
  json_Unmarshal dec_raw_map (json_print (JObj (typed_members_list c))) ∅ = Ok (typed_map c).
Proof.
  rewrite (unmarshal_obj _ 1) by (apply typed_members_wf || done).
  rewrite dec_raw_map_obj. cbn [finish done_with]. unfold typed_members_list.
  by rewrite !fold_omitempty by done.
Qed.

Lemma typed_map_lookup c k v : typed_map c !! k = Some v → k ∈ reservedJwtClaims ∧ value_ok v.
Proof.
  unfold typed_map. assert (∀ s, value_ok (enc_string s)) as Hs.
  { intros s. split_and!; [apply json_wf_enc_string|done|apply compact_enc_string]. }
  assert (∀ z, value_ok (enc_int64 z)) as Hz.
  { intros z. split_and!; [apply json_wf_enc_int64|done|done]. }
  assert (value_ok (aud_json (Aud (SetClaims c)))) as Ha.
  { destruct (aud_json_wf (Aud (SetClaims c))) as (? & ? & ?). split_and!; try done.
    unfold maxNestingDepth. lia. }
  intros H.
  repeat (apply cond_insert_Some in H as [[<- ->]|H]; [split; [apply list_elem_of_In; vm_compute; tauto|auto]|]).
  by rewrite lookup_empty in H.
Qed.

Record claims_ok (c : JwtClaims) : Prop := {
  ok_iss : utf8 (Issuer (AutoClaims c)) = true;
  ok_iat : in_int64 (IssuedAt (AutoClaims c)) = true;
  ok_jti : utf8 (JwtID (AutoClaims c)) = true;
  ok_sub : utf8 (Subject (SetClaims c)) = true;
  ok_aud : ∃ a l, Aud (SetClaims c) = Some (a :: l) ∧ Forall (λ s, utf8 s = true) (a :: l);
  ok_exp : in_int64 (Expiration (SetClaims c)) = true;
  ok_nbf : in_int64 (NotBefore (SetClaims c)) = true;
  ok_untyped : map_ok (Untyped c);
  ok_reserved : ∀ k, k ∈ reservedJwtClaims → Untyped c !! k = None;
}.

Definition all_claims (c : JwtClaims) : gmap string json := Untyped c ∪ typed_map c.

Lemma all_claims_ok' c : map_ok (Untyped c) → map_ok (all_claims c).
Proof.
  intros Hc k v [Hk|[_ Hk]]%lookup_union_Some_raw; [by apply Hc|].
  apply typed_map_lookup in Hk as [Hk Hv]. split; [|done].
  revert Hk. unfold reservedJwtClaims. intros Hk.
  repeat (apply elem_of_cons in Hk as [->|Hk]; [by vm_compute|]). by apply elem_of_nil in Hk.
Qed.

Lemma all_claims_ok c : claims_ok c → map_ok (all_claims c).
Proof. intros []. by apply all_claims_ok'. Qed.

Lemma all_claims_reserved c k : claims_ok c → k ∈ reservedJwtClaims → all_claims c !! k = typed_map c !! k.
Proof. intros Hc Hk. unfold all_claims. by rewrite lookup_union, (ok_reserved c Hc k Hk), (left_id None _). Qed.

Lemma all_claims_rest c : claims_ok c →
  delete "nbf" (delete "exp" (delete "aud" (delete "sub" (delete "jti" (delete "iat" (delete "iss" (all_claims c)))))))
  = Untyped c.
Proof.
  intros Hc. apply map_eq. intros k. destruct (decide (k ∈ reservedJwtClaims)) as [Hk|Hk].
  - rewrite (ok_reserved c Hc k Hk). unfold reservedJwtClaims in Hk.
    rewrite !lookup_delete_None. rewrite !elem_of_cons in Hk.
    destruct Hk as [->|[->|[->|[->|[->|[->|[->|Hk%elem_of_nil]]]]]]]; tauto.
  - unfold reservedJwtClaims in Hk. rewrite !lookup_delete_ne by (intros <-; apply Hk, list_elem_of_In; vm_compute; tauto).
    unfold all_claims. rewrite lookup_union. destruct (typed_map c !! k) as [v|] eqn:Hv; [|by rewrite (right_id None _)].
    apply typed_map_lookup in Hv as [Hv _]. done.
Qed.

Lemma typed_claim_read {A} (dec : decoder A) name claims cur v t (e : bool) :
  claims !! name = (if e then None else Some t) → (e = true → v = cur) → (e = false → dec t cur = done_with v) →
  typed_claim dec name claims cur = Ok (delete name claims, v).
Proof.
  intros Hl He Hd. unfold typed_claim. rewrite Hl. destruct e.
  - rewrite (He eq_refl), delete_id; [done|by rewrite Hl].
  - by rewrite (Hd eq_refl).
Qed.

(** The lookup of a literal name in [typed_map]. *)
Ltac lookup_typed :=
  unfold typed_map; rewrite !lookup_cond_insert, lookup_empty;
  repeat match goal with |- context [@bool_decide (@eq string (String ?a ?s) ?t) ?d] =>
    let r := eval vm_compute in (@bool_decide (@eq string (String a s) t) d) in
    change (@bool_decide (@eq string (String a s) t) d) with r end;
  rewrite ?andb_false_r, ?andb_true_r; cbn [negb]; try reflexivity;
  match goal with |- context [negb ?b] => by destruct b end.

(** Find the claim, then decode it. *)
Ltac read_claim Hc e v :=
  erewrite (typed_claim_read _ _ _ _ v _ e);
  [cbn [mbind res_bind]|
   rewrite ?lookup_delete_ne by done; rewrite all_claims_reserved by
     (done || (apply list_elem_of_In; vm_compute; tauto)); lookup_typed|..].

Lemma audience_strings_enc l : Forall (λ s, utf8 s = true) l → audience_strings (map enc_string l) = Some l.
Proof.
  induction 1 as [|s l Hs Hl IH]; [done|]. 
  change (map enc_string (s :: l)) with (JStr (quote (s2b s)) :: map enc_string l).
  cbn [audience_strings]. rewrite IH. unfold str_of. by rewrite unquote_quote, b2s_s2b.
Qed.

Lemma dec_aud a l : Forall (λ s, utf8 s = true) (a :: l) →
  dec_Audiences (aud_json (Some (a :: l))) None = done_with (Some (a :: l)).
Proof.
  intros Hf. destruct (aud_json_wf (Some (a :: l))) as (Hw & Hd & _).
  unfold dec_Audiences, Audiences_UnmarshalJSON.
  rewrite json_parse_print by (done || unfold maxNestingDepth; lia).
  destruct l as [|b l].
  - apply list.Forall_cons in Hf as [Ha _]. cbn [aud_json enc_string]. unfold enc_string.
    unfold str_of. by rewrite unquote_quote, b2s_s2b.
  - cbn [aud_json enc_slice]. by rewrite audience_strings_enc.
Qed.

Lemma auto_claims_read c : claims_ok c →
  unmarshal_AutomaticJwtClaims (all_claims c) (AutoClaims JwtClaims_zero) =
    Ok (delete "jti" (delete "iat" (delete "iss" (all_claims c))), AutoClaims c).
Proof.
  intros Hc. pose proof Hc as []. unfold unmarshal_AutomaticJwtClaims.
  read_claim Hc (str_empty (Issuer (AutoClaims c))) (Issuer (AutoClaims c)).
  2:{ intros H%bool_decide_eq_true. exact H. }
  2:{ intros _. by rewrite dec_enc_string. }
  read_claim Hc (bool_decide (IssuedAt (AutoClaims c) = 0%Z)) (IssuedAt (AutoClaims c)).
  2:{ intros H%bool_decide_eq_true. exact H. }
  2:{ intros _. by rewrite dec_enc_int64. }
  read_claim Hc (str_empty (JwtID (AutoClaims c))) (JwtID (AutoClaims c)).
  2:{ intros H%bool_decide_eq_true. exact H. }
  2:{ intros _. by rewrite dec_enc_string. }
  by destruct c as [[] ? ?].
Qed.

Lemma set_claims_read c m : claims_ok c → m = delete "jti" (delete "iat" (delete "iss" (all_claims c))) →
  unmarshal_SettableJwtClaims m (SetClaims JwtClaims_zero) = Ok (Untyped c, SetClaims c).
Proof.
  intros Hc ->. pose proof Hc as [? ? ? ? (a & l & Ha & Hu) ? ? ? ?]. unfold unmarshal_SettableJwtClaims.
  read_claim Hc (str_empty (Subject (SetClaims c))) (Subject (SetClaims c)).
  2:{ intros H%bool_decide_eq_true. exact H. }
  2:{ intros _. by rewrite dec_enc_string. }
  read_claim Hc false (Aud (SetClaims c)).
  2:{ done. }
  2:{ intros _. rewrite Ha. by apply dec_aud. }
  read_claim Hc (bool_decide (Expiration (SetClaims c) = 0%Z)) (Expiration (SetClaims c)).
  2:{ intros H%bool_decide_eq_true. exact H. }
  2:{ intros _. by rewrite dec_enc_int64. }
  read_claim Hc (bool_decide (NotBefore (SetClaims c) = 0%Z)) (NotBefore (SetClaims c)).
  2:{ intros H%bool_decide_eq_true. exact H. }
  2:{ intros _. by rewrite dec_enc_int64. }
  rewrite all_claims_rest by done. by destruct c as [? [] ?].
Qed.

Lemma JwtClaims_MarshalJSON_Ok c : claims_ok c →
  JwtClaims_MarshalJSON c = Ok (json_print (enc_raw_map (all_claims c))).
Proof.
  intros Hc. unfold JwtClaims_MarshalJSON, marshal_obj. rewrite typed_members_Ok.
  cbn [fmap res_fmap mbind res_bind]. rewrite read_typed_members. cbn [mbind res_bind].
  by rewrite (proj2 (has_reserved_false _) (ok_reserved c Hc)).
Qed.

Lemma JwtClaims_read c : claims_ok c →
  JwtClaims_UnmarshalJSON JwtClaims_zero (json_print (enc_raw_map (all_claims c))) = Ok c.
Proof.
  intros Hc. unfold JwtClaims_UnmarshalJSON. rewrite read_raw_map by by apply all_claims_ok.
  cbn [mbind res_bind]. rewrite auto_claims_read by done. cbn [mbind res_bind].
  rewrite (set_claims_read c) by done. by destruct c.
Qed.

(** ** The header *)
Record JwsHeader_ok (h : JwsHeader) : Prop := {
  hok_alg : utf8 (Jws_Alg h) = true;
  hok_jku : utf8 (Jws_Jku h) = true;
  hok_kid : utf8 (Jws_Kid h) = true;
  hok_x5u : utf8 (Jws_X5U h) = true;
  hok_x5t : ∀ b, Jws_X5T h = Some b → b ≠ [] ∧ (len b <= MaxBlobSize)%N;
  hok_x5t256 : ∀ b, Jws_X5T256 h = Some b → b ≠ [] ∧ (len b <= MaxBlobSize)%N;
  hok_typ : utf8 (Jws_Typ h) = true;
  hok_cty : utf8 (Jws_Cty h) = true;
  hok_crit : Forall (λ s, utf8 s = true) (Jws_Crit h);
}.

Definition blob_members (name : string) (o : option Blob) : list (bytes * json) :=
  match o with Some b => member name (JStr (b64_encode RawURLEncoding b)) | None => [] end.

Lemma omit_nil_blob name o : (∀ b, o = Some b → b ≠ [] ∧ (len b <= MaxBlobSize)%N) →
  omit_nil name (λ b, enc_marshaler (Blob_MarshalJSON b)) o = Ok (blob_members name o).
Proof.
  intros Ho. destruct o as [b|]; [|done]. destruct (Ho b eq_refl) as [Hb _]. cbn [omit_nil].
  by rewrite enc_blob.
Qed.

Definition JwsHeader_list (h : JwsHeader) : list (bytes * json) :=
  omitempty false "alg" (enc_string (Jws_Alg h)) ++
  omitempty (str_empty (Jws_Jku h)) "jku" (enc_string (Jws_Jku h)) ++
  omitempty (str_empty (Jws_Kid h)) "kid" (enc_string (Jws_Kid h)) ++
  omitempty (str_empty (Jws_X5U h)) "x5u" (enc_string (Jws_X5U h)) ++
  omitempty (bool_decide (Jws_X5C h = [])) "x5c" (JArr (map enc_bytes (Jws_X5C h))) ++
  blob_members "x5t" (Jws_X5T h) ++ blob_members "x5t#S256" (Jws_X5T256 h) ++
  omitempty (str_empty (Jws_Typ h)) "typ" (enc_string (Jws_Typ h)) ++
  omitempty (str_empty (Jws_Cty h)) "cty" (enc_string (Jws_Cty h)) ++
  omitempty (bool_decide (Jws_Crit h = [])) "crit" (JArr (map enc_string (Jws_Crit h))).

Lemma JwsHeader_members_Ok h : JwsHeader_ok h → JwsHeader_members h = Ok (JwsHeader_list h).
Proof. intros []. unfold JwsHeader_members. by rewrite !omit_nil_blob. Qed.

Lemma json_wf_bytes l : json_wf (JArr (map enc_bytes l)) = true ∧ (json_depth (JArr (map enc_bytes l)) <= 1)%N.
Proof.
  split; [|by apply json_depth_flat; intros []]. cbn. induction l as [|[b|] l IH]; [done| |done].
  cbn. by rewrite raw_ok_b64, IH.
Qed.

Lemma members_ok_blob name o : members_ok 1 (blob_members name o).
Proof. destruct o; [|constructor]. apply (members_ok_omitempty 1 false); [apply raw_ok_b64|simpl; lia]. Qed.

Lemma keys_in_blob names name o : utf8 name = true → name ∈ names → keys_in names (blob_members name o).
Proof. intros Hu Hn. destruct o; [|constructor]. by apply (keys_in_omitempty names false). Qed.


Lemma JwsHeader_list_wf h : members_ok 1 (JwsHeader_list h) ∧ keys_in (map fst JwsHeader_json) (JwsHeader_list h).
Proof.
  destruct (json_wf_bytes (Jws_X5C h)) as [Hw Hd]. unfold JwsHeader_list. split.
  - repeat apply members_ok_app; try apply members_ok_blob; apply members_ok_omitempty;
      first [done|apply json_wf_enc_string|apply json_wf_strings, json_wf_enc_string|by apply json_depth_flat|simpl; lia].
  - repeat apply keys_in_app; first [apply keys_in_blob|apply keys_in_omitempty]; first [done|in_names].
Qed.


(** One member: [read_member field-decoder next-state]. *)
Tactic Notation "read_member" uconstr(d) constr(s) :=
  erewrite dec_members_app; [|apply dec_omitempty with (dec := d.2) (s' := s); [find_name|..]].

Lemma dec_blob_members fs name get set h h' o :
  (∀ b, o = Some b → b ≠ [] ∧ (len b <= MaxBlobSize)%N) → utf8 name = true →
  find_field fs (s2b name) = Some (field_at name get set (dec_ptr Blob_UnmarshalJSON)).2 →
  (o = None → h' = h) → (o ≠ None → h' = set o h) →
  dec_members fs (blob_members name o) h = done_with (h' : JwsHeader).
Proof.
  intros Ho Hu Hf Hn Hs. destruct o as [b|]; [|cbn; by rewrite Hn]. destruct (Ho b eq_refl) as [Hb Hl].
  eapply dec_member; [unfold utf8 in Hu; by rewrite unquote_quote|]. cbn [field_at snd].
  unfold dec_ptr. rewrite dec_blob by done. cbn. by rewrite Hs.
Qed.

Lemma JwsHeader_dec h : JwsHeader_ok h →
  dec_members JwsHeader_json (JwsHeader_list h) JwsHeader_zero = done_with h.
Proof.
  intros []. destruct h as [alg jku kid x5u x5c x5t x5t256 typ cty crit]. unfold JwsHeader_list, JwsHeader_zero.
  cbn [Jws_Alg Jws_Jku Jws_Kid Jws_X5U Jws_X5C Jws_X5T Jws_X5T256 Jws_Typ Jws_Cty Jws_Crit] in *.
  read_member (field_at "alg" Jws_Alg set_Alg dec_string) (Build_JwsHeader alg "" "" "" [] None None "" "" []).
  2:{ done. } 2:{ intros _. cbn [field_at snd]. by rewrite dec_enc_string. }
  read_member (field_at "jku" Jws_Jku set_Jku dec_string) (Build_JwsHeader alg jku "" "" [] None None "" "" []).
  2:{ by intros ->%str_empty_true. } 2:{ intros _. cbn [field_at snd]. by rewrite dec_enc_string. }
  read_member (field_at "kid" Jws_Kid set_Kid dec_string) (Build_JwsHeader alg jku kid "" [] None None "" "" []).
  2:{ by intros ->%str_empty_true. } 2:{ intros _. cbn [field_at snd]. by rewrite dec_enc_string. }
  read_member (field_at "x5u" Jws_X5U set_X5U dec_string) (Build_JwsHeader alg jku kid x5u [] None None "" "" []).
  2:{ by intros ->%str_empty_true. } 2:{ intros _. cbn [field_at snd]. by rewrite dec_enc_string. }
  read_member (field_at "x5c" Jws_X5C set_X5C (dec_vec dec_bytes None)) (Build_JwsHeader alg jku kid x5u x5c None None "" "" []).
  2:{ by intros ->%bool_decide_eq_true. }
  2:{ intros _. cbn [field_at snd]. rewrite (dec_vec_map _ _ _ (λ b, b)), map_id; [done|].
      apply list.Forall_forall. intros b _. apply dec_enc_bytes. }
  erewrite dec_members_app; [|eapply (dec_blob_members _ "x5t" Jws_X5T set_X5T _
    (Build_JwsHeader alg jku kid x5u x5c x5t None "" "" [])); [done|done|find_name|by intros ->|done]].
  erewrite dec_members_app; [|eapply (dec_blob_members _ "x5t#S256" Jws_X5T256 set_X5T256 _
    (Build_JwsHeader alg jku kid x5u x5c x5t x5t256 "" "" [])); [done|done|find_name|by intros ->|done]].
  read_member (field_at "typ" Jws_Typ set_Typ dec_string) (Build_JwsHeader alg jku kid x5u x5c x5t x5t256 typ "" []).
  2:{ by intros ->%str_empty_true. } 2:{ intros _. cbn [field_at snd]. by rewrite dec_enc_string. }
  read_member (field_at "cty" Jws_Cty set_Cty dec_string) (Build_JwsHeader alg jku kid x5u x5c x5t x5t256 typ cty []).
  2:{ by intros ->%str_empty_true. } 2:{ intros _. cbn [field_at snd]. by rewrite dec_enc_string. }
  apply dec_omitempty with (dec := (field_at "crit" Jws_Crit set_Crit (dec_vec dec_string "")).2);
    [find_name|by intros ->%bool_decide_eq_true|].
  intros _. cbn [field_at snd]. rewrite (dec_vec_map _ _ _ (λ s, s)), map_id; [done|].
  eapply List.Forall_impl; [|done]. intros s Hs. by apply dec_enc_string.
Qed.

(** ** Round trip of a token *)
Definition header_doc (h : JwsHeader) : bytes := json_print (JObj (JwsHeader_list h)).
Definition claims_doc (c : JwtClaims) : bytes := json_print (enc_raw_map (all_claims c)).
Definition jwt_body (jwt : Jwt) : string :=
  EncodeToString RawURLEncoding (header_doc (Jwt_Header jwt)) +:+ "." +:+
  EncodeToString RawURLEncoding (claims_doc (Jwt_Claims jwt)).

Lemma enc_JwtClaims_Ok c : claims_ok c → json_print <$> enc_JwtClaims c = Ok (claims_doc c).
Proof.
  intros Hc. unfold enc_JwtClaims, enc_marshaler, claims_doc. rewrite JwtClaims_MarshalJSON_Ok by done.
  pose proof (all_claims_ok c Hc) as Hm. rewrite enc_raw_map_ok by done. cbn [wrap_err mbind res_bind].
  pose proof (raw_map_members_ok _ Hm) as Ho. rewrite json_parse_print.
  - cbn [fmap res_fmap]. by rewrite compact_raw_map.
  - by eapply members_ok_wf.
  - pose proof (members_ok_depth _ _ Ho). unfold maxNestingDepth in *. lia.
Qed.

Lemma Jws_MarshalBody_Ok {P} (enc : P → result json) h p sig hd pd :
  Jws_Typ h = JwtType → (Jws_Cty h = "" ∨ Jws_Cty h = JwtType) →
  json_print <$> enc_JwsHeader h = Ok hd → json_print <$> enc p = Ok pd →
  Jws_MarshalBody enc {| Jws_Header := Some h; Jws_Payload := Some p; Jws_Signature := sig |} =
    Ok (EncodeToString RawURLEncoding hd +:+ "." +:+ EncodeToString RawURLEncoding pd).
Proof.
  intros Ht Hc Hh Hp. unfold Jws_MarshalBody. cbn [Jws_Header Jws_Payload]. rewrite Ht.
  assert (negb (str_empty (Jws_Cty h)) && negb (bool_decide (Jws_Cty h = JwtType)) = false) as ->.
  { by destruct Hc as [-> | ->]. }
  rewrite bool_decide_true by done. cbn [negb marshal_ptr]. rewrite Hh, Hp. done.
Qed.

Lemma enc_JwsHeader_Ok h : JwsHeader_ok h → json_print <$> enc_JwsHeader h = Ok (header_doc h).
Proof. intros Hh. unfold enc_JwsHeader. by rewrite JwsHeader_members_Ok. Qed.

Lemma Jwt_MarshalBody_Ok jwt : jwt_valid jwt → JwsHeader_ok (Jwt_Header jwt) → claims_ok (Jwt_Claims jwt) →
  Jwt_MarshalBody jwt = Ok (jwt_body jwt).
Proof.
  intros Hv Hh Hc. unfold Jwt_MarshalBody. rewrite (proj2 (Jwt_Verify_spec jwt) Hv). cbn [mbind res_bind].
  destruct Hv as (Ht & Hy & _). apply Jws_MarshalBody_Ok; [done|done|by apply enc_JwsHeader_Ok|by apply enc_JwtClaims_Ok].
Qed.

Lemma read_header h : JwsHeader_ok h →
  unmarshalURLBase64 (EncodeToString RawURLEncoding (header_doc h)) dec_JwsHeader_ptr (Some JwsHeader_zero) = Ok (Some h).
Proof.
  intros Hh. unfold unmarshalURLBase64. rewrite DecodeString_EncodeToString. cbn [mbind res_bind].
  unfold header_doc. rewrite (unmarshal_obj _ 1) by (apply JwsHeader_list_wf || done).
  unfold dec_JwsHeader_ptr. cbn [dec_struct default]. by rewrite JwsHeader_dec.
Qed.

Lemma read_claims c : claims_ok c →
  unmarshalURLBase64 (EncodeToString RawURLEncoding (claims_doc c)) dec_JwtClaims (Some JwtClaims_zero) = Ok (Some c).
Proof.
  intros Hc. unfold unmarshalURLBase64. rewrite DecodeString_EncodeToString. cbn [mbind res_bind].
  pose proof (JwtClaims_read c Hc) as Hr. unfold claims_doc.
  rewrite enc_raw_map_ok in * by by apply all_claims_ok.
  rewrite (unmarshal_obj _ (maxNestingDepth - 1)) by (by apply raw_map_members_ok, all_claims_ok || done).
  cbn [dec_JwtClaims]. by rewrite Hr.
Qed.

(** A token that is marshalled and signed is parsed back to the same header,
    claims and signature, and the parser returns exactly the signed octets. *)
Theorem Jwt_roundtrip jwt old :
  jwt_valid jwt → JwsHeader_ok (Jwt_Header jwt) → claims_ok (Jwt_Claims jwt) →
  ∃ body, Jwt_MarshalBody jwt = Ok body ∧
    ((slen (MarshalJws body (Jwt_Signature jwt)) <= MaxCompactSize)%N →
     Jwt_Unmarshal old (MarshalJws body (Jwt_Signature jwt)) = Ok (jwt, body)).
Proof.
  intros Hv Hh Hc. eexists. split; [by apply Jwt_MarshalBody_Ok|]. intros Hl.
  unfold Jwt_Unmarshal, Jws_Unmarshal. destruct (N.ltb_spec MaxCompactSize (slen (MarshalJws (jwt_body jwt) (Jwt_Signature jwt))));
    [lia|].
  unfold MarshalJws, jwt_body. rewrite !app_assoc_str, SplitN_3 by apply no_dot_encoded.
  cbn [Jws_Header Jws_Payload Jwt_Header Jwt_Claims Jwt_zero]. rewrite read_header by done. cbn [mbind res_bind].
  rewrite read_claims by done. cbn [mbind res_bind].
  rewrite (proj2 (strictCompactB64_canonical _ _) eq_refl). cbn [mbind res_bind Jws_Header Jws_Payload Jws_Signature default].
  rewrite (proj2 (Jwt_Verify_spec _)) by done. rewrite Join_two. by destruct jwt.
Qed.

Lemma typed_map_aud c : typed_map c !! "aud" = Some (aud_json (Aud (SetClaims c))).
Proof. lookup_typed. Qed.

Lemma typed_claim_other {A} (dec : decoder A) name k claims cur r :
  typed_claim dec name claims cur = Ok r → name ≠ k → r.1 !! k = claims !! k.
Proof.
  unfold typed_claim. destruct (claims !! name); intros H Hne; inv_res; [by apply lookup_delete_ne|done].
Qed.

Lemma JwtClaims_written c : (∀ k, k ∈ reservedJwtClaims → Untyped c !! k = None) →
  JwtClaims_MarshalJSON c = Ok (json_print (enc_raw_map (all_claims c))).
Proof.
  intros Hr. unfold JwtClaims_MarshalJSON, marshal_obj. rewrite typed_members_Ok.
  cbn [fmap res_fmap mbind res_bind]. rewrite read_typed_members. cbn [mbind res_bind].
  by rewrite (proj2 (has_reserved_false _) Hr).
Qed.

(** What is read as the audience is what the parser of audiences makes of it. *)
Lemma audience_read c old r : map_ok (Untyped c) → (∀ k, k ∈ reservedJwtClaims → Untyped c !! k = None) →
  JwtClaims_UnmarshalJSON old (json_print (enc_raw_map (all_claims c))) = Ok r →
  finish (dec_Audiences (aud_json (Aud (SetClaims c))) (Aud (SetClaims old))) = Ok (Aud (SetClaims r)).
Proof.
  intros Hm Hr H. assert (all_claims c !! "aud" = Some (aud_json (Aud (SetClaims c)))) as Haud.
  { unfold all_claims. rewrite lookup_union, Hr by in_names. by rewrite (left_id None _), typed_map_aud. }
  unfold JwtClaims_UnmarshalJSON in H. rewrite read_raw_map in H by by apply all_claims_ok'.
  cbn [mbind res_bind] in H. apply bind_Ok in H as ([m1 auto] & H1 & H).
  apply bind_Ok in H as ([m2 set] & H2 & H). injection H as <-.
  unfold unmarshal_AutomaticJwtClaims in H1. apply bind_Ok in H1 as ([a1 iss] & I1 & H1).
  apply bind_Ok in H1 as ([a2 iat] & I2 & H1). apply bind_Ok in H1 as ([a3 jti] & I3 & H1). injection H1 as <- _.
  unfold unmarshal_SettableJwtClaims in H2. apply bind_Ok in H2 as ([b1 sub] & I4 & H2).
  apply bind_Ok in H2 as ([b2 aud] & I5 & H2). apply bind_Ok in H2 as ([b3 exp] & _ & H2). apply bind_Ok in H2 as ([b4 nbf] & _ & H2).
  injection H2 as _ <-. cbn [SetClaims Aud].
  assert (b1 !! "aud" = Some (aud_json (Aud (SetClaims c)))) as Hb.
  { rewrite <- Haud. etransitivity; [by apply (typed_claim_other _ _ "aud" _ _ _ I4)|].
    etransitivity; [by apply (typed_claim_other _ _ "aud" _ _ _ I3)|].
    etransitivity; [by apply (typed_claim_other _ _ "aud" _ _ _ I2)|].
    by apply (typed_claim_other _ _ "aud" _ _ _ I1). }
  unfold typed_claim in I5. rewrite Hb in I5. apply bind_Ok in I5 as (x & Hx & [= _ ->]). exact Hx.
Qed.

(** Claims without an audience are written with ["aud":null], which the parser of
    the same library refuses. *)
Theorem nil_audience_unreadable c :
  Aud (SetClaims c) = None → map_ok (Untyped c) → (∀ k, k ∈ reservedJwtClaims → Untyped c !! k = None) →
  ∃ doc, JwtClaims_MarshalJSON c = Ok doc ∧ ∀ old r, JwtClaims_UnmarshalJSON old doc ≠ Ok r.
Proof.
  intros Ha Hm Hr. eexists. split; [by apply JwtClaims_written|]. intros old r H%audience_read; [|done..]. by rewrite Ha in H.
Qed.



(** ** Examples *)
Definition example_header : JwsHeader :=
  {| Jws_Alg := "ES256"; Jws_Jku := ""; Jws_Kid := "k1"; Jws_X5U := ""; Jws_X5C := [Some [x01; x02]; None];
     Jws_X5T := Some [xff]; Jws_X5T256 := None; Jws_Typ := "JWT"; Jws_Cty := ""; Jws_Crit := [] |}.
Definition example_claims : JwtClaims :=
  {| AutoClaims := {| Issuer := "me"; IssuedAt := 1700000000; JwtID := "" |};
     SetClaims := {| Subject := "a<b"; Aud := Some ["x"; "y"]; Expiration := 1800000000; NotBefore := -5 |};
     Untyped := {["https://example.com/roles" := JArr [JBool true; JNull; enc_string "é"]]} |}.
Definition example_jwt : Jwt :=
  {| Jwt_Header := example_header; Jwt_Claims := example_claims; Jwt_Signature := [x00; x10; x20] |}.

Lemma example_valid : jwt_valid example_jwt.
Proof. apply Jwt_Verify_spec. by vm_compute. Qed.

Lemma example_header_ok : JwsHeader_ok example_header.
Proof.
  split; try reflexivity; [intros b [= <-]; by split|done|constructor].
Qed.

Lemma example_claims_ok : claims_ok example_claims.
Proof.
  split; try reflexivity.
  - exists "x", ["y"]. split; [done|]. by repeat constructor.
  - unfold map_ok, example_claims. cbn [Untyped]. intros k v [<- <-]%lookup_singleton_Some.
    split; [by vm_compute|]. split_and!; by vm_compute.
  - intros k Hk. apply has_reserved_false; [by vm_compute|done].
Qed.


Lemma Jwt_roundtrip_witness : ∃ body, Jwt_MarshalBody example_jwt = Ok body ∧
  ((slen (MarshalJws body (Jwt_Signature example_jwt)) <= MaxCompactSize)%N →
   Jwt_Unmarshal Jwt_zero (MarshalJws body (Jwt_Signature example_jwt)) = Ok (example_jwt, body)).
Proof. exact (Jwt_roundtrip example_jwt Jwt_zero example_valid example_header_ok example_claims_ok). Defined.

Definition example_minimal : Jwt :=
  {| Jwt_Header := set_Typ "JWT" JwsHeader_zero;
     Jwt_Claims := {| AutoClaims := AutoClaims JwtClaims_zero; SetClaims := SetClaims JwtClaims_zero;
                      Untyped := {["n" := JBool true]} |};
     Jwt_Signature := [xff] |}.

(** The token of header [{"typ":"JWT"}] and claims [{"n":true}]. *)
Definition example_token : string := "eyJ0eXAiOiJKV1QifQ.eyJuIjp0cnVlfQ._w".

Lemma Jwt_Unmarshal_spec_witness :
  jwt_valid example_minimal ∧ (slen example_token <= MaxCompactSize)%N ∧
  example_token = MarshalJws "eyJ0eXAiOiJKV1QifQ.eyJuIjp0cnVlfQ" (Jwt_Signature example_minimal).
Proof. apply (Jwt_Unmarshal_spec Jwt_zero example_token). vm_compute. reflexivity. Defined.

(** The claims of that token, which name no audience, are not readable once written. *)
Lemma nil_audience_unreadable_witness : ∃ doc,
  JwtClaims_MarshalJSON (Jwt_Claims example_minimal) = Ok doc ∧ ∀ old r, JwtClaims_UnmarshalJSON old doc ≠ Ok r.
Proof.
  apply (nil_audience_unreadable (Jwt_Claims example_minimal)).
  - reflexivity.
  - unfold map_ok, example_minimal. cbn [Untyped Jwt_Claims]. intros k v [<- <-]%lookup_singleton_Some.
    split; [by vm_compute|]. split_and!; by vm_compute.
  - intros k Hk. apply has_reserved_false; [by vm_compute|done].
Defined.
