(* ===== verification/Jwe.v ===== *)
(** [jose/jwe.go]: the header of a JWE and its compact serialisations.

    [JweHeader] and [JweProtectedHeader] are Go structs with the same members;
    both are [JweProtectedHeader] here.  A parser mutates the receiver it is given:
    it is the first argument. *)

From S2P Require Import Prelude Errors Base64 Json JsonFacts JsonCodec Types Jws.

(** ** Headers *)
Record JweCustomHeaderFields := { OtherAad : option Blob }.

Record JweProtectedHeader := {
  Jwe_Jws : JwsHeader;
  Jwe_Custom : JweCustomHeaderFields;
  Jwe_Enc : Enc;
  Jwe_Zip : Zip;
}.
Definition JweHeader := JweProtectedHeader.

Definition JweProtectedHeader_zero : JweProtectedHeader :=
  {| Jwe_Jws := JwsHeader_zero; Jwe_Custom := {| OtherAad := None |}; Jwe_Enc := ""; Jwe_Zip := "" |}.

Definition supportedJweAlgs : list Alg :=
  [AlgDir; AlgRSAOAEP; AlgRSAOAEPSHA2; AlgA128GCM; AlgA192GCM; AlgA256GCM; AlgA256CBC].
Definition supportedJweEncs : list Enc := [EncA128GCM; EncA192GCM; EncA256GCM; EncA256CBC].

Definition Jwe_set_Jws v h := {| Jwe_Jws := v; Jwe_Custom := Jwe_Custom h; Jwe_Enc := Jwe_Enc h; Jwe_Zip := Jwe_Zip h |}.
Definition Jwe_set_Custom v h := {| Jwe_Jws := Jwe_Jws h; Jwe_Custom := v; Jwe_Enc := Jwe_Enc h; Jwe_Zip := Jwe_Zip h |}.
Definition Jwe_set_Enc v h := {| Jwe_Jws := Jwe_Jws h; Jwe_Custom := Jwe_Custom h; Jwe_Enc := v; Jwe_Zip := Jwe_Zip h |}.
Definition Jwe_set_Zip v h := {| Jwe_Jws := Jwe_Jws h; Jwe_Custom := Jwe_Custom h; Jwe_Enc := Jwe_Enc h; Jwe_Zip := v |}.

Definition JweCustomHeaderFields_json : list (field JweCustomHeaderFields) := [
  field_at "_thales_aad" OtherAad (λ v _, {| OtherAad := v |}) (dec_ptr Blob_UnmarshalJSON)
].
Definition JweProtectedHeader_json : list (field JweProtectedHeader) :=
  map (lift_field Jwe_Jws Jwe_set_Jws) JwsHeader_json ++
  map (lift_field Jwe_Custom Jwe_set_Custom) JweCustomHeaderFields_json ++
  [field_at "enc" Jwe_Enc Jwe_set_Enc dec_string; field_at "zip" Jwe_Zip Jwe_set_Zip dec_string].

Definition JweProtectedHeader_members (h : JweProtectedHeader) : result (list (bytes * json)) :=
  j ← JwsHeader_members (Jwe_Jws h);
  c ← omit_nil "_thales_aad" (λ b, enc_marshaler (Blob_MarshalJSON b)) (OtherAad (Jwe_Custom h));
  Ok (j ++ c ++
      member "enc" (enc_string (Jwe_Enc h)) ++
      omitempty (str_empty (Jwe_Zip h)) "zip" (enc_string (Jwe_Zip h))).

(** [[]byte(base64.RawURLEncoding.EncodeToString(headerBytes))] *)
Definition MarshalProtectedHeader (h : JweProtectedHeader) : result bytes :=
  headerBytes ← marshal_obj (JweProtectedHeader_members h);
  Ok (s2b (EncodeToString RawURLEncoding headerBytes)).
Definition JweHeader_MarshalHeader (h : JweHeader) : result bytes := MarshalProtectedHeader h.

Definition concatByteArrays (slices : list bytes) : bytes := fold_left (λ tmp s, tmp ++ s) slices [].

(** The unprotected headers of the JSON serialisation. *)
Record JwePerRecipientUnprotectedHeader := { PlaintextLength : Z }.
Record HeaderRfc7516 := {
  Hdr_Protected : JweProtectedHeader;
  Hdr_PerRecipient : JwePerRecipientUnprotectedHeader;
}.

Definition HeaderRfc7516_MarshallHeader (h : HeaderRfc7516) : result bytes :=
  protectedHeaderBytes ← MarshalProtectedHeader (Hdr_Protected h);
  let sharedUnprotectedHeaderBytes := json_print (JObj []) in
  let perRecipientUnprotectedHeaderBytes :=
    json_print (JObj (member "plaintextLength" (enc_int64 (PlaintextLength (Hdr_PerRecipient h))))) in
  Ok (concatByteArrays [
    s2b (EncodeToString RawURLEncoding protectedHeaderBytes);
    s2b (EncodeToString RawURLEncoding sharedUnprotectedHeaderBytes);
    s2b (EncodeToString RawURLEncoding perRecipientUnprotectedHeaderBytes)]).

(** ** [JweRfc7516Compact] *)
Record JweRfc7516Compact := {
  ProtectedHeader : JweProtectedHeader;
  RawProtectedHeader : bytes;
  EncryptedKey : bytes;
  InitializationVector : bytes;
  Ciphertext : bytes;
  AuthenticationTag : bytes;
}.

Definition JweRfc7516Compact_zero : JweRfc7516Compact :=
  {| ProtectedHeader := JweProtectedHeader_zero; RawProtectedHeader := []; EncryptedKey := [];
     InitializationVector := []; Ciphertext := []; AuthenticationTag := [] |}.

Definition JweRfc7516Compact_Unmarshal (jwe : JweRfc7516Compact) (src : string) : result JweRfc7516Compact :=
  if (MaxCompactSize <? slen src)%N then jose_err Jose.ErrInputTooLarge
  else
    match SplitN src "." 5 with
    | [p0; p1; p2; p3; p4] =>
      marshalledHeader ← DecodeString RawURLEncoding p0;
      hdr ← json_Unmarshal (dec_struct JweProtectedHeader_json) marshalledHeader (ProtectedHeader jwe);
      if (0 <? len (Jws_Crit (Jwe_Jws hdr)))%N then jose_err Jose.ErrCritHeaderNotSupported
      else if negb (bool_decide (Jws_Alg (Jwe_Jws hdr) ∈ supportedJweAlgs))
      then Err (EWrap "unsupported JWE alg" (EJose Jose.ErrInvalidAlgorithm))
      else if negb (bool_decide (Jwe_Enc hdr ∈ supportedJweEncs))
      then Err (EWrap "unsupported JWE enc" (EJose Jose.ErrInvalidEncryption))
      else
        key ← (if (0 <? slen p1)%N then DecodeString RawURLEncoding p1 else Ok (EncryptedKey jwe));
        iv ← DecodeString RawURLEncoding p2;
        ciphertext ← DecodeString RawURLEncoding p3;
        tag ← DecodeString RawURLEncoding p4;
        Ok {| ProtectedHeader := hdr; RawProtectedHeader := s2b p0; EncryptedKey := key;
              InitializationVector := iv; Ciphertext := ciphertext; AuthenticationTag := tag |}
    | _ => jose_err Jose.ErrJweFormat
    end.

Definition JweRfc7516Compact_AAD (jwe : JweRfc7516Compact) : result bytes :=
  if (0 <? len (RawProtectedHeader jwe))%N then Ok (RawProtectedHeader jwe)
  else MarshalProtectedHeader (ProtectedHeader jwe).

Definition JweRfc7516Compact_Marshal (jwe : JweRfc7516Compact) : result string :=
  marshalledHeader ← wrap_err "error marshalling the JWE header" (MarshalProtectedHeader (ProtectedHeader jwe));
  Ok (Join [b2s marshalledHeader;
            EncodeToString RawURLEncoding (EncryptedKey jwe);
            EncodeToString RawURLEncoding (InitializationVector jwe);
            EncodeToString RawURLEncoding (Ciphertext jwe);
            EncodeToString RawURLEncoding (AuthenticationTag jwe)] ".").

(** ** [Jwe], the deprecated form *)
Record Jwe := {
  Dep_Header : JweHeader;
  MarshalledHeader : bytes;
  Dep_EncryptedKey : bytes;
  Dep_Iv : bytes;
  Dep_Ciphertext : bytes;
  Dep_Tag : bytes;
  Plaintext : bytes;
}.

Definition Jwe_MarshalHeader (jwe : Jwe) : result Jwe :=
  marshalledHeader ← JweHeader_MarshalHeader (Dep_Header jwe);
  Ok {| Dep_Header := Dep_Header jwe; MarshalledHeader := marshalledHeader;
        Dep_EncryptedKey := Dep_EncryptedKey jwe; Dep_Iv := Dep_Iv jwe;
        Dep_Ciphertext := Dep_Ciphertext jwe; Dep_Tag := Dep_Tag jwe; Plaintext := Plaintext jwe |}.

Definition Jwe_Unmarshal (jwe : Jwe) (src : string) : result Jwe :=
  if (MaxCompactSize <? slen src)%N then jose_err Jose.ErrInputTooLarge
  else
    match SplitN src "." 5 with
    | [p0; p1; p2; p3; p4] =>
      marshalledHeader ← DecodeString RawURLEncoding p0;
      hdr ← json_Unmarshal (dec_struct JweProtectedHeader_json) marshalledHeader (Dep_Header jwe);
      if (0 <? len (Jws_Crit (Jwe_Jws hdr)))%N then jose_err Jose.ErrCritHeaderNotSupported
      else
        key ← (if (0 <? slen p1)%N then DecodeString RawURLEncoding p1 else Ok (Dep_EncryptedKey jwe));
        iv ← DecodeString RawURLEncoding p2;
        ciphertext ← DecodeString RawURLEncoding p3;
        tag ← DecodeString RawURLEncoding p4;
        Ok {| Dep_Header := hdr; MarshalledHeader := s2b p0; Dep_EncryptedKey := key; Dep_Iv := iv;
              Dep_Ciphertext := ciphertext; Dep_Tag := tag; Plaintext := Plaintext jwe |}
    | _ => jose_err Jose.ErrJweFormat
    end.

Definition Jwe_Marshal (jwe : Jwe) : string :=
  Join [b2s (MarshalledHeader jwe);
        EncodeToString RawURLEncoding (Dep_EncryptedKey jwe);
        EncodeToString RawURLEncoding (Dep_Iv jwe);
        EncodeToString RawURLEncoding (Dep_Ciphertext jwe);
        EncodeToString RawURLEncoding (Dep_Tag jwe)] ".".
