(* ===== verification/JweFacts.v ===== *)
(** Properties of the compact serialisations of a JWE. *)

From S2P Require Import Prelude Errors Base64 Json JsonFacts JsonCodec Types Jws JwsFacts Jwe.

(** ** The protected header *)
Record JweHeader_ok (h : JweProtectedHeader) : Prop := {
  jok_jws : JwsHeader_ok (Jwe_Jws h);
  jok_aad : ∀ b, OtherAad (Jwe_Custom h) = Some b → b ≠ [] ∧ (len b <= MaxBlobSize)%N;
  jok_enc : utf8 (Jwe_Enc h) = true;
  jok_zip : utf8 (Jwe_Zip h) = true;
}.

Definition JweHeader_list (h : JweProtectedHeader) : list (bytes * json) :=
  JwsHeader_list (Jwe_Jws h) ++ blob_members "_thales_aad" (OtherAad (Jwe_Custom h)) ++
  omitempty false "enc" (enc_string (Jwe_Enc h)) ++
  omitempty (str_empty (Jwe_Zip h)) "zip" (enc_string (Jwe_Zip h)).

Lemma JweHeader_members_Ok h : JweHeader_ok h → JweProtectedHeader_members h = Ok (JweHeader_list h).
Proof.
  intros []. unfold JweProtectedHeader_members. rewrite JwsHeader_members_Ok by done.
  cbn [mbind res_bind]. by rewrite omit_nil_blob.
Qed.

Lemma JweHeader_list_wf h : members_ok 1 (JweHeader_list h).
Proof.
  apply members_ok_app; [apply JwsHeader_list_wf|]. apply members_ok_app; [apply members_ok_blob|].
  apply members_ok_app; (apply members_ok_omitempty; [apply json_wf_enc_string|simpl; lia]).
Qed.


Lemma JweHeader_dec h : JweHeader_ok h →
  dec_members JweProtectedHeader_json (JweHeader_list h) JweProtectedHeader_zero = done_with h.
Proof.
  intros [Hj Ha He Hz]. destruct h as [jws [aad] enc zip]. cbn [Jwe_Jws Jwe_Custom OtherAad Jwe_Enc Jwe_Zip] in *.
  unfold JweHeader_list. cbn [Jwe_Jws Jwe_Custom OtherAad Jwe_Enc Jwe_Zip].
  erewrite dec_members_app; [|apply (dec_members_lift_done Jwe_Jws Jwe_set_Jws JwsHeader_json)];
    [|by split; [|done|by intros []]|solve_embeds|apply JwsHeader_list_wf|by apply JwsHeader_dec].
  erewrite dec_members_app with (s1 := {| Jwe_Jws := jws; Jwe_Custom := {| OtherAad := aad |}; Jwe_Enc := ""; Jwe_Zip := "" |}).
  2:{ destruct aad as [b|]; [|done]. destruct (Ha b eq_refl) as [Hb Hl].
      eapply dec_member; [find_name|]. cbn [lift_field field_at snd Jwe_set_Jws Jwe_Custom OtherAad JweProtectedHeader_zero].
      unfold dec_ptr. by rewrite dec_blob. }
  read_member (field_at "enc" Jwe_Enc Jwe_set_Enc dec_string)
    {| Jwe_Jws := jws; Jwe_Custom := {| OtherAad := aad |}; Jwe_Enc := enc; Jwe_Zip := "" |}.
  2:{ done. } 2:{ intros _. cbn [field_at snd]. by rewrite dec_enc_string. }
  apply dec_omitempty with (dec := (field_at "zip" Jwe_Zip Jwe_set_Zip dec_string).2); [find_name|by intros ->%str_empty_true|].
  intros _. cbn [field_at snd]. by rewrite dec_enc_string.
Qed.

Definition jwe_header_doc (h : JweProtectedHeader) : bytes := json_print (JObj (JweHeader_list h)).

Lemma MarshalProtectedHeader_Ok h : JweHeader_ok h →
  MarshalProtectedHeader h = Ok (s2b (EncodeToString RawURLEncoding (jwe_header_doc h))).
Proof. intros Hh. unfold MarshalProtectedHeader. by rewrite JweHeader_members_Ok. Qed.

(** ** Five segments *)
Lemma SplitN_5_inv s p0 p1 p2 p3 p4 : SplitN s "." 5 = [p0; p1; p2; p3; p4] →
  s = Join [p0; p1; p2; p3; p4] ".".
Proof.
  intros H. destruct (SplitN_inv s "." 5) as [Hs _]; [done|by rewrite H|]. by rewrite Hs, H.
Qed.

Lemma SplitN_5 p0 p1 p2 p3 p4 : Forall (λ p, no_sep "." (s2b p)) [p0; p1; p2; p3] →
  SplitN (Join [p0; p1; p2; p3; p4] ".") "." 5 = [p0; p1; p2; p3; p4].
Proof. apply (SplitN_Join [p0; p1; p2; p3] p4 "."). Qed.

(** ** What a parsed JWE satisfies *)
Definition jwe_supported (h : JweProtectedHeader) : Prop :=
  Jws_Crit (Jwe_Jws h) = [] ∧ Jws_Alg (Jwe_Jws h) ∈ supportedJweAlgs ∧ Jwe_Enc h ∈ supportedJweEncs.

Lemma slen_pos s : (0 <? slen s)%N = negb (bool_decide (s = "")).
Proof. destruct s; [done|]. case_bool_decide; [done|]. unfold slen. cbn. lia. Qed.

Lemma parsed_segments jwe src jwe' : JweRfc7516Compact_Unmarshal jwe src = Ok jwe' →
  (slen src <= MaxCompactSize)%N ∧ jwe_supported (ProtectedHeader jwe') ∧
  ∃ p0 rest, src = p0 +:+ "." +:+ rest ∧ no_sep "." (s2b p0) ∧ p0 ≠ "" ∧ RawProtectedHeader jwe' = s2b p0.
Proof.
  unfold JweRfc7516Compact_Unmarshal. intros H. inv_err. split; [lia|].
  destruct (SplitN src "." 5) as [|p0 [|p1 [|p2 [|p3 [|p4 [|]]]]]] eqn:Hs; try done.
  destruct (SplitN_inv src "." 5) as [_ Hf]; [done|by rewrite Hs|]. rewrite Hs in Hf.
  apply list.Forall_cons in Hf as [Hf _].
  apply SplitN_5_inv in Hs as ->. inv_err. cbn [ProtectedHeader].
  match goal with H : DecodeString _ p0 = Ok ?h |- _ => rename H into Hd; rename h into hd end.
  split.
  - split_and!; [|by match goal with H : negb (bool_decide (_ ∈ supportedJweAlgs)) = false |- _ =>
      apply negb_false_iff, bool_decide_eq_true in H end|by match goal with H : negb (bool_decide (_ ∈ supportedJweEncs)) = false |- _ =>
      apply negb_false_iff, bool_decide_eq_true in H end].
    match goal with H : (0 <? len ?l)%N = false |- _ => destruct l; [done|unfold len in H; simpl in H; lia] end.
  - exists p0. eexists. split_and!; [by rewrite Join_cons|done| |done]. intros He. rewrite He in Hd. injection Hd as <-.
    match goal with H : json_Unmarshal _ [] _ = Ok _ |- _ => by vm_compute in H end.
Qed.

(** C30. A compact JWE that is parsed is within the size bound, uses a supported
    algorithm and encryption and no critical extension, and its additional
    authenticated data are the octets of its first segment as received. *)
Theorem JweRfc7516Compact_Unmarshal_spec jwe src jwe' :
  JweRfc7516Compact_Unmarshal jwe src = Ok jwe' →
  (slen src <= MaxCompactSize)%N ∧ jwe_supported (ProtectedHeader jwe') ∧
  ∃ p0 rest, src = p0 +:+ "." +:+ rest ∧ no_sep "." (s2b p0) ∧ JweRfc7516Compact_AAD jwe' = Ok (s2b p0).
Proof.
  intros (Hsz & Hs & p0 & rest & Hsrc & Hn & Hne & Hr)%parsed_segments. split_and!; try done. exists p0, rest. split_and!; try done.
  unfold JweRfc7516Compact_AAD. rewrite Hr, <- slen_len, slen_pos. by rewrite bool_decide_false.
Qed.

Lemma parsed_AAD jwe src jwe' : JweRfc7516Compact_Unmarshal jwe src = Ok jwe' → JweRfc7516Compact_AAD jwe' = Ok (RawProtectedHeader jwe').
Proof.
  intros (_ & _ & p0 & rest & _ & _ & Hne & Hr)%parsed_segments. unfold JweRfc7516Compact_AAD.
  by rewrite Hr, <- slen_len, slen_pos, bool_decide_false.
Qed.

(** ** Round trip *)
Lemma JweRfc7516Compact_Marshal_Unmarshal jwe :
  JweHeader_ok (ProtectedHeader jwe) → jwe_supported (ProtectedHeader jwe) →
  ∃ src raw, JweRfc7516Compact_Marshal jwe = Ok src ∧ MarshalProtectedHeader (ProtectedHeader jwe) = Ok raw ∧
    ((slen src <= MaxCompactSize)%N →
     JweRfc7516Compact_Unmarshal JweRfc7516Compact_zero src = Ok
       {| ProtectedHeader := ProtectedHeader jwe; RawProtectedHeader := raw; EncryptedKey := EncryptedKey jwe;
          InitializationVector := InitializationVector jwe; Ciphertext := Ciphertext jwe;
          AuthenticationTag := AuthenticationTag jwe |}).
Proof.
  intros Hh (Hc & Ha & He). do 2 eexists. unfold JweRfc7516Compact_Marshal.
  rewrite MarshalProtectedHeader_Ok by done. split; [reflexivity|]. split; [reflexivity|].
  rewrite b2s_s2b. intros Hl. unfold JweRfc7516Compact_Unmarshal.
  match goal with |- context [(?a <? ?b)%N] => destruct (N.ltb_spec a b); [lia|] end.
  rewrite SplitN_5 by (repeat apply Forall_cons_2; try apply Forall_nil_2; apply no_dot_encoded).
  rewrite !DecodeString_EncodeToString. cbn [mbind res_bind]. unfold jwe_header_doc.
  rewrite (unmarshal_obj _ 1) by (apply JweHeader_list_wf || done).
  cbn [dec_struct ProtectedHeader JweRfc7516Compact_zero]. rewrite JweHeader_dec by done.
  cbn [finish done_with mbind res_bind]. rewrite Hc. cbn [len length N.of_nat N.ltb N.compare].
  rewrite !bool_decide_true by done. cbn [negb]. rewrite slen_pos.
  case_bool_decide as Hk; cbn [negb mbind res_bind]; [|done].
  assert (EncryptedKey jwe = []) as ->; [|done].
  unfold EncodeToString in Hk. apply (f_equal s2b) in Hk. rewrite s2b_b2s in Hk. by apply b64_encode_nil in Hk.
Qed.

(** C29. A JWE built in memory survives [Marshal] and [Unmarshal]; the parsed one
    remembers its header as sent. *)
Theorem JweRfc7516Compact_roundtrip jwe :
  JweHeader_ok (ProtectedHeader jwe) → jwe_supported (ProtectedHeader jwe) →
  ∃ src raw, JweRfc7516Compact_Marshal jwe = Ok src ∧ MarshalProtectedHeader (ProtectedHeader jwe) = Ok raw ∧
    ((slen src <= MaxCompactSize)%N →
     JweRfc7516Compact_Unmarshal JweRfc7516Compact_zero src = Ok
       {| ProtectedHeader := ProtectedHeader jwe; RawProtectedHeader := raw; EncryptedKey := EncryptedKey jwe;
          InitializationVector := InitializationVector jwe; Ciphertext := Ciphertext jwe;
          AuthenticationTag := AuthenticationTag jwe |}).
Proof. apply JweRfc7516Compact_Marshal_Unmarshal. Qed.

(** The same for the deprecated form, whose header was serialised before. *)
Lemma Jwe_roundtrip jwe : JweHeader_ok (Dep_Header jwe) → Jws_Crit (Jwe_Jws (Dep_Header jwe)) = [] →
  JweHeader_MarshalHeader (Dep_Header jwe) = Ok (MarshalledHeader jwe) → Dep_EncryptedKey jwe = [] →
  (slen (Jwe_Marshal jwe) <= MaxCompactSize)%N → ∀ p,
  Jwe_Unmarshal {| Dep_Header := JweProtectedHeader_zero; MarshalledHeader := []; Dep_EncryptedKey := []; Dep_Iv := []; Dep_Ciphertext := [];
                   Dep_Tag := []; Plaintext := p |} (Jwe_Marshal jwe) =
    Ok {| Dep_Header := Dep_Header jwe; MarshalledHeader := MarshalledHeader jwe; Dep_EncryptedKey := []; Dep_Iv := Dep_Iv jwe;
          Dep_Ciphertext := Dep_Ciphertext jwe; Dep_Tag := Dep_Tag jwe; Plaintext := p |}.
Proof.
  intros Hh Hc Hm Hk Hl p. unfold JweHeader_MarshalHeader in Hm. rewrite MarshalProtectedHeader_Ok in Hm by done. injection Hm as Hm.
  unfold Jwe_Unmarshal, Jwe_Marshal in *. rewrite <- Hm, b2s_s2b, Hk in *.
  match goal with |- context [(?a <? ?b)%N] => destruct (N.ltb_spec a b); [lia|] end.
  rewrite SplitN_5 by (repeat apply Forall_cons_2; try apply Forall_nil_2; apply no_dot_encoded).
  rewrite !DecodeString_EncodeToString. cbn [mbind res_bind]. unfold jwe_header_doc.
  rewrite (unmarshal_obj _ 1) by (apply JweHeader_list_wf || done).
  cbn [dec_struct Dep_Header]. rewrite JweHeader_dec by done.
  cbn [finish done_with mbind res_bind]. rewrite Hc. reflexivity.
Qed.

(** The header octets of the deprecated form are its first segment, as received. *)
Lemma Jwe_Unmarshal_header jwe src t : Jwe_Unmarshal jwe src = Ok t →
  ∃ p0 rest, src = p0 +:+ "." +:+ rest ∧ no_sep "." (s2b p0) ∧ MarshalledHeader t = s2b p0.
Proof.
  unfold Jwe_Unmarshal. intros H. inv_err. destruct (SplitN src "." 5) as [|p0 [|p1 [|p2 [|p3 [|p4 [|]]]]]] eqn:Hs; try done.
  destruct (SplitN_inv src "." 5) as [_ Hf]; [done|by rewrite Hs|]. rewrite Hs in Hf. apply list.Forall_cons in Hf as [Hf _].
  apply SplitN_5_inv in Hs as ->. inv_err. exists p0. eexists. split_and!; [by rewrite Join_cons|done|done].
Qed.

(** ** Nothing panics *)

Lemma JweProtectedHeader_json_safe : fields_safe (λ _, True) JweProtectedHeader_json.
Proof.
  unfold fields_safe, JweProtectedHeader_json. rewrite !Forall_app. split_and!.
  - by eapply fields_safe_lift; [apply JwsHeader_json_safe|..].
  - eapply (fields_safe_lift _ (λ _, True)); [|done..]. each_field.
    apply dec_safe_field_total, dec_safe_ptr_total, Blob_no_panic.
  - each_field; apply dec_safe_field_total, dec_safe_string.
Qed.

Theorem JweRfc7516Compact_Unmarshal_no_panic jwe src : JweRfc7516Compact_Unmarshal jwe src ≠ Panic.
Proof.
  unfold JweRfc7516Compact_Unmarshal. destruct (_ <? _)%N; [done|].
  destruct (SplitN src "." 5) as [|p0 [|p1 [|p2 [|p3 [|p4 [|]]]]]]; try done.
  pose proof (DecodeString_no_panic RawURLEncoding) as Hd.
  apply bind_no_panic; [apply Hd|]. intros hd _.
  apply bind_no_panic; [by apply (json_Unmarshal_safe (λ _, True)), I; apply dec_safe_struct, JweProtectedHeader_json_safe|].
  intros h _. destruct (_ <? _)%N; [done|]. destruct (negb _); [done|]. destruct (negb _); [done|].
  apply bind_no_panic; [by destruct (_ <? _)%N|]. intros k _.
  do 3 (apply bind_no_panic; [apply Hd|intros ? _]). done.
Qed.

Lemma Jwe_Unmarshal_no_panic jwe src : Jwe_Unmarshal jwe src ≠ Panic.
Proof.
  unfold Jwe_Unmarshal. destruct (_ <? _)%N; [done|].
  destruct (SplitN src "." 5) as [|p0 [|p1 [|p2 [|p3 [|p4 [|]]]]]]; try done.
  pose proof (DecodeString_no_panic RawURLEncoding) as Hd.
  apply bind_no_panic; [apply Hd|]. intros hd _.
  apply bind_no_panic; [by apply (json_Unmarshal_safe (λ _, True)), I; apply dec_safe_struct, JweProtectedHeader_json_safe|].
  intros h _. destruct (_ <? _)%N; [done|].
  apply bind_no_panic; [by destruct (_ <? _)%N|]. intros k _.
  do 3 (apply bind_no_panic; [apply Hd|intros ? _]). done.
Qed.

(** ** Examples *)
Definition example_jwe_header : JweProtectedHeader :=
  {| Jwe_Jws := {| Jws_Alg := "dir"; Jws_Jku := ""; Jws_Kid := "k>1"; Jws_X5U := ""; Jws_X5C := []; Jws_X5T := None;
                   Jws_X5T256 := None; Jws_Typ := ""; Jws_Cty := ""; Jws_Crit := [] |};
     Jwe_Custom := {| OtherAad := Some [x41; x42] |}; Jwe_Enc := "A128GCM"; Jwe_Zip := "" |}.
Definition example_jwe : JweRfc7516Compact :=
  {| ProtectedHeader := example_jwe_header; RawProtectedHeader := []; EncryptedKey := [];
     InitializationVector := [x00; x01]; Ciphertext := [xfe]; AuthenticationTag := [x10; x11; x12] |}.

Lemma JweRfc7516Compact_roundtrip_witness : ∃ src raw,
  JweRfc7516Compact_Marshal example_jwe = Ok src ∧ MarshalProtectedHeader (ProtectedHeader example_jwe) = Ok raw ∧
  ((slen src <= MaxCompactSize)%N →
   JweRfc7516Compact_Unmarshal JweRfc7516Compact_zero src = Ok
     {| ProtectedHeader := ProtectedHeader example_jwe; RawProtectedHeader := raw; EncryptedKey := [];
        InitializationVector := [x00; x01]; Ciphertext := [xfe]; AuthenticationTag := [x10; x11; x12] |}).
Proof.
  apply (JweRfc7516Compact_roundtrip example_jwe).
  - split; [split; try reflexivity; try done; constructor|by intros b [= <-]|reflexivity|reflexivity].
  - split_and!; [reflexivity|apply list_elem_of_In; vm_compute; tauto..].
Defined.

(** The header [{"alg":"dir","enc":"A128GCM"}] with an empty key segment. *)
Definition example_jwe_token : string := "eyJhbGciOiJkaXIiLCJlbmMiOiJBMTI4R0NNIn0..AAE._g.EBES".

Lemma JweRfc7516Compact_Unmarshal_spec_witness : ∃ jwe',
  JweRfc7516Compact_Unmarshal JweRfc7516Compact_zero example_jwe_token = Ok jwe' ∧
  ((slen example_jwe_token <= MaxCompactSize)%N ∧ jwe_supported (ProtectedHeader jwe') ∧
   ∃ p0 rest, example_jwe_token = p0 +:+ "." +:+ rest ∧ no_sep "." (s2b p0) ∧ JweRfc7516Compact_AAD jwe' = Ok (s2b p0)).
Proof.
  eexists. split; [vm_compute; reflexivity|].
  apply (JweRfc7516Compact_Unmarshal_spec JweRfc7516Compact_zero). vm_compute. reflexivity.
Defined.
