(* ===== verification/Helpers.v ===== *)
(** [helpers.go], [rsa_oaep_alg.go] and the tables of [signer.go]: authorisation by
    [key_ops], algorithm tables, loading JWKs into crypto keys and back.

    A nil slice and an empty one are not told apart.  A function that takes a
    [jose.Jwk] and changes it returns the changed key. *)

From S2P Require Import Prelude Errors Base64 Json JsonFacts JsonCodec Types Crypto Jwk Jws.

Definition version1 : string := "v1".
Definition MaxKeyFileSize : N := 1048576.
Definition MaxPlaintextSize : N := 67108864.
Definition MinRsaModulusBits : N := 2048.

Definition fromBase64 (b64 : string) : result N :=
  b ← DecodeString RawURLEncoding b64; Ok (be_to_N b).

(** ** Operations *)
Definition isSubset (set subset : list Types.KeyOps) : bool :=
  if (len subset =? 0)%N then false
  else fold_left (λ result req,
         result && fold_left (λ opExists op, opExists || bool_decide (req = op)) set false) subset true.

Definition intersection (first second : list Types.KeyOps) : list Types.KeyOps :=
  fold_left (λ result a,
    fold_left (λ result b, if bool_decide (a = b) then result ++ [a] else result) second result) first [].

Definition cloneOps (ops : list Types.KeyOps) : list Types.KeyOps := ops.

(** The zero value of a missing key is the empty string. *)
Definition inverseOps (op : Types.KeyOps) : Types.KeyOps :=
  if bool_decide (op = KeyOpsEncrypt) then KeyOpsDecrypt
  else if bool_decide (op = KeyOpsDecrypt) then KeyOpsEncrypt
  else if bool_decide (op = KeyOpsSign) then KeyOpsVerify
  else if bool_decide (op = KeyOpsVerify) then KeyOpsSign
  else "".

(** ** Algorithm tables *)
Definition ES256Options : ECDSAOptions := {| EO_Hash := SHA256; keySizeBytes := 32%N; curveBits := 256%N; curve := P256 |}.
Definition ES384Options : ECDSAOptions := {| EO_Hash := SHA384; keySizeBytes := 48%N; curveBits := 384%N; curve := P384 |}.
Definition ES512Options : ECDSAOptions := {| EO_Hash := SHA512; keySizeBytes := 66%N; curveBits := 521%N; curve := P521 |}.

(** [algToOptsMap]. *)
Definition algToOptsMap (alg : Alg) : option SignerOpts :=
  if bool_decide (alg = AlgPS256) then Some (OptsPSS {| PSS_SaltLength := 32; PSS_Hash := SHA256 |})
  else if bool_decide (alg = AlgPS384) then Some (OptsPSS {| PSS_SaltLength := 48; PSS_Hash := SHA384 |})
  else if bool_decide (alg = AlgPS512) then Some (OptsPSS {| PSS_SaltLength := 64; PSS_Hash := SHA512 |})
  else if bool_decide (alg = AlgRS256) then Some (OptsHash SHA256)
  else if bool_decide (alg = AlgRS384) then Some (OptsHash SHA384)
  else if bool_decide (alg = AlgRS512) then Some (OptsHash SHA512)
  else if bool_decide (alg = AlgES256) then Some (OptsECDSA ES256Options)
  else if bool_decide (alg = AlgES384) then Some (OptsECDSA ES384Options)
  else if bool_decide (alg = AlgES512) then Some (OptsECDSA ES512Options)
  else None.

Definition signerOptsForAlg (alg : Alg) : result SignerOpts :=
  match algToOptsMap alg with Some opts => Ok opts | None => gose_err Gose.ErrInvalidAlgorithm end.

Definition ecdsaCurveForAlg (alg : Alg) : result Curve :=
  match algToOptsMap alg with
  | Some (OptsECDSA opts) => Ok (curve opts)
  | _ => gose_err Gose.ErrInvalidKeyType
  end.

(** The curves [crypto/ecdh] has. *)
Definition ecdhCurveFor (c : Curve) : result Curve :=
  match c with
  | P256 => Ok P256
  | P384 => Ok P384
  | P521 => Ok P521
  | P224 => gose_err Gose.ErrInvalidKeyType
  end.

(** *** [rsa_oaep_alg.go] *)
Definition oaepAlgToHash (alg : Alg) : option Hash :=
  if bool_decide (alg = AlgRSAOAEPSHA1) then Some SHA1
  else if bool_decide (alg = AlgRSAOAEPSHA2) then Some SHA256
  else None.
Definition oaepHashToAlg (hash : Hash) : option Alg :=
  match hash with
  | SHA1 => Some AlgRSAOAEPSHA1
  | SHA256 => Some AlgRSAOAEPSHA2
  | _ => None
  end.
Definition OaepHashFromAlg (alg : Alg) : option Hash := oaepAlgToHash alg.
Definition OaepAlgFromHash (hash : Hash) : option Alg := oaepHashToAlg hash.
Definition isRsaOaepAlg (alg : Alg) : bool := bool_decide (is_Some (oaepAlgToHash alg)).

Definition rsaBitsToAlg (bitLen : N) : Alg :=
  if (15360 <=? bitLen)%N then AlgPS512
  else if (7680 <=? bitLen)%N then AlgPS384
  else AlgPS256.

Fixpoint rsaAlgFromOps (bitLen : N) (ops : list Types.KeyOps) : Alg :=
  match ops with
  | [] => rsaBitsToAlg bitLen
  | op :: ops =>
    if bool_decide (op = KeyOpsEncrypt) || bool_decide (op = KeyOpsDecrypt) then AlgRSAOAEP
    else rsaAlgFromOps bitLen ops
  end.

Definition ecBitsToAlg (bitLen : N) : Alg :=
  if (bitLen =? 256)%N then AlgES256
  else if (bitLen =? 384)%N then AlgES384
  else if (bitLen =? 521)%N then AlgES512
  else "Unsupported".

Section helpers.
Context `{X509, Digests, Rsa, Ecdsa}.

Definition ecPointFromScalar (c : Curve) (d : N) : result (N * N) :=
  ecdhCurve ← ecdhCurveFor c;
  let scalar := (d mod Curve_N c)%N in
  if (scalar =? 0)%N then gose_err Gose.ErrInvalidKeyType
  else
    let size := N.to_nat ((Curve_BitSize c + 7) / 8) in
    pub ← from_option_err (EStd CryptoFailure) (ecdh_PublicKey ecdhCurve (be_fixed size scalar));
    if negb (bool_decide (length pub = 1 + 2 * size)) then gose_err Gose.ErrInvalidKeyType
    else Ok (be_to_N (take size (drop 1 pub)), be_to_N (drop (1 + size) pub)).

(** ** Loading keys *)
Definition privateKeyAlgs : list Alg :=
  [AlgRS256; AlgRS384; AlgRS512; AlgPS256; AlgPS384; AlgPS512; AlgES256; AlgES384; AlgES512; AlgRSAOAEP; AlgRSAOAEPSHA2].
Definition publicKeyAlgs : list Alg := privateKeyAlgs.

(** [int(e.Int64())]. *)
Definition exponent (e : BigNum) : Z := wrap64 (Z.of_N e).

(** The two kinds of keys of [LoadPrivateKey]. *)
Definition load_rsa_private (v : PrivateRsaKey) : result Signer :=
  let pub := PubRsa_fields (PrivRsa_pub v) in
  let priv := PrivRsa_fields v in
  if BigNum_Empty (Rsa_D priv) || BigNum_Empty (Rsa_E pub) || BigNum_Empty (Rsa_N pub)
  then gose_err Gose.ErrInvalidKeyType
  else if (32 <? BitLen (Rsa_E pub))%N || (Rsa_E pub <? 1)%N then gose_err Gose.ErrInvalidExponent
  else if (BitLen (Rsa_N pub) <? MinRsaModulusBits)%N then gose_err Gose.ErrInvalidKeySize
  else if BigNum_Empty (Rsa_P priv) || BigNum_Empty (Rsa_Q priv) || BigNum_Empty (Rsa_Dp priv)
          || BigNum_Empty (Rsa_Dq priv) || BigNum_Empty (Rsa_Qi priv)
  then gose_err Gose.ErrInconsistentKeyValues
  else
    let key := {| RsaPriv_Pub := {| RsaPub_N := Rsa_N pub; RsaPub_E := exponent (Rsa_E pub) |};
                  RsaPriv_D := Rsa_D priv; RsaPriv_Primes := [Rsa_P priv; Rsa_Q priv] |} in
    match rsa_Validate key with
    | Some e => Err (EWrap "invalid key" (EGose Gose.ErrInconsistentKeyValues))
    | None =>
      match rsa_Precompute key with
      | None => Panic
      | Some pre =>
        if negb (bool_decide (Pre_Dp pre = Rsa_Dp priv)) || negb (bool_decide (Pre_Dq pre = Rsa_Dq priv))
           || negb (bool_decide (Pre_Qinv pre = Rsa_Qi priv))
        then gose_err Gose.ErrInconsistentKeyValues
        else Ok (SignerRSA key)
      end
    end.
Definition load_ec_private (alg : Alg) (v : PrivateEcKey) : result Signer :=
  let pub := PubEc_fields (PrivEc_pub v) in
  if BigNum_Empty (Ec_D (PrivEc_fields v)) then gose_err Gose.ErrInvalidKeyType
  else
    curve ← ecdsaCurveForAlg alg;
    Ok (SignerECDSA {| EcPriv_Pub := {| EcPub_Curve := curve; EcPub_X := Ec_X pub; EcPub_Y := Ec_Y pub |};
                       EcPriv_D := Ec_D (PrivEc_fields v) |}).

Definition LoadPrivateKey (jwk : Jwk) (required : list Types.KeyOps) : result Signer :=
  if negb (bool_decide (Jwk_Alg jwk ∈ privateKeyAlgs)) then gose_err Gose.ErrInvalidKeyType
  else if (0 <? len required)%N && negb (isSubset (Jwk_Ops jwk) required) then gose_err Gose.ErrInvalidOperations
  else
    match jwk with
    | JPrivateRsa v => load_rsa_private v
    | JPrivateEc v => load_ec_private (Jwk_Alg jwk) v
    | _ => gose_err Gose.ErrUnsupportedKeyType
    end.

Definition LoadPublicKey (jwk : Jwk) (required : list Types.KeyOps) : result PublicKey :=
  if negb (bool_decide (Jwk_Alg jwk ∈ publicKeyAlgs)) then gose_err Gose.ErrInvalidKeyType
  else if (0 <? len required)%N && negb (isSubset (Jwk_Ops jwk) required) then gose_err Gose.ErrInvalidOperations
  else
    match jwk with
    | JPublicRsa v =>
      let pub := PubRsa_fields v in
      if BigNum_Empty (Rsa_N pub) || BigNum_Empty (Rsa_E pub) then gose_err Gose.ErrInvalidKeyType
      else if (32 <? BitLen (Rsa_E pub))%N || (Rsa_E pub <? 1)%N then gose_err Gose.ErrInvalidExponent
      else if (BitLen (Rsa_N pub) <? MinRsaModulusBits)%N then gose_err Gose.ErrInvalidKeySize
      else Ok (PubRSA {| RsaPub_N := Rsa_N pub; RsaPub_E := exponent (Rsa_E pub) |})
    | JPublicEc v =>
      let pub := PubEc_fields v in
      if BigNum_Empty (Ec_X pub) || BigNum_Empty (Ec_Y pub) then gose_err Gose.ErrInvalidKeyType
      else
        curve ← ecdsaCurveForAlg (Jwk_Alg jwk);
        Ok (PubECDSA {| EcPub_Curve := curve; EcPub_X := Ec_X pub; EcPub_Y := Ec_Y pub |})
    | _ => gose_err Gose.ErrUnsupportedKeyType
    end.

(** Header, its octets, the claims' octets, the signed string, the signature. *)
Definition LoadJws (jws : string) : result (JwsHeader * bytes * bytes * bytes * bytes) :=
  match SplitN jws "." 3 with
  | [p0; p1; p2] =>
    match DecodeString RawURLEncoding p0 with
    | Ok header =>
      match json_Unmarshal (dec_struct JwsHeader_json) header JwsHeader_zero with
      | Ok tmp =>
        match DecodeString RawURLEncoding p1 with
        | Ok data =>
          match DecodeString RawURLEncoding p2 with
          | Ok signature => Ok (tmp, header, data, s2b (p0 +:+ "." +:+ p1), signature)
          | Panic => Panic
          | Err _ => gose_err Gose.ErrInvalidJwsBase64SignatureEncoding
          end
        | Panic => Panic
        | Err _ => gose_err Gose.ErrInvalidJwsBase64BodyEncoding
        end
      | Panic => Panic
      | Err _ => gose_err Gose.ErrInvalidJwsHeaderEncoding
      end
    | Panic => Panic
    | Err _ => gose_err Gose.ErrInvalidJwsBase64HeaderEncoding
    end
  | _ => gose_err Gose.ErrInvalidJwsCompactEncoding
  end.

(** ** Key identifiers *)
(** [fmt.Sprintf("%x", digest)] *)
Definition hex_string (b : bytes) : string :=
  b2s (concat (map (λ c, [hex_digit (b2n c / 16); hex_digit (b2n c mod 16)]) b)).

Definition key_id (encoded : list string) : result string :=
  digest ← hash_sum SHA256 (s2b (Join encoded "."));
  Ok (hex_string digest).

Definition CalculateKeyID (jwk : Jwk) : result string :=
  match jwk with
  | JPublicRsa typed =>
    key_id [version1; "jwk"; Jwk_Kty jwk;
            EncodeToString RawURLEncoding (be_bytes (Rsa_N (PubRsa_fields typed)));
            EncodeToString RawURLEncoding (be_bytes (Rsa_E (PubRsa_fields typed)))]
  | JPublicEc typed =>
    key_id [version1; "jwk"; Jwk_Kty jwk;
            EncodeToString RawURLEncoding (be_bytes (Ec_X (PubEc_fields typed)));
            EncodeToString RawURLEncoding (be_bytes (Ec_Y (PubEc_fields typed)))]
  | JOct typed =>
    key_id [version1; "jwk"; Jwk_Kty jwk; EncodeToString RawURLEncoding (Oct_K (Oct_fields typed))]
  | _ => gose_err Gose.ErrUnsupportedKeyType
  end.

Definition LoadJwk (reader : bytes) (required : list Types.KeyOps) : result Jwk :=
  jwk ← UnmarshalJwk reader;
  if (0 <? len required)%N && negb (isSubset (Jwk_Ops jwk) required) then gose_err Gose.ErrInvalidOperations
  else Ok jwk.

(** The file system maps a name to the contents [os.Open] finds. *)
Definition LoadJwkFromFile (fs : string → option bytes) (file : string) (required : list Types.KeyOps) : result Jwk :=
  match fs file with
  | None => gose_err Gose.ErrInvalidSigningKeyURL
  | Some fd => LoadJwk fd required
  end.

(** ** From private to public *)
Definition PublicFromPrivate (jin : Jwk) : result Jwk :=
  out ← match jin with
        | JPrivateRsa k =>
          let pub := PubRsa_fields (PrivRsa_pub k) in
          let priv := PrivRsa_fields k in
          if BigNum_Empty (Rsa_D priv) || BigNum_Empty (Rsa_Q priv) || BigNum_Empty (Rsa_Dq priv)
             || BigNum_Empty (Rsa_P priv) || BigNum_Empty (Rsa_Dp priv) || BigNum_Empty (Rsa_Qi priv)
             || BigNum_Empty (Rsa_N pub) || BigNum_Empty (Rsa_E pub)
          then gose_err Gose.ErrInvalidKeyType
          else Ok (JPublicRsa {| PubRsa_jwk := jwkFields_zero; PubRsa_fields := pub |})
        | JPrivateEc k =>
          curve ← ecdsaCurveForAlg (Jwk_Alg jin);
          if BigNum_Empty (Ec_D (PrivEc_fields k)) then gose_err Gose.ErrInvalidKeyType
          else
            '(x, y) ← ecPointFromScalar curve (Ec_D (PrivEc_fields k));
            Ok (JPublicEc {| PubEc_jwk := jwkFields_zero;
                             PubEc_fields := {| Ec_Crv := Curve_Name curve; Ec_X := BigNum_Set (Z.of_N x);
                                                Ec_Y := BigNum_Set (Z.of_N y) |} |})
        | _ => gose_err Gose.ErrUnsupportedKeyType
        end;
  let out := Jwk_SetKid (Jwk_Kid jin) out in
  let out := Jwk_SetAlg (Jwk_Alg jin) out in
  let out := Jwk_SetOps (map inverseOps (Jwk_Ops jin)) out in
  Ok (Jwk_SetX5C (Jwk_X5C jin) out).

Definition JwkToString (jwk : Jwk) : result string := b2s <$> Jwk_MarshalJSON jwk.

Definition uintToBytesBigEndian (val : N) : bytes := be_fixed 8 val.
Definition gose_concatByteArrays (slices : list bytes) : bytes := fold_left (λ tmp s, tmp ++ s) slices [].

(** ** From crypto keys to JWKs *)
Definition MaxInt32 : Z := 2147483647.

Definition JwkFromPrivateKey (privateKey : Signer) (operations : list Types.KeyOps) (certs : list (option x509_Certificate))
    : result Jwk :=
  jwk ← match privateKey with
        | SignerRSA v =>
          let pub := RsaPriv_Pub v in
          if (MaxInt32 <? RsaPub_E pub)%Z then gose_err Gose.ErrInvalidExponent
          else
            let alg := rsaAlgFromOps (BitLen (RsaPub_N pub)) operations in
            match RsaPriv_Primes v, rsa_Precompute v with
            | p :: q :: _, Some pre =>
              Ok (Jwk_SetAlg alg (JPrivateRsa {|
                PrivRsa_pub := {| PubRsa_jwk := jwkFields_zero;
                  PubRsa_fields := {| Rsa_N := BigNum_Set (Z.of_N (RsaPub_N pub)); Rsa_E := BigNum_Set (RsaPub_E pub) |} |};
                PrivRsa_fields := {| Rsa_D := BigNum_Set (Z.of_N (RsaPriv_D v)); Rsa_P := BigNum_Set (Z.of_N p);
                  Rsa_Q := BigNum_Set (Z.of_N q); Rsa_Dp := BigNum_Set (Z.of_N (Pre_Dp pre));
                  Rsa_Dq := BigNum_Set (Z.of_N (Pre_Dq pre)); Rsa_Qi := BigNum_Set (Z.of_N (Pre_Qinv pre)) |} |}))
            | _, _ => Panic
            end
        | SignerECDSA v =>
          let c := EcPub_Curve (EcPriv_Pub v) in
          Ok (Jwk_SetAlg (ecBitsToAlg (Curve_BitSize c)) (JPrivateEc {|
            PrivEc_pub := {| PubEc_jwk := jwkFields_zero;
              PubEc_fields := {| Ec_Crv := Curve_Name c; Ec_X := BigNum_Set (Z.of_N (EcPub_X (EcPriv_Pub v)));
                                 Ec_Y := BigNum_Set (Z.of_N (EcPub_Y (EcPriv_Pub v))) |} |};
            PrivEc_fields := {| Ec_D := BigNum_Set (Z.of_N (EcPriv_D v)) |} |}))
        | SignerOther => gose_err Gose.ErrUnsupportedKeyType
        end;
  let jwk := Jwk_SetOps operations jwk in
  let jwk := if (0 <? len certs)%N then Jwk_SetX5C certs jwk else jwk in
  publicKey ← PublicFromPrivate jwk;
  kid ← CalculateKeyID publicKey;
  Ok (Jwk_SetKid kid jwk).

Definition JwkFromPublicKey (publicKey : PublicKey) (operations : list Types.KeyOps) (certs : list (option x509_Certificate))
    : result Jwk :=
  jwk ← match publicKey with
        | PubRSA v =>
          if (MaxInt32 <? RsaPub_E v)%Z then gose_err Gose.ErrInvalidExponent
          else
            let alg := rsaAlgFromOps (BitLen (RsaPub_N v)) operations in
            Ok (Jwk_SetAlg alg (JPublicRsa {| PubRsa_jwk := jwkFields_zero;
              PubRsa_fields := {| Rsa_N := BigNum_Set (Z.of_N (RsaPub_N v)); Rsa_E := BigNum_Set (RsaPub_E v) |} |}))
        | PubECDSA v =>
          let c := EcPub_Curve v in
          Ok (Jwk_SetAlg (ecBitsToAlg (Curve_BitSize c)) (JPublicEc {| PubEc_jwk := jwkFields_zero;
            PubEc_fields := {| Ec_Crv := Curve_Name c; Ec_X := BigNum_Set (Z.of_N (EcPub_X v));
                               Ec_Y := BigNum_Set (Z.of_N (EcPub_Y v)) |} |}))
        | PubOther => gose_err Gose.ErrUnsupportedKeyType
        end;
  let jwk := Jwk_SetOps operations jwk in
  kid ← CalculateKeyID jwk;
  let jwk := Jwk_SetKid kid jwk in
  Ok (if (0 <? len certs)%N then Jwk_SetX5C certs jwk else jwk).

(** ** Symmetric keys *)
Record symmetricAlgInfo := { minLen : N; maxLen : N; confidentiality : bool; integrity : bool }.

Definition symmetricAlgs (alg : Alg) : option symmetricAlgInfo :=
  if bool_decide (alg = AlgA128GCM) then Some {| minLen := 16; maxLen := 16; confidentiality := true; integrity := true |}
  else if bool_decide (alg = AlgA192GCM) then Some {| minLen := 24; maxLen := 24; confidentiality := true; integrity := true |}
  else if bool_decide (alg = AlgA256GCM) then Some {| minLen := 32; maxLen := 32; confidentiality := true; integrity := true |}
  else None.

Definition JwkFromSymmetric (key : bytes) (alg : Alg) : result Jwk :=
  match symmetricAlgs alg with
  | None => gose_err Gose.ErrUnsupportedKeyType
  | Some sai =>
    if (len key <? minLen sai)%N || (maxLen sai <? len key)%N then gose_err Gose.ErrInvalidKeyLength
    else
      let ops := (if confidentiality sai then [KeyOpsEncrypt; KeyOpsDecrypt] else []) ++
                 (if integrity sai then [KeyOpsSign; KeyOpsVerify] else []) in
      let oct := JOct OctSecretKey_zero in
      let oct := Jwk_SetOps ops oct in
      let oct := Jwk_SetAlg alg oct in
      let oct := match oct with JOct k => JOct (Oct_set_fields {| Oct_K := Blob_SetBytes key |} k) | j => j end in
      kid ← CalculateKeyID oct;
      Ok (Jwk_SetKid kid oct)
  end.

Definition loadSymmetricBytes (jwk : Jwk) (required : list Types.KeyOps) : result bytes :=
  match symmetricAlgs (Jwk_Alg jwk) with
  | None => gose_err Gose.ErrInvalidKeyType
  | Some sai =>
    if (0 <? len required)%N && negb (isSubset (Jwk_Ops jwk) required) then gose_err Gose.ErrInvalidOperations
    else
      match jwk with
      | JOct v =>
        let key := Blob_Bytes (Oct_K (Oct_fields v)) in
        if (len key <? minLen sai)%N || (maxLen sai <? len key)%N then gose_err Gose.ErrInvalidKeyLength
        else Ok key
      | _ => gose_err Gose.ErrUnsupportedKeyType
      end
  end.

Definition GetALFromAAD (aad : bytes) : bytes := be_fixed 8 (len aad * 8).
End helpers.
