(* ===== verification/HelpersFacts.v ===== *)
(** Properties of [Helpers]: authorisation by [key_ops], what a loaded key
    satisfies, key identifiers, and round trips between JWKs and crypto keys. *)

From S2P Require Import Prelude Errors Base64 Json JsonFacts JsonCodec Types Crypto Jwk JwkFacts Jws JwsFacts Helpers.

(** ** Operations *)
Lemma fold_exists {A} (p : A → bool) l b : fold_left (λ acc x, acc || p x) l b = b || existsb p l.
Proof.
  revert b. induction l as [|x l IH]; intros b; cbn; [by rewrite orb_false_r|]. by rewrite IH, orb_assoc.
Qed.

Lemma fold_forall {A} (p : A → bool) l b : fold_left (λ acc x, acc && p x) l b = b && forallb p l.
Proof.
  revert b. induction l as [|x l IH]; intros b; cbn; [by rewrite andb_true_r|]. by rewrite IH, andb_assoc.
Qed.

(** A requested set of operations is granted exactly when it is not empty and each
    of its operations is allowed. *)
Lemma isSubset_spec set subset :
  isSubset set subset = true ↔ subset ≠ [] ∧ ∀ op, op ∈ subset → op ∈ set.
Proof.
  unfold isSubset. destruct subset as [|s0 subset]; [by split; [|intros []]|].
  replace (len (s0 :: subset) =? 0)%N with false by (unfold len; simpl; lia).
  rewrite fold_forall, andb_true_l, forallb_forall. split.
  - intros H. split; [done|]. intros op Hop%list_elem_of_In. specialize (H op Hop).
    rewrite fold_exists in H. apply existsb_exists in H as (x & Hx & ->%bool_decide_eq_true).
    by apply list_elem_of_In.
  - intros [_ H] op Hop. rewrite fold_exists. apply existsb_exists. exists op.
    split; [by apply list_elem_of_In, H, list_elem_of_In|by apply bool_decide_eq_true].
Qed.

Lemma intersection_fold (first second acc : list string) :
  fold_left (λ result a, fold_left (λ result b, if bool_decide (a = b) then result ++ [a] else result) second result) first acc
  = acc ++ concat (map (λ a, map (λ _, a) (filter (λ b, a = b) second)) first).
Proof.
  revert acc. induction first as [|a first IH]; intros acc; cbn; [by rewrite app_nil_r|].
  rewrite IH. clear IH. set (C := concat _). rewrite app_assoc. f_equal.
  revert acc. induction second as [|b second IH]; intros acc; [cbn; by rewrite app_nil_r|].
  cbn [fold_left]. rewrite IH, filter_cons. destruct (decide (a = b)) as [Hab|Hab].
  - rewrite bool_decide_true by done. cbn. by rewrite <- app_assoc.
  - by rewrite bool_decide_false.
Qed.

Lemma intersection_spec first second op :
  op ∈ intersection first second ↔ op ∈ first ∧ op ∈ second.
Proof.
  unfold intersection. rewrite intersection_fold. cbn [app]. rewrite list_elem_of_In, in_concat. split.
  - intros (l & Hl & Hop). apply in_map_iff in Hl as (a & <- & Ha). apply in_map_iff in Hop as (b & <- & Hb).
    apply list_elem_of_In, list_elem_of_filter in Hb as [-> Hb]. split; [by apply list_elem_of_In|done].
  - intros [H1 H2]. eexists. split; [apply in_map_iff; exists op; split; [done|by apply list_elem_of_In]|].
    apply in_map_iff. exists op. split; [done|]. by apply list_elem_of_In, list_elem_of_filter.
Qed.

(** The guard of every operation of a key: the request must be the one operation
    [op] the method performs, and the key must allow it. *)
Lemma authorised op ops requested :
  isSubset (intersection [op] ops) [requested] = true ↔ requested = op ∧ op ∈ ops.
Proof.
  rewrite isSubset_spec. split.
  - intros [_ H]. specialize (H requested ltac:(by apply list_elem_of_singleton)).
    apply intersection_spec in H as [->%list_elem_of_singleton H]. done.
  - intros [-> H]. split; [done|]. intros o ->%list_elem_of_singleton.
    apply intersection_spec. split; [by apply list_elem_of_singleton|done].
Qed.

Lemma intersection_nonempty op ops : (len (intersection [op] ops) =? 0)%N = false ↔ op ∈ ops.
Proof.
  split.
  - intros H. destruct (intersection [op] ops) as [|o l] eqn:E; [done|].
    assert (o ∈ intersection [op] ops) as Ho by (rewrite E; apply list_elem_of_here).
    by apply intersection_spec in Ho as [->%list_elem_of_singleton Ho].
  - intros H. destruct (intersection [op] ops) as [|o l] eqn:E; [|unfold len; simpl; lia].
    assert (op ∈ intersection [op] ops) as Ho.
    { apply intersection_spec. split; [by apply list_elem_of_singleton|done]. }
    rewrite E in Ho. by apply elem_of_nil in Ho.
Qed.

(** The guard on [required] of the loading functions. *)
Lemma required_guard ops required :
  (0 <? len required)%N && negb (isSubset ops required) = false ↔ ∀ op, op ∈ required → op ∈ ops.
Proof.
  destruct required as [|r rs]; [split; [by intros _ op ?%elem_of_nil|done]|].
  replace (0 <? len (r :: rs))%N with true by (unfold len; simpl; lia).
  rewrite andb_true_l, negb_false_iff, isSubset_spec. by split; [intros [_ ?]|].
Qed.

(** ** Algorithm tables *)
(** The two OAEP tables are inverse to each other. *)
Theorem oaep_tables_inverse h a : OaepAlgFromHash h = Some a ↔ OaepHashFromAlg a = Some h.
Proof.
  unfold OaepHashFromAlg, oaepAlgToHash. split.
  - destruct h; cbn; intros H; simplify_eq; reflexivity.
  - case_bool_decide; [intros [= <-]; by subst|]. case_bool_decide; [intros [= <-]; by subst|done].
Qed.

Lemma ecdsa_curve_tables alg c : ecdsaCurveForAlg alg = Ok c ↔
  (alg = AlgES256 ∧ c = P256) ∨ (alg = AlgES384 ∧ c = P384) ∨ (alg = AlgES512 ∧ c = P521).
Proof.
  unfold ecdsaCurveForAlg, algToOptsMap.
  repeat (case_bool_decide; [subst; split; [by intros [= <-]; tauto|intros [[? ->]|[[? ->]|[? ->]]]; done]|]).
  split; [done|]. intros [[-> _]|[[-> _]|[-> _]]]; done.
Qed.

Lemma ecdsaCurveForAlg_no_panic alg : ecdsaCurveForAlg alg ≠ Panic.
Proof. unfold ecdsaCurveForAlg. by destruct (algToOptsMap alg) as [[]|]. Qed.

Lemma ecBitsToAlg_curve c : c ≠ P224 → ecdsaCurveForAlg (ecBitsToAlg (Curve_BitSize c)) = Ok c.
Proof. by destruct c. Qed.

Lemma BigNum_Empty_spec n : BigNum_Empty n = true ↔ n = 0%N.
Proof. unfold BigNum_Empty. rewrite N.eqb_eq. apply BitLen_0. Qed.
Lemma BigNum_Empty_false n : BigNum_Empty n = false ↔ n ≠ 0%N.
Proof. rewrite <- not_true_iff_false, BigNum_Empty_spec. done. Qed.

Lemma BigNum_Set_N n : BigNum_Set (Z.of_N n) = n.
Proof. unfold BigNum_Set. rewrite be_to_N_bytes. lia. Qed.

Lemma BitLen_lt n k : (BitLen n <= k)%N → (n < 2 ^ k)%N.
Proof.
  intros H. unfold BitLen in H. eapply N.lt_le_trans; [apply N.size_gt|]. by apply N.pow_le_mono_r.
Qed.

Lemma exponent_id e : (BitLen e <= 32)%N → exponent e = Z.of_N e.
Proof.
  intros H%BitLen_lt. change (2 ^ 32)%N with 4294967296%N in H. unfold exponent. apply wrap64_id. lia.
Qed.

(** ** Loading keys *)
Section loading.
Context `{X509, Digests, Rsa, Ecdsa}.

Definition rsa_pub_of (f : PublicRsaKeyFields) : RsaPublicKey :=
  {| RsaPub_N := Rsa_N f; RsaPub_E := Z.of_N (Rsa_E f) |}.
Definition rsa_priv_of (v : PrivateRsaKey) : RsaPrivateKey :=
  {| RsaPriv_Pub := rsa_pub_of (PrivRsa_pubfields v); RsaPriv_D := Rsa_D (PrivRsa_fields v);
     RsaPriv_Primes := [Rsa_P (PrivRsa_fields v); Rsa_Q (PrivRsa_fields v)] |}.
Definition ec_pub_of (c : Curve) (f : PublicEcKeyFields) : EcdsaPublicKey :=
  {| EcPub_Curve := c; EcPub_X := Ec_X f; EcPub_Y := Ec_Y f |}.
Definition ec_priv_of (c : Curve) (v : PrivateEcKey) : EcdsaPrivateKey :=
  {| EcPriv_Pub := ec_pub_of c (PrivEc_pubfields v); EcPriv_D := Ec_D (PrivEc_fields v) |}.

(** The size of the modulus and of the exponent RFC 7518 asks for. *)
Definition rsa_sizes (f : PublicRsaKeyFields) : Prop :=
  (MinRsaModulusBits <= BitLen (Rsa_N f))%N ∧ Rsa_E f ≠ 0%N ∧ (BitLen (Rsa_E f) <= 32)%N.

(** The CRT values of the JWK are those of the key. *)
Definition crt_agree (v : PrivateRsaKey) : Prop :=
  rsa_Validate (rsa_priv_of v) = None ∧ rsa_Precompute (rsa_priv_of v) = Some
    {| Pre_Dp := Rsa_Dp (PrivRsa_fields v); Pre_Dq := Rsa_Dq (PrivRsa_fields v); Pre_Qinv := Rsa_Qi (PrivRsa_fields v) |}.

Definition priv_nonzero (f : PrivateRsaKeyFields) : Prop :=
  Rsa_D f ≠ 0%N ∧ Rsa_P f ≠ 0%N ∧ Rsa_Q f ≠ 0%N ∧ Rsa_Dp f ≠ 0%N ∧ Rsa_Dq f ≠ 0%N ∧ Rsa_Qi f ≠ 0%N.

Definition loads_private (jwk : Jwk) (s : Signer) : Prop :=
  match jwk, s with
  | JPrivateRsa v, SignerRSA k =>
    k = rsa_priv_of v ∧ rsa_sizes (PrivRsa_pubfields v) ∧ priv_nonzero (PrivRsa_fields v) ∧ crt_agree v
  | JPrivateEc v, SignerECDSA k =>
    ∃ c, ecdsaCurveForAlg (Jwk_Alg jwk) = Ok c ∧ k = ec_priv_of c v ∧ Ec_D (PrivEc_fields v) ≠ 0%N
  | _, _ => False
  end.

Lemma rsa_sizes_N f : rsa_sizes f → Rsa_N f ≠ 0%N.
Proof. intros (Hn & _) Hz. by rewrite Hz in Hn. Qed.

Lemma exponent_guard e : ((32 <? BitLen e)%N || (e <? 1)%N) = false ↔ e ≠ 0%N ∧ (BitLen e <= 32)%N.
Proof. rewrite orb_false_iff. split; intros [? ?]; lia. Qed.

Lemma load_rsa_private_iff v s : load_rsa_private v = Ok s ↔ loads_private (JPrivateRsa v) s.
Proof.
  unfold load_rsa_private. destruct v as [[jf [n e]] [d p q dp dq qi]]. cbn [loads_private PrivRsa_pub PubRsa_fields PrivRsa_fields Rsa_N Rsa_E
    Rsa_D Rsa_P Rsa_Q Rsa_Dp Rsa_Dq Rsa_Qi].
  destruct (BigNum_Empty d || BigNum_Empty e || BigNum_Empty n) eqn:E1.
  { split; [done|]. destruct s; try done. intros (_ & Hs & (Hd & _) & _). exfalso.
    pose proof (rsa_sizes_N _ Hs). destruct Hs as (_ & He & _). cbn in *.
    rewrite !orb_true_iff, !BigNum_Empty_spec in E1. tauto. }
  destruct ((32 <? BitLen e)%N || (e <? 1)%N) eqn:E2.
  { split; [done|]. destruct s; try done. intros (_ & (_ & Hs) & _). exfalso.
    apply exponent_guard in Hs. cbn in Hs. by rewrite E2 in Hs. }
  destruct (N.ltb_spec (BitLen n) MinRsaModulusBits) as [E3|E3].
  { split; [done|]. destruct s; try done. intros (_ & (Hs & _) & _). cbn in Hs. lia. }
  destruct (BigNum_Empty p || _ || _ || _ || _) eqn:E4.
  { split; [done|]. destruct s; try done. intros (_ & _ & (_ & Hz) & _). exfalso. cbn in Hz.
    rewrite !orb_true_iff, !BigNum_Empty_spec in E4. tauto. }
  apply exponent_guard in E2. rewrite exponent_id by tauto.
  rewrite !orb_false_iff, !BigNum_Empty_false in E1. rewrite !orb_false_iff, !BigNum_Empty_false in E4.
  change {| RsaPriv_Pub := _; RsaPriv_D := d; RsaPriv_Primes := [p; q] |} with
    (rsa_priv_of {| PrivRsa_pub := {| PubRsa_jwk := jf; PubRsa_fields := {| Rsa_N := n; Rsa_E := e |} |};
       PrivRsa_fields := {| Rsa_D := d; Rsa_P := p; Rsa_Q := q; Rsa_Dp := dp; Rsa_Dq := dq; Rsa_Qi := qi |} |}).
  set (v := {| PrivRsa_pub := _ |}). destruct (rsa_Validate (rsa_priv_of v)) as [err|] eqn:Ev.
  { split; [done|]. destruct s; try done. intros (_ & _ & _ & (Hv & _)). by rewrite Ev in Hv. }
  destruct (rsa_Validate_Precompute _ Ev) as [[pdp pdq pqi] Ep]. rewrite Ep. cbn [Pre_Dp Pre_Dq Pre_Qinv].
  destruct (negb _ || negb _ || negb _) eqn:E5.
  { split; [done|]. destruct s; try done. intros (_ & _ & _ & (_ & Hp)). exfalso.
    rewrite Ep in Hp. cbn in Hp. injection Hp as -> -> ->. by rewrite !bool_decide_true in E5. }
  rewrite !orb_false_iff, !negb_false_iff, !bool_decide_eq_true in E5. destruct E5 as [[-> ->] ->].
  split.
  + intros [= <-]. unfold rsa_sizes, priv_nonzero, crt_agree. cbn. split_and!; try done; tauto.
  + destruct s; try done. by intros (-> & _).
Qed.

Lemma load_ec_private_iff v s : load_ec_private (Jwk_Alg (JPrivateEc v)) v = Ok s ↔ loads_private (JPrivateEc v) s.
Proof.
  unfold load_ec_private. cbn [loads_private]. destruct (BigNum_Empty _) eqn:Ed.
  { apply BigNum_Empty_spec in Ed. split; [done|]. destruct s; try done. by intros (c & _ & _ & ?). }
  apply BigNum_Empty_false in Ed. destruct (ecdsaCurveForAlg _) as [c| |] eqn:Hc; cbn.
  + split; [intros [= <-]; by exists c|]. destruct s; try done. by intros (c' & [= <-] & -> & _).
  + split; [done|]. destruct s; try done. by intros (c' & ? & _).
  + split; [done|]. destruct s; try done. by intros (c' & ? & _).
Qed.

(** A private key loads exactly when its algorithm is a known one, every required
    operation is allowed, and its values are consistent: at least 2048 bits of
    modulus, an exponent of at most 32 bits, all CRT values present, validated and
    equal to the derived ones.  The loaded key has the JWK's values. *)
Lemma LoadPrivateKey_iff jwk required s :
  LoadPrivateKey jwk required = Ok s ↔
  Jwk_Alg jwk ∈ privateKeyAlgs ∧ (∀ op, op ∈ required → op ∈ Jwk_Ops jwk) ∧ loads_private jwk s.
Proof.
  unfold LoadPrivateKey. rewrite <- required_guard.
  destruct (decide (Jwk_Alg jwk ∈ privateKeyAlgs)) as [Ha|Ha];
    [rewrite bool_decide_true by done|rewrite bool_decide_false by done; cbn; by split; [|intros [? _]]].
  cbn [negb]. destruct (_ && _); [by split; [|intros (_ & ? & _)]|].
  enough (∀ r : result Signer, (r = Ok s ↔ loads_private jwk s) →
    r = Ok s ↔ Jwk_Alg jwk ∈ privateKeyAlgs ∧ false = false ∧ loads_private jwk s) as Hr; [apply Hr|tauto].
  destruct jwk as [v|v|v|v|v]; try (by split).
  - apply load_rsa_private_iff.
  - apply load_ec_private_iff.
Qed.

(** Importing a private key never panics, whatever its values. *)
Lemma LoadPrivateKey_no_panic jwk required : LoadPrivateKey jwk required ≠ Panic.
Proof.
  unfold LoadPrivateKey, load_rsa_private, load_ec_private. destruct (negb _); [done|]. destruct (_ && _); [done|]. destruct jwk as [v|v|v|v|v]; try done.
  - destruct (_ || _); [done|]. destruct (_ || _); [done|]. destruct (_ <? _)%N; [done|]. destruct (_ || _); [done|].
    destruct (rsa_Validate _) eqn:Hv; [done|]. destruct (rsa_Validate_Precompute _ Hv) as [pre ->].
    by destruct (_ || _).
  - destruct (BigNum_Empty _); [done|]. by apply bind_no_panic; [apply ecdsaCurveForAlg_no_panic|].
Qed.

(** C25. Loading a private key never panics, and succeeds exactly when its algorithm is a
    known one, every required operation is allowed, and its values are consistent:
    for RSA at least 2048 bits of modulus, an exponent of at most 32 bits, all CRT
    values present, validated and equal to the derived ones; for EC a curve that fits
    the algorithm and a private value.  The loaded key has the JWK's values. *)
Theorem LoadPrivateKey_spec jwk required :
  LoadPrivateKey jwk required ≠ Panic ∧
  ∀ s, LoadPrivateKey jwk required = Ok s ↔
    Jwk_Alg jwk ∈ privateKeyAlgs ∧ (∀ op, op ∈ required → op ∈ Jwk_Ops jwk) ∧ loads_private jwk s.
Proof. split; [apply LoadPrivateKey_no_panic|]. intros s. apply LoadPrivateKey_iff. Qed.

Definition loads_public (jwk : Jwk) (k : PublicKey) : Prop :=
  match jwk, k with
  | JPublicRsa v, PubRSA k => k = rsa_pub_of (PubRsa_fields v) ∧ rsa_sizes (PubRsa_fields v)
  | JPublicEc v, PubECDSA k =>
    ∃ c, ecdsaCurveForAlg (Jwk_Alg jwk) = Ok c ∧ k = ec_pub_of c (PubEc_fields v) ∧
         Ec_X (PubEc_fields v) ≠ 0%N ∧ Ec_Y (PubEc_fields v) ≠ 0%N
  | _, _ => False
  end.

(** The same for a public key; a private JWK is not accepted as one. *)
Lemma LoadPublicKey_iff jwk required k :
  LoadPublicKey jwk required = Ok k ↔
  Jwk_Alg jwk ∈ publicKeyAlgs ∧ (∀ op, op ∈ required → op ∈ Jwk_Ops jwk) ∧ loads_public jwk k.
Proof.
  unfold LoadPublicKey. rewrite <- required_guard.
  destruct (decide (Jwk_Alg jwk ∈ publicKeyAlgs)) as [Ha|Ha];
    [rewrite bool_decide_true by done|rewrite bool_decide_false by done; cbn; by split; [|intros [? _]]].
  cbn [negb]. destruct (_ && _); [by split; [|intros (_ & ? & _)]|].
  enough (∀ r : result PublicKey, (r = Ok k ↔ loads_public jwk k) →
    r = Ok k ↔ Jwk_Alg jwk ∈ publicKeyAlgs ∧ false = false ∧ loads_public jwk k) as Hr; [apply Hr|tauto].
  destruct jwk as [v|v|v|v|v]; try (by split).
  - destruct v as [jf [n e]]. cbn [loads_public PubRsa_fields Rsa_N Rsa_E].
    destruct (BigNum_Empty n || BigNum_Empty e) eqn:E1.
    { split; [done|]. destruct k; try done. intros (_ & Hs). exfalso. pose proof (rsa_sizes_N _ Hs).
      destruct Hs as (_ & He & _). cbn in *. rewrite !orb_true_iff, !BigNum_Empty_spec in E1. tauto. }
    destruct ((32 <? BitLen e)%N || (e <? 1)%N) eqn:E2.
    { split; [done|]. destruct k; try done. intros (_ & (_ & Hs)). exfalso.
      apply exponent_guard in Hs. cbn in Hs. by rewrite E2 in Hs. }
    apply exponent_guard in E2. rewrite exponent_id by tauto.
    destruct (N.ltb_spec (BitLen n) MinRsaModulusBits) as [E3|E3].
    { split; [done|]. destruct k; try done. intros (_ & (Hs & _)). cbn in Hs. lia. }
    split; [intros [= <-]; by split_and!|]. destruct k; try done. by intros (-> & _).
  - unfold Jwk_Alg. cbn [loads_public].
    destruct (BigNum_Empty (Ec_X (PubEc_fields v)) || BigNum_Empty (Ec_Y (PubEc_fields v))) eqn:Ed.
    { rewrite orb_true_iff, !BigNum_Empty_spec in Ed. split; [done|]. destruct k; try done. intros (c & _ & _ & ? & ?); tauto. }
    rewrite orb_false_iff, !BigNum_Empty_false in Ed. destruct (ecdsaCurveForAlg _) as [c| |] eqn:Hc; cbn.
    + split; [intros [= <-]; by exists c|]. destruct k; try done. by intros (c' & [= <-] & -> & _).
    + split; [done|]. destruct k; try done. by intros (c' & ? & _).
    + split; [done|]. destruct k; try done. by intros (c' & ? & _).
Qed.

(** ** From private to public *)
Lemma Jwk_update_fields g j : Jwk_fields (Jwk_update g j) = g (Jwk_fields j).
Proof. by destruct j. Qed.

(** A JWK that holds no private value. *)
Definition is_public (j : Jwk) : Prop :=
  match j with JPublicRsa _ | JPublicEc _ => True | _ => False end.

(** What the public key is, apart from its common members. *)
Definition public_of (jin out : Jwk) : Prop :=
  match jin, out with
  | JPrivateRsa k, JPublicRsa p => PubRsa_fields p = PrivRsa_pubfields k
  | JPrivateEc k, JPublicEc p =>
    ∃ c x y, ecdsaCurveForAlg (Jwk_Alg jin) = Ok c ∧ ecPointFromScalar c (Ec_D (PrivEc_fields k)) = Ok (x, y) ∧
      PubEc_fields p = {| Ec_Crv := Curve_Name c; Ec_X := x; Ec_Y := y |}
  | _, _ => False
  end.

(** The public JWK of a private one: it has the same identifier, algorithm and
    certificates, each operation turned into its inverse, no intended use and no
    fingerprint; an RSA key keeps its public values, and an EC point is derived
    from the private scalar and not copied. *)
Lemma PublicFromPrivate_inv jin out : PublicFromPrivate jin = Ok out →
  is_public out ∧ public_of jin out ∧
  Jwk_fields out = {| KeyUse := ""; KeyOps := map inverseOps (Jwk_Ops jin); KeyAlg := Jwk_Alg jin; KeyKid := Jwk_Kid jin;
                      KeyX5C := Jwk_X5C jin; KeyX5T := None |}.
Proof.
  unfold PublicFromPrivate. intros Ho.
  apply bind_Ok in Ho as (pub & Hp & [= <-]). unfold Jwk_SetX5C, Jwk_SetOps, Jwk_SetAlg, Jwk_SetKid; rewrite !Jwk_update_fields.
  assert (is_public pub ∧ public_of jin pub ∧ Jwk_fields pub = jwkFields_zero) as (Hpub & Hof & ->).
  { destruct jin as [v|v|v|v|v]; try done.
    - destruct (_ || _); [done|]. injection Hp as <-. done.
    - apply bind_Ok in Hp as (c & Hc & Hp). destruct (BigNum_Empty _); [done|].
      apply bind_Ok in Hp as ([x y] & Hxy & [= <-]). split_and!; try done. exists c, x, y.
      by rewrite !BigNum_Set_N. }
  split_and!; [by destruct pub|by destruct jin, pub|done].
Qed.

Lemma Jwk_X5C_id j : Jwk_X5C j = KeyX5C (Jwk_fields j).
Proof. apply map_id. Qed.

(** The operations without an inverse. *)
Definition no_inverse (op : Types.KeyOps) : Prop :=
  op ∉ [KeyOpsEncrypt; KeyOpsDecrypt; KeyOpsSign; KeyOpsVerify].

#[export] Instance no_inverse_dec op : Decision (no_inverse op).
Proof. unfold no_inverse. apply _. Defined.

Lemma inverseOps_none op : no_inverse op → inverseOps op = "".
Proof.
  intros Hn. unfold inverseOps. repeat (case_bool_decide; [subst; exfalso; apply Hn; by repeat constructor|]). done.
Qed.

Lemma inverseOps_involutive op : ¬ no_inverse op → inverseOps (inverseOps op) = op.
Proof.
  unfold no_inverse. intros Hn. destruct (decide (op ∈ [KeyOpsEncrypt; KeyOpsDecrypt; KeyOpsSign; KeyOpsVerify])) as [Hin|]; [|done].
  rewrite !elem_of_cons, elem_of_nil in Hin. by destruct Hin as [->|[->|[->|[->|[]]]]].
Qed.

Lemma check_key_ops_dup seen ops op : op ∈ ops → op ∈ seen → check_key_ops seen ops = jose_err Jose.ErrDuplicateKeyOps.
Proof.
  revert seen. induction ops as [|o ops IH]; intros seen Hop Hs; [by apply elem_of_nil in Hop|]. cbn.
  case_bool_decide; [done|]. apply elem_of_cons in Hop as [->|Hop]; [done|]. apply IH; [done|set_solver].
Qed.

Lemma check_key_ops_app seen a b : check_key_ops seen (a ++ b) = jose_err Jose.ErrDuplicateKeyOps ∨
  check_key_ops seen (a ++ b) = check_key_ops (list_to_set a ∪ seen) b.
Proof.
  revert seen. induction a as [|o a IH]; intros seen; [right; cbn; f_equal; set_solver|]. cbn [app check_key_ops].
  case_bool_decide; [by left|]. destruct (IH ({[o]} ∪ seen)) as [E|E]; rewrite E; [by left|right].
  f_equal. cbn. set_solver.
Qed.

(** A private key may list operations, such as [wrapKey] and [unwrapKey], that have
    no inverse: each becomes the empty operation of the public key, and two of
    them make a public key that the importers refuse. *)
Theorem PublicFromPrivate_unknown_ops jin out a op1 b op2 c :
  Jwk_Ops jin = a ++ op1 :: b ++ op2 :: c → no_inverse op1 → no_inverse op2 →
  (len (Jwk_Ops jin) <= maxKeyOps)%N →
  PublicFromPrivate jin = Ok out → jwkFields_CheckConsistency (Jwk_fields out) = jose_err Jose.ErrDuplicateKeyOps.
Proof.
  intros Hops Hn1 Hn2 Hlen (_ & _ & ->)%PublicFromPrivate_inv. unfold jwkFields_CheckConsistency. cbn [KeyOps].
  replace (maxKeyOps <? len (map inverseOps (Jwk_Ops jin)))%N with false.
  2:{ unfold len in *. rewrite List.length_map. lia. }
  enough (check_key_ops ∅ (map inverseOps (Jwk_Ops jin)) = jose_err Jose.ErrDuplicateKeyOps) as -> by done.
  rewrite Hops, map_app. cbn [map]. rewrite map_app. cbn [map]. rewrite !inverseOps_none by done.
  destruct (check_key_ops_app ∅ (map inverseOps a) ("" :: map inverseOps b ++ "" :: map inverseOps c)) as [E|E]; rewrite E; [done|].
  cbn [check_key_ops]. case_bool_decide; [done|].
  apply (check_key_ops_dup _ _ ""); [|set_solver]. rewrite elem_of_app. right. apply list_elem_of_here.
Qed.

(** ** Round trips between JWKs and crypto keys *)
(** A private key that the library can hold: two primes and validated values, of
    the size RFC 7518 asks for; or an EC key. *)
Definition importable (s : Signer) : Prop :=
  match s with
  | SignerRSA k => rsa_Validate k = None ∧ length (RsaPriv_Primes k) = 2 ∧ (0 < RsaPub_E (RsaPriv_Pub k))%Z ∧
                   (MinRsaModulusBits <= BitLen (RsaPub_N (RsaPriv_Pub k)))%N
  | SignerECDSA k => True
  | SignerOther => False
  end.

Lemma rsaAlgFromOps_alg n ops : rsaAlgFromOps n ops ∈ privateKeyAlgs.
Proof.
  induction ops as [|op ops IH]; cbn.
  - unfold rsaBitsToAlg. destruct (_ <=? _)%N; [|destruct (_ <=? _)%N]; by apply (bool_decide_unpack _).
  - destruct (_ || _); [by apply (bool_decide_unpack _)|done].
Qed.

Lemma known_alg_utf8 alg : is_Some (algToOptsMap alg) → utf8 alg = true.
Proof. intros [o Ho]. unfold algToOptsMap in Ho. by repeat (case_bool_decide; [by subst|]). Qed.

Lemma ecBitsToAlg_alg c : c ≠ P224 → ecBitsToAlg (Curve_BitSize c) ∈ privateKeyAlgs.
Proof. destruct c; [done|..]; intros _; by apply (bool_decide_unpack _). Qed.

Lemma BigNum_Set_pos z : (0 <= z)%Z → BigNum_Set z = Z.to_N z.
Proof. intros Hz. rewrite <- (Z2N.id z) at 1 by done. apply BigNum_Set_N. Qed.

Lemma BitLen_le_32 z : (z <= MaxInt32)%Z → (BitLen (Z.to_N z) <= 32)%N.
Proof.
  intros Hz. unfold BitLen. destruct (decide (Z.to_N z = 0%N)) as [->|Hn]; [done|].
  rewrite N.size_log2 by done. apply N.le_succ_l, N.log2_lt_pow2; [lia|].
  unfold MaxInt32 in Hz. change (2 ^ 32)%N with 4294967296%N. lia.
Qed.

(** [SetOps], then [SetX5C] when there are certificates, then [SetKid]. *)
Definition dress (ops : list Types.KeyOps) (certs : list (option x509_Certificate)) (j : Jwk) : Jwk :=
  if (0 <? len certs)%N then Jwk_SetX5C certs (Jwk_SetOps ops j) else Jwk_SetOps ops j.

Lemma dress_Ops ops certs j : Jwk_Ops (dress ops certs j) = ops.
Proof. unfold dress. destruct (_ <? _)%N; by destruct j. Qed.
Lemma dress_Alg ops certs j : Jwk_Alg (dress ops certs j) = Jwk_Alg j.
Proof. unfold dress. destruct (_ <? _)%N; by destruct j. Qed.
Lemma SetKid_Ops kid j : Jwk_Ops (Jwk_SetKid kid j) = Jwk_Ops j.
Proof. by destruct j. Qed.
Lemma Kid_SetKid kid j : Jwk_Kid (Jwk_SetKid kid j) = kid.
Proof. by destruct j. Qed.
Lemma SetKid_Alg kid j : Jwk_Alg (Jwk_SetKid kid j) = Jwk_Alg j.
Proof. by destruct j. Qed.

Lemma loads_private_dress ops certs kid j s :
  loads_private (Jwk_SetKid kid (dress ops certs j)) s ↔ loads_private j s.
Proof. unfold dress. destruct (_ <? _)%N; by destruct j. Qed.
Lemma loads_public_dress ops certs kid j k :
  loads_public (Jwk_SetKid kid (dress ops certs j)) k ↔ loads_public j k.
Proof. unfold dress. destruct (_ <? _)%N; by destruct j. Qed.

(** The values [PublicFromPrivate] checks. *)
Definition private_values (j : Jwk) : Prop :=
  match j with
  | JPrivateRsa v => priv_nonzero (PrivRsa_fields v) ∧ Rsa_E (PrivRsa_pubfields v) ≠ 0%N
  | JPrivateEc v => Ec_D (PrivEc_fields v) ≠ 0%N ∧ ∃ c, ecdsaCurveForAlg (Jwk_Alg j) = Ok c
  | _ => False
  end.

Lemma PublicFromPrivate_values j out : PublicFromPrivate j = Ok out → private_values j.
Proof.
  unfold PublicFromPrivate. intros Ho. apply bind_Ok in Ho as (pub & Hp & _). destruct j as [v|v|v|v|v]; try done; cbn.
  - destruct (_ || _) eqn:E in Hp; [done|]. rewrite !orb_false_iff, !BigNum_Empty_false in E.
    unfold priv_nonzero, PrivRsa_pubfields. tauto.
  - apply bind_Ok in Hp as (c & Hc & Hp). destruct (BigNum_Empty _) eqn:E; [done|].
    apply BigNum_Empty_false in E. split; [done|]. by exists c.
Qed.
Lemma private_values_dress ops certs j : private_values (dress ops certs j) ↔ private_values j.
Proof. unfold dress. destruct (_ <? _)%N; by destruct j. Qed.

Lemma JwkFromPrivateKey_loads s ops certs jwk : JwkFromPrivateKey s ops certs = Ok jwk → importable s →
  Jwk_Ops jwk = ops ∧ Jwk_Alg jwk ∈ privateKeyAlgs ∧ loads_private jwk s.
Proof.
  unfold JwkFromPrivateKey. intros Hj Hs. apply bind_Ok in Hj as (j & Hj & Hk).
  apply bind_Ok in Hk as (pub & Hpub & Hk). apply bind_Ok in Hk as (kid & Hkid & [= <-]).
  change (if (0 <? len certs)%N then _ else _) with (dress ops certs j) in *.
  apply PublicFromPrivate_values, private_values_dress in Hpub.
  rewrite SetKid_Ops, SetKid_Alg, dress_Ops, dress_Alg, loads_private_dress. split; [done|].
  destruct s as [k|k|]; [|cbn in Hj|done].
  - destruct (_ <? _)%Z eqn:Ee; [done|]. destruct k as [[n e] d ps]. cbn [RsaPriv_Pub RsaPriv_Primes RsaPriv_D RsaPub_E RsaPub_N] in *.
    destruct Hs as (Hv & Hl & He & Hn). cbn in Hl, He, Hn. destruct ps as [|p [|q [|]]]; try done.
    destruct (rsa_Precompute _) as [[dp dq qi]|] eqn:Hpre; [|done]. injection Hj as <-.
    cbn in Hpub. split; [apply rsaAlgFromOps_alg|].
    unfold loads_private, crt_agree, rsa_sizes, rsa_priv_of, rsa_pub_of. cbn in Hpub |- *.
    rewrite !BigNum_Set_N, !BigNum_Set_pos in * by lia. rewrite Z2N.id by lia.
    split_and!; try done; try (by apply BitLen_le_32; lia); tauto.
  - injection Hj as <-. destruct k as [[c x y] d]. cbn in Hpub |- *. rewrite !BigNum_Set_N in *.
    destruct Hpub as [Hd [c' Hc]]. assert (c ≠ P224) as Hc224 by (intros ->; by cbn in Hc).
    split; [by apply ecBitsToAlg_alg|]. exists c. split_and!; try done. by apply ecBitsToAlg_curve.
Qed.

(** A private key that was turned into a JWK loads from it unchanged, for every
    subset of the operations it was given. *)
Theorem JwkFromPrivateKey_LoadPrivateKey s ops certs jwk required :
  JwkFromPrivateKey s ops certs = Ok jwk → importable s → (∀ op, op ∈ required → op ∈ ops) →
  LoadPrivateKey jwk required = Ok s.
Proof.
  intros Hj Hs Hreq. destruct (JwkFromPrivateKey_loads _ _ _ _ Hj Hs) as (Ho & Ha & Hl).
  apply LoadPrivateKey_iff. by rewrite Ho.
Qed.

(** The same for a public key. *)
Definition importable_public (k : PublicKey) : Prop :=
  match k with
  | PubRSA k => (0 < RsaPub_E k)%Z ∧ (MinRsaModulusBits <= BitLen (RsaPub_N k))%N
  | PubECDSA k => EcPub_Curve k ≠ P224 ∧ EcPub_X k ≠ 0%N ∧ EcPub_Y k ≠ 0%N
  | PubOther => False
  end.

Theorem JwkFromPublicKey_LoadPublicKey k ops certs jwk required :
  JwkFromPublicKey k ops certs = Ok jwk → importable_public k → (∀ op, op ∈ required → op ∈ ops) →
  LoadPublicKey jwk required = Ok k.
Proof.
  unfold JwkFromPublicKey. intros Hj Hk Hreq. apply bind_Ok in Hj as (j & Hj & Hid).
  apply bind_Ok in Hid as (kid & _ & [= <-]).
  assert (Jwk_Alg j ∈ publicKeyAlgs ∧ loads_public j k) as [Ha Hl].
  { destruct k as [[n e]|[c x y]|]; [|cbn in Hj|done].
    - destruct (_ <? _)%Z eqn:Ee; [done|]. injection Hj as <-. cbn in Ee, Hk. split; [apply rsaAlgFromOps_alg|].
      cbn. unfold rsa_sizes, rsa_pub_of. cbn. rewrite BigNum_Set_N, BigNum_Set_pos, Z2N.id by lia.
      split_and!; try done; try lia. apply BitLen_le_32. lia.
    - injection Hj as <-. destruct Hk as (Hc & Hx & Hy). cbn in Hc, Hx, Hy. split; [by apply ecBitsToAlg_alg|].
      cbn. exists c. rewrite !BigNum_Set_N. split_and!; try done. by apply ecBitsToAlg_curve. }
  apply LoadPublicKey_iff. destruct (0 <? len certs)%N.
  - split_and!; destruct j; try done.
  - split_and!; destruct j; try done.
Qed.

(** ** Key identifiers *)
Lemma no_sep_ascii sep s : forallb (λ c, negb (Byte.eqb c sep)) (s2b s) = true → no_sep sep (s2b s).
Proof.
  rewrite Forallb_forall. intros Hf. eapply List.Forall_impl; [|exact Hf]. intros c Hc.
  destruct (byte_eqb_spec c sep) as [->|]; [by rewrite byte_eqb_refl in Hc|done].
Qed.

Lemma hex_digit_inj m n : (m < 16)%N → (n < 16)%N → hex_digit m = hex_digit n → m = n.
Proof.
  intros Hm Hn Hd. pose proof (N_forall_lt 16 (λ m, forallb (λ n, implb (Byte.eqb (hex_digit m) (hex_digit (N.of_nat n)))
    (m =? N.of_nat n)%N) (seq 0 16)) eq_refl m Hm) as Hf.
  rewrite forallb_forall in Hf. specialize (Hf (N.to_nat n)). rewrite N2Nat.id, Hd, byte_eqb_refl in Hf.
  apply N.eqb_eq, Hf, in_seq. lia.
Qed.

Lemma hex_string_inj a b : hex_string a = hex_string b → a = b.
Proof.
  intros Hs%b2s_inj. revert b Hs. induction a as [|x a IH]; intros [|y b]; cbn; try done.
  intros [= Hh Hl Hr]. f_equal; [|by apply IH]. pose proof (b2n_lt x). pose proof (b2n_lt y).
  apply b2n_inj. apply hex_digit_inj in Hh; [|apply N.Div0.div_lt_upper_bound; lia..].
  apply hex_digit_inj in Hl; [|apply N.mod_lt; lia..].
  rewrite (N.div_mod (b2n x) 16), (N.div_mod (b2n y) 16) by lia. congruence.
Qed.

(** An identifier is a text of hexadecimal digits: valid UTF-8, and not empty. *)
Lemma utf8_ascii s : Forall (λ c, (b2n c < 128)%N) s → valid_utf8 s = true.
Proof.
  induction 1 as [|c s Hc _ IH]; [done|]. cbn. unfold utf8_width. change 0x80%N with 128%N.
  by rewrite (proj2 (N.ltb_lt _ _) Hc).
Qed.

Lemma hex_digit_ascii n : (n < 16)%N → (b2n (hex_digit n) < 128)%N.
Proof. intros Hn. apply N.ltb_lt. by apply (N_forall_lt 16 (λ n, (b2n (hex_digit n) <? 128)%N)). Qed.

Lemma utf8_hex_string b : utf8 (hex_string b) = true.
Proof.
  unfold utf8, hex_string. rewrite s2b_b2s. apply utf8_ascii. induction b as [|c b IH]; [done|]. cbn.
  pose proof (b2n_lt c). repeat apply Forall_cons_2; [..|exact IH]; apply hex_digit_ascii.
  - apply N.Div0.div_lt_upper_bound. lia.
  - apply N.mod_lt. lia.
Qed.

Lemma slen_hex_string b : slen (hex_string b) = (2 * len b)%N.
Proof.
  rewrite slen_len. unfold hex_string. rewrite s2b_b2s. unfold len. induction b as [|c b IH]; [done|]. cbn [map concat length app]. lia.
Qed.

Lemma CalculateKeyID_slen j id : CalculateKeyID j = Ok id → slen id = 64%N.
Proof.
  intros Hid. assert (∃ l, key_id l = Ok id) as [l Hl] by (destruct j; try done; eexists; exact Hid).
  unfold key_id in Hl. rewrite hash_sum_Ok in Hl by done. injection Hl as <-. by rewrite slen_hex_string, Digest_len.
Qed.

Lemma CalculateKeyID_utf8 j id : CalculateKeyID j = Ok id → utf8 id = true ∧ id ≠ "".
Proof.
  intros Hid. split; [|intros ->; by apply CalculateKeyID_slen in Hid].
  assert (∃ l, key_id l = Ok id) as [l Hl] by (destruct j; try done; eexists; exact Hid).
  unfold key_id in Hl. rewrite hash_sum_Ok in Hl by done. injection Hl as <-. apply utf8_hex_string.
Qed.

(** What identifies a key: its type and its public values, or its secret. *)
Inductive material :=
  | MRsa (n e : N)
  | MEc (x y : N)
  | MOct (k : bytes).

Definition Jwk_material (j : Jwk) : option material :=
  match j with
  | JPublicRsa k => Some (MRsa (Rsa_N (PubRsa_fields k)) (Rsa_E (PubRsa_fields k)))
  | JPublicEc k => Some (MEc (Ec_X (PubEc_fields k)) (Ec_Y (PubEc_fields k)))
  | JOct k => Some (MOct (Oct_K (Oct_fields k)))
  | _ => None
  end.

Definition material_text (m : material) : list string :=
  let b64 := EncodeToString RawURLEncoding in
  match m with
  | MRsa n e => [version1; "jwk"; KtyRSA; b64 (be_bytes n); b64 (be_bytes e)]
  | MEc x y => [version1; "jwk"; KtyEC; b64 (be_bytes x); b64 (be_bytes y)]
  | MOct k => [version1; "jwk"; KtyOct; b64 k]
  end.

Lemma EncodeToString_inj e a b : EncodeToString e a = EncodeToString e b → a = b.
Proof. intros Hs%(f_equal (DecodeString e)). rewrite !DecodeString_EncodeToString in Hs. congruence. Qed.

Lemma material_text_inj a b : material_text a = material_text b → a = b.
Proof.
  destruct a, b; try done; intros [= Hx Hy]%(f_equal (drop 3)) || intros [= Hx]%(f_equal (drop 3));
    repeat match goal with Hs : EncodeToString _ _ = EncodeToString _ _ |- _ => apply EncodeToString_inj in Hs end;
    repeat match goal with Hs : be_bytes _ = be_bytes _ |- _ => apply (f_equal be_to_N) in Hs; rewrite !be_to_N_bytes in Hs end;
    congruence.
Qed.

Lemma material_text_no_sep m : Forall (λ p, no_sep "." (s2b p)) (material_text m).
Proof. destruct m; repeat apply Forall_cons_2; try apply Forall_nil_2; first [apply no_dot_encoded|done]. Qed.

Lemma CalculateKeyID_text j : CalculateKeyID j =
  match Jwk_material j with Some m => key_id (material_text m) | None => gose_err Gose.ErrUnsupportedKeyType end.
Proof. by destruct j. Qed.

(** Two keys with the same identifier hold the same key material, unless SHA-256
    collides.  In particular an identifier does not mix up keys of different types. *)
Theorem CalculateKeyID_collision j1 j2 id :
  CalculateKeyID j1 = Ok id → CalculateKeyID j2 = Ok id →
  Jwk_material j1 = Jwk_material j2 ∨ ∃ a b, a ≠ b ∧ Digest SHA256 a = Digest SHA256 b.
Proof.
  rewrite !CalculateKeyID_text. intros Hd1 Hd2.
  destruct (Jwk_material j1) as [m1|]; [|done]. destruct (Jwk_material j2) as [m2|]; [|done].
  unfold key_id in *. rewrite !hash_sum_Ok in Hd1, Hd2 by done. cbn in Hd1, Hd2.
  injection Hd1 as Hd1. injection Hd2 as Hd2. rewrite <- Hd2 in Hd1. apply hex_string_inj in Hd1.
  destruct (decide (material_text m1 = material_text m2)) as [Ht%material_text_inj|Ht]; [left; congruence|].
  right. eexists _, _. split; [|exact Hd1]. intros Hs%s2b_inj. apply Ht.
  eapply Join_inj; [..|exact Hs]; try apply material_text_no_sep; by destruct m1, m2.
Qed.

Lemma Jwk_material_SetKid kid j : Jwk_material (Jwk_SetKid kid j) = Jwk_material j.
Proof. by destruct j. Qed.

Lemma PublicFromPrivate_SetKid kid j out : PublicFromPrivate j = Ok out →
  PublicFromPrivate (Jwk_SetKid kid j) = Ok (Jwk_SetKid kid out).
Proof.
  unfold PublicFromPrivate. intros Ho. apply bind_Ok in Ho as (p & Hp & [= <-]).
  apply bind_Ok. exists p. rewrite SetKid_Ops, SetKid_Alg. split; [by destruct j|by destruct j, p].
Qed.

(** The identifier of a private key's JWK is that of its public half, so a signer
    and its verifier have the same one. *)
Theorem JwkFromPrivateKey_kid s ops certs jwk :
  JwkFromPrivateKey s ops certs = Ok jwk →
  ∃ pub, PublicFromPrivate jwk = Ok pub ∧ CalculateKeyID pub = Ok (Jwk_Kid jwk) ∧ Jwk_Kid pub = Jwk_Kid jwk.
Proof.
  unfold JwkFromPrivateKey. intros Hj. apply bind_Ok in Hj as (j & _ & Hk).
  apply bind_Ok in Hk as (pub & Hpub & Hk). apply bind_Ok in Hk as (kid & Hkid & [= <-]).
  exists (Jwk_SetKid kid pub). split; [by apply PublicFromPrivate_SetKid|].
  rewrite CalculateKeyID_text, Jwk_material_SetKid, <- CalculateKeyID_text, !Kid_SetKid. done.
Qed.

(** The JWK that is made of an RSA public key, and its identifier. *)
Definition rsa_key_fields (k : RsaPublicKey) : PublicRsaKeyFields := {| Rsa_N := RsaPub_N k; Rsa_E := Z.to_N (RsaPub_E k) |}.
Definition rsa_public_jwk (k : RsaPublicKey) (ops : list Types.KeyOps) (alg : Alg) (certs : list (option x509_Certificate)) (id : string) : Jwk :=
  JPublicRsa {| PubRsa_jwk := {| KeyUse := ""; KeyOps := ops; KeyAlg := alg; KeyKid := id; KeyX5C := certs; KeyX5T := None |};
                PubRsa_fields := rsa_key_fields k |}.
Definition rsa_kid (k : RsaPublicKey) : string :=
  hex_string (Digest SHA256 (s2b (Join (material_text (MRsa (RsaPub_N k) (Z.to_N (RsaPub_E k)))) "."))).

Lemma CalculateKeyID_rsa jf k : CalculateKeyID (JPublicRsa {| PubRsa_jwk := jf; PubRsa_fields := rsa_key_fields k |}) = Ok (rsa_kid k).
Proof. rewrite CalculateKeyID_text. cbn [Jwk_material PubRsa_fields rsa_key_fields Rsa_N Rsa_E]. unfold key_id. by rewrite hash_sum_Ok. Qed.

Lemma rsa_kid_text k : utf8 (rsa_kid k) = true ∧ rsa_kid k ≠ "".
Proof. exact (CalculateKeyID_utf8 _ _ (CalculateKeyID_rsa jwkFields_zero k)). Qed.

Lemma JwkFromPublicKey_rsa k ops certs : (0 <= RsaPub_E k <= MaxInt32)%Z →
  JwkFromPublicKey (PubRSA k) ops certs = Ok (rsa_public_jwk k ops (rsaAlgFromOps (BitLen (RsaPub_N k)) ops) certs (rsa_kid k)).
Proof.
  intros He. unfold JwkFromPublicKey. destruct (Z.ltb_spec MaxInt32 (RsaPub_E k)); [lia|]. cbn [mbind res_bind].
  rewrite BigNum_Set_N, BigNum_Set_pos by lia. unfold Jwk_SetAlg, Jwk_SetOps, Jwk_update.
  match goal with |- context [CalculateKeyID ?j] => replace (CalculateKeyID j) with (Ok (E := error) (rsa_kid k)) by by rewrite <- (CalculateKeyID_rsa (Jwk_fields j) k) end.
  cbn [mbind res_bind]. by destruct certs.
Qed.

(** ** Symmetric keys *)
(** The bytes of a symmetric key are handed out exactly for an [oct] key whose
    algorithm is an AES-GCM one with the length of the key, when every required
    operation is allowed. *)
Definition gcm_len (alg : Alg) : option N :=
  if bool_decide (alg = AlgA128GCM) then Some 16%N
  else if bool_decide (alg = AlgA192GCM) then Some 24%N
  else if bool_decide (alg = AlgA256GCM) then Some 32%N
  else None.

Lemma symmetricAlgs_gcm alg : symmetricAlgs alg =
  (λ n, {| minLen := n; maxLen := n; confidentiality := true; integrity := true |}) <$> gcm_len alg.
Proof. unfold symmetricAlgs, gcm_len. by repeat case_bool_decide. Qed.

Lemma len_guard (k n : N) : ((k <? n) || (n <? k))%N = false ↔ k = n.
Proof. rewrite orb_false_iff. split; [lia|intros ->; lia]. Qed.

Theorem loadSymmetricBytes_spec jwk required key :
  loadSymmetricBytes jwk required = Ok key ↔
  (∀ op, op ∈ required → op ∈ Jwk_Ops jwk) ∧
  ∃ v, jwk = JOct v ∧ key = Oct_K (Oct_fields v) ∧ gcm_len (Jwk_Alg jwk) = Some (len key).
Proof.
  unfold loadSymmetricBytes. rewrite symmetricAlgs_gcm, <- required_guard.
  destruct (gcm_len (Jwk_Alg jwk)) as [n|] eqn:Hn; cbn; [|split; [done|by intros (_ & v & _ & _ & ?)]].
  destruct (_ && _); [by split; [|intros [? _]]|].
  destruct jwk as [v|v|v|v|v]; try (by split; [|intros (_ & ? & ? & _)]).
  unfold Blob_Bytes. destruct ((len (Oct_K (Oct_fields v)) <? n)%N || _) eqn:Hl.
  - split; [done|]. intros (_ & v' & [= <-] & -> & [= ->]). by rewrite N.ltb_irrefl in Hl.
  - apply len_guard in Hl as <-. split; [intros [= <-]; split; [done|by exists v]|]. by intros (_ & v' & [= <-] & -> & _).
Qed.

(** A symmetric key that was turned into a JWK can be used for all its operations. *)
Theorem JwkFromSymmetric_loadSymmetricBytes key alg jwk required :
  JwkFromSymmetric key alg = Ok jwk →
  (∀ op, op ∈ required → op ∈ [KeyOpsEncrypt; KeyOpsDecrypt; KeyOpsSign; KeyOpsVerify]) →
  loadSymmetricBytes jwk required = Ok key.
Proof.
  unfold JwkFromSymmetric. rewrite symmetricAlgs_gcm. intros Hj Hreq.
  destruct (gcm_len alg) as [n|] eqn:Hn; [|done]. cbn [fmap option_fmap option_map minLen maxLen] in Hj.
  destruct (_ || _) eqn:Hl in Hj; [done|]. apply len_guard in Hl as <-.
  apply bind_Ok in Hj as (kid & _ & [= <-]). apply loadSymmetricBytes_spec. split; [exact Hreq|]. by eexists.
Qed.

(** [AL] is the number of bits of the additional data as a 64-bit big-endian
    integer, whatever the size of the data. *)
Theorem GetALFromAAD_bits aad : (len aad < 2 ^ 61)%N →
  length (GetALFromAAD aad) = 8 ∧ be_to_N (GetALFromAAD aad) = (8 * len aad)%N.
Proof.
  intros Hl. unfold GetALFromAAD. split; [apply be_fixed_length|]. rewrite be_to_N_fixed, N.mod_small; [lia|].
  change (2 ^ 61)%N with 2305843009213693952%N in Hl. change (256 ^ N.of_nat 8)%N with 18446744073709551616%N. lia.
Qed.
End loading.
