(* ===== verification/JwkMade.v ===== *)
(** The JWKs that the library itself makes, from keys of [crypto/...] and from each
    other: when they are well-formed, and that they can be written and, exactly if what
    was put in is consistent, read back. *)

From S2P Require Import Prelude Errors Base64 Json JsonFacts JsonCodec Types Crypto Jwk JwkFacts Jws JwsFacts Helpers HelpersFacts.

(** A number that a JWK can hold. *)
Definition fits (n : N) : Prop := (len (be_bytes n) <= MaxBlobSize)%N.

Lemma fits_bound n : (n < 256 ^ MaxBlobSize)%N → fits n.
Proof.
  intros Hn. rewrite <- (N2Nat.id MaxBlobSize) in Hn. apply be_bytes_length_le in Hn. unfold fits, len. lia.
Qed.

Lemma fits_BitLen n : (BitLen n <= 8 * MaxBlobSize)%N → fits n.
Proof. intros Hb%BitLen_lt. apply fits_bound. change 256%N with (2 ^ 8)%N. by rewrite <- N.pow_mul_r. Qed.

(** Operations that a JWK may list. *)
Definition ops_ok (ops : list Types.KeyOps) : Prop :=
  Forall (λ op, utf8 op = true) ops ∧ (len ops <= maxKeyOps)%N ∧ NoDup ops.

Section made.
Context `{X509, Digests, Rsa, Ecdsa}.

(** ** What makes a JWK well-formed, besides its common fields *)
Definition pub_rsa_values (f : PublicRsaKeyFields) : Prop := bignum_ok (Rsa_N f) ∧ bignum_ok (Rsa_E f).
Definition values_ok (j : Jwk) : Prop :=
  match j with
  | JPublicRsa k => pub_rsa_values (PubRsa_fields k)
  | JPrivateRsa k => pub_rsa_values (PrivRsa_pubfields k) ∧ PrivateRsaKeyFields_ok (PrivRsa_fields k)
  | JPublicEc k => PublicEcKeyFields_ok (PubEc_fields k)
  | JPrivateEc k => PublicEcKeyFields_ok (PrivEc_pubfields k) ∧ bignum_ok (Ec_D (PrivEc_fields k))
  | JOct k => blob_ok (Oct_K (Oct_fields k))
  end.

(** The certificates certify the key. *)
Lemma Jwk_ok_iff j : Jwk_ok j ↔
  jwkFields_ok (Jwk_fields j) ∧ jwkFields_CheckConsistency (Jwk_fields j) = Ok tt ∧ certified j ∧ values_ok j.
Proof.
  unfold Jwk_ok. destruct j as [k|[k f]|k|[k f]|k]; cbn [values_ok]; rewrite ?rsa_check_spec, ?ec_check_spec.
  - unfold pub_rsa_values. tauto.
  - unfold pub_rsa_values, PrivRsa_pubfields. cbn [PrivRsa_pub PrivRsa_fields]. change (certified (JPrivateRsa _)) with (certified (JPublicRsa k)). tauto.
  - tauto.
  - unfold PrivEc_pubfields. cbn [PrivEc_pub PrivEc_fields]. change (certified (JPrivateEc _)) with (certified (JPublicEc k)). tauto.
  - assert (certified (JOct k) ↔ ∀ c, KeyX5C (Oct_jwk k) !! 0 = Some c → is_Some c) as ->.
    { split; intros Hc c Hl; [destruct (Hc c Hl) as (l & -> & _); by eexists|destruct (Hc c Hl) as [l ->]; by exists l]. }
    split; [|tauto]. intros (Hf & Hc & Hv). split_and!; try done. intros c Hl. destruct Hf as [_ _ _ _ Hx _].
    rewrite list.Forall_forall in Hx. apply list_elem_of_lookup_2, Hx in Hl. by destruct c.
Qed.

(** Changing a common field other than the certificates. *)
Lemma Jwk_ok_update g j : Jwk_ok j → jwkFields_ok (g (Jwk_fields j)) → jwkFields_CheckConsistency (g (Jwk_fields j)) = Ok tt →
  KeyX5C (g (Jwk_fields j)) = KeyX5C (Jwk_fields j) → Jwk_ok (Jwk_update g j).
Proof.
  rewrite !Jwk_ok_iff, Jwk_update_fields. intros (_ & _ & Hc & Hv) Hf Hg Hx. split_and!; try done; [|by destruct j].
  intros c. rewrite Jwk_update_fields, Hx. intros Hl. destruct (Hc c Hl) as (leaf & -> & Hk). exists leaf. split; [done|].
  by destruct j as [[? ?]|[[? ?] ?]|[? ?]|[[? ?] ?]|?].
Qed.

(** ** Rules under which what is made is well-formed *)
(** The numbers of a private key can be held; the public point of an EC key is not at
    a zero coordinate, which has no JSON form. *)
Definition point_ok (k : EcdsaPublicKey) : Prop := bignum_ok (EcPub_X k) ∧ bignum_ok (EcPub_Y k).
Definition public_ok (k : PublicKey) : Prop :=
  match k with
  | PubRSA k => bignum_ok (RsaPub_N k) ∧ (0 < RsaPub_E k)%Z
  | PubECDSA k => point_ok k
  | PubOther => True
  end.
Definition signer_public (s : Signer) : PublicKey :=
  match s with SignerRSA k => PubRSA (RsaPriv_Pub k) | SignerECDSA k => PubECDSA (EcPriv_Pub k) | SignerOther => PubOther end.
Definition private_fits (s : Signer) : Prop :=
  match s with
  | SignerRSA k => fits (RsaPriv_D k) ∧ Forall fits (RsaPriv_Primes k) ∧
      ∀ pre, rsa_Precompute k = Some pre → fits (Pre_Dp pre) ∧ fits (Pre_Dq pre) ∧ fits (Pre_Qinv pre)
  | SignerECDSA k => fits (EcPriv_D k)
  | SignerOther => True
  end.

(** The certificates can be written, and the first one is for the key. *)
Definition certs_ok (k : PublicKey) (certs : list (option x509_Certificate)) : Prop :=
  Forall Certificate_ok certs ∧ ∀ leaf, certs !! 0 = Some (Some leaf) → Cert_PublicKey leaf = k.

(** The public half of an EC key is the point that its private half holds. *)
Definition same_point (jin out : Jwk) : Prop :=
  match jin, out with JPrivateEc k, JPublicEc p => PubEc_fields p = PrivEc_pubfields k | _, _ => True end.

Inductive made : Jwk → Prop :=
  | made_private s ops certs j : JwkFromPrivateKey s ops certs = Ok j → public_ok (signer_public s) → private_fits s →
      ops_ok ops → certs_ok (signer_public s) certs → made j
  | made_public k ops certs j : JwkFromPublicKey k ops certs = Ok j → public_ok k → ops_ok ops → certs_ok k certs → made j
  | made_symmetric key alg j : JwkFromSymmetric key alg = Ok j → made j
  | made_half jin j : made jin → PublicFromPrivate jin = Ok j → Forall (λ op, ¬ no_inverse op) (Jwk_Ops jin) → same_point jin j → made j
  | made_alg alg j : made j → utf8 alg = true → made (Jwk_SetAlg alg j)
  | made_ops ops j : made j → ops_ok ops → made (Jwk_SetOps ops j)
  | made_kid kid j : made j → utf8 kid = true → made (Jwk_SetKid kid j).

(** ** Every rule keeps JWKs well-formed *)
Lemma CheckConsistency_fresh j : ops_ok (KeyOps j) → KeyX5T j = None → jwkFields_CheckConsistency j = Ok tt.
Proof. intros (_ & Hl & Hn) Hx. apply CheckConsistency_spec. split_and!; try done. intros c x _. by rewrite Hx. Qed.

(** The common fields of a new JWK. *)
Definition fresh_fields (ops : list Types.KeyOps) (alg : Alg) (kid : string) (certs : list (option x509_Certificate)) : jwkFields :=
  {| KeyUse := ""; KeyOps := ops; KeyAlg := alg; KeyKid := kid; KeyX5C := certs; KeyX5T := None |}.

Lemma Jwk_ok_fresh ops alg kid certs j : Jwk_fields j = fresh_fields ops alg kid certs → ops_ok ops → utf8 alg = true → utf8 kid = true →
  Forall Certificate_ok certs → certified j → values_ok j → Jwk_ok j.
Proof.
  intros Hf Hops Ha Hk Hc Hcert Hv. apply Jwk_ok_iff. rewrite Hf. split_and!; [|by apply CheckConsistency_fresh|done|done].
  destruct Hops as (Ho & _). by split.
Qed.

Lemma algs_utf8 alg : alg ∈ privateKeyAlgs → utf8 alg = true.
Proof. intros Ha. assert (Forall (λ a, utf8 a = true) privateKeyAlgs) as Hf by (by repeat constructor). rewrite list.Forall_forall in Hf. by apply Hf. Qed.

Lemma rsaAlgFromOps_utf8 n ops : utf8 (rsaAlgFromOps n ops) = true.
Proof. apply algs_utf8, rsaAlgFromOps_alg. Qed.
Lemma ecBitsToAlg_utf8 c : utf8 (ecBitsToAlg (Curve_BitSize c)) = true.
Proof. by destruct c. Qed.
Lemma Curve_Name_utf8 c : utf8 (Curve_Name c) = true.
Proof. by destruct c. Qed.

Lemma exponent_ok e : (0 < e)%Z → (e <= MaxInt32)%Z → bignum_ok (BigNum_Set e).
Proof.
  intros He Hm. rewrite BigNum_Set_pos by lia. split; [lia|]. apply (fits_BitLen (Z.to_N e)).
  pose proof (BitLen_le_32 e Hm). unfold MaxBlobSize. lia.
Qed.

(** The common fields after the setters of the constructors. *)
Lemma dress_fields ops certs kid alg j : Jwk_fields j = jwkFields_zero →
  Jwk_fields (Jwk_SetKid kid (dress ops certs (Jwk_SetAlg alg j))) = fresh_fields ops alg kid certs.
Proof. unfold dress. destruct certs, j as [[? ?]|[[? ?] ?]|[? ?]|[[? ?] ?]|[? ?]]; cbn; by intros ->. Qed.

Lemma JwkFromPrivateKey_fields s ops certs j : JwkFromPrivateKey s ops certs = Ok j →
  ∃ alg kid, Jwk_fields j = fresh_fields ops alg kid certs.
Proof.
  unfold JwkFromPrivateKey. intros (j0 & Hj0 & (pub & _ & (kid & _ & [= <-])%bind_Ok)%bind_Ok)%bind_Ok.
  change (if (0 <? len certs)%N then _ else _) with (dress ops certs j0).
  assert (∃ alg jz, j0 = Jwk_SetAlg alg jz ∧ Jwk_fields jz = jwkFields_zero) as (alg & jz & -> & Hz); [|by eexists _, _; apply dress_fields].
  destruct s as [k|k|]; [|injection Hj0 as <-; by eexists _, (JPrivateEc {| PrivEc_pub := {| PubEc_jwk := jwkFields_zero; PubEc_fields := _ |}; PrivEc_fields := _ |})|done].
  destruct (_ <? _)%Z; [done|]. destruct (RsaPriv_Primes k) as [|p [|q ps]]; try done. destruct (rsa_Precompute k); [|done]. injection Hj0 as <-.
  by eexists _, (JPrivateRsa {| PrivRsa_pub := {| PubRsa_jwk := jwkFields_zero; PubRsa_fields := _ |}; PrivRsa_fields := _ |}).
Qed.

Lemma values_ok_dress ops certs kid alg j : values_ok (Jwk_SetKid kid (dress ops certs (Jwk_SetAlg alg j))) ↔ values_ok j.
Proof. unfold dress. destruct (_ <? _)%N; by destruct j as [[? ?]|[[? ?] ?]|[? ?]|[[? ?] ?]|[? ?]]. Qed.

(** The public key that a JWK holds. *)
Definition holds_public (j : Jwk) (k : PublicKey) : Prop :=
  match j with
  | JPublicRsa {| PubRsa_fields := f |} | JPrivateRsa {| PrivRsa_pub := {| PubRsa_fields := f |} |} =>
    k = PubRSA {| RsaPub_N := Rsa_N f; RsaPub_E := Z.of_N (Rsa_E f) |}
  | JPublicEc {| PubEc_fields := f |} | JPrivateEc {| PrivEc_pub := {| PubEc_fields := f |} |} =>
    ∃ crv, k = PubECDSA {| EcPub_Curve := crv; EcPub_X := Ec_X f; EcPub_Y := Ec_Y f |} ∧ Ec_Crv f = Curve_Name crv
  | JOct _ => True
  end.

Lemma certs_certified k certs j : certs_ok k certs → KeyX5C (Jwk_fields j) = certs → holds_public j k → certified j.
Proof.
  intros [Hf Hk] Hx Hp c. rewrite Hx. intros Hl. assert (Certificate_ok c) as Hc.
  { rewrite list.Forall_forall in Hf. by apply Hf, (list_elem_of_lookup_2 _ 0). }
  destruct c as [leaf|]; [|done]. exists leaf. split; [done|]. rewrite (Hk leaf Hl).
  destruct j as [[? ?]|[[? ?] ?]|[? ?]|[[? ?] ?]|?]; cbn in Hp |- *; try done.
  - destruct Hp as (crv & -> & ->). eauto.
  - destruct Hp as (crv & -> & ->). eauto.
Qed.

Lemma holds_public_dress ops certs kid alg j k : holds_public (Jwk_SetKid kid (dress ops certs (Jwk_SetAlg alg j))) k ↔ holds_public j k.
Proof. unfold dress. destruct (_ <? _)%N; by destruct j as [[? ?]|[[? ?] ?]|[? ?]|[[? ?] ?]|[? ?]]. Qed.

(** A constructor's JWK: the values of the key, dressed. *)
Lemma dressed_ok ops certs kid alg k j : Jwk_fields j = jwkFields_zero → ops_ok ops → certs_ok k certs → utf8 alg = true → utf8 kid = true →
  values_ok j → holds_public j k → Jwk_ok (Jwk_SetKid kid (dress ops certs (Jwk_SetAlg alg j))).
Proof.
  intros Hz Hops Hc Ha Hk Hv Hp. pose proof (dress_fields ops certs kid alg j Hz) as Hf.
  eapply Jwk_ok_fresh; try done; [by destruct Hc| |by apply values_ok_dress].
  eapply certs_certified; [done| |by apply holds_public_dress]. by rewrite Hf.
Qed.

(** A JWK of operations, certificates, and the values of a key that it holds. *)
Definition dressed (ops : list Types.KeyOps) (certs : list (option x509_Certificate)) (k : PublicKey) (j : Jwk) : Prop :=
  ∃ alg kid jz, j = Jwk_SetKid kid (dress ops certs (Jwk_SetAlg alg jz)) ∧ utf8 alg = true ∧ utf8 kid = true ∧
    Jwk_fields jz = jwkFields_zero ∧ values_ok jz ∧ holds_public jz k.

Lemma JwkFromPublicKey_dressed k ops certs j : JwkFromPublicKey k ops certs = Ok j → public_ok k → dressed ops certs k j.
Proof.
  unfold JwkFromPublicKey. intros Hj Hk. apply bind_Ok in Hj as (j0 & Hj0 & Hj). apply bind_Ok in Hj as (kid & Hkid & [= <-]).
  apply CalculateKeyID_utf8 in Hkid as [Hkid _].
  assert (∃ alg jz, j0 = Jwk_SetAlg alg jz ∧ utf8 alg = true ∧ Jwk_fields jz = jwkFields_zero ∧ values_ok jz ∧ holds_public jz k) as (alg & jz & -> & Ha & Hz & Hv & Hp).
  { destruct k as [[n e]|[c x y]|]; [| |done]; cbn in Hk.
    - destruct Hk as [Hn He0]. destruct (Z.ltb_spec MaxInt32 (RsaPub_E {| RsaPub_N := n; RsaPub_E := e |})) as [|He]; [done|]. injection Hj0 as <-. cbn in He.
      eexists _, (JPublicRsa {| PubRsa_jwk := jwkFields_zero; PubRsa_fields := _ |}). split; [reflexivity|]. split_and!; [apply rsaAlgFromOps_utf8|done| |]; cbn.
      + split; [by rewrite BigNum_Set_N|by apply exponent_ok].
      + rewrite BigNum_Set_N, BigNum_Set_pos by lia. by rewrite Z2N.id by lia.
    - injection Hj0 as <-. eexists _, (JPublicEc {| PubEc_jwk := jwkFields_zero; PubEc_fields := _ |}). split; [reflexivity|]. split_and!; [apply ecBitsToAlg_utf8|done| |]; cbn; rewrite !BigNum_Set_N.
      + split; [apply Curve_Name_utf8|exact Hk].
      + by exists c. }
  replace (if (0 <? len certs)%N then _ else _) with (Jwk_SetKid kid (dress ops certs (Jwk_SetAlg alg jz))).
  - by exists alg, kid, jz.
  - unfold dress. destruct (_ <? _)%N; [|done]. by destruct jz.
Qed.

Lemma JwkFromPrivateKey_dressed s ops certs j : JwkFromPrivateKey s ops certs = Ok j → public_ok (signer_public s) → private_fits s →
  dressed ops certs (signer_public s) j.
Proof.
  unfold JwkFromPrivateKey. intros Hj Hk Hfit. apply bind_Ok in Hj as (j0 & Hj0 & Hj). apply bind_Ok in Hj as (pub & Hpub & Hj).
  apply bind_Ok in Hj as (kid & Hkid & [= <-]). apply CalculateKeyID_utf8 in Hkid as [Hkid _].
  change (if (0 <? len certs)%N then _ else _) with (dress ops certs j0) in *.
  apply PublicFromPrivate_values, private_values_dress in Hpub.
  enough (∃ alg jz, j0 = Jwk_SetAlg alg jz ∧ utf8 alg = true ∧ Jwk_fields jz = jwkFields_zero ∧ values_ok jz ∧ holds_public jz (signer_public s))
    as (alg & jz & -> & Ha & Hz & Hv & Hp) by by exists alg, kid, jz.
  destruct s as [k|k|]; [| |done].
  - destruct k as [[n e] d ps]. cbn in Hk, Hfit. destruct Hk as [Hn He]. destruct Hfit as (Hd & Hps & Hpre).
    destruct (Z.ltb_spec MaxInt32 (RsaPub_E (RsaPriv_Pub {| RsaPriv_Pub := {| RsaPub_N := n; RsaPub_E := e |}; RsaPriv_D := d; RsaPriv_Primes := ps |}))) as [|Hm]; [done|].
    cbn in Hm. destruct ps as [|p [|q ps]]; try done. cbn [RsaPriv_Primes] in Hj0.
    destruct (rsa_Precompute _) as [[dp dq qi]|]; [|done]. destruct (Hpre _ eq_refl) as (Hdp & Hdq & Hqi).
    apply list.Forall_cons in Hps as [Hpf [Hqf _]%list.Forall_cons]. injection Hj0 as <-. cbn in Hpub, Hdp, Hdq, Hqi.
    eexists _, (JPrivateRsa {| PrivRsa_pub := {| PubRsa_jwk := jwkFields_zero; PubRsa_fields := _ |}; PrivRsa_fields := _ |}).
    split; [reflexivity|]. split_and!; [apply rsaAlgFromOps_utf8|done| |]; cbn.
    + rewrite !BigNum_Set_N in *. destruct Hpub as [(? & ? & ? & ? & ? & ?) _]. split; [split; [done|by apply exponent_ok]|by repeat split].
    + rewrite BigNum_Set_N, BigNum_Set_pos by lia. by rewrite Z2N.id by lia.
  - injection Hj0 as <-. destruct k as [[c x y] d]. cbn in Hk, Hfit, Hpub. eexists _, (JPrivateEc {| PrivEc_pub := {| PubEc_jwk := jwkFields_zero; PubEc_fields := _ |}; PrivEc_fields := _ |}).
    split; [reflexivity|].
    split_and!; [apply ecBitsToAlg_utf8|done| |]; cbn; rewrite !BigNum_Set_N in *.
    + split; [split; [apply Curve_Name_utf8|exact Hk]|]. by destruct Hpub.
    + by exists c.
Qed.
Lemma dressed_well_formed ops certs k j : dressed ops certs k j → ops_ok ops → certs_ok k certs → Jwk_ok j.
Proof. intros (alg & kid & jz & -> & ? & ? & ? & ? & ?) ? ?. by eapply dressed_ok. Qed.

Lemma JwkFromPublicKey_ok k ops certs j : JwkFromPublicKey k ops certs = Ok j → public_ok k → ops_ok ops → certs_ok k certs → Jwk_ok j.
Proof. intros Hj Hk. by eapply dressed_well_formed, JwkFromPublicKey_dressed. Qed.
Lemma JwkFromPrivateKey_ok s ops certs j : JwkFromPrivateKey s ops certs = Ok j → public_ok (signer_public s) → private_fits s →
  ops_ok ops → certs_ok (signer_public s) certs → Jwk_ok j.
Proof. intros Hj Hk Hf. by eapply dressed_well_formed, JwkFromPrivateKey_dressed. Qed.

Lemma JwkFromSymmetric_ok key alg j : JwkFromSymmetric key alg = Ok j → Jwk_ok j.
Proof.
  unfold JwkFromSymmetric. rewrite symmetricAlgs_gcm. destruct (gcm_len alg) as [n|] eqn:Hn; [|done].
  cbn [fmap option_fmap option_map minLen maxLen confidentiality integrity]. destruct (_ || _) eqn:Hl; [done|].
  apply len_guard in Hl. intros (kid & [Hkid _]%CalculateKeyID_utf8 & [= <-])%bind_Ok.
  assert (utf8 alg = true ∧ (0 < n <= 32)%N) as [Ha Hn'].
  { unfold gcm_len in Hn. repeat (case_bool_decide; [simplify_eq; split; [done|lia]|]). done. }
  eapply (Jwk_ok_fresh [KeyOpsEncrypt; KeyOpsDecrypt; KeyOpsSign; KeyOpsVerify] alg kid []); [done| |done..| |].
  - split_and!; [by repeat constructor|done|by apply (bool_decide_unpack (NoDup _))].
  - intros c. done.
  - cbn. unfold Blob_SetBytes. split; [intros ->; unfold len in *; cbn in *; lia|]. unfold MaxBlobSize. lia.
Qed.

Lemma inverse_ops_ok ops : ops_ok ops → Forall (λ op, ¬ no_inverse op) ops → ops_ok (map inverseOps ops).
Proof.
  intros (Hu & Hl & Hn) Hi. split_and!.
  - apply List.Forall_map, List.Forall_forall. intros op _. unfold inverseOps. by repeat case_bool_decide.
  - unfold len in *. by rewrite List.length_map.
  - clear Hu Hl. induction Hn as [|op ops Hop Hn IH]; [constructor|]. apply list.Forall_cons in Hi as [Hi His].
    cbn. constructor; [|by apply IH]. intros (op' & He & Hin)%list_elem_of_fmap. apply Hop.
    rewrite list.Forall_forall in His. rewrite <- (inverseOps_involutive op), He, inverseOps_involutive; [done|by apply His|done].
Qed.

Lemma PublicFromPrivate_ok jin j : Jwk_ok jin → PublicFromPrivate jin = Ok j → Forall (λ op, ¬ no_inverse op) (Jwk_Ops jin) →
  same_point jin j → Jwk_ok j.
Proof.
  rewrite (Jwk_ok_iff jin). intros ([_ Hu Ha Hk Hx _] & (Hl & Hn & _)%CheckConsistency_spec & Hc & Hv) (Hp & Hof & Hf)%PublicFromPrivate_inv Hi Hs.
  assert (ops_ok (Jwk_Ops jin)) as Hops by by split_and!.
  assert (certified j ∧ values_ok j) as [Hc' Hv'].
  { rewrite Jwk_X5C_id in Hf. destruct jin as [|v| |v|], j as [p| |p| |]; try done; cbn in Hof, Hs, Hf; destruct p as [pf ff]; cbn in Hf, Hof, Hs; subst.
    - split; [|by destruct Hv]. intros c Hl'. specialize (Hc c Hl'). by destruct v as [[? ?] ?].
    - split; [|by destruct Hv]. intros c Hl'. specialize (Hc c Hl'). by destruct v as [[? ?] ?]. }
  eapply (Jwk_ok_fresh _ _ _ _ _ Hf); try done; [by apply inverse_ops_ok|]. by rewrite Jwk_X5C_id.
Qed.

(** A well-formed JWK stays so under the setters. *)
Lemma setters_ok j : Jwk_ok j →
  (∀ alg, utf8 alg = true → Jwk_ok (Jwk_SetAlg alg j)) ∧ (∀ kid, utf8 kid = true → Jwk_ok (Jwk_SetKid kid j)) ∧
  (∀ ops, ops_ok ops → Jwk_ok (Jwk_SetOps ops j)).
Proof.
  intros Hj. pose proof Hj as ([? ? ? ? ? ?] & (? & ? & Hx)%CheckConsistency_spec & _).
  split_and!; intros v Hv; apply Jwk_ok_update; try done; try (by split); try (by apply CheckConsistency_spec).
  - destruct Hv as (? & _). by split.
  - destruct Hv as (? & ? & ?). by apply CheckConsistency_spec.
Qed.

Lemma made_ok j : made j → Jwk_ok j.
Proof.
  induction 1; [by eapply JwkFromPrivateKey_ok|by eapply JwkFromPublicKey_ok|by eapply JwkFromSymmetric_ok|by eapply PublicFromPrivate_ok|by apply setters_ok..].
Qed.

(** ** Keeping keys as text *)
Lemma LoadJwk_JwkToString j required : Jwk_ok j → (∀ op, op ∈ required → op ∈ Jwk_Ops j) →
  ∃ text, JwkToString j = Ok text ∧ ((slen text <= MaxJwksSize)%N → LoadJwk (s2b text) required = Ok j).
Proof.
  intros (doc & Hd & Hr)%MarshalJSON_reads Hops. exists (b2s doc). unfold JwkToString, LoadJwk. rewrite Hd. split; [done|].
  rewrite slen_len, s2b_b2s. intros Hl. rewrite (Hr Hl). cbn [mbind res_bind].
  by rewrite (proj2 (required_guard (Jwk_Ops j) required) Hops).
Qed.

(** ** When a JWK that is made can be imported *)
(** Neither the constructors nor the setters check what they are given; an import does. *)
Inductive making :=
  | FromPrivate (s : Signer) (ops : list Types.KeyOps) (certs : list (option x509_Certificate))
  | FromPublic (k : PublicKey) (ops : list Types.KeyOps) (certs : list (option x509_Certificate))
  | FromSymmetric (key : bytes) (alg : Alg)
  | PublicHalf (jin : Jwk)
  | WithOps (ops : list Types.KeyOps) (j : Jwk)
  | WithAlg (alg : Alg) (j : Jwk)
  | WithKid (kid : string) (j : Jwk)
  | WithUse (use : Types.KeyUse) (j : Jwk)
  | WithX5C (certs : list (option x509_Certificate)) (j : Jwk)
  | WithX5T (hash : option Fingerprint) (j : Jwk).

Definition make (m : making) : result Jwk :=
  match m with
  | FromPrivate s ops certs => JwkFromPrivateKey s ops certs
  | FromPublic k ops certs => JwkFromPublicKey k ops certs
  | FromSymmetric key alg => JwkFromSymmetric key alg
  | PublicHalf jin => PublicFromPrivate jin
  | WithOps ops j => Ok (Jwk_SetOps ops j)
  | WithAlg alg j => Ok (Jwk_SetAlg alg j)
  | WithKid kid j => Ok (Jwk_SetKid kid j)
  | WithUse use j => Ok (Jwk_update (jwkFields_SetUse use) j)
  | WithX5C certs j => Ok (Jwk_SetX5C certs j)
  | WithX5T hash j => Ok (Jwk_update (jwkFields_SetX5T hash) j)
  end.

(** What is put into the JWK has a JSON form: numbers that are not zero nor too long,
    texts of UTF-8, certificates that are parsed ones, digests of the length of SHA-1.
    Halves are taken of, and setters used on, JWKs that an import accepts; a private EC
    key has the point of its scalar, which an import does not check. *)
Definition own_point (j : Jwk) : Prop :=
  match j with
  | JPrivateEc k => ∀ c x y, ecdsaCurveForAlg (Jwk_Alg j) = Ok c → ecPointFromScalar c (Ec_D (PrivEc_fields k)) = Ok (x, y) →
      PrivEc_pubfields k = {| Ec_Crv := Curve_Name c; Ec_X := x; Ec_Y := y |}
  | _ => True
  end.

Definition has_form (m : making) : Prop :=
  match m with
  | FromPrivate s ops certs => public_ok (signer_public s) ∧ private_fits s ∧ Forall (λ op, utf8 op = true) ops ∧ Forall Certificate_ok certs
  | FromPublic k ops certs => public_ok k ∧ Forall (λ op, utf8 op = true) ops ∧ Forall Certificate_ok certs
  | FromSymmetric key alg => True
  | PublicHalf jin => Jwk_ok jin ∧ own_point jin
  | WithOps ops j => Jwk_ok j ∧ Forall (λ op, utf8 op = true) ops
  | WithAlg v j | WithKid v j | WithUse v j => Jwk_ok j ∧ utf8 v = true
  | WithX5C certs j => Jwk_ok j ∧ Forall Certificate_ok certs
  | WithX5T hash j => Jwk_ok j ∧ ∀ f, hash = Some f → len f = 20%N
  end.

(** What an import asks for, of what was put in. *)
Definition distinct_ops (ops : list Types.KeyOps) : Prop := (len ops <= maxKeyOps)%N ∧ NoDup ops.
Definition certifies (leaf : x509_Certificate) (j : Jwk) : Prop :=
  match j with
  | JPublicRsa {| PubRsa_fields := f |} | JPrivateRsa {| PrivRsa_pub := {| PubRsa_fields := f |} |} =>
    Cert_PublicKey leaf = PubRSA {| RsaPub_N := Rsa_N f; RsaPub_E := Z.of_N (Rsa_E f) |}
  | JPublicEc {| PubEc_fields := f |} | JPrivateEc {| PrivEc_pub := {| PubEc_fields := f |} |} =>
    ∃ crv, Cert_PublicKey leaf = PubECDSA {| EcPub_Curve := crv; EcPub_X := Ec_X f; EcPub_Y := Ec_Y f |} ∧
           (Ec_Crv f = "" ∨ Ec_Crv f = Curve_Name crv)
  | JOct _ => True
  end.
Definition importable_making (m : making) : Prop :=
  match m with
  | FromPrivate s ops certs => distinct_ops ops ∧ ∀ leaf, certs !! 0 = Some (Some leaf) → Cert_PublicKey leaf = signer_public s
  | FromPublic k ops certs => distinct_ops ops ∧ ∀ leaf, certs !! 0 = Some (Some leaf) → Cert_PublicKey leaf = k
  | FromSymmetric key alg => True
  | PublicHalf jin => ∀ op op', op ∈ Jwk_Ops jin → op' ∈ Jwk_Ops jin → no_inverse op → no_inverse op' → op = op'
  | WithOps ops j => distinct_ops ops
  | WithAlg _ _ | WithKid _ _ | WithUse _ _ => True
  | WithX5C certs j => ∀ leaf, Jwk_X5C j = [] → certs !! 0 = Some (Some leaf) →
      certifies leaf j ∧ ∀ hash, KeyX5T (Jwk_fields j) = Some hash → Digest SHA1 (Cert_Raw leaf) = hash
  | WithX5T hash j => ∀ leaf f, Jwk_X5C j !! 0 = Some (Some leaf) → hash = Some f → Digest SHA1 (Cert_Raw leaf) = f
  end.

(** Values that have a JSON form are written, whether they are consistent or not. *)
Definition writable (j : Jwk) : Prop := jwkFields_ok (Jwk_fields j) ∧ values_ok j.

Lemma group_written {S} (fs : list (field S)) zero m a : group_ok fs zero m a → ∃ ms, m = Ok ms.
Proof. intros (ms & Hm & _). by exists ms. Qed.

Lemma writable_written j : writable j → ∃ text, JwkToString j = Ok text.
Proof.
  intros [Hf Hv]. apply jwkFields_group, group_written in Hf as [m1 E1]. unfold JwkToString.
  enough (∃ doc, Jwk_MarshalJSON j = Ok doc) as [doc ->] by by eexists.
  destruct j as [k|k|k|k|k]; cbn [Jwk_fields values_ok Jwk_MarshalJSON] in *.
  - destruct Hv as [Hn He]. destruct (group_written _ _ _ _ (PublicRsaKeyFields_group _ Hn He)) as [m2 E2].
    unfold PublicRsaKey_MarshalJSON. rewrite E1, E2. by eexists.
  - destruct Hv as [[Hn He] Hp]. destruct (group_written _ _ _ _ (PublicRsaKeyFields_group _ Hn He)) as [m2 E2].
    destruct (group_written _ _ _ _ (PrivateRsaKeyFields_group _ Hp)) as [m3 E3].
    unfold PrivateRsaKey_MarshalJSON. rewrite E1, E2, E3. by eexists.
  - destruct (group_written _ _ _ _ (PublicEcKeyFields_group _ Hv)) as [m2 E2]. unfold PublicEcKey_MarshalJSON. rewrite E1, E2. by eexists.
  - destruct Hv as [Hp Hd]. destruct (group_written _ _ _ _ (PublicEcKeyFields_group _ Hp)) as [m2 E2].
    destruct (group_written _ _ _ _ (PrivateEcKeyFields_group _ Hd)) as [m3 E3].
    unfold PrivateEcKey_MarshalJSON. rewrite E1, E2, E3. by eexists.
  - destruct (group_written _ _ _ _ (OctSecretKeyFields_group _ Hv)) as [m2 E2]. unfold OctSecretKey_MarshalJSON. rewrite E1, E2. by eexists.
Qed.

Lemma certified_iff j : Forall Certificate_ok (KeyX5C (Jwk_fields j)) →
  certified j ↔ ∀ leaf, KeyX5C (Jwk_fields j) !! 0 = Some (Some leaf) → certifies leaf j.
Proof.
  intros Hx. split.
  - intros Hc leaf Hl. destruct (Hc _ Hl) as (leaf' & [= <-] & Hk). by destruct j as [[]|[[]]|[]|[[]]|].
  - intros Hc c Hl. assert (Certificate_ok c) as Hok by (rewrite list.Forall_forall in Hx; by apply Hx, (list_elem_of_lookup_2 _ 0)).
    destruct c as [leaf|]; [|done]. exists leaf. split; [done|]. specialize (Hc _ Hl). by destruct j as [[]|[[]]|[]|[[]]|].
Qed.

(** What an import asks for, of a JWK that is written. *)
Lemma imported_back j text : writable j → JwkToString j = Ok text → (slen text <= MaxJwksSize)%N →
  LoadJwk (s2b text) [] = Ok j ↔ distinct_ops (KeyOps (Jwk_fields j)) ∧ x5t_matches (Jwk_fields j) ∧
    ∀ leaf, KeyX5C (Jwk_fields j) !! 0 = Some (Some leaf) → certifies leaf j.
Proof.
  intros [Hf Hv] Ht Hsz. rewrite <- certified_iff by apply Hf. split.
  - intros (j' & Hu & Hj)%bind_Ok. cbn in Hj. injection Hj as ->. apply UnmarshalJwk_sound in Hu as (_ & Hl & Hn & Hx & Hc & _). by split_and!.
  - intros ([Hl Hn] & Hx & Hc). destruct (LoadJwk_JwkToString j []) as (text' & Ht' & Hload); [|by intros op ?%elem_of_nil|].
    + apply Jwk_ok_iff. split_and!; try done. by apply CheckConsistency_spec.
    + rewrite Ht in Ht'. injection Ht' as <-. by apply Hload.
Qed.

Lemma Jwk_ok_writable j : Jwk_ok j → writable j ∧ distinct_ops (KeyOps (Jwk_fields j)) ∧ x5t_matches (Jwk_fields j) ∧
  ∀ leaf, KeyX5C (Jwk_fields j) !! 0 = Some (Some leaf) → certifies leaf j.
Proof.
  rewrite Jwk_ok_iff. intros (Hf & (Hl & Hn & Hx)%CheckConsistency_spec & Hc & Hv). split_and!; try done.
  apply certified_iff; [apply Hf|done].
Qed.

(** The certificate of a key certifies the JWK that holds the key, and no other does. *)
Lemma certifies_held leaf j k : holds_public j k → (∀ o, j ≠ JOct o) → certifies leaf j ↔ Cert_PublicKey leaf = k.
Proof.
  destruct j as [[f v]|[[f v] p]|[f v]|[[f v] p]|o]; cbn; intros Hk Ho; try (by destruct (Ho o)); try (by rewrite Hk).
  all: destruct Hk as (crv & -> & Hcrv); split; [|intros ->; by eauto]; intros (c & Hc & [He|He]); rewrite Hc; rewrite He in Hcrv; [by destruct crv|];
    by destruct c, crv.
Qed.

(** Distinct operations have distinct inverses, but for those that have none. *)
Lemma inverse_ops_distinct ops : NoDup ops →
  NoDup (map inverseOps ops) ↔ ∀ op op', op ∈ ops → op' ∈ ops → no_inverse op → no_inverse op' → op = op'.
Proof.
  intros Hn. assert (no_inverse (inverseOps "")) as Hempty by by apply (bool_decide_unpack (no_inverse _)). split.
  - intros Hm op op' (i & Hi)%list_elem_of_lookup (i' & Hi')%list_elem_of_lookup Ho%inverseOps_none Ho'%inverseOps_none.
    assert (i = i') as ->; [|by simplify_eq]. eapply (NoDup_lookup _ i i' ""); [exact Hm|..].
    + change (map inverseOps ops) with (inverseOps <$> ops). by rewrite list_lookup_fmap, Hi, <- Ho.
    + change (map inverseOps ops) with (inverseOps <$> ops). by rewrite list_lookup_fmap, Hi', <- Ho'.
  - intros Hu. apply (NoDup_fmap_2_strong inverseOps); [|done]. intros op op' Hin Hin' He.
    destruct (decide (no_inverse op)) as [Ho|Ho], (decide (no_inverse op')) as [Ho'|Ho'].
    + by apply Hu.
    + rewrite (inverseOps_none op Ho) in He. rewrite <- (inverseOps_involutive op' Ho'), <- He in Ho'. by destruct (Ho' Hempty).
    + rewrite (inverseOps_none op' Ho') in He. rewrite <- (inverseOps_involutive op Ho), He in Ho. by destruct (Ho Hempty).
    + by rewrite <- (inverseOps_involutive op Ho), He, inverseOps_involutive.
Qed.

Definition accepted (j : Jwk) : Prop :=
  distinct_ops (KeyOps (Jwk_fields j)) ∧ x5t_matches (Jwk_fields j) ∧ ∀ leaf, KeyX5C (Jwk_fields j) !! 0 = Some (Some leaf) → certifies leaf j.

(** The constructors take operations and certificates as they are. *)
Lemma dressed_accepted ops certs k j : dressed ops certs k j → Forall (λ op, utf8 op = true) ops → Forall Certificate_ok certs → (∀ o, j ≠ JOct o) →
  writable j ∧ (accepted j ↔ distinct_ops ops ∧ ∀ leaf, certs !! 0 = Some (Some leaf) → Cert_PublicKey leaf = k).
Proof.
  intros (alg & kid & jz & -> & Ha & Hk & Hz & Hv & Hp) Hops Hc Ho. split.
  - split; [rewrite (dress_fields ops certs kid alg jz Hz); by split|by apply values_ok_dress].
  - apply (holds_public_dress ops certs kid alg) in Hp. unfold accepted. rewrite (dress_fields ops certs kid alg jz Hz). cbn [fresh_fields KeyOps KeyX5C].
    split; [intros (Hd & _ & Hl)|intros (Hd & Hl)]; split; try done; [|split].
    + intros leaf Hleaf. by apply (certifies_held _ _ _ Hp Ho), Hl.
    + by intros ? ? _.
    + intros leaf Hleaf. by apply (certifies_held _ _ _ Hp Ho), Hl.
Qed.

Lemma JwkFromKey_asymmetric (j : Jwk) : (∃ s ops certs, JwkFromPrivateKey s ops certs = Ok j) ∨ (∃ k ops certs, JwkFromPublicKey k ops certs = Ok j) → ∀ o, j ≠ JOct o.
Proof.
  intros Hj o ->. destruct Hj as [(s & ops & certs & Hj)|(k & ops & certs & Hj)].
  - unfold JwkFromPrivateKey in Hj. apply bind_Ok in Hj as (j0 & _ & Hj). apply bind_Ok in Hj as (pub & Hpub & Hj). apply bind_Ok in Hj as (kid & _ & [= Hj]).
    destruct (if (0 <? len certs)%N then _ else _); try done. 
  - unfold JwkFromPublicKey in Hj. apply bind_Ok in Hj as (j0 & Hj0 & Hj). apply bind_Ok in Hj as (kid & _ & [= Hj]).
    assert (∀ o', j0 ≠ JOct o') as Hn by (intros o' ->; destruct k; try done; by destruct (_ <? _)%Z). destruct (0 <? len certs)%N, j0; try done; by eapply Hn.
Qed.

(** The public half of a JWK: all that may go wrong is that two operations become one. *)
Lemma half_accepted jin j : PublicFromPrivate jin = Ok j → Jwk_ok jin → own_point jin →
  writable j ∧ (accepted j ↔ importable_making (PublicHalf jin)).
Proof.
  intros (Hp & Hof & Hf)%PublicFromPrivate_inv Hin Hown. pose proof (Jwk_ok_writable _ Hin) as ([Hfi Hvi] & [Hl Hn] & _ & Hci). pose proof Hfi as [_ _ Ha Hk Hx _].
  rewrite Jwk_X5C_id in Hf. unfold accepted, writable. rewrite Hf. cbn [KeyOps KeyX5C importable_making].
  assert (values_ok j ∧ ∀ leaf, certifies leaf jin → certifies leaf j) as [Hv Hc].
  { destruct jin as [|[[fi vi] pi]| |[[fi vi] pi]|], j as [[f v]| |[f v]| |]; try done; cbn in Hof, Hvi, Hown.
    - subst v. cbn. by split; [apply Hvi|].
    - destruct Hof as (c & x & y & Hcrv & Hpt & ->). rewrite (Hown _ _ _ Hcrv Hpt) in Hvi. split; [apply Hvi|].
      unfold PrivEc_pubfields in Hown. cbn in Hown. rewrite (Hown _ _ _ Hcrv Hpt). done. }
  split; [split; [split|]; try done; apply List.Forall_map, List.Forall_forall; intros op _; unfold inverseOps; by repeat case_bool_decide|].
  rewrite <- (inverse_ops_distinct _ Hn). split; [by intros ((_ & ?) & _)|]. intros Hd. split; [|split].
  - split; [|exact Hd]. unfold len in *. by rewrite List.length_map.
  - by intros ? ? _.
  - intros leaf Hleaf. by apply Hc, Hci.
Qed.

(** A setter changes one of the common fields and nothing else. *)
Lemma certifies_update g leaf j : certifies leaf (Jwk_update g j) ↔ certifies leaf j.
Proof. by destruct j as [[]|[[]]|[]|[[]]|]. Qed.
Lemma values_ok_update g j : values_ok (Jwk_update g j) ↔ values_ok j.
Proof. by destruct j as [[]|[[]]|[]|[[]]|]. Qed.

Lemma set_accepted g j : Jwk_ok j → jwkFields_ok (g (Jwk_fields j)) → 
  writable (Jwk_update g j) ∧ (accepted (Jwk_update g j) ↔ distinct_ops (KeyOps (g (Jwk_fields j))) ∧ x5t_matches (g (Jwk_fields j)) ∧
    ∀ leaf, KeyX5C (g (Jwk_fields j)) !! 0 = Some (Some leaf) → certifies leaf j).
Proof.
  intros ([_ Hv] & _)%Jwk_ok_writable Hg. unfold writable, accepted. rewrite Jwk_update_fields, values_ok_update. split; [done|].
  by setoid_rewrite certifies_update.
Qed.

(** Certificates are added behind those that are there. *)
Lemma certificates_added j certs : Forall Certificate_ok certs → distinct_ops (KeyOps (Jwk_fields j)) → x5t_matches (Jwk_fields j) →
  (∀ leaf, KeyX5C (Jwk_fields j) !! 0 = Some (Some leaf) → certifies leaf j) →
  distinct_ops (KeyOps (Jwk_fields j)) ∧ x5t_matches (jwkFields_SetX5C certs (Jwk_fields j)) ∧
    (∀ leaf, KeyX5C (jwkFields_SetX5C certs (Jwk_fields j)) !! 0 = Some (Some leaf) → certifies leaf j) ↔
  ∀ leaf, KeyX5C (Jwk_fields j) = [] → certs !! 0 = Some (Some leaf) →
    certifies leaf j ∧ ∀ hash, KeyX5T (Jwk_fields j) = Some hash → Digest SHA1 (Cert_Raw leaf) = hash.
Proof.
  intros Hv Hd Hx Hc. unfold x5t_matches, jwkFields_SetX5C, set_KeyX5C in *. cbn [KeyX5C KeyX5T].
  destruct (KeyX5C (Jwk_fields j)) as [|c0 cs]; [cbn [app]|split; [done|]; intros _; by split; [|split]]. split.
  - intros (_ & Hx' & Hc') leaf _ Hleaf. split; [by apply Hc'|]. intros hash Hh. by destruct (Hx' _ _ Hleaf Hh) as (? & [= <-] & ?).
  - intros Hi. split; [done|]. split; [|intros leaf Hleaf; by apply Hi]. intros c hash Hl Hh.
    assert (Certificate_ok c) as Hok by (rewrite list.Forall_forall in Hv; by apply Hv, (list_elem_of_lookup_2 _ 0)).
    destruct c as [leaf|]; [|done]. exists leaf. split; [done|]. by apply (Hi leaf).
Qed.

(** What is put into a JWK decides whether it can be imported. *)
Lemma make_accepted m j : make m = Ok j → has_form m → writable j ∧ (accepted j ↔ importable_making m).
Proof.
  destruct m as [s ops certs|k ops certs|key alg|jin|v jin|v jin|v jin|v jin|v jin|v jin]; cbn [make has_form].
  - intros Hj (Hk & Hfit & Hops & Hc). apply dressed_accepted; try done; [by apply JwkFromPrivateKey_dressed|]. apply JwkFromKey_asymmetric. left. by eexists _, _, _.
  - intros Hj (Hk & Hops & Hc). apply dressed_accepted; try done; [by apply JwkFromPublicKey_dressed|]. apply JwkFromKey_asymmetric. right. by eexists _, _, _.
  - intros (Hw & Ha)%JwkFromSymmetric_ok%Jwk_ok_writable _. split; [exact Hw|by split].
  - intros Hj [Hin Hown]. by apply half_accepted.
  - intros [= <-] [Hin Hv]. pose proof (Jwk_ok_writable _ Hin) as ([Hf _] & _ & Hx & Hc). pose proof Hf as [? ? ? ? ? ?].
    destruct (set_accepted (jwkFields_SetOps v) jin Hin) as [Hw ->]; [by split|]. split; [exact Hw|]. cbn. tauto.
  - intros [= <-] [Hin Hv]. pose proof (Jwk_ok_writable _ Hin) as ([Hf _] & Ha). pose proof Hf as [? ? ? ? ? ?].
    destruct (set_accepted (jwkFields_SetAlg v) jin Hin) as [Hw ->]; [by split|]. split; [exact Hw|by split].
  - intros [= <-] [Hin Hv]. pose proof (Jwk_ok_writable _ Hin) as ([Hf _] & Ha). pose proof Hf as [? ? ? ? ? ?].
    destruct (set_accepted (jwkFields_SetKid v) jin Hin) as [Hw ->]; [by split|]. split; [exact Hw|by split].
  - intros [= <-] [Hin Hv]. pose proof (Jwk_ok_writable _ Hin) as ([Hf _] & Ha). pose proof Hf as [? ? ? ? ? ?].
    destruct (set_accepted (jwkFields_SetUse v) jin Hin) as [Hw ->]; [by split|]. split; [exact Hw|by split].
  - intros [= <-] [Hin Hv]. pose proof (Jwk_ok_writable _ Hin) as ([Hf _] & Hd & Hx & Hc). pose proof Hf as [? ? ? ? ? ?].
    destruct (set_accepted (jwkFields_SetX5C v) jin Hin) as [Hw ->]; [split; try done; by apply Forall_app|]. split; [exact Hw|].
    cbn [importable_making KeyOps]. rewrite Jwk_X5C_id. by apply certificates_added.
  - intros [= <-] [Hin Hv]. pose proof (Jwk_ok_writable _ Hin) as ([Hf _] & Hd & Hx & Hc). pose proof Hf as [? ? ? ? Hxs ?].
    destruct (set_accepted (jwkFields_SetX5T v) jin Hin) as [Hw ->]; [by split|]. split; [exact Hw|].
    cbn [importable_making jwkFields_SetX5T KeyOps KeyX5C]. rewrite Jwk_X5C_id. unfold x5t_matches. cbn [KeyX5C KeyX5T]. split.
    + intros (_ & Hx' & _) leaf f Hleaf Hf'. by destruct (Hx' _ _ Hleaf Hf') as (? & [= <-] & ?).
    + intros Hi. split_and!; [done..| |done]. intros c f Hl Hf'. 
      assert (Certificate_ok c) as Hok by (rewrite list.Forall_forall in Hxs; by apply Hxs, (list_elem_of_lookup_2 _ 0)).
      destruct c as [leaf|]; [|done]. exists leaf. split; [done|]. by apply (Hi leaf).
Qed.

(** C23. What the constructors, the public halves and the setters of the library make can be
    written; and it is imported again as the same JWK exactly if what was put in would
    pass the checks of the import, which the makers themselves leave out: the operations
    are distinct and not too many, and the first certificate is for the key and, where
    there is a thumb-print, the one that it names.  Symmetric keys always are, and a public
    half is unless two operations of the private key have no inverse. *)
Theorem made_imports m j : make m = Ok j → has_form m →
  ∃ text, JwkToString j = Ok text ∧ ((slen text <= MaxJwksSize)%N → LoadJwk (s2b text) [] = Ok j ↔ importable_making m).
Proof.
  intros Hm Hf. destruct (make_accepted m j Hm Hf) as [Hw Ha]. destruct (writable_written j Hw) as [text Ht]. exists text.
  split; [exact Ht|]. intros Hsz. rewrite <- Ha. by apply imported_back.
Qed.
End made.
