(* ===== verification/Keys.v ===== *)
(** [signer.go], [verifier.go], [ecdsa_signer.go], [ecdsa_verifier.go],
    [rsa_private.go] and [rsa_public.go]: the keys that sign, verify, encrypt and
    decrypt.

    Key objects hold a pointer to the JWK they were made from, which the caller can
    still change, and [NewVerificationKey] changes it itself.  JWKs therefore live
    in a [heap]; a method that reads the JWK takes the heap it runs in.
    [MarshalPem] and [Key] are in [Pem]. *)

From S2P Require Import Prelude Errors Base64 Json JsonFacts JsonCodec Types Crypto Jwk Jws Helpers.

(** ** The heap of JWKs *)
Abbreviation ref := positive.
Abbreviation heap := (gmap positive Jwk).

(** Using a pointer to nothing panics. *)
Definition deref (h : heap) (l : ref) : result Jwk := match h !! l with Some j => Ok j | None => Panic end.
Definition new_ref (h : heap) : ref := fresh (dom h).
Definition alloc (j : Jwk) (h : heap) : ref * heap := (new_ref h, <[new_ref h := j]> h).

Definition validSignerOps : list Types.KeyOps := [KeyOpsSign].
Definition validVerificationOps : list Types.KeyOps := [KeyOpsVerify].
Definition validEncryptionOps : list Types.KeyOps := [KeyOpsEncrypt].
Definition validDecryptionOps : list Types.KeyOps := [KeyOpsDecrypt].

Definition pssAlgs (alg : Alg) : bool := bool_decide (alg ∈ [AlgPS256; AlgPS384; AlgPS512]).

(** [copy(make([]byte, n)[n-len(b):], b)]: slicing from below zero panics. *)
Definition pad_left (n : N) (b : bytes) : result bytes :=
  if (n <? len b)%N then Panic else Ok (replicate (N.to_nat (n - len b)) x00 ++ b).

Section keys.
Context `{X509, Digests, Rsa, Ecdsa, Signers}.

(** ** Key objects *)
Record SigningKeyImpl := {
  Ski_jwk : ref;
  Ski_key : Signer;
  Ski_certs : list (option x509_Certificate);
  Ski_ops : list Types.KeyOps;
  Ski_alg : Alg;
}.
Record ECDSASigningKey := {
  Esk_jwk : ref;
  Esk_key : Signer;
  Esk_certs : list (option x509_Certificate);
  Esk_ops : list Types.KeyOps;
  Esk_alg : Alg;
}.
Record RsaPrivateKeyImpl := {
  Rpk_jwk : ref;
  Rpk_key : RsaPrivateKey;
  Rpk_ops : list Types.KeyOps;
  Rpk_alg : Alg;
}.
Record RsaPublicKeyImpl := {
  Rpub_key : RsaPublicKey;
  Rpub_jwk : ref;
  Rpub_ops : list Types.KeyOps;
  Rpub_alg : Alg;
}.
Record ECVerificationKeyImpl := {
  Evk_key : EcdsaPublicKey;
  Evk_jwk : ref;
  Evk_ops : list Types.KeyOps;
  Evk_alg : Alg;
}.

(** The interface values [SigningKey] and [VerificationKey]. *)
Inductive SigningKey :=
  | SKImpl (k : SigningKeyImpl)
  | SKEcdsa (k : ECDSASigningKey)
  | SKRsa (k : RsaPrivateKeyImpl).
Inductive VerificationKey :=
  | VKRsa (k : RsaPublicKeyImpl)
  | VKEc (k : ECVerificationKeyImpl).

(** ** [verifier.go] *)
(** The algorithm of an RSA certificate, for a JWK without one. *)
Definition cert_alg (alg : SignatureAlgorithm) : option Alg :=
  match alg with
  | SHA256WithRSA => Some AlgRS256
  | SHA384WithRSA => Some AlgRS384
  | SHA512WithRSA => Some AlgRS512
  | SHA256WithRSAPSS => Some AlgPS256
  | SHA384WithRSAPSS => Some AlgPS384
  | SHA512WithRSAPSS => Some AlgPS512
  | OtherSignatureAlgorithm => None
  end.

Definition fallback_alg (jwk : Jwk) : result Jwk :=
  if str_empty (Jwk_Alg jwk) then
    match Jwk_X5C jwk with
    | [] => Ok jwk
    | None :: _ => Panic
    | Some cert :: _ =>
      Ok (match cert_alg (Cert_SignatureAlgorithm cert) with Some alg => Jwk_SetAlg alg jwk | None => jwk end)
    end
  else Ok jwk.

Definition is_rsa_signature_alg (alg : Alg) : bool :=
  bool_decide (alg ∈ [AlgPS256; AlgPS384; AlgPS512; AlgRS256; AlgRS384; AlgRS512]).
Definition is_ec_signature_alg (alg : Alg) : bool := bool_decide (alg ∈ [AlgES256; AlgES384; AlgES512]).

Definition NewVerificationKey (h : heap) (l : ref) : result VerificationKey * heap :=
  match deref h l with
  | Ok jwk =>
    let ops := if (0 <? len (Jwk_Ops jwk))%N then intersection validVerificationOps (Jwk_Ops jwk) else validVerificationOps in
    if (len ops =? 0)%N then (gose_err Gose.ErrInvalidOperations, h)
    else
      match jwk with
      | JPublicRsa v =>
        match fallback_alg jwk with
        | Ok jwk' =>
          let h := <[l := jwk']> h in
          if is_rsa_signature_alg (Jwk_Alg jwk') then
            let pub := PubRsa_fields v in
            if (32 <? BitLen (Rsa_E pub))%N || (Rsa_E pub <? 1)%N then (gose_err Gose.ErrInvalidExponent, h)
            else if (BitLen (Rsa_N pub) <? MinRsaModulusBits)%N then (gose_err Gose.ErrInvalidKeySize, h)
            else
              let jwk'' := Jwk_SetOps ops jwk' in
              (Ok (VKRsa {| Rpub_key := {| RsaPub_N := Rsa_N pub; RsaPub_E := exponent (Rsa_E pub) |};
                            Rpub_jwk := l; Rpub_ops := cloneOps ops; Rpub_alg := Jwk_Alg jwk'' |}),
               <[l := jwk'']> h)
          else (gose_err Gose.ErrUnsupportedKeyType, h)
        | Err e => (Err e, h)
        | Panic => (Panic, h)
        end
      | JPublicEc v =>
        if negb (is_ec_signature_alg (Jwk_Alg jwk)) then (gose_err Gose.ErrUnsupportedKeyType, h)
        else
          match algToOptsMap (Jwk_Alg jwk) with
          | Some (OptsECDSA opts) =>
            (Ok (VKEc {| Evk_key := {| EcPub_Curve := curve opts; EcPub_X := Ec_X (PubEc_fields v); EcPub_Y := Ec_Y (PubEc_fields v) |};
                         Evk_jwk := l; Evk_ops := cloneOps ops; Evk_alg := Jwk_Alg jwk |}), h)
          | _ => (Panic, h)
          end
      | _ => (gose_err Gose.ErrUnsupportedKeyType, h)
      end
  | Err e => (Err e, h)
  | Panic => (Panic, h)
  end.

(** ** [signer.go] *)
Definition NewSigningKey (h : heap) (l : ref) (required : list Types.KeyOps) : result SigningKey :=
  jwk ← deref h l;
  let ops := intersection validSignerOps (Jwk_Ops jwk) in
  if (len ops =? 0)%N then gose_err Gose.ErrInvalidOperations
  else
    _ ← signerOptsForAlg (Jwk_Alg jwk);
    k ← LoadPrivateKey jwk required;
    match jwk with
    | JPrivateRsa _ =>
      Ok (SKImpl {| Ski_jwk := l; Ski_key := k; Ski_certs := Jwk_X5C jwk; Ski_ops := cloneOps (Jwk_Ops jwk); Ski_alg := Jwk_Alg jwk |})
    | JPrivateEc _ =>
      Ok (SKEcdsa {| Esk_jwk := l; Esk_key := k; Esk_certs := Jwk_X5C jwk; Esk_ops := cloneOps (Jwk_Ops jwk); Esk_alg := Jwk_Alg jwk |})
    | _ => gose_err Gose.ErrInvalidKeyType
    end.

Definition SigningKeyImpl_Operations (signer : SigningKeyImpl) : list Types.KeyOps := cloneOps (Ski_ops signer).
Definition SigningKeyImpl_Kid (h : heap) (signer : SigningKeyImpl) : result string := Jwk_Kid <$> deref h (Ski_jwk signer).
Definition SigningKeyImpl_Jwk (h : heap) (signer : SigningKeyImpl) : result Jwk := deref h (Ski_jwk signer).
Definition SigningKeyImpl_Algorithm (signer : SigningKeyImpl) : Alg := Ski_alg signer.
Definition SigningKeyImpl_Marshal (h : heap) (signer : SigningKeyImpl) : result string :=
  jwk ← deref h (Ski_jwk signer); JwkToString jwk.
Definition SigningKeyImpl_Certificates (signer : SigningKeyImpl) := Ski_certs signer.

Definition SigningKeyImpl_Sign (rand : tape) (signer : SigningKeyImpl) (requested : Types.KeyOps) (data : bytes) : result bytes :=
  let ops := intersection validSignerOps (Ski_ops signer) in
  if negb (isSubset ops [requested]) then gose_err Gose.ErrInvalidOperations
  else
    opts ← signerOptsForAlg (Ski_alg signer);
    digest ← hash_sum (HashFunc opts) data;
    Signer_Sign rand (Ski_key signer) digest opts.

(** [PublicFromPrivate] returns a new JWK. *)
Definition verifier_for (h : heap) (l : ref) : result VerificationKey * heap :=
  match deref h l ≫= PublicFromPrivate with
  | Ok publicJwk => let '(l', h') := alloc publicJwk h in NewVerificationKey h' l'
  | Err e => (Err e, h)
  | Panic => (Panic, h)
  end.
Definition SigningKeyImpl_Verifier (h : heap) (signer : SigningKeyImpl) : result VerificationKey * heap :=
  verifier_for h (Ski_jwk signer).

(** ** [ecdsa_signer.go] *)
Definition ECDSASigningKey_Algorithm (signer : ECDSASigningKey) : Alg := Esk_alg signer.
Definition ECDSASigningKey_Kid (h : heap) (signer : ECDSASigningKey) : result string := Jwk_Kid <$> deref h (Esk_jwk signer).
Definition ECDSASigningKey_Marshal (h : heap) (signer : ECDSASigningKey) : result string :=
  jwk ← deref h (Esk_jwk signer); JwkToString jwk.
Definition ECDSASigningKey_Certificates (signer : ECDSASigningKey) := Esk_certs signer.
Definition ECDSASigningKey_Jwk (h : heap) (signer : ECDSASigningKey) : result Jwk :=
  jwk ← deref h (Esk_jwk signer); JwkFromPrivateKey (Esk_key signer) (Jwk_Ops jwk) (Esk_certs signer).
Definition ECDSASigningKey_Verifier (h : heap) (signer : ECDSASigningKey) : result VerificationKey * heap :=
  verifier_for h (Esk_jwk signer).

Definition ECDSASigningKey_Sign (rand : tape) (signer : ECDSASigningKey) (requested : Types.KeyOps) (data : bytes) : result bytes :=
  let ops := intersection validSignerOps (Esk_ops signer) in
  if negb (isSubset ops [requested]) then gose_err Gose.ErrInvalidOperations
  else
    opts ← signerOptsForAlg (Esk_alg signer);
    if negb (Hash_Available (HashFunc opts)) then gose_err Gose.ErrHashUnavailable
    else
      digest ← hash_sum (HashFunc opts) data;
      match Esk_key signer with
      | SignerECDSA key =>
        '(r, s) ← ecdsa_Sign rand key digest;
        let bits := Curve_BitSize (EcPub_Curve (EcPriv_Pub key)) in
        match opts with
        | OptsECDSA options =>
          if negb (curveBits options =? bits)%N then gose_err Gose.ErrInvalidKey
          else
            let keyBytes := ((bits + 7) / 8)%N in
            rBytesPadded ← pad_left keyBytes (be_bytes r);
            sBytesPadded ← pad_left keyBytes (be_bytes s);
            Ok (rBytesPadded ++ sBytesPadded)
        | _ => Panic
        end
      | _ => Panic
      end.

(** ** [ecdsa_verifier.go] *)
Definition ECVerificationKeyImpl_Algorithm (verifier : ECVerificationKeyImpl) : Alg := Evk_alg verifier.
Definition ECVerificationKeyImpl_Kid (h : heap) (verifier : ECVerificationKeyImpl) : result string := Jwk_Kid <$> deref h (Evk_jwk verifier).
Definition ECVerificationKeyImpl_Jwk (h : heap) (verifier : ECVerificationKeyImpl) : result Jwk := deref h (Evk_jwk verifier).
Definition ECVerificationKeyImpl_Certificates (h : heap) (verifier : ECVerificationKeyImpl) := Jwk_X5C <$> deref h (Evk_jwk verifier).
Definition ECVerificationKeyImpl_Marshal (h : heap) (verifier : ECVerificationKeyImpl) : result string :=
  jwk ← deref h (Evk_jwk verifier); JwkToString jwk.

Definition ECVerificationKeyImpl_Verify (verifier : ECVerificationKeyImpl) (operation : Types.KeyOps) (data signature : bytes) : result bool :=
  let ops := intersection validVerificationOps (Evk_ops verifier) in
  if negb (isSubset ops [operation]) then Ok false
  else
    match algToOptsMap (Evk_alg verifier) with
    | Some (OptsECDSA opts) =>
      let keySize := keySizeBytes opts in
      if negb (len signature =? 2 * keySize)%N then Ok false
      else
        let r := be_to_N (take (N.to_nat keySize) signature) in
        let s := be_to_N (drop (N.to_nat keySize) signature) in
        if negb (Hash_Available (EO_Hash opts)) then Ok false
        else
          digest ← hash_sum (ECDSAOptions_HashFunc opts) data;
          Ok (ecdsa_Verify (Evk_key verifier) digest r s)
    | _ => Panic
    end.

(** ** [rsa_public.go] *)
Definition RsaPublicKeyImpl_Kid (h : heap) (k : RsaPublicKeyImpl) : result string := Jwk_Kid <$> deref h (Rpub_jwk k).
Definition RsaPublicKeyImpl_Algorithm (k : RsaPublicKeyImpl) : Alg := Rpub_alg k.
Definition RsaPublicKeyImpl_Certificates (h : heap) (k : RsaPublicKeyImpl) := Jwk_X5C <$> deref h (Rpub_jwk k).
Definition RsaPublicKeyImpl_Jwk (h : heap) (k : RsaPublicKeyImpl) : result Jwk :=
  cur ← deref h (Rpub_jwk k);
  jwk ← JwkFromPublicKey (PubRSA (Rpub_key k)) (cloneOps (Rpub_ops k)) (Jwk_X5C cur);
  Ok (Jwk_SetAlg (Rpub_alg k) jwk).
Definition RsaPublicKeyImpl_Marshal (h : heap) (k : RsaPublicKeyImpl) : result string :=
  jwk ← RsaPublicKeyImpl_Jwk h k; JwkToString jwk.

Definition RsaPublicKeyImpl_Verify (k : RsaPublicKeyImpl) (operation : Types.KeyOps) (data signature : bytes) : result bool :=
  let ops := intersection validVerificationOps (Rpub_ops k) in
  if negb (isSubset ops [operation]) then Ok false
  else
    match algToOptsMap (Rpub_alg k) with
    | None => Ok false
    | Some opts =>
      digest ← hash_sum (HashFunc opts) data;
      if pssAlgs (Rpub_alg k) then
        match opts with
        | OptsPSS o => Ok (rsa_VerifyPSS (Rpub_key k) (HashFunc opts) digest signature o)
        | _ => Panic
        end
      else Ok (rsa_VerifyPKCS1v15 (Rpub_key k) (HashFunc opts) digest signature)
    end.

(** [hash.New()] panics for a hash that is not linked. *)
Definition RsaPublicKeyImpl_Encrypt (rand : tape) (k : RsaPublicKeyImpl) (requested : Types.KeyOps) (hash : Hash) (data : bytes)
    : result (bytes * tape) :=
  let ops := intersection validEncryptionOps (Rpub_ops k) in
  if negb (isSubset ops [requested]) then gose_err Gose.ErrInvalidOperations
  else if Hash_Available hash then rsa_EncryptOAEP hash rand (Rpub_key k) data
  else Panic.

Definition NewRsaPublicKeyImpl (h : heap) (l : ref) : result RsaPublicKeyImpl :=
  jwk ← deref h l;
  publicKey ← LoadPublicKey jwk [];
  match publicKey with
  | PubRSA rsaKey => Ok {| Rpub_key := rsaKey; Rpub_jwk := l; Rpub_ops := cloneOps (Jwk_Ops jwk); Rpub_alg := Jwk_Alg jwk |}
  | _ => gose_err Gose.ErrInvalidKeyType
  end.

(** ** [rsa_private.go] *)
Definition RsaPrivateKeyImpl_Operations (rsaKey : RsaPrivateKeyImpl) : list Types.KeyOps := cloneOps (Rpk_ops rsaKey).
Definition RsaPrivateKeyImpl_Kid (h : heap) (rsaKey : RsaPrivateKeyImpl) : result string := Jwk_Kid <$> deref h (Rpk_jwk rsaKey).
Definition RsaPrivateKeyImpl_Jwk (h : heap) (rsaKey : RsaPrivateKeyImpl) : result Jwk := deref h (Rpk_jwk rsaKey).
Definition RsaPrivateKeyImpl_Algorithm (rsaKey : RsaPrivateKeyImpl) : Alg := Rpk_alg rsaKey.
Definition RsaPrivateKeyImpl_Certificates (h : heap) (rsaKey : RsaPrivateKeyImpl) := Jwk_X5C <$> deref h (Rpk_jwk rsaKey).
Definition RsaPrivateKeyImpl_Marshal (h : heap) (rsaKey : RsaPrivateKeyImpl) : result string :=
  jwk ← deref h (Rpk_jwk rsaKey); JwkToString jwk.

Definition RsaPrivateKeyImpl_Sign (rand : tape) (rsaKey : RsaPrivateKeyImpl) (requested : Types.KeyOps) (data : bytes) : result bytes :=
  let ops := intersection validSignerOps (Rpk_ops rsaKey) in
  if negb (isSubset ops [requested]) then gose_err Gose.ErrInvalidOperations
  else
    opts ← signerOptsForAlg (Rpk_alg rsaKey);
    digest ← hash_sum (HashFunc opts) data;
    rsa_Sign rand (Rpk_key rsaKey) digest opts.

Definition RsaPrivateKeyImpl_Decrypt (rsaKey : RsaPrivateKeyImpl) (requested : Types.KeyOps) (hash : Hash) (ciphertext : bytes) : result bytes :=
  let ops := intersection validDecryptionOps (Rpk_ops rsaKey) in
  if negb (isSubset ops [requested]) then gose_err Gose.ErrInvalidOperations
  else if Hash_Available hash then rsa_DecryptOAEP hash (Rpk_key rsaKey) ciphertext
  else Panic.

Definition RsaPrivateKeyImpl_publicKey (h : heap) (rsaKey : RsaPrivateKeyImpl) : result RsaPublicKeyImpl * heap :=
  match deref h (Rpk_jwk rsaKey) ≫= PublicFromPrivate with
  | Ok publicJwk =>
    let '(l', h') := alloc publicJwk h in
    (Ok {| Rpub_key := RsaPriv_Pub (Rpk_key rsaKey); Rpub_jwk := l';
           Rpub_ops := cloneOps (Jwk_Ops publicJwk); Rpub_alg := Jwk_Alg publicJwk |}, h')
  | Err e => (Err e, h)
  | Panic => (Panic, h)
  end.
Definition RsaPrivateKeyImpl_Verifier (h : heap) (rsaKey : RsaPrivateKeyImpl) : result VerificationKey * heap :=
  let '(k, h') := RsaPrivateKeyImpl_publicKey h rsaKey in (VKRsa <$> k, h').
Definition RsaPrivateKeyImpl_Encryptor (h : heap) (rsaKey : RsaPrivateKeyImpl) : result RsaPublicKeyImpl * heap :=
  RsaPrivateKeyImpl_publicKey h rsaKey.

Definition NewRsaDecryptionKey (h : heap) (l : ref) : result RsaPrivateKeyImpl :=
  jwk ← deref h l;
  signer ← LoadPrivateKey jwk [KeyOpsDecrypt];
  match signer with
  | SignerRSA rsaKey => Ok {| Rpk_jwk := l; Rpk_key := rsaKey; Rpk_ops := cloneOps (Jwk_Ops jwk); Rpk_alg := Jwk_Alg jwk |}
  | _ => gose_err Gose.ErrInvalidKeyType
  end.

(** ** The interfaces' methods *)
Definition SigningKey_Kid (h : heap) (k : SigningKey) : result string :=
  match k with
  | SKImpl k => SigningKeyImpl_Kid h k
  | SKEcdsa k => ECDSASigningKey_Kid h k
  | SKRsa k => RsaPrivateKeyImpl_Kid h k
  end.
Definition SigningKey_Algorithm (k : SigningKey) : Alg :=
  match k with
  | SKImpl k => SigningKeyImpl_Algorithm k
  | SKEcdsa k => ECDSASigningKey_Algorithm k
  | SKRsa k => RsaPrivateKeyImpl_Algorithm k
  end.
Definition SigningKey_Sign (rand : tape) (k : SigningKey) (requested : Types.KeyOps) (data : bytes) : result bytes :=
  match k with
  | SKImpl k => SigningKeyImpl_Sign rand k requested data
  | SKEcdsa k => ECDSASigningKey_Sign rand k requested data
  | SKRsa k => RsaPrivateKeyImpl_Sign rand k requested data
  end.
Definition SigningKey_Verifier (h : heap) (k : SigningKey) : result VerificationKey * heap :=
  match k with
  | SKImpl k => SigningKeyImpl_Verifier h k
  | SKEcdsa k => ECDSASigningKey_Verifier h k
  | SKRsa k => RsaPrivateKeyImpl_Verifier h k
  end.
Definition VerificationKey_Kid (h : heap) (k : VerificationKey) : result string :=
  match k with VKRsa k => RsaPublicKeyImpl_Kid h k | VKEc k => ECVerificationKeyImpl_Kid h k end.
Definition VerificationKey_Algorithm (k : VerificationKey) : Alg :=
  match k with VKRsa k => RsaPublicKeyImpl_Algorithm k | VKEc k => ECVerificationKeyImpl_Algorithm k end.
Definition VerificationKey_Verify (k : VerificationKey) (operation : Types.KeyOps) (data signature : bytes) : result bool :=
  match k with
  | VKRsa k => RsaPublicKeyImpl_Verify k operation data signature
  | VKEc k => ECVerificationKeyImpl_Verify k operation data signature
  end.

(** [MarshalableKey] and the certificates of [CertifiableKey]. *)
Definition SigningKey_Jwk (h : heap) (k : SigningKey) : result Jwk :=
  match k with
  | SKImpl k => SigningKeyImpl_Jwk h k
  | SKEcdsa k => ECDSASigningKey_Jwk h k
  | SKRsa k => RsaPrivateKeyImpl_Jwk h k
  end.
Definition SigningKey_Marshal (h : heap) (k : SigningKey) : result string :=
  match k with
  | SKImpl k => SigningKeyImpl_Marshal h k
  | SKEcdsa k => ECDSASigningKey_Marshal h k
  | SKRsa k => RsaPrivateKeyImpl_Marshal h k
  end.
Definition SigningKey_Certificates (h : heap) (k : SigningKey) : result (list (option x509_Certificate)) :=
  match k with
  | SKImpl k => Ok (SigningKeyImpl_Certificates k)
  | SKEcdsa k => Ok (ECDSASigningKey_Certificates k)
  | SKRsa k => RsaPrivateKeyImpl_Certificates h k
  end.
Definition VerificationKey_Jwk (h : heap) (k : VerificationKey) : result Jwk :=
  match k with VKRsa k => RsaPublicKeyImpl_Jwk h k | VKEc k => ECVerificationKeyImpl_Jwk h k end.
Definition VerificationKey_Marshal (h : heap) (k : VerificationKey) : result string :=
  match k with VKRsa k => RsaPublicKeyImpl_Marshal h k | VKEc k => ECVerificationKeyImpl_Marshal h k end.
Definition VerificationKey_Certificates (h : heap) (k : VerificationKey) : result (list (option x509_Certificate)) :=
  match k with VKRsa k => RsaPublicKeyImpl_Certificates h k | VKEc k => ECVerificationKeyImpl_Certificates h k end.
End keys.
