(* ===== verification/KeysFacts.v ===== *)
(** Properties of [Keys]: who may sign, verify, encrypt and decrypt; that what a
    key signs its verifier accepts; and the encoding of ECDSA signatures. *)

From S2P Require Import Prelude Errors Base64 Json JsonFacts JsonCodec Types Crypto Jwk JwkFacts Jws JwsFacts Helpers HelpersFacts Keys.

(** ** Fixed-width integers *)
Lemma be_to_N_replicate k : be_to_N (replicate k x00) = 0%N.
Proof.
  induction k as [|k IH]; [done|]. replace (S k) with (k + 1) by lia.
  rewrite replicate_add, be_to_N_app, IH. done.
Qed.

Lemma pad_left_be_bytes n x : (x < 256 ^ n)%N → pad_left n (be_bytes x) = Ok (be_fixed (N.to_nat n) x).
Proof.
  intros Hx. unfold pad_left.
  assert (length (be_bytes x) <= N.to_nat n) as Hl by (apply be_bytes_length_le; by rewrite N2Nat.id).
  replace (n <? len (be_bytes x))%N with false by (unfold len; lia). f_equal. apply be_to_N_inj.
  - rewrite length_app, length_replicate, be_fixed_length. unfold len. lia.
  - rewrite be_to_N_app, be_to_N_replicate, be_to_N_bytes, be_to_N_fixed, N2Nat.id, N.mod_small by done. lia.
Qed.

Lemma Curve_N_bound c : (Curve_N c < 256 ^ ((Curve_BitSize c + 7) / 8))%N.
Proof. by destruct c. Qed.

(** ** Algorithm tables *)
(** The options of every algorithm are fit for its family. *)
Lemma algToOptsMap_spec alg :
  match algToOptsMap alg with
  | Some (OptsPSS o) => alg ∈ [AlgPS256; AlgPS384; AlgPS512] ∧ Hash_Available (PSS_Hash o) = true
  | Some (OptsHash x) => alg ∈ [AlgRS256; AlgRS384; AlgRS512] ∧ Hash_Available x = true
  | Some (OptsECDSA o) => alg ∈ [AlgES256; AlgES384; AlgES512] ∧ Hash_Available (EO_Hash o) = true ∧
      curveBits o = Curve_BitSize (curve o) ∧ keySizeBytes o = ((curveBits o + 7) / 8)%N
  | None => alg ∉ [AlgPS256; AlgPS384; AlgPS512; AlgRS256; AlgRS384; AlgRS512; AlgES256; AlgES384; AlgES512]
  end.
Proof.
  unfold algToOptsMap. repeat (case_bool_decide; [subst; split_and?; by apply (bool_decide_unpack _)|]).
  rewrite !elem_of_cons, elem_of_nil. naive_solver.
Qed.

Lemma opts_available alg opts : algToOptsMap alg = Some opts → Hash_Available (HashFunc opts) = true.
Proof. intros Ho. pose proof (algToOptsMap_spec alg) as Ha. rewrite Ho in Ha. destruct opts; naive_solver. Qed.

Lemma opts_digest `{Digests} alg opts data : algToOptsMap alg = Some opts →
  hash_sum (HashFunc opts) data = Ok (Digest (HashFunc opts) data).
Proof. intros Ho. by apply hash_sum_Ok, (opts_available alg). Qed.

Lemma signerOptsForAlg_Ok alg opts : signerOptsForAlg alg = Ok opts ↔ algToOptsMap alg = Some opts.
Proof. unfold signerOptsForAlg. destruct (algToOptsMap alg); split; intros ?; simplify_eq; done. Qed.

Lemma pssAlgs_spec alg o : algToOptsMap alg = Some o → pssAlgs alg = true ↔ ∃ p, o = OptsPSS p.
Proof.
  intros Ho. pose proof (algToOptsMap_spec alg) as Ha. rewrite Ho in Ha. unfold pssAlgs. rewrite bool_decide_eq_true.
  destruct o; [|naive_solver|]; destruct Ha as [Ha _]; rewrite !elem_of_cons, elem_of_nil in *;
    (split; [intros Hp; exfalso|by intros [? ?]]); destruct Hp as [->|[->|[->|[]]]]; by destruct Ha as [?|[?|[?|[]]]].
Qed.

Lemma unauthorised op ops requested :
  isSubset (intersection [op] ops) [requested] = false → ¬ (requested = op ∧ op ∈ ops).
Proof. intros Hs [Hr Ho]. by rewrite (proj2 (authorised op ops requested)) in Hs. Qed.

Lemma new_ref_fresh (h : heap) : h !! new_ref h = None.
Proof. apply not_elem_of_dom. unfold new_ref. apply is_fresh. Qed.

Section keys.
Context `{X509, Digests, Rsa, Ecdsa, Signers}.

(** ** Verification *)
(** What a verification key checks, apart from the operation: the signature scheme
    its algorithm names, over the digest of the data, with its key. *)
Definition accepts (vk : VerificationKey) (data signature : bytes) : Prop :=
  match vk with
  | VKRsa k =>
    match algToOptsMap (Rpub_alg k) with
    | Some (OptsPSS o) => rsa_VerifyPSS (Rpub_key k) (PSS_Hash o) (Digest (PSS_Hash o) data) signature o = true
    | Some o => rsa_VerifyPKCS1v15 (Rpub_key k) (HashFunc o) (Digest (HashFunc o) data) signature = true
    | None => False
    end
  | VKEc k =>
    match algToOptsMap (Evk_alg k) with
    | Some (OptsECDSA o) =>
      ∃ r s, signature = be_fixed (N.to_nat (keySizeBytes o)) r ++ be_fixed (N.to_nat (keySizeBytes o)) s ∧
        (r < 256 ^ keySizeBytes o)%N ∧ (s < 256 ^ keySizeBytes o)%N ∧
        ecdsa_Verify (Evk_key k) (Digest (EO_Hash o) data) r s = true
    | _ => False
    end
  end.

Definition vk_ops (vk : VerificationKey) : list Types.KeyOps :=
  match vk with VKRsa k => Rpub_ops k | VKEc k => Evk_ops k end.

Lemma split_signature n (sig : bytes) : (len sig = 2 * n)%N →
  let r := be_to_N (take (N.to_nat n) sig) in
  let s := be_to_N (drop (N.to_nat n) sig) in
  sig = be_fixed (N.to_nat n) r ++ be_fixed (N.to_nat n) s ∧ (r < 256 ^ n)%N ∧ (s < 256 ^ n)%N.
Proof.
  unfold len. intros Hl. cbn zeta.
  assert (length (take (N.to_nat n) sig) = N.to_nat n) as Ht by (rewrite length_take; lia).
  assert (length (drop (N.to_nat n) sig) = N.to_nat n) as Hd by (rewrite length_drop; lia).
  assert (∀ l, length l = N.to_nat n → be_fixed (N.to_nat n) (be_to_N l) = l) as Hf by (intros l <-; apply be_fixed_to_N).
  rewrite !Hf, take_drop by done. split; [done|].
  pose proof (be_to_N_bound (take (N.to_nat n) sig)) as B1. pose proof (be_to_N_bound (drop (N.to_nat n) sig)) as B2.
  unfold len in *. rewrite Ht, N2Nat.id in B1. rewrite Hd, N2Nat.id in B2. done.
Qed.

Lemma join_signature n r s : (r < 256 ^ n)%N → (s < 256 ^ n)%N →
  let sig := be_fixed (N.to_nat n) r ++ be_fixed (N.to_nat n) s in
  (len sig = 2 * n)%N ∧ be_to_N (take (N.to_nat n) sig) = r ∧ be_to_N (drop (N.to_nat n) sig) = s.
Proof.
  intros Hr Hs. cbn zeta. split; [unfold len; rewrite length_app, !be_fixed_length; lia|].
  rewrite take_app_length', drop_app_length' by by rewrite be_fixed_length.
  by rewrite !be_to_N_fixed, !N2Nat.id, !N.mod_small.
Qed.

(** A verification key accepts a signature exactly when it is asked to verify, its
    captured operations allow that, and the scheme of its algorithm accepts.  An
    ECDSA signature has the one length of its curve, r before s. *)
Lemma VerificationKey_Verify_spec vk operation data signature :
  VerificationKey_Verify vk operation data signature = Ok true ↔
  operation = KeyOpsVerify ∧ KeyOpsVerify ∈ vk_ops vk ∧ accepts vk data signature.
Proof.
  destruct vk as [k|k]; cbn [VerificationKey_Verify vk_ops accepts].
  - unfold RsaPublicKeyImpl_Verify, validVerificationOps. destruct (isSubset _ [operation]) eqn:Ha; cbn [negb].
    2:{ split; [done|]. intros (-> & Hv & _). by apply unauthorised in Ha as []. }
    apply authorised in Ha as [-> Ha]. destruct (algToOptsMap (Rpub_alg k)) as [opts|] eqn:Ho; [|naive_solver].
    rewrite (opts_digest _ _ _ Ho). cbn [mbind res_bind].
    destruct (pssAlgs (Rpub_alg k)) eqn:Hp.
    + apply (pssAlgs_spec _ _ Ho) in Hp as [p ->]. cbn. split; [intros [= ->]; done|by intros (_ & _ & ->)].
    + destruct opts; cbn; [..|split; [intros [= ->]; done|by intros (_ & _ & ->)]];
        [split; [intros [= ->]; done|by intros (_ & _ & ->)]|].
      exfalso. by rewrite (proj2 (pssAlgs_spec _ _ Ho)) in Hp by eauto.
  - unfold ECVerificationKeyImpl_Verify, validVerificationOps. destruct (isSubset _ [operation]) eqn:Ha; cbn [negb].
    2:{ split; [done|]. intros (-> & Hv & _). by apply unauthorised in Ha as []. }
    apply authorised in Ha as [-> Ha]. destruct (algToOptsMap (Evk_alg k)) as [[h|o|o]|] eqn:Ho; try (by split; [|intros (_ & _ & [])]).
    rewrite (opts_available _ _ Ho : Hash_Available (EO_Hash o) = true). cbn [negb].
    rewrite (opts_digest _ _ _ Ho : hash_sum (ECDSAOptions_HashFunc o) data = _). cbn [mbind res_bind].
    destruct (N.eqb_spec (len signature) (2 * keySizeBytes o)) as [Hl|Hl]; cbn [negb].
    + split.
      * intros [= Hv]. split_and!; [done|done|]. destruct (split_signature _ _ Hl) as (Hs & Hr & Hs').
        eexists _, _. split_and!; [exact Hs|done|done|exact Hv].
      * intros (_ & _ & r & s & -> & Hr & Hs & Hv). destruct (join_signature _ _ _ Hr Hs) as (_ & -> & ->).
        change (HashFunc (OptsECDSA o)) with (EO_Hash o). by rewrite Hv.
    + split; [done|]. intros (_ & _ & r & s & -> & Hr & Hs & _). destruct (join_signature _ _ _ Hr Hs) as (? & _). done.
Qed.

(** A key whose algorithm fits its type, as every constructor makes it: verifying
    with it returns a verdict whatever the signature is. *)
Definition vk_wf (vk : VerificationKey) : Prop :=
  match vk with VKRsa _ => True | VKEc k => Evk_alg k ∈ [AlgES256; AlgES384; AlgES512] end.

Lemma ec_opts alg : alg ∈ [AlgES256; AlgES384; AlgES512] → ∃ o, algToOptsMap alg = Some (OptsECDSA o).
Proof.
  intros Ha. rewrite !elem_of_cons, elem_of_nil in Ha. destruct Ha as [->|[->|[->|[]]]]; by eexists.
Qed.

Lemma VerificationKey_Verify_total vk operation data signature :
  vk_wf vk → ∃ b, VerificationKey_Verify vk operation data signature = Ok b.
Proof.
  destruct vk as [k|k]; cbn [vk_wf VerificationKey_Verify].
  - intros _. unfold RsaPublicKeyImpl_Verify. destruct (negb _); [by eexists|].
    destruct (algToOptsMap (Rpub_alg k)) as [opts|] eqn:Ho; [|by eexists].
    rewrite (opts_digest _ _ _ Ho). cbn [mbind res_bind]. destruct (pssAlgs _) eqn:Hp; [|by eexists].
    apply (pssAlgs_spec _ _ Ho) in Hp as [p ->]. by eexists.
  - intros [o Ho]%ec_opts. unfold ECVerificationKeyImpl_Verify. destruct (negb _); [by eexists|]. rewrite Ho.
    destruct (negb _); [by eexists|]. destruct (negb _); [by eexists|].
    rewrite (opts_digest _ _ _ Ho : hash_sum (ECDSAOptions_HashFunc o) data = _). by eexists.
Qed.

(** The JWK as [NewVerificationKey] leaves it, and the key it makes of it. *)
Definition verify_ops (ops : list Types.KeyOps) : list Types.KeyOps :=
  if (0 <? len ops)%N then intersection validVerificationOps ops else validVerificationOps.

Lemma verify_ops_in ops : (len (verify_ops ops) =? 0)%N = false → KeyOpsVerify ∈ verify_ops ops.
Proof.
  unfold verify_ops, validVerificationOps. destruct (0 <? len ops)%N eqn:Hl; [|intros _; apply list_elem_of_here].
  intros Ho%intersection_nonempty. apply intersection_spec. split; [apply list_elem_of_here|done].
Qed.

Lemma verify_ops_nonempty ops : (len (verify_ops ops) =? 0)%N = false ↔ ops = [] ∨ KeyOpsVerify ∈ ops.
Proof.
  unfold verify_ops, validVerificationOps. destruct ops as [|o os]; [by split; [left|]|].
  replace (0 <? len (o :: os))%N with true by (unfold len; simpl; lia). rewrite intersection_nonempty. naive_solver.
Qed.

(** Making a verification key succeeds exactly for an RSA key, of the size RFC 7518
    asks for, that has an RSA signature algorithm or borrows one from its
    certificate; or for an EC key with an ECDSA algorithm.  The key must allow
    verification, or list no operation at all. *)
Definition verifies_with (jwk : Jwk) (l : ref) (vk : VerificationKey) : Prop :=
  match jwk, vk with
  | JPublicRsa v, VKRsa k =>
    ∃ jwk', fallback_alg jwk = Ok jwk' ∧ is_rsa_signature_alg (Jwk_Alg jwk') = true ∧ rsa_sizes (PubRsa_fields v) ∧
      k = {| Rpub_key := rsa_pub_of (PubRsa_fields v); Rpub_jwk := l; Rpub_ops := verify_ops (Jwk_Ops jwk); Rpub_alg := Jwk_Alg jwk' |}
  | JPublicEc v, VKEc k =>
    ∃ c, ecdsaCurveForAlg (Jwk_Alg jwk) = Ok c ∧
      k = {| Evk_key := ec_pub_of c (PubEc_fields v); Evk_jwk := l; Evk_ops := verify_ops (Jwk_Ops jwk); Evk_alg := Jwk_Alg jwk |}
  | _, _ => False
  end.

Lemma is_ec_alg alg : is_ec_signature_alg alg = true ↔ alg ∈ [AlgES256; AlgES384; AlgES512].
Proof. apply bool_decide_eq_true. Qed.

Lemma NewVerificationKey_spec h l jwk vk : h !! l = Some jwk →
  (fst (NewVerificationKey h l) = Ok vk ↔
   (Jwk_Ops jwk = [] ∨ KeyOpsVerify ∈ Jwk_Ops jwk) ∧ verifies_with jwk l vk).
Proof.
  intros Hl. unfold NewVerificationKey, deref. rewrite Hl. fold (verify_ops (Jwk_Ops jwk)).
  pose proof (verify_ops_nonempty (Jwk_Ops jwk)) as Hops.
  destruct (len (verify_ops (Jwk_Ops jwk)) =? 0)%N; cbn [fst].
  { split; [done|]. intros [Ho _]. apply Hops in Ho. done. }
  rewrite <- Hops. clear Hops. enough (∀ P Q : Prop, (P ↔ Q) → (P ↔ false = false ∧ Q)) as HPQ; [apply HPQ|tauto].
  destruct jwk as [v|v|v|v|v]; try (by destruct vk).
  - cbn [verifies_with]. destruct (fallback_alg (JPublicRsa v)) as [jwk'|e|] eqn:Hf; cbn [fst];
      [|split; [done|destruct vk; [by intros (? & ? & _)|done]]..].
    destruct (is_rsa_signature_alg (Jwk_Alg jwk')) eqn:Ha; cbn [fst].
    2:{ split; [done|]. destruct vk; [intros (? & [= <-] & Ha' & _); by rewrite Ha in Ha'|done]. }
    destruct ((32 <? BitLen (Rsa_E (PubRsa_fields v)))%N || (Rsa_E (PubRsa_fields v) <? 1)%N) eqn:He; cbn [fst].
    { split; [done|]. destruct vk; [|done]. intros (? & _ & _ & (_ & Hs) & _).
      apply exponent_guard in Hs. by rewrite Hs in He. }
    destruct (N.ltb_spec (BitLen (Rsa_N (PubRsa_fields v))) MinRsaModulusBits) as [Hn|Hn]; cbn [fst].
    { split; [done|]. destruct vk; [|done]. intros (? & _ & _ & (Hs & _) & _). lia. }
    apply exponent_guard in He. rewrite exponent_id by tauto.
    replace (Jwk_Alg (Jwk_SetOps _ jwk')) with (Jwk_Alg jwk') by by destruct jwk'.
    split; [intros [= <-]; by exists jwk'|]. destruct vk; [|done]. by intros (? & [= <-] & _ & _ & ->).
  - cbn [verifies_with]. destruct (is_ec_signature_alg (Jwk_Alg (JPublicEc v))) eqn:Ha; cbn [negb fst].
    + apply is_ec_alg, ec_opts in Ha as [o Ho]. unfold ecdsaCurveForAlg. rewrite Ho. cbn [fst].
      split; [intros [= <-]; by exists (curve o)|]. destruct vk; [done|]. by intros (? & [= <-] & ->).
    + split; [done|]. destruct vk; [done|]. intros (c & Hc & _). apply ecdsa_curve_tables in Hc.
      rewrite <- not_true_iff_false, is_ec_alg in Ha. exfalso. apply Ha. rewrite !elem_of_cons. naive_solver.
Qed.

Lemma verifies_with_wf jwk l vk : verifies_with jwk l vk → vk_wf vk.
Proof.
  destruct jwk as [v|v|v|v|v], vk as [k|k]; try done. intros (c & Hc & ->). cbn.
  apply ecdsa_curve_tables in Hc as [[-> _]|[[-> _]|[-> _]]]; by repeat constructor.
Qed.

(** C13. A verification key is made of a public JWK that may verify, or says nothing about
    what it may do, and has the JWK's key and algorithm.  It answers every request:
    with yes exactly when it is asked to verify a signature that its algorithm
    accepts over the digest of the data, PSS or PKCS #1 v1.5 for RSA, two integers of
    the width of the curve for EC. *)
Theorem loaded_key_Verify h l jwk vk : h !! l = Some jwk → fst (NewVerificationKey h l) = Ok vk →
  (Jwk_Ops jwk = [] ∨ KeyOpsVerify ∈ Jwk_Ops jwk) ∧ verifies_with jwk l vk ∧
  ∀ operation data signature,
    (∃ b, VerificationKey_Verify vk operation data signature = Ok b) ∧
    (VerificationKey_Verify vk operation data signature = Ok true ↔ operation = KeyOpsVerify ∧ accepts vk data signature).
Proof.
  intros Hl [Ho Hv]%(NewVerificationKey_spec _ _ _ _ Hl). split_and!; [done|done|]. intros operation data signature.
  split; [by apply VerificationKey_Verify_total; eapply verifies_with_wf|]. rewrite VerificationKey_Verify_spec.
  assert (KeyOpsVerify ∈ vk_ops vk) as Hin; [|tauto].
  assert (vk_ops vk = verify_ops (Jwk_Ops jwk)) as ->.
  { destruct jwk as [v|v|v|v|v], vk as [k|k]; try done; [by destruct Hv as (? & _ & _ & _ & ->)|by destruct Hv as (? & _ & ->)]. }
  by apply verify_ops_in, verify_ops_nonempty.
Qed.

(** Making a verification key writes to the one JWK it is given, and there to its
    operations and its algorithm alone. *)
Definition changes_only (l : ref) (h h' : heap) : Prop :=
  (∀ l', l' ≠ l → h' !! l' = h !! l') ∧
  ∀ jwk, h !! l = Some jwk → ∃ ops alg, h' !! l = Some (Jwk_SetOps ops (Jwk_SetAlg alg jwk)).

Lemma Jwk_Set_id j : Jwk_SetOps (Jwk_Ops j) (Jwk_SetAlg (Jwk_Alg j) j) = j.
Proof. by destruct j as [[[] ?]|[[[] ?] ?]|[[] ?]|[[[] ?] ?]|[[] ?]]. Qed.

Lemma changes_only_refl l h : changes_only l h h.
Proof. split; [done|]. intros jwk Hl. exists (Jwk_Ops jwk), (Jwk_Alg jwk). by rewrite Jwk_Set_id. Qed.

Lemma changes_only_set l h jwk ops alg : h !! l = Some jwk →
  changes_only l h (<[l := Jwk_SetOps ops (Jwk_SetAlg alg jwk)]> h).
Proof.
  intros Hl. split; [intros l' Hn; by apply lookup_insert_ne|]. intros j Hj. simplify_eq.
  exists ops, alg. by rewrite lookup_insert_eq.
Qed.

Lemma fallback_alg_Ok jwk jwk' : fallback_alg jwk = Ok jwk' → ∃ alg, jwk' = Jwk_SetOps (Jwk_Ops jwk) (Jwk_SetAlg alg jwk).
Proof.
  unfold fallback_alg. intros Hf.
  assert (jwk' = jwk ∨ ∃ alg, jwk' = Jwk_SetAlg alg jwk) as [->|[alg ->]].
  { destruct (str_empty _); [|left; congruence]. destruct (Jwk_X5C jwk) as [|[c|] cs]; [left; congruence| |done].
    injection Hf as <-. destruct (cert_alg _) as [alg|]; [right; by exists alg|by left]. }
  - exists (Jwk_Alg jwk). by rewrite Jwk_Set_id.
  - exists alg. by destruct jwk as [[[] ?]|[[[] ?] ?]|[[] ?]|[[[] ?] ?]|[[] ?]].
Qed.

Lemma fallback_alg_ops jwk jwk' : fallback_alg jwk = Ok jwk' → Jwk_Ops jwk' = Jwk_Ops jwk.
Proof. intros [alg ->]%fallback_alg_Ok. by destruct jwk. Qed.

Lemma NewVerificationKey_heap h l : changes_only l h (snd (NewVerificationKey h l)).
Proof.
  unfold NewVerificationKey, deref. destruct (h !! l) as [jwk|] eqn:Hl; [|apply changes_only_refl].
  destruct (len _ =? 0)%N; [apply changes_only_refl|]. destruct jwk as [v|v|v|v|v] eqn:Hj; try apply changes_only_refl.
  - destruct (fallback_alg _) as [jwk'|e|] eqn:Hf; [|apply changes_only_refl..].
    apply fallback_alg_Ok in Hf as [alg ->]. cbn zeta.
    destruct (is_rsa_signature_alg _); [|by apply changes_only_set].
    destruct (_ || _); [by apply changes_only_set|]. destruct (_ <? _)%N; [by apply changes_only_set|].
    cbn [snd]. rewrite insert_insert_eq.
    by match goal with |- context [Jwk_SetOps ?a (Jwk_SetOps ?b ?c)] => apply (changes_only_set l h (JPublicRsa v) a alg) end.
  - destruct (negb _); [apply changes_only_refl|]. destruct (algToOptsMap _) as [[]|]; apply changes_only_refl.
Qed.

(** ** Signing *)
(** The key object made of a JWK and its loaded key: operations and algorithm are
    captured. *)
Definition signing_key (jwk : Jwk) (l : ref) (key : Signer) : SigningKey :=
  match jwk with
  | JPrivateEc _ => SKEcdsa {| Esk_jwk := l; Esk_key := key; Esk_certs := Jwk_X5C jwk; Esk_ops := Jwk_Ops jwk; Esk_alg := Jwk_Alg jwk |}
  | _ => SKImpl {| Ski_jwk := l; Ski_key := key; Ski_certs := Jwk_X5C jwk; Ski_ops := Jwk_Ops jwk; Ski_alg := Jwk_Alg jwk |}
  end.

Lemma opts_private_alg alg opts : algToOptsMap alg = Some opts → alg ∈ privateKeyAlgs.
Proof.
  intros Ho. pose proof (algToOptsMap_spec alg) as Ha. rewrite Ho in Ha.
  assert (alg ∈ [AlgPS256; AlgPS384; AlgPS512] ∨ alg ∈ [AlgRS256; AlgRS384; AlgRS512] ∨ alg ∈ [AlgES256; AlgES384; AlgES512]) as Hin
    by (destruct opts; tauto).
  unfold privateKeyAlgs. clear - Hin. set_solver.
Qed.

(** A signing key is made exactly of a private key that may sign, may do what is
    required, has a signature algorithm, and loads. *)
Lemma NewSigningKey_spec h l jwk required sk : h !! l = Some jwk →
  (NewSigningKey h l required = Ok sk ↔
   KeyOpsSign ∈ Jwk_Ops jwk ∧ (∀ op, op ∈ required → op ∈ Jwk_Ops jwk) ∧ is_Some (algToOptsMap (Jwk_Alg jwk)) ∧
   ∃ key, loads_private jwk key ∧ sk = signing_key jwk l key).
Proof.
  intros Hl. unfold NewSigningKey, deref, validSignerOps. rewrite Hl. cbn [mbind res_bind].
  rewrite <- intersection_nonempty. destruct (len _ =? 0)%N; [by split; [|intros [? _]]|].
  destruct (algToOptsMap (Jwk_Alg jwk)) as [opts|] eqn:Ho.
  2:{ unfold signerOptsForAlg. rewrite Ho. cbn. split; [done|]. by intros (_ & _ & [? ?] & _). }
  rewrite (proj2 (signerOptsForAlg_Ok _ _) Ho). cbn [mbind res_bind]. rewrite bind_Ok.
  apply opts_private_alg in Ho. split.
  - intros (k & (_ & Hreq & Hk)%LoadPrivateKey_iff & Hs). split_and!; [done|done|done|]. exists k. split; [done|].
    by destruct jwk; try done; injection Hs as <-.
  - intros (_ & Hreq & _ & key & Hk & ->). exists key. split; [by apply LoadPrivateKey_iff|]. by destruct jwk.
Qed.

(** The operations and the key a signing key holds. *)
Definition sk_ops (sk : SigningKey) : list Types.KeyOps :=
  match sk with SKImpl k => Ski_ops k | SKEcdsa k => Esk_ops k | SKRsa k => Rpk_ops k end.

(** No signature without the captured permission: whatever the JWK has become
    since, a signing key signs only when it is asked to sign and could sign when it
    was made. *)
Theorem SigningKey_Sign_authorised rand sk requested data sig :
  SigningKey_Sign rand sk requested data = Ok sig → requested = KeyOpsSign ∧ KeyOpsSign ∈ sk_ops sk.
Proof.
  destruct sk as [k|k|k]; cbn; intros Hs; apply authorised;
    unfold SigningKeyImpl_Sign, ECDSASigningKey_Sign, RsaPrivateKeyImpl_Sign, validSignerOps in Hs;
    destruct (isSubset _ _); done.
Qed.

(** An ECDSA signature is the two numbers [crypto/ecdsa] computes over the digest of
    the data, each in the width of the curve. *)
Theorem ECDSASigningKey_Sign_spec rand k key data r s opts :
  Esk_key k = SignerECDSA key → KeyOpsSign ∈ Esk_ops k → algToOptsMap (Esk_alg k) = Some (OptsECDSA opts) →
  EcPub_Curve (EcPriv_Pub key) = curve opts → ecdsa_Sign rand key (Digest (EO_Hash opts) data) = Ok (r, s) →
  ECDSASigningKey_Sign rand k KeyOpsSign data =
    Ok (be_fixed (N.to_nat (keySizeBytes opts)) r ++ be_fixed (N.to_nat (keySizeBytes opts)) s) ∧
  (r < 256 ^ keySizeBytes opts)%N ∧ (s < 256 ^ keySizeBytes opts)%N.
Proof.
  intros Hk Hop Ho Hc Hs. pose proof (algToOptsMap_spec (Esk_alg k)) as Ha. rewrite Ho in Ha.
  destruct Ha as (_ & Hav & Hb & Hsz). apply ecdsa_Sign_range in Hs as Hr. rewrite Hc in Hr.
  pose proof (Curve_N_bound (curve opts)) as HN. rewrite Hb in Hsz. rewrite <- Hsz in HN.
  assert (r < 256 ^ keySizeBytes opts ∧ s < 256 ^ keySizeBytes opts)%N as [Hr1 Hr2] by (split; eapply N.lt_trans; [apply Hr|done|apply Hr|done]).
  split; [|done]. unfold ECDSASigningKey_Sign, validSignerOps. rewrite (proj2 (authorised _ _ _)) by done. cbn [negb].
  rewrite (proj2 (signerOptsForAlg_Ok _ _) Ho). cbn [mbind res_bind].
  rewrite (opts_available _ _ Ho), (opts_digest _ _ _ Ho), Hk. cbn [negb mbind res_bind HashFunc].
  unfold ECDSAOptions_HashFunc. rewrite Hs. cbn [mbind res_bind]. rewrite Hc, Hb, N.eqb_refl, <- Hsz. cbn [negb].
  by rewrite !pad_left_be_bytes.
Qed.

(** A key made by [NewSigningKey] never panics when it signs. *)
Theorem SigningKey_Sign_no_panic h l jwk required sk rand requested data :
  h !! l = Some jwk → NewSigningKey h l required = Ok sk → SigningKey_Sign rand sk requested data ≠ Panic.
Proof.
  intros Hl (Hop & _ & _ & key & Hk & ->)%(NewSigningKey_spec _ _ _ _ _ Hl).
  destruct jwk as [v|v|v|v|v]; try done; cbn [signing_key SigningKey_Sign].
  - destruct key as [key| |]; try done. unfold SigningKeyImpl_Sign. destruct (negb _); [done|]. cbn [Ski_alg Ski_key].
    destruct (signerOptsForAlg _) as [opts| |] eqn:Ho; try done; [|by unfold signerOptsForAlg in Ho; destruct (algToOptsMap _)].
    apply signerOptsForAlg_Ok in Ho. cbn [mbind res_bind]. rewrite (opts_digest _ _ _ Ho). cbn [mbind res_bind Signer_Sign].
    unfold rsa_Sign. destruct opts; [apply rsa_SignPKCS1v15_no_panic|apply rsa_SignPSS_no_panic|apply rsa_SignPKCS1v15_no_panic].
  - destruct key as [|key|]; try done. destruct Hk as (c & Hc & -> & _).
    apply ecdsa_curve_tables in Hc as Hc'. set (k := {| Esk_jwk := l |}).
    assert (∃ opts, algToOptsMap (Esk_alg k) = Some (OptsECDSA opts) ∧ curve opts = c) as (opts & Ho & Hcu).
    { cbn. destruct Hc' as [[-> ->]|[[-> ->]|[-> ->]]]; by eexists. }
    destruct (ecdsa_Sign rand (ec_priv_of c v) (Digest (EO_Hash opts) data)) as [[r s]|e|] eqn:Hs.
    + destruct (decide (requested = KeyOpsSign)) as [->|Hr].
      * by rewrite (proj1 (ECDSASigningKey_Sign_spec rand k _ data r s opts eq_refl Hop Ho (eq_sym Hcu) Hs)).
      * unfold ECDSASigningKey_Sign, validSignerOps. destruct (isSubset _ [requested]) eqn:Ha; [|done].
        by apply authorised in Ha as [? _].
    + unfold ECDSASigningKey_Sign. destruct (negb _); [done|]. rewrite (proj2 (signerOptsForAlg_Ok _ _) Ho). cbn [mbind res_bind].
      rewrite (opts_available _ _ Ho), (opts_digest _ _ _ Ho). cbn [negb mbind res_bind]. unfold k. cbn [Esk_key HashFunc].
      unfold ECDSAOptions_HashFunc. by rewrite Hs.
    + by apply ecdsa_Sign_no_panic in Hs.
Qed.

(** ** From signer to verifier *)
Lemma ecPointFromScalar_pair k x y :
  ec_pair k → ecPointFromScalar (EcPub_Curve (EcPriv_Pub k)) (EcPriv_D k) = Ok (x, y) →
  x = EcPub_X (EcPriv_Pub k) ∧ y = EcPub_Y (EcPriv_Pub k).
Proof.
  intros (b & Hb & -> & ->) Hp. unfold ecPointFromScalar in Hp.
  destruct (ecdhCurveFor _) as [c| |] eqn:Hc; try done. cbn [mbind res_bind] in Hp.
  assert (c = EcPub_Curve (EcPriv_Pub k)) as -> by (by destruct (EcPub_Curve (EcPriv_Pub k)); inversion Hc).
  destruct (_ =? 0)%N; [done|]. rewrite Hb in Hp. cbn [mbind res_bind from_option_err] in Hp.
  destruct (negb _); [done|]. injection Hp as <- <-. by rewrite drop_drop.
Qed.

Lemma inverseOps_sign ops : KeyOpsSign ∈ ops → KeyOpsVerify ∈ map inverseOps ops.
Proof. intros Hs. apply list_elem_of_In, in_map_iff. exists KeyOpsSign. split; [done|by apply list_elem_of_In]. Qed.
Lemma inverseOps_decrypt ops : KeyOpsDecrypt ∈ ops → KeyOpsEncrypt ∈ map inverseOps ops.
Proof. intros Hs. apply list_elem_of_In, in_map_iff. exists KeyOpsDecrypt. split; [done|by apply list_elem_of_In]. Qed.

Lemma Jwk_of_fields j f : Jwk_fields j = f →
  Jwk_Ops j = KeyOps f ∧ Jwk_Alg j = KeyAlg f ∧ Jwk_Kid j = KeyKid f.
Proof. by intros <-. Qed.

Lemma fallback_alg_some jwk o : algToOptsMap (Jwk_Alg jwk) = Some o → fallback_alg jwk = Ok jwk.
Proof. unfold fallback_alg. intros Ho. destruct (str_empty _) eqn:He; [|done]. by destruct (Jwk_Alg jwk). Qed.

(** What the verifier of a key is: it has the key's algorithm and identifier, it may
    verify, and it holds the public half. *)
Definition verifier_of (jwk : Jwk) (vk : VerificationKey) : Prop :=
  VerificationKey_Algorithm vk = Jwk_Alg jwk ∧ KeyOpsVerify ∈ vk_ops vk ∧
  match jwk, vk with
  | JPrivateRsa v, VKRsa k => Rpub_key k = rsa_pub_of (PrivRsa_pubfields v)
  | JPrivateEc v, VKEc k => ∃ c x y, ecdsaCurveForAlg (Jwk_Alg jwk) = Ok c ∧
      ecPointFromScalar c (Ec_D (PrivEc_fields v)) = Ok (x, y) ∧
      Evk_key k = {| EcPub_Curve := c; EcPub_X := x; EcPub_Y := y |}
  | _, _ => False
  end.

Lemma vk_Kid h l jwk vk : verifies_with jwk l vk → h !! l = Some jwk →
  ∀ h', changes_only l h h' → VerificationKey_Kid h' vk = Ok (Jwk_Kid jwk).
Proof.
  intros Hv Hl h' [_ Hc]. destruct (Hc _ Hl) as (ops & alg & Hl').
  assert (VerificationKey_Kid h' vk = Jwk_Kid <$> deref h' l) as ->.
  { destruct jwk, vk; try done; cbn in Hv; [destruct Hv as (? & _ & _ & _ & ->)|destruct Hv as (? & _ & ->)]; done. }
  unfold deref. rewrite Hl'. by destruct jwk.
Qed.

Lemma verifier_for_spec h l jwk vk h' : h !! l = Some jwk → is_Some (algToOptsMap (Jwk_Alg jwk)) →
  KeyOpsSign ∈ Jwk_Ops jwk → verifier_for h l = (Ok vk, h') →
  verifier_of jwk vk ∧ VerificationKey_Kid h' vk = Ok (Jwk_Kid jwk).
Proof.
  intros Hl [o Ho] Hop. unfold verifier_for, deref. rewrite Hl. cbn [mbind res_bind].
  destruct (PublicFromPrivate jwk) as [pub| |] eqn:Hp; try done. unfold alloc. intros Hv.
  apply PublicFromPrivate_inv in Hp as (_ & Hof & (Hops & Halg & Hkid)%Jwk_of_fields). cbn in Hops, Halg, Hkid.
  set (l' := new_ref h) in *. set (h1 := <[l' := pub]> h) in *.
  assert (h1 !! l' = Some pub) as Hl1 by apply lookup_insert_eq.
  pose proof (NewVerificationKey_heap h1 l') as Hc. rewrite Hv in Hc. cbn in Hc.
  assert (fst (NewVerificationKey h1 l') = Ok vk) as Hvk by by rewrite Hv.
  apply (NewVerificationKey_spec _ _ _ _ Hl1) in Hvk as [_ Hw].
  split; [|rewrite <- Hkid; by eapply vk_Kid].
  assert (KeyOpsVerify ∈ verify_ops (Jwk_Ops pub)) as Hver.
  { apply verify_ops_in. unfold verify_ops. apply inverseOps_sign in Hop. rewrite <- Hops in Hop.
    destruct (Jwk_Ops pub) as [|p ps]; [by apply elem_of_nil in Hop|].
    replace (0 <? len (p :: ps))%N with true by (unfold len; simpl; lia). by apply intersection_nonempty. }
  destruct jwk as [v|v|v|v|v], pub as [p|p|p|p|p]; try done; destruct vk as [k|k]; try done.
  - cbn in Hof. destruct Hw as (j' & Hf & _ & _ & ->). rewrite <- Halg in Ho. rewrite (fallback_alg_some _ _ Ho) in Hf.
    injection Hf as <-. unfold verifier_of. cbn [VerificationKey_Algorithm RsaPublicKeyImpl_Algorithm Rpub_alg vk_ops Rpub_ops Rpub_key].
    rewrite Hof. done.
  - cbn in Hof. destruct Hof as (c & x & y & Hc' & Hxy & Hf). destruct Hw as (c2 & Hc2 & ->). rewrite Halg in Hc2.
    unfold verifier_of. cbn [VerificationKey_Algorithm ECVerificationKeyImpl_Algorithm Evk_alg vk_ops Evk_ops Evk_key].
    split_and!; [done|done|]. exists c, x, y. unfold ec_pub_of. rewrite Hf. cbn. split_and!; [done|done|]. congruence.
Qed.

Context `{!EcdsaLaws}.

(** What a key signs, its verifier accepts, under the algorithm and the identifier of
    the signer.  For an EC key the public point in the JWK must be that of the
    private scalar. *)
Lemma sign_verify h l jwk required sk rand data sig vk h' :
  h !! l = Some jwk → NewSigningKey h l required = Ok sk →
  (∀ key, loads_private jwk (SignerECDSA key) → ec_pair key) →
  SigningKey_Sign rand sk KeyOpsSign data = Ok sig →
  SigningKey_Verifier h sk = (Ok vk, h') →
  VerificationKey_Verify vk KeyOpsVerify data sig = Ok true ∧
  VerificationKey_Algorithm vk = SigningKey_Algorithm sk ∧ VerificationKey_Kid h' vk = SigningKey_Kid h sk.
Proof.
  intros Hl (Hop & _ & Hopts & key & Hk & ->)%(NewSigningKey_spec _ _ _ _ _ Hl) Hpair Hs Hv.
  assert (verifier_for h l = (Ok vk, h')) as Hvf by by destruct jwk.
  destruct (verifier_for_spec _ _ _ _ _ Hl Hopts Hop Hvf) as [(Halg & Hver & Hkey) Hkid].
  split; [|split; [by destruct jwk|rewrite Hkid; destruct jwk; cbn; unfold SigningKeyImpl_Kid, ECDSASigningKey_Kid, deref; cbn; by rewrite Hl]].
  apply VerificationKey_Verify_spec. split_and!; [done|done|]. destruct Hopts as [o Ho].
  destruct jwk as [v|v|v|v|v]; try done; destruct vk as [k|k]; try done; cbn [signing_key SigningKey_Sign] in Hs.
  - destruct key as [key| |]; try done. destruct Hk as (-> & _ & _ & Hval & _).
    unfold SigningKeyImpl_Sign in Hs. destruct (negb _) in Hs; [done|]. cbn [Ski_alg Ski_key] in Hs.
    rewrite (proj2 (signerOptsForAlg_Ok _ _) Ho) in Hs. cbn [mbind res_bind] in Hs.
    rewrite (opts_digest _ _ _ Ho) in Hs. cbn [mbind res_bind Signer_Sign] in Hs.
    cbn [accepts]. rewrite (Halg : Rpub_alg k = _), Ho, Hkey.
    change (rsa_pub_of (PrivRsa_pubfields v)) with (RsaPriv_Pub (rsa_priv_of v)).
    destruct o as [x|p|p]; cbn [rsa_Sign HashFunc] in Hs |- *;
      [eapply rsa_sign_verify_pkcs|eapply rsa_sign_verify_pss|eapply rsa_sign_verify_pkcs]; eassumption.
  - destruct key as [|key|]; try done. specialize (Hpair key Hk). destruct Hk as (c & Hc & -> & _).
    destruct Hkey as (c' & x & y & Hc' & Hxy & Hkey). assert (c' = c) as -> by congruence.
    destruct (ecPointFromScalar_pair (ec_priv_of c v) x y Hpair Hxy) as [-> ->].
    cbn [accepts]. rewrite (Halg : Evk_alg k = _).
    assert (∃ opts, algToOptsMap (Jwk_Alg (JPrivateEc v)) = Some (OptsECDSA opts) ∧ curve opts = c) as (opts & Ho' & Hcu).
    { apply ecdsa_curve_tables in Hc as [[-> ->]|[[-> ->]|[-> ->]]]; by eexists. }
    rewrite Ho'. set (k' := {| Esk_jwk := l |}) in Hs.
    destruct (ecdsa_Sign rand (ec_priv_of c v) (Digest (EO_Hash opts) data)) as [[r s]|e|] eqn:Hrs.
    + destruct (ECDSASigningKey_Sign_spec rand k' _ data r s opts eq_refl Hop Ho' (eq_sym Hcu) Hrs) as (Hsig & Hr & Hs').
      rewrite Hsig in Hs. injection Hs as <-. exists r, s. split_and!; [done|done|done|]. rewrite Hkey.
      by eapply (ecdsa_sign_verify rand (ec_priv_of c v)).
    + exfalso. unfold ECDSASigningKey_Sign in Hs. destruct (negb _) in Hs; [done|].
      rewrite (proj2 (signerOptsForAlg_Ok (Esk_alg k') _) Ho') in Hs. cbn [mbind res_bind] in Hs.
      rewrite (opts_available _ _ Ho'), (opts_digest _ _ _ Ho') in Hs. cbn [negb mbind res_bind] in Hs.
      unfold k' in Hs. cbn [Esk_key HashFunc] in Hs. unfold ECDSAOptions_HashFunc in Hs. by rewrite Hrs in Hs.
    + by apply ecdsa_Sign_no_panic in Hrs.
Qed.

(** The public half of a loaded RSA key can always be derived. *)
Lemma PublicFromPrivate_loaded v key : loads_private (JPrivateRsa v) key → ∃ pub, PublicFromPrivate (JPrivateRsa v) = Ok (JPublicRsa pub).
Proof.
  destruct key as [key| |]; [|done..]. intros (_ & Hs & Hz & _). pose proof (rsa_sizes_N _ Hs) as Hn. destruct Hs as (_ & He & _).
  unfold PublicFromPrivate. unfold priv_nonzero, PrivRsa_pubfields in *.
  replace (BigNum_Empty _ || _ || _ || _ || _ || _ || _ || _) with false; [by eexists|].
  symmetry. rewrite !orb_false_iff, !BigNum_Empty_false. tauto.
Qed.

(** The verifier of an RSA signing key with an RSA algorithm: it holds the public key,
    and its JWK has the certificates of the private one. *)
Definition rsa_verifier (v : PrivateRsaKey) (l : ref) : RsaPublicKeyImpl :=
  {| Rpub_key := rsa_pub_of (PrivRsa_pubfields v); Rpub_jwk := l;
     Rpub_ops := verify_ops (map inverseOps (Jwk_Ops (JPrivateRsa v))); Rpub_alg := Jwk_Alg (JPrivateRsa v) |}.

Lemma RSA_Verifier_Ok h l v required sk :
  h !! l = Some (JPrivateRsa v) → NewSigningKey h l required = Ok sk → is_rsa_signature_alg (Jwk_Alg (JPrivateRsa v)) = true →
  ∃ h' j, SigningKey_Verifier h sk = (Ok (VKRsa (rsa_verifier v (new_ref h))), h') ∧
    h' !! new_ref h = Some j ∧ Jwk_X5C j = Jwk_X5C (JPrivateRsa v).
Proof.
  intros Hl (Hop & _ & [o Ho] & key & Hk & ->)%(NewSigningKey_spec _ _ _ _ _ Hl) Hrsa.
  destruct (PublicFromPrivate_loaded _ _ Hk) as [pub Hp]. destruct key as [key| |]; try done. destruct Hk as (_ & Hsz & _).
  pose proof Hp as (_ & Hf & Hfields)%PublicFromPrivate_inv. cbn in Hf. pose proof Hfields as (Hops & Halg & _)%Jwk_of_fields. cbn in Halg, Hops.
  cbn [signing_key SigningKey_Verifier]. unfold SigningKeyImpl_Verifier, verifier_for. cbn [Ski_jwk].
  unfold deref. rewrite Hl. cbn [mbind res_bind]. rewrite Hp. unfold alloc. set (h1 := <[new_ref h := _]> h).
  assert (h1 !! new_ref h = Some (JPublicRsa pub)) as Hl1 by apply lookup_insert_eq.
  assert (fst (NewVerificationKey h1 (new_ref h)) = Ok (VKRsa (rsa_verifier v (new_ref h)))) as Hn.
  { apply (NewVerificationKey_spec _ _ _ _ Hl1). split; [right; rewrite Hops; by apply inverseOps_sign|]. eexists.
    split_and!; [apply (fallback_alg_some _ o); by rewrite Halg|by rewrite Halg|by rewrite Hf|]. unfold rsa_verifier. by rewrite Hf, Hops, Halg. }
  pose proof (NewVerificationKey_heap h1 (new_ref h)) as [_ Hc]. destruct (Hc _ Hl1) as (ops & alg & Hj).
  destruct (NewVerificationKey h1 (new_ref h)) as [r h']. cbn in Hn, Hj. subst r. exists h'. eexists. split_and!; [done|exact Hj|].
  rewrite !Jwk_X5C_id. change (KeyX5C (Jwk_fields (JPublicRsa pub)) = KeyX5C (Jwk_fields (JPrivateRsa v))). by rewrite Hfields, Jwk_X5C_id.
Qed.

(** An RSA signing key has a verifier exactly when its algorithm is an RSA signature
    algorithm.  [NewSigningKey] does not ask for that: it accepts an RSA key that
    names an ECDSA algorithm, signs with it, and its verifier is refused. *)
Theorem RSA_Verifier h l v required sk :
  h !! l = Some (JPrivateRsa v) → NewSigningKey h l required = Ok sk →
  if is_rsa_signature_alg (Jwk_Alg (JPrivateRsa v))
  then ∃ vk, fst (SigningKey_Verifier h sk) = Ok vk
  else Jwk_Alg (JPrivateRsa v) ∈ [AlgES256; AlgES384; AlgES512] ∧
       fst (SigningKey_Verifier h sk) = gose_err Gose.ErrUnsupportedKeyType.
Proof.
  intros Hl (Hop & _ & [o Ho] & key & Hk & ->)%(NewSigningKey_spec _ _ _ _ _ Hl).
  destruct (PublicFromPrivate_loaded _ _ Hk) as [pub Hp]. destruct key as [key| |]; try done. destruct Hk as (_ & Hsz & _).
  pose proof Hp as (_ & Hf & (Hops & Halg & _)%Jwk_of_fields)%PublicFromPrivate_inv. cbn in Hf, Halg, Hops.
  cbn [signing_key SigningKey_Verifier]. unfold SigningKeyImpl_Verifier, verifier_for. cbn [Ski_jwk].
  unfold deref at 1 2. rewrite Hl. cbn [mbind res_bind]. rewrite Hp. unfold alloc. set (h1 := <[new_ref h := _]> h).
  assert (h1 !! new_ref h = Some (JPublicRsa pub)) as Hl1 by apply lookup_insert_eq.
  assert (Jwk_Ops (JPublicRsa pub) = [] ∨ KeyOpsVerify ∈ Jwk_Ops (JPublicRsa pub)) as Hv
    by (right; rewrite Hops; by apply inverseOps_sign).
  assert (fallback_alg (JPublicRsa pub) = Ok (JPublicRsa pub)) as Hfb by (apply (fallback_alg_some _ o); by rewrite Halg).
  pose proof (algToOptsMap_spec (Jwk_Alg (JPrivateRsa v))) as Hal. rewrite Ho in Hal.
  destruct (is_rsa_signature_alg _) eqn:Hrsa.
  - eexists (VKRsa _). apply (NewVerificationKey_spec _ _ _ _ Hl1). split; [done|]. cbn [verifies_with]. eexists.
    split_and!; [exact Hfb|by rewrite Halg|by rewrite Hf|reflexivity].
  - split.
    + apply bool_decide_eq_false in Hrsa. destruct o; destruct Hal as [Hal _]; [exfalso; clear - Hal Hrsa; set_solver..|done].
    + unfold NewVerificationKey, deref. rewrite Hl1. fold (verify_ops (Jwk_Ops (JPublicRsa pub))).
      destruct (len _ =? 0)%N eqn:Hle.
      * exfalso. destruct Hv as [Hv|Hv]; [by rewrite Hv in Hle|]. unfold verify_ops in Hle.
        destruct (0 <? _)%N; [|done]. apply intersection_nonempty in Hv. unfold validVerificationOps in Hle. by rewrite Hv in Hle.
      * rewrite Hfb. by rewrite Halg, Hrsa.
Qed.

(** A public RSA key that names an ECDSA algorithm accepts PKCS #1 v1.5 signatures
    under that name, which the comment in [RsaPublicKeyImpl.Verify] rules out. *)
Theorem RSA_verifies_under_EC_name h l v k data sig o :
  h !! l = Some (JPublicRsa v) → NewRsaPublicKeyImpl h l = Ok k → KeyOpsVerify ∈ Jwk_Ops (JPublicRsa v) →
  algToOptsMap (Jwk_Alg (JPublicRsa v)) = Some (OptsECDSA o) →
  rsa_VerifyPKCS1v15 (rsa_pub_of (PubRsa_fields v)) (EO_Hash o) (Digest (EO_Hash o) data) sig = true →
  RsaPublicKeyImpl_Algorithm k = Jwk_Alg (JPublicRsa v) ∧ RsaPublicKeyImpl_Verify k KeyOpsVerify data sig = Ok true.
Proof.
  intros Hl Hk Hop Ho Hs. unfold NewRsaPublicKeyImpl, deref in Hk. rewrite Hl in Hk. cbn [mbind res_bind] in Hk.
  apply bind_Ok in Hk as (pk & (_ & _ & Hp)%LoadPublicKey_iff & Hk). destruct pk as [pk| |]; try done.
  injection Hk as <-. destruct Hp as [-> _]. split; [done|].
  apply (VerificationKey_Verify_spec (VKRsa _)). split_and!; [done|done|]. cbn [accepts Rpub_alg Rpub_key]. by rewrite Ho.
Qed.

(** ** OAEP *)
(** What the encryption key of a decryption key encrypts, the decryption key
    decrypts, under the same digest; and neither does so without permission. *)
Theorem Encrypt_Decrypt h l jwk k e h' hash rand data ct rand' :
  h !! l = Some jwk → NewRsaDecryptionKey h l = Ok k → RsaPrivateKeyImpl_Encryptor h k = (Ok e, h') →
  RsaPublicKeyImpl_Encrypt rand e KeyOpsEncrypt hash data = Ok (ct, rand') →
  RsaPrivateKeyImpl_Decrypt k KeyOpsDecrypt hash ct = Ok data ∧ RsaPublicKeyImpl_Kid h' e = RsaPrivateKeyImpl_Kid h k.
Proof.
  intros Hl Hk He Hc. unfold NewRsaDecryptionKey, deref in Hk. rewrite Hl in Hk. cbn [mbind res_bind] in Hk.
  apply bind_Ok in Hk as (s & (_ & Hreq & Hs)%LoadPrivateKey_iff & Hk). destruct s as [s| |]; try done. injection Hk as <-.
  specialize (Hreq KeyOpsDecrypt (list_elem_of_here _ _)). destruct jwk as [| v | | |]; try done. destruct Hs as (-> & _ & _ & Hval & _).
  unfold RsaPrivateKeyImpl_Encryptor, RsaPrivateKeyImpl_publicKey in He. cbn [Rpk_jwk Rpk_key] in He. unfold deref in He. rewrite Hl in He.
  cbn [mbind res_bind] in He. destruct (PublicFromPrivate _) as [pub| |] eqn:Hp; try done. unfold alloc in He. injection He as <- <-.
  apply PublicFromPrivate_inv in Hp as (_ & _ & (_ & _ & Hkid)%Jwk_of_fields).
  unfold RsaPublicKeyImpl_Encrypt in Hc. destruct (negb _) in Hc; [done|]. destruct (Hash_Available hash) eqn:Hh; [|done].
  cbn [Rpub_key] in Hc. split.
  - unfold RsaPrivateKeyImpl_Decrypt, validDecryptionOps. cbn [Rpk_ops Rpk_key]. rewrite (proj2 (authorised _ _ _)) by done.
    rewrite Hh. cbn [negb]. eapply rsa_oaep; eassumption.
  - unfold RsaPublicKeyImpl_Kid, RsaPrivateKeyImpl_Kid, deref. cbn [Rpub_jwk Rpk_jwk]. rewrite lookup_insert_eq, Hl. cbn. by rewrite Hkid.
Qed.

Theorem Decrypt_authorised k requested hash ct data :
  RsaPrivateKeyImpl_Decrypt k requested hash ct = Ok data → requested = KeyOpsDecrypt ∧ KeyOpsDecrypt ∈ Rpk_ops k.
Proof. intros Hd. apply authorised. unfold RsaPrivateKeyImpl_Decrypt, validDecryptionOps in Hd. by destruct (isSubset _ _). Qed.
End keys.
