(* ===== verification/Pem.v ===== *)
(** The PEM form of keys: [MarshalPem] of [signer.go], [ecdsa_signer.go],
    [ecdsa_verifier.go], [rsa_private.go] and [rsa_public.go], and [Key].

    [encoding/pem] is written out; the DER encoders of [crypto/x509] are a class. *)

From S2P Require Import Prelude Errors Base64 Types Crypto Jwk Helpers HelpersFacts Keys KeysFacts.

(** ** [pem.Encode], for a block without headers

    The encoder breaks the base64 text into lines of 64 characters; the last line
    may be shorter, and is left out when it is empty. *)
Definition pemLineLength : nat := 64.

Fixpoint pem_lines (full : nat) (text : bytes) : list bytes :=
  match full with
  | O => match text with [] => [] | _ => [text] end
  | S full => take pemLineLength text :: pem_lines full (drop pemLineLength text)
  end.

Definition pem_body (der : bytes) : list bytes :=
  let text := b64_encode StdEncoding der in pem_lines (length text / pemLineLength) text.

Definition newline : bytes := [x0a].
Definition end_line (line : bytes) : bytes := line ++ newline.

Definition pem_Encode (type : string) (der : bytes) : result string :=
  Ok (b2s (end_line (s2b ("-----BEGIN " +:+ type +:+ "-----")) ++ concat (map end_line (pem_body der)) ++
           end_line (s2b ("-----END " +:+ type +:+ "-----")))).

(** The DER encoders of [crypto/x509]; those that return an error may. *)
Class Der := {
  MarshalPKCS1PrivateKey : RsaPrivateKey → bytes;
  MarshalECPrivateKey : EcdsaPrivateKey → result bytes;
  MarshalPKIXPublicKey : PublicKey → result bytes;
  MarshalECPrivateKey_no_panic k : MarshalECPrivateKey k ≠ Panic;
  MarshalPKIXPublicKey_no_panic k : MarshalPKIXPublicKey k ≠ Panic;
}.

(** ** The keys *)
Section keys.
Context `{Der}.

Definition rsaPrivateKeyPemType : string := "RSA PRIVATE KEY".
Definition ecdsaPrivateKeyPerType : string := "ECDSA PRIVATE KEY".
Definition rsaPublicKeyPemType : string := "RSA PUBLIC KEY".
Definition ecPublicKeyPemType : string := "EC PUBLIC KEY".

Definition SigningKeyImpl_Key (signer : SigningKeyImpl) : Signer := Ski_key signer.
Definition ECDSASigningKey_Key (signer : ECDSASigningKey) : Signer := Esk_key signer.
Definition RsaPrivateKeyImpl_Key (rsaKey : RsaPrivateKeyImpl) : Signer := SignerRSA (Rpk_key rsaKey).

Definition SigningKeyImpl_MarshalPem (signer : SigningKeyImpl) : result string :=
  match Ski_key signer with
  | SignerRSA k => pem_Encode rsaPrivateKeyPemType (MarshalPKCS1PrivateKey k)
  | _ => gose_err Gose.ErrUnsupportedKeyType
  end.

(** The type assertion panics on another kind of key. *)
Definition ECDSASigningKey_MarshalPem (signer : ECDSASigningKey) : result string :=
  match Esk_key signer with
  | SignerECDSA k => derEncoded ← MarshalECPrivateKey k; pem_Encode ecdsaPrivateKeyPerType derEncoded
  | _ => Panic
  end.

Definition RsaPrivateKeyImpl_MarshalPem (rsaKey : RsaPrivateKeyImpl) : result string :=
  pem_Encode rsaPrivateKeyPemType (MarshalPKCS1PrivateKey (Rpk_key rsaKey)).

Definition ECVerificationKeyImpl_MarshalPem (verifier : ECVerificationKeyImpl) : result string :=
  derEncoded ← MarshalPKIXPublicKey (PubECDSA (Evk_key verifier)); pem_Encode ecPublicKeyPemType derEncoded.

Definition RsaPublicKeyImpl_MarshalPem (k : RsaPublicKeyImpl) : result string :=
  derEncoded ← MarshalPKIXPublicKey (PubRSA (Rpub_key k)); pem_Encode rsaPublicKeyPemType derEncoded.
End keys.

(** ** Properties *)
Lemma pem_lines_concat full text : concat (pem_lines full text) = text.
Proof.
  revert text. induction full as [|full IH]; intros text; cbn.
  - destruct text; cbn; [done|]. by rewrite app_nil_r.
  - by rewrite IH, take_drop.
Qed.

Lemma pem_lines_length full text : full = length text / pemLineLength →
  Forall (λ line, 0 < length line ≤ pemLineLength) (pem_lines full text).
Proof.
  revert text. unfold pemLineLength. induction full as [|full IH]; intros text Hf; cbn [pem_lines].
  - destruct text as [|c text]; [apply Forall_nil_2|]. apply Forall_cons_2; [|apply Forall_nil_2].
    symmetry in Hf. apply Nat.div_small_iff in Hf; [|done]. cbn [length] in *. lia.
  - assert (64 ≤ length text) as Hl. { destruct (decide (length text < 64)); [|lia]. by rewrite Nat.div_small in Hf. }
    apply Forall_cons_2; [unfold pemLineLength; rewrite length_take; lia|]. apply IH. unfold pemLineLength. rewrite length_drop.
    replace (length text) with (length text - 64 + 1 * 64) in Hf by lia. rewrite Nat.div_add in Hf by done. lia.
Qed.

Lemma filter_newlines lines :
  filter (λ c, is_newline c = false) (concat (map end_line lines)) = filter (λ c, is_newline c = false) (concat lines).
Proof. induction lines as [|l lines IH]; [done|]. cbn [map concat]. unfold end_line at 1. rewrite !list.filter_app, IH. cbn. by rewrite app_nil_r. Qed.

(** The body of a block is the DER in lines of at most 64 characters, and decoding
    it, line breaks and all, gives the DER back. *)
Theorem pem_body_decodes der :
  Forall (λ line, 0 < length line ≤ pemLineLength) (pem_body der) ∧
  DecodeString StdEncoding (b2s (concat (map end_line (pem_body der)))) = Ok der.
Proof.
  split; [by apply pem_lines_length|]. unfold DecodeString, b64_decode. rewrite s2b_b2s, filter_newlines. unfold pem_body. rewrite pem_lines_concat.
  pose proof (b64_decode_encode StdEncoding der) as Hd. unfold b64_decode in Hd. by rewrite Hd.
Qed.

Section pem.
Context `{X509, Digests, Rsa, Ecdsa, Signers, Der}.

(** A loaded RSA signing key has a PEM form.  That of an EC key cannot panic: the key
    of a signing key made by [NewSigningKey] is of the type it asserts. *)
Theorem loaded_MarshalPem h l required sk : NewSigningKey h l required = Ok sk →
  match sk with
  | SKImpl k => ∃ text, SigningKeyImpl_MarshalPem k = Ok text
  | SKEcdsa k => ECDSASigningKey_MarshalPem k ≠ Panic
  | SKRsa k => False
  end.
Proof.
  intros Hsk. destruct (h !! l) as [jwk|] eqn:Hl; [|unfold NewSigningKey, deref in Hsk; by rewrite Hl in Hsk].
  destruct (proj1 (NewSigningKey_spec _ _ _ _ _ Hl) Hsk) as (_ & _ & _ & key & Hk & ->).
  clear Hl Hsk. destruct key as [k|k|], jwk as [v|v|v|v|v]; try done.
  - by eexists.
  - cbn [signing_key]. unfold ECDSASigningKey_MarshalPem. cbn [Esk_key]. by apply bind_no_panic; [apply MarshalECPrivateKey_no_panic|].
Qed.
End pem.
