(* ===== verification/KeyStore.v ===== *)
(** [keystore.go]: the trust store that holds one map of JWKs for each issuer and
    remembers what was revoked.

    Every method runs under the store's mutex, so a method is one step.  The maps
    of the Go object are finite maps; [revoked == nil] is the empty map. *)

From S2P Require Import Prelude Errors Base64 Json JsonFacts JsonCodec Types Crypto Jwk Jws Helpers Keys.

Record TrustKeyStoreImpl := {
  keys : gmap string (gmap string ref);
  revoked : gmap string (gset string);
}.

Definition TrustKeyStoreImpl_zero : TrustKeyStoreImpl := {| keys := ∅; revoked := ∅ |}.

Section keystore.
Context `{X509, Digests, Rsa, Ecdsa, Signers}.

Definition TrustKeyStoreImpl_Add (h : heap) (store : TrustKeyStoreImpl) (issuer : string) (jwk : ref) : result TrustKeyStoreImpl :=
  j ← deref h jwk;
  if str_empty (Jwk_Kid j) then gose_err Gose.ErrInvalidKey
  else
    let ks := match keys store !! issuer with None => <[issuer := ∅]> (keys store) | Some _ => keys store end in
    match ks !! issuer with
    | None => Panic
    | Some keySet =>
      match keySet !! Jwk_Kid j with
      | Some _ => Ok {| keys := ks; revoked := revoked store |}
      | None => Ok {| keys := <[issuer := <[Jwk_Kid j := jwk]> keySet]> ks; revoked := revoked store |}
      end
    end.

Definition TrustKeyStoreImpl_Remove (store : TrustKeyStoreImpl) (issuer kid : string) : bool * TrustKeyStoreImpl :=
  match keys store !! issuer with
  | None => (false, store)
  | Some keySet =>
    let rs := match revoked store !! issuer with None => ∅ | Some rs => rs end in
    (true, {| keys := <[issuer := delete kid keySet]> (keys store);
              revoked := <[issuer := {[kid]} ∪ rs]> (revoked store) |})
  end.

Definition TrustKeyStoreImpl_Get (h : heap) (store : TrustKeyStoreImpl) (issuer kid : string) : result VerificationKey * heap :=
  if match revoked store !! issuer with Some rs => bool_decide (kid ∈ rs) | None => false end
  then (gose_err Gose.ErrUnknownKey, h)
  else
    match keys store !! issuer with
    | Some keySet =>
      match keySet !! kid with
      | Some jwk => NewVerificationKey h jwk
      | None => (gose_err Gose.ErrUnknownKey, h)
      end
    | None => (gose_err Gose.ErrUnknownKey, h)
    end.

(** The loop over [rootData], in some order of the Go map. *)
Fixpoint add_all (h : heap) (tmp : TrustKeyStoreImpl) (rootData : list (string * ref)) : result TrustKeyStoreImpl :=
  match rootData with
  | [] => Ok tmp
  | (issuer, jwk) :: rootData => tmp ← TrustKeyStoreImpl_Add h tmp issuer jwk; add_all h tmp rootData
  end.

Definition NewTrustKeyStore (h : heap) (rootData : list (string * ref)) : result TrustKeyStoreImpl :=
  add_all h TrustKeyStoreImpl_zero rootData.

(** The loop over the entries of the file. *)
Fixpoint load_entries (h : heap) (tmp : TrustKeyStoreImpl) (entries : list (string * json)) : result TrustKeyStoreImpl * heap :=
  match entries with
  | [] => (Ok tmp, h)
  | (issuer, entry) :: entries =>
    match UnmarshalJwk (json_print entry) with
    | Ok jwk =>
      let '(l, h) := alloc jwk h in
      match TrustKeyStoreImpl_Add h tmp issuer l with
      | Ok tmp => load_entries h tmp entries
      | Err e => (Err e, h)
      | Panic => (Panic, h)
      end
    | Err e => (Err e, h)
    | Panic => (Panic, h)
    end
  end.

(** The file system gives the contents of a name; [os.Stat] reports their size.
    [range] is the order in which the map is walked. *)
Definition NewTrustKeyStoreFromFile (fs : string → option bytes) (range : gmap string json → list (string * json)) (h : heap) (root : string) : result TrustKeyStoreImpl * heap :=
  match fs root with
  | None => (std_err NetFailure, h)
  | Some rootData =>
    if (MaxKeyFileSize <? len rootData)%N then (gose_err Gose.ErrInputTooLarge, h)
    else
      match json_Unmarshal dec_raw_map rootData ∅ with
      | Ok entries => load_entries h TrustKeyStoreImpl_zero (range entries)
      | Err e => (Err e, h)
      | Panic => (Panic, h)
      end
  end.
End keystore.
