(* ===== verification/KeyStoreFacts.v ===== *)
(** Properties of [KeyStore]: the abstract view of a store, that its methods
    implement it, and what holds along every sequence of calls. *)

From S2P Require Import Prelude Errors Base64 Json JsonFacts JsonCodec Types Crypto Jwk Jws Helpers Keys KeysFacts KeyStore.

(** ** The abstract store: who is trusted, and who was revoked *)
Definition stored (s : TrustKeyStoreImpl) (issuer kid : string) : option ref := keySet ← keys s !! issuer; keySet !! kid.
Definition is_revoked (s : TrustKeyStoreImpl) (issuer kid : string) : bool :=
  match revoked s !! issuer with Some rs => bool_decide (kid ∈ rs) | None => false end.
Definition trusted (s : TrustKeyStoreImpl) (issuer kid : string) : option ref :=
  if is_revoked s issuer kid then None else stored s issuer kid.

Section keystore.
Context `{X509, Digests, Rsa, Ecdsa, Signers}.

(** [Get] makes a verification key of the trusted JWK, and knows no other. *)
Lemma Get_refines h s issuer kid : TrustKeyStoreImpl_Get h s issuer kid =
  match trusted s issuer kid with Some l => NewVerificationKey h l | None => (gose_err Gose.ErrUnknownKey, h) end.
Proof.
  unfold TrustKeyStoreImpl_Get, trusted, stored, is_revoked.
  destruct (match revoked s !! issuer with Some rs => _ | None => false end); [done|].
  destruct (keys s !! issuer) as [ks|]; [|done]. cbn. by destruct (ks !! kid).
Qed.

(** [Add] stores a JWK under its identifier, unless there is one already; it does
    not touch what was revoked. *)
Lemma Add_refines h s issuer l s' : TrustKeyStoreImpl_Add h s issuer l = Ok s' →
  ∃ j, h !! l = Some j ∧ Jwk_Kid j ≠ "" ∧ revoked s' = revoked s ∧
  ∀ i k, stored s' i k =
    if bool_decide (i = issuer ∧ k = Jwk_Kid j ∧ stored s i k = None) then Some l else stored s i k.
Proof.
  unfold TrustKeyStoreImpl_Add, deref. destruct (h !! l) as [j|]; [|done]. cbn [mbind res_bind].
  destruct (str_empty (Jwk_Kid j)) eqn:Hk; [done|]. intros Hs. exists j.
  assert (Jwk_Kid j ≠ "") as Hk' by (intros Hk'; by rewrite Hk' in Hk).
  assert (revoked s' = revoked s ∧ ∀ i k, stored s' i k =
    if bool_decide (i = issuer ∧ k = Jwk_Kid j ∧ stored s i k = None) then Some l else stored s i k) as [? ?]; [|done].
  set (ks := match keys s !! issuer with None => <[issuer := ∅]> (keys s) | Some _ => keys s end) in Hs.
  assert (ks !! issuer = Some (default ∅ (keys s !! issuer)) ∧ ∀ i, i ≠ issuer → ks !! i = keys s !! i) as [Hi Hn].
  { unfold ks. destruct (keys s !! issuer) as [x|] eqn:E; [by rewrite E|]. split; [by rewrite lookup_insert_eq|].
    intros i Hi. by apply lookup_insert_ne. }
  clearbody ks. rewrite Hi in Hs. set (set := default ∅ (keys s !! issuer)) in *.
  assert (∀ k, stored s issuer k = set !! k) as Hst.
  { intros k. unfold stored, set. destruct (keys s !! issuer); cbn; [done|by rewrite lookup_empty]. }
  destruct (set !! Jwk_Kid j) as [l0|] eqn:Hl; injection Hs as <-; split; try done; intros i k; unfold stored at 1; cbn [keys].
  - case_bool_decide as Hc; [destruct Hc as (-> & -> & Hc); by rewrite Hst, Hl in Hc|].
    destruct (decide (i = issuer)) as [->|]; [rewrite Hi; cbn; by rewrite Hst|unfold stored; by rewrite Hn].
  - destruct (decide (i = issuer)) as [->|Hi'].
    + rewrite lookup_insert_eq. cbn. rewrite Hst. destruct (decide (k = Jwk_Kid j)) as [->|Hk''].
      * rewrite lookup_insert_eq, bool_decide_true; [done|]. by rewrite Hl.
      * rewrite lookup_insert_ne, bool_decide_false by naive_solver. done.
    + rewrite lookup_insert_ne, bool_decide_false, Hn by naive_solver. done.
Qed.

(** [Remove] forgets a key and revokes it, when its issuer is known at all. *)
Lemma Remove_refines s issuer kid :
  let '(b, s') := TrustKeyStoreImpl_Remove s issuer kid in
  b = bool_decide (is_Some (keys s !! issuer)) ∧
  (∀ i k, is_revoked s' i k = is_revoked s i k || (b && bool_decide (i = issuer ∧ k = kid))) ∧
  ∀ i k, stored s' i k = if b && bool_decide (i = issuer ∧ k = kid) then None else stored s i k.
Proof.
  unfold TrustKeyStoreImpl_Remove. destruct (keys s !! issuer) as [ks|] eqn:E; cbn beta iota delta [andb].
  2:{ split; [by rewrite bool_decide_false by by intros []|]. split; [|done]. intros i k. by rewrite orb_false_r. }
  split; [by rewrite bool_decide_true|]. split; intros i k.
  - unfold is_revoked. cbn [revoked]. destruct (decide (i = issuer)) as [->|Hi].
    + rewrite lookup_insert_eq. destruct (decide (k = kid)) as [->|Hk].
      * rewrite !bool_decide_true by set_solver. by rewrite orb_true_r.
      * rewrite (bool_decide_false (issuer = issuer ∧ k = kid)), orb_false_r by naive_solver.
        destruct (revoked s !! issuer) as [rs|]; [apply bool_decide_ext; set_solver|by rewrite bool_decide_false by set_solver].
    + rewrite lookup_insert_ne, (bool_decide_false (i = issuer ∧ _)), orb_false_r by naive_solver. done.
  - unfold stored. cbn [keys]. destruct (decide (i = issuer)) as [->|Hi].
    + rewrite lookup_insert_eq, E. cbn. destruct (decide (k = kid)) as [->|Hk].
      * by rewrite lookup_delete_eq, bool_decide_true.
      * by rewrite lookup_delete_ne, bool_decide_false by naive_solver.
    + by rewrite lookup_insert_ne, bool_decide_false by naive_solver.
Qed.

(** ** The specification

    A store is a map from issuers and identifiers to JWKs, the pairs that were
    revoked, and the issuers that have been heard of. *)
Record store_spec := {
  sp_stored : gmap (string * string) ref;
  sp_revoked : gset (string * string);
  sp_issuers : gset string;
}.
Definition spec_zero : store_spec := {| sp_stored := ∅; sp_revoked := ∅; sp_issuers := ∅ |}.

(** The first key of an issuer with an identifier stays. *)
Definition spec_add (h : heap) (a : store_spec) (issuer : string) (l : ref) : result store_spec :=
  j ← deref h l;
  if str_empty (Jwk_Kid j) then gose_err Gose.ErrInvalidKey
  else Ok {| sp_stored := match sp_stored a !! (issuer, Jwk_Kid j) with
                          | Some _ => sp_stored a
                          | None => <[(issuer, Jwk_Kid j) := l]> (sp_stored a)
                          end;
             sp_revoked := sp_revoked a; sp_issuers := {[issuer]} ∪ sp_issuers a |}.

(** Revoking is for good, even for a key that is not there. *)
Definition spec_remove (a : store_spec) (issuer kid : string) : bool * store_spec :=
  if bool_decide (issuer ∈ sp_issuers a)
  then (true, {| sp_stored := delete (issuer, kid) (sp_stored a); sp_revoked := {[(issuer, kid)]} ∪ sp_revoked a; sp_issuers := sp_issuers a |})
  else (false, a).

Definition spec_get (h : heap) (a : store_spec) (issuer kid : string) : result VerificationKey * heap :=
  if bool_decide ((issuer, kid) ∈ sp_revoked a) then (gose_err Gose.ErrUnknownKey, h)
  else match sp_stored a !! (issuer, kid) with Some l => NewVerificationKey h l | None => (gose_err Gose.ErrUnknownKey, h) end.

(** The store of the program represents one of the specification. *)
Record represents (s : TrustKeyStoreImpl) (a : store_spec) : Prop := {
  rep_stored i k : stored s i k = sp_stored a !! (i, k);
  rep_revoked i k : is_revoked s i k = bool_decide ((i, k) ∈ sp_revoked a);
  rep_issuers i : is_Some (keys s !! i) ↔ i ∈ sp_issuers a;
}.

Lemma Add_issuers h s issuer l s' i : TrustKeyStoreImpl_Add h s issuer l = Ok s' → is_Some (keys s' !! i) ↔ i = issuer ∨ is_Some (keys s !! i).
Proof.
  unfold TrustKeyStoreImpl_Add, deref. destruct (h !! l) as [j|]; [|done]. cbn [mbind res_bind]. destruct (str_empty (Jwk_Kid j)); [done|].
  assert (∀ m : gmap string (gmap string ref), ∀ x, is_Some (<[issuer := x]> m !! i) ↔ i = issuer ∨ is_Some (m !! i)) as Hi.
  { intros m x. rewrite lookup_insert_is_Some. destruct (decide (issuer = i)); naive_solver. }
  assert (is_Some (match keys s !! issuer with Some _ => keys s | None => <[issuer:=∅]> (keys s) end !! i) ↔ i = issuer ∨ is_Some (keys s !! i)) as Hk.
  { destruct (keys s !! issuer) eqn:E; [|by rewrite Hi]. split; [by right|]. intros [->|?]; [by rewrite E|done]. }
  revert Hk. generalize (match keys s !! issuer with Some _ => keys s | None => <[issuer:=∅]> (keys s) end). intros m Hk.
  destruct (m !! issuer) as [ks|]; [|done]. destruct (ks !! Jwk_Kid j); intros [= <-]; cbn [keys]; [done|]. rewrite Hi, Hk. tauto.
Qed.

Lemma add_refinement h s a issuer l : represents s a →
  match TrustKeyStoreImpl_Add h s issuer l, spec_add h a issuer l with
  | Ok s', Ok a' => represents s' a'
  | Err e, Err e' => e = e'
  | Panic, Panic => True
  | _, _ => False
  end.
Proof.
  intros [Hst Hrev Hiss]. destruct (TrustKeyStoreImpl_Add h s issuer l) as [s'|e|] eqn:Ha.
  - pose proof (λ i, Add_issuers _ _ _ _ _ i Ha) as Hi. apply Add_refines in Ha as (j & Hj & Hk & Hr & Hs').
    unfold spec_add, deref. rewrite Hj. cbn [mbind res_bind].
    destruct (str_empty (Jwk_Kid j)) eqn:E; [by destruct (Jwk_Kid j)|]. split; cbn [sp_stored sp_revoked sp_issuers].
    + intros i k. rewrite Hs', Hst. destruct (sp_stored a !! (issuer, Jwk_Kid j)) eqn:E1; case_bool_decide as Hc.
      * destruct Hc as (-> & -> & Hc). rewrite E1 in Hc. done.
      * done.
      * destruct Hc as (-> & -> & _). by rewrite lookup_insert_eq.
      * destruct (decide ((issuer, Jwk_Kid j) = (i, k))) as [[= <- <-]|Hne]; [by destruct Hc|by rewrite lookup_insert_ne].
    + intros i k. unfold is_revoked. rewrite Hr. apply Hrev.
    + intros i. rewrite Hi, Hiss. set_solver.
  - unfold TrustKeyStoreImpl_Add, spec_add in *. destruct (deref h l) as [j| |]; cbn [mbind res_bind] in *; [|congruence|done].
    destruct (str_empty (Jwk_Kid j)); [by injection Ha as <-|].
    destruct (keys s !! issuer) eqn:E; [rewrite E in Ha|rewrite lookup_insert_eq in Ha]; by destruct (_ !! Jwk_Kid j).
  - unfold TrustKeyStoreImpl_Add, spec_add in *. destruct (deref h l) as [j| |]; cbn [mbind res_bind] in *; [|done|done].
    destruct (str_empty (Jwk_Kid j)); [done|].
    destruct (keys s !! issuer) eqn:E; [rewrite E in Ha|rewrite lookup_insert_eq in Ha]; by destruct (_ !! Jwk_Kid j).
Qed.

Lemma Remove_issuers s issuer kid i : is_Some (keys (snd (TrustKeyStoreImpl_Remove s issuer kid)) !! i) ↔ is_Some (keys s !! i).
Proof.
  unfold TrustKeyStoreImpl_Remove. destruct (keys s !! issuer) eqn:E; [|done]. cbn. rewrite lookup_insert_is_Some.
  destruct (decide (issuer = i)) as [<-|]; [rewrite E|]; naive_solver.
Qed.

Lemma remove_refinement s a issuer kid : represents s a →
  let '(b, s') := TrustKeyStoreImpl_Remove s issuer kid in let '(b', a') := spec_remove a issuer kid in b = b' ∧ represents s' a'.
Proof.
  intros [Hst Hrev Hiss]. pose proof (Remove_refines s issuer kid) as Hr. pose proof (Remove_issuers s issuer kid) as Hi.
  destruct (TrustKeyStoreImpl_Remove s issuer kid) as [b s']. cbn [snd] in Hi. destruct Hr as (Hb & Hr & Hs'). unfold spec_remove.
  assert (b = bool_decide (issuer ∈ sp_issuers a)) as Hb' by (rewrite Hb; apply bool_decide_ext, Hiss). rewrite <- Hb'.
  destruct b; (split; [done|]); split; cbn [sp_stored sp_revoked sp_issuers].
  - intros i k. rewrite Hs', Hst. destruct (decide (i = issuer ∧ k = kid)) as [Hc|Hc].
    + rewrite bool_decide_true by done. destruct Hc as [-> ->]. by rewrite lookup_delete_eq.
    + rewrite bool_decide_false, lookup_delete_ne by naive_solver. done.
  - intros i k. rewrite Hr, Hrev. cbn beta iota delta [andb]. rewrite <- bool_decide_or. apply bool_decide_ext. set_solver.
  - intros i. by rewrite Hi.
  - intros i k. by rewrite Hs', Hst.
  - intros i k. rewrite Hr, Hrev. by rewrite orb_false_r.
  - intros i. by rewrite Hi.
Qed.

(** C4. The three methods of the store behave as the specification says on every store
    that represents it, in what they answer and in what they leave behind; the empty
    store represents the empty specification. *)
Theorem TrustKeyStore_refinement h s a issuer kid l : represents s a →
  match TrustKeyStoreImpl_Add h s issuer l, spec_add h a issuer l with
  | Ok s', Ok a' => represents s' a'
  | Err e, Err e' => e = e'
  | Panic, Panic => True
  | _, _ => False
  end ∧
  (let '(b, s') := TrustKeyStoreImpl_Remove s issuer kid in let '(b', a') := spec_remove a issuer kid in b = b' ∧ represents s' a') ∧
  TrustKeyStoreImpl_Get h s issuer kid = spec_get h a issuer kid ∧ represents TrustKeyStoreImpl_zero spec_zero.
Proof.
  intros Hr. split_and!; [by apply add_refinement|by apply remove_refinement| |].
  - rewrite Get_refines. destruct Hr as [Hst Hrev _]. unfold trusted, spec_get. rewrite Hrev, Hst. by case_bool_decide.
  - split; cbn; [intros i k; unfold stored; cbn; by rewrite !lookup_empty|intros i k; unfold is_revoked; cbn; by rewrite lookup_empty, bool_decide_false by set_solver|].
    intros i. rewrite lookup_empty. split; [by intros []|set_solver].
Qed.

(** ** Sequences of calls

    The calls of any number of clients are interleaved in some order; in between the
    program may change the JWKs it holds pointers to. *)
Inductive ks_step : TrustKeyStoreImpl * heap → TrustKeyStoreImpl * heap → Prop :=
  | step_add s h issuer l s' : TrustKeyStoreImpl_Add h s issuer l = Ok s' → ks_step (s, h) (s', h)
  | step_remove s h issuer kid b s' : TrustKeyStoreImpl_Remove s issuer kid = (b, s') → ks_step (s, h) (s', h)
  | step_get s h issuer kid r h' : TrustKeyStoreImpl_Get h s issuer kid = (r, h') → ks_step (s, h) (s, h')
  | step_program s h h' : ks_step (s, h) (s, h').

Lemma ks_step_revoked st st' issuer kid : ks_step st st' →
  is_revoked (fst st) issuer kid = true → is_revoked (fst st') issuer kid = true.
Proof.
  intros [s h i l s' Ha|s h i k b s' Hr| |] Hv; cbn in *; try done.
  - apply Add_refines in Ha as (j & _ & _ & Hrev & _). unfold is_revoked in *. by rewrite Hrev.
  - pose proof (Remove_refines s i k) as Href. rewrite Hr in Href. destruct Href as (_ & Href & _). by rewrite Href, Hv.
Qed.

Lemma ks_steps_revoked st st' issuer kid : rtc ks_step st st' →
  is_revoked (fst st) issuer kid = true → is_revoked (fst st') issuer kid = true.
Proof. induction 1 as [|st1 st2 st3 Hs _ IH]; [done|]. intros Hv. by eapply IH, ks_step_revoked. Qed.

(** C33. Once [Remove] has reported success for a key, no later [Get] returns it, whatever
    calls come in between: adding it again does not bring it back. *)
Theorem revocation_sticky s h issuer kid s1 s2 h2 :
  TrustKeyStoreImpl_Remove s issuer kid = (true, s1) → rtc ks_step (s1, h) (s2, h2) →
  TrustKeyStoreImpl_Get h2 s2 issuer kid = (gose_err Gose.ErrUnknownKey, h2).
Proof.
  intros Hr Hs. rewrite Get_refines. unfold trusted.
  assert (is_revoked s2 issuer kid = true) as ->; [|done]. apply (ks_steps_revoked _ _ issuer kid Hs). cbn [fst].
  pose proof (Remove_refines s issuer kid) as Href. rewrite Hr in Href. destruct Href as (_ & Href & _).
  by rewrite Href, bool_decide_true, orb_true_r.
Qed.

Lemma ks_step_trusted st st' issuer kid l : ks_step st st' → stored (fst st) issuer kid = Some l →
  stored (fst st') issuer kid = Some l ∨ is_revoked (fst st') issuer kid = true.
Proof.
  intros [s h i l' s' Ha|s h i k b s' Hr| |] Hv; cbn in *; try by left.
  - apply Add_refines in Ha as (j & _ & _ & _ & Hst). left. rewrite Hst, bool_decide_false; [done|]. rewrite Hv. naive_solver.
  - pose proof (Remove_refines s i k) as Href. rewrite Hr in Href. destruct Href as (_ & Hrev & Hst).
    rewrite Hst, Hrev. destruct (b && _); [right; by rewrite orb_true_r|by left].
Qed.

(** C34. A trusted key is never replaced: along every sequence of calls it stays the same
    JWK until it is revoked. *)
Theorem trusted_until_revoked s h issuer kid l s' h' :
  trusted s issuer kid = Some l → rtc ks_step (s, h) (s', h') →
  trusted s' issuer kid = Some l ∨ is_revoked s' issuer kid = true.
Proof.
  unfold trusted at 1. destruct (is_revoked s issuer kid) eqn:Hr; [done|]. intros Hst Hs.
  change s with (fst (s, h)) in Hst. change s' with (fst (s', h')).
  assert (∀ st st', rtc ks_step st st' → stored (fst st) issuer kid = Some l →
    stored (fst st') issuer kid = Some l ∨ is_revoked (fst st') issuer kid = true) as Hind.
  { clear. induction 1 as [|st1 st2 st3 Hs Hss IH]; [by left|]. intros Hst.
    destruct (ks_step_trusted _ _ _ _ _ Hs Hst) as [|Hr]; [by apply IH|right; by eapply ks_steps_revoked]. }
  destruct (Hind _ _ Hs Hst) as [Hst'|]; [|by right]. unfold trusted. destruct (is_revoked (fst (s', h')) issuer kid); [by right|by left].
Qed.

(** ** The initial stores *)
Lemma add_all_spec h data s s' : NoDup data.*1 → (∀ i, i ∈ data.*1 → keys s !! i = None) →
  add_all h s data = Ok s' →
  revoked s' = revoked s ∧ ∀ i k l, stored s' i k = Some l ↔
    stored s i k = Some l ∨ ∃ j, (i, l) ∈ data ∧ h !! l = Some j ∧ k = Jwk_Kid j ∧ k ≠ "".
Proof.
  revert s. induction data as [|[i0 l0] data IH]; intros s Hnd Hk; cbn.
  { intros [= <-]. split; [done|]. intros i k l. split; [by left|]. intros [?|(j & ?%elem_of_nil & _)]; done. }
  cbn in Hnd. apply list.NoDup_cons in Hnd as [Hni Hnd].
  intros (s1 & Ha & Hs)%bind_Ok. pose proof Ha as (j0 & Hj0 & Hk0 & Hrev & Hst)%Add_refines.
  assert (∀ i, i ≠ i0 → keys s1 !! i = keys s !! i) as Hother.
  { intros i Hi. unfold TrustKeyStoreImpl_Add, deref in Ha. rewrite Hj0 in Ha. cbn in Ha. destruct (str_empty _); [done|].
    destruct (keys s !! i0) as [ks|] eqn:E; rewrite ?E, ?lookup_insert_eq in Ha; cbn in Ha;
      [destruct (ks !! _)|rewrite lookup_empty in Ha]; injection Ha as <-; cbn; by rewrite ?lookup_insert_ne. }
  apply IH in Hs as [Hrev' Hst']; [|done|].
  2:{ intros i Hi. rewrite Hother by naive_solver. apply Hk. by apply elem_of_cons; right. }
  split; [congruence|]. intros i k l. rewrite Hst', Hst.
  assert (stored s i0 (Jwk_Kid j0) = None) as Hno by (unfold stored; rewrite (Hk i0); [done|cbn; apply list_elem_of_here]).
  assert (∀ j, h !! l = Some j → k = Jwk_Kid j → (i, l) ∈ (i0, l0) :: data → (i, k, l) = (i0, Jwk_Kid j0, l0) ∨ (i, l) ∈ data) as Hsplit.
  { intros j Hj -> [[= -> ->]|Hin]%elem_of_cons; [left; congruence|by right]. }
  case_bool_decide as Hc.
  - destruct Hc as (-> & -> & Hnone). rewrite Hno. split.
    + intros [[= <-]|(j & Hin & ?)]; right; [exists j0; split_and!; [apply list_elem_of_here|done..]|exists j].
      split; [by apply list_elem_of_further|done].
    + intros [?|(j & Hin & Hj & Hkj & ?)]; [done|]. destruct (Hsplit j Hj Hkj Hin) as [[= ->]|Hin']; [by left|].
      exfalso. apply Hni, list_elem_of_fmap. by exists (i0, l).
  - split; [intros [?|(j & Hin & ?)]; [by left|right; exists j; split; [by apply list_elem_of_further|done]]|].
    intros [?|(j & Hin & Hj & Hkj & ?)]; [by left|]. destruct (Hsplit j Hj Hkj Hin) as [[= -> -> ->]|Hin']; [|right; by exists j].
    by exfalso; apply Hc.
Qed.

(** A new store trusts, for each issuer, its one JWK under the JWK's identifier; the
    order in which the map is walked does not matter. *)
Theorem NewTrustKeyStore_spec h data s : NoDup data.*1 → NewTrustKeyStore h data = Ok s →
  ∀ i k l, trusted s i k = Some l ↔ ∃ j, (i, l) ∈ data ∧ h !! l = Some j ∧ k = Jwk_Kid j ∧ k ≠ "".
Proof.
  intros Hnd Hs i k l. apply add_all_spec in Hs as [Hrev Hst]; [|done|done].
  assert (trusted s i k = stored s i k) as -> by (unfold trusted, is_revoked; by rewrite Hrev).
  rewrite Hst. split; [intros [?|?]; done|by right].
Qed.
End keystore.
