(* ===== verification/JwksTrustStore.v ===== *)
(** [jwks_truststore.go]: the trust store that fetches a key set and caches it.

    A [time.Time] is a number of nanoseconds, the zero time being 0; a
    [time.Duration] is an [int64].  [mu] makes [knownIssuer], [lookup] and the two
    critical sections of [refresh] atomic; each takes the reading of the clock it
    makes; [JwksMutex] takes them apart and shows it.  [Get] is their sequential
    composition, and [jwks_step] interleaves the calls of any number of goroutines,
    which [fetchMu] serialises. *)

From S2P Require Import Prelude Errors Base64 Json JsonFacts JsonCodec Types Crypto Jwk Jws Helpers Keys.

Definition maxJwksBytes : N := 1048576.
Definition DefaultJwksRefreshInterval : Z := 300000000000.
Definition DefaultJwksMinRefreshInterval : Z := 30000000000.

Definition time := Z.
Definition Time_IsZero (t : time) : bool := (t =? 0)%Z.
(** [t.Sub(u)] saturates at the ends of [int64]. *)
Definition Time_Sub (t u : time) : Z := Z.max MinInt64 (Z.min MaxInt64 (t - u)).

Record JwksTrustStore := {
  url : string;
  inputIssuers : string;
  issuers : list string;
  jwks_keys : list VerificationKey;
  fetchedAt : time;
  lastAttempt : time;
  refreshInterval : Z;
  minRefreshInterval : Z;
}.

Definition set_issuers (v : list string) (s : JwksTrustStore) : JwksTrustStore :=
  {| url := url s; inputIssuers := inputIssuers s; issuers := v; jwks_keys := jwks_keys s; fetchedAt := fetchedAt s;
     lastAttempt := lastAttempt s; refreshInterval := refreshInterval s; minRefreshInterval := minRefreshInterval s |}.
Definition set_lastAttempt (v : time) (s : JwksTrustStore) : JwksTrustStore :=
  {| url := url s; inputIssuers := inputIssuers s; issuers := issuers s; jwks_keys := jwks_keys s; fetchedAt := fetchedAt s;
     lastAttempt := v; refreshInterval := refreshInterval s; minRefreshInterval := minRefreshInterval s |}.
Definition set_keys (ks : list VerificationKey) (now : time) (s : JwksTrustStore) : JwksTrustStore :=
  {| url := url s; inputIssuers := inputIssuers s; issuers := issuers s; jwks_keys := ks; fetchedAt := now;
     lastAttempt := lastAttempt s; refreshInterval := refreshInterval s; minRefreshInterval := minRefreshInterval s |}.

(** Options set the two intervals. *)
Definition JwksOption := JwksTrustStore → JwksTrustStore.
Definition WithJwksRefreshInterval (d : Z) : JwksOption := λ s,
  {| url := url s; inputIssuers := inputIssuers s; issuers := issuers s; jwks_keys := jwks_keys s; fetchedAt := fetchedAt s;
     lastAttempt := lastAttempt s; refreshInterval := d; minRefreshInterval := minRefreshInterval s |}.
Definition WithJwksMinRefreshInterval (d : Z) : JwksOption := λ s,
  {| url := url s; inputIssuers := inputIssuers s; issuers := issuers s; jwks_keys := jwks_keys s; fetchedAt := fetchedAt s;
     lastAttempt := lastAttempt s; refreshInterval := refreshInterval s; minRefreshInterval := d |}.

Definition NewJwksKeyStore (issuerList url : string) (opts : list JwksOption) : JwksTrustStore :=
  fold_left (λ store opt, opt store) opts
    {| url := url; inputIssuers := issuerList; issuers := []; jwks_keys := []; fetchedAt := 0%Z; lastAttempt := 0%Z;
       refreshInterval := DefaultJwksRefreshInterval; minRefreshInterval := DefaultJwksMinRefreshInterval |}.

(** What a request ends in: it could not be made, the client failed, or there is a
    response. *)
Inductive http_outcome :=
  | RequestFailed
  | DoFailed
  | Response (status : Z) (body : bytes).
Definition StatusOK : Z := 200.

(** The two ways [lookup] returns: with an answer, or asking for a fetch. *)
Inductive lookup_result :=
  | Done (r : result (option VerificationKey))
  | NeedFetch.

Section jwks.
Context `{X509, Digests, Rsa, Ecdsa, Signers}.

Definition JwksTrustStore_Add (store : JwksTrustStore) (issuer : string) (jwk : ref) : result unit := Err (EText "read-only trust store").
Definition JwksTrustStore_Remove (store : JwksTrustStore) (issuer kid : string) : bool := false.

Definition knownIssuer (store : JwksTrustStore) (issuer : string) : bool * JwksTrustStore :=
  let store := if (len (issuers store) =? 0)%N then set_issuers (Split (inputIssuers store) ",") store else store in
  (existsb (λ issuerInStore, bool_decide (issuerInStore = issuer)) (issuers store), store).

(** The loop over the cached keys. *)
Fixpoint find_key (h : heap) (candidates : list VerificationKey) (kid : string) : result (option VerificationKey) :=
  match candidates with
  | [] => Ok None
  | candidate :: candidates =>
    k ← VerificationKey_Kid h candidate;
    if bool_decide (k = kid) then Ok (Some candidate) else find_key h candidates kid
  end.

Definition fresh_at (store : JwksTrustStore) (now : time) : bool :=
  negb (Time_IsZero (fetchedAt store)) &&
  ((refreshInterval store =? 0)%Z || (Time_Sub now (fetchedAt store) <=? refreshInterval store)%Z).
Definition coolingDown_at (store : JwksTrustStore) (now : time) : bool :=
  negb (Time_IsZero (lastAttempt store)) && (Time_Sub now (lastAttempt store) <? minRefreshInterval store)%Z.

Definition lookup_kid (h : heap) (store : JwksTrustStore) (now : time) (kid : string) : lookup_result :=
  match find_key h (jwks_keys store) kid with
  | Ok key =>
    let fresh := fresh_at store now in
    let coolingDown := coolingDown_at store now in
    match key with
    | Some key =>
      if fresh then Done (Ok (Some key))
      else if coolingDown then Done (gose_err Gose.ErrJwksStale)
      else NeedFetch
    | None => if coolingDown then Done (Ok None) else NeedFetch
    end
  | Err e => Done (Err e)
  | Panic => Done Panic
  end.

(** *** [refresh], between its two critical sections *)
Fixpoint load_jwks (h : heap) (jwks : list Jwk) : result (list VerificationKey) * heap :=
  match jwks with
  | [] => (Ok [], h)
  | jwk :: jwks =>
    let '(l, h) := alloc jwk h in
    match NewVerificationKey h l with
    | (Ok key, h) =>
      match load_jwks h jwks with
      | (Ok ks, h) => (Ok (key :: ks), h)
      | (r, h) => (r, h)
      end
    | (Err e, h) => (Err (EWrap "failed to load verification key from JWK" e), h)
    | (Panic, h) => (Panic, h)
    end
  end.

Definition fetch_keys (h : heap) (outcome : http_outcome) : result (list VerificationKey) * heap :=
  match outcome with
  | RequestFailed => (Err (EWrap "error creating request for JWKS" (EStd NetFailure)), h)
  | DoFailed => (Err (EWrap "error encountered retrieving JWKS" (EStd NetFailure)), h)
  | Response status body =>
    if negb (status =? StatusOK)%Z then (Err (EText "error encountered retrieving JWKS"), h)
    else
      match json_parse_first (takeN maxJwksBytes body) with
      | None => (Err (EText "error encountered retrieving JWKS: invalid encoding"), h)
      | Some t =>
        match Jwks_UnmarshalJSON (json_print t) [] with
        | Ok jwks => load_jwks h jwks
        | Err _ => (Err (EText "error encountered retrieving JWKS: invalid encoding"), h)
        | Panic => (Panic, h)
        end
      end
  end.

(** [t0] and [t1] are the two readings of the clock. *)
Definition refresh (h : heap) (store : JwksTrustStore) (t0 t1 : time) (outcome : http_outcome) : result unit * JwksTrustStore * heap :=
  let store := set_lastAttempt t0 store in
  match fetch_keys h outcome with
  | (Ok ks, h) => (Ok tt, set_keys ks t1 store, h)
  | (Err e, h) => (Err e, store, h)
  | (Panic, h) => (Panic, store, h)
  end.

(** One call with nobody else around: [now i] is the [i]-th reading of the clock. *)
Definition JwksTrustStore_Get (h : heap) (store : JwksTrustStore) (now : nat → time) (outcome : http_outcome) (issuer kid : string)
    : result (option VerificationKey) * JwksTrustStore * heap :=
  let '(known, store) := knownIssuer store issuer in
  if negb known then (Ok None, store, h)
  else
    match lookup_kid h store (now 0) kid with
    | Done r => (r, store, h)
    | NeedFetch =>
      match lookup_kid h store (now 1) kid with
      | Done r => (r, store, h)
      | NeedFetch =>
        match refresh h store (now 2) (now 3) outcome with
        | (Ok _, store, h) =>
          match lookup_kid h store (now 4) kid with
          | Done r => (r, store, h)
          | NeedFetch => (Ok None, store, h)
          end
        | (Err e, store, h) => (Err e, store, h)
        | (Panic, store, h) => (Panic, store, h)
        end
      end
    end.

(** ** Interleaved calls *)
(** Where a call of [Get] is. *)
Inductive pc :=
  | PCall (issuer kid : string)
  | PLookup (kid : string)                          (** before the first lookup *)
  | PLock (kid : string)                            (** waiting for [fetchMu] *)
  | PRecheck (kid : string)                         (** holds [fetchMu] *)
  | PAttempt (kid : string)
  | PFetch (kid : string)
  | PInstall (kid : string) (ks : list VerificationKey)
  | PFinal (kid : string)
  | PUnlock (r : result (option VerificationKey))   (** the deferred unlock *)
  | PDone (r : result (option VerificationKey)).

Record jwks_state := {
  st_store : JwksTrustStore;
  st_heap : heap;
  st_clock : time;
  st_owner : option nat;        (** who holds [fetchMu] *)
  st_calls : gmap nat pc;
  st_attempts : list time;      (** when fetches were attempted, the last one first *)
  st_responses : list http_outcome;   (** what came of the requests, the last one first *)
}.

Definition after_lookup (r : lookup_result) (done : result (option VerificationKey) → pc) (fetch : pc) : pc :=
  match r with Done r => done r | NeedFetch => fetch end.

(** A step leaves the clock, the owner and the records of attempts and responses as they
    are, unless it says so. *)
Definition goto (t : nat) (p : pc) (s : jwks_state) : jwks_state :=
  {| st_store := st_store s; st_heap := st_heap s; st_clock := st_clock s; st_owner := st_owner s;
     st_calls := <[t := p]> (st_calls s); st_attempts := st_attempts s; st_responses := st_responses s |}.
Definition with_store (store : JwksTrustStore) (s : jwks_state) : jwks_state :=
  {| st_store := store; st_heap := st_heap s; st_clock := st_clock s; st_owner := st_owner s;
     st_calls := st_calls s; st_attempts := st_attempts s; st_responses := st_responses s |}.
Definition fetched (outcome : http_outcome) (h : heap) (s : jwks_state) : jwks_state :=
  {| st_store := st_store s; st_heap := h; st_clock := st_clock s; st_owner := st_owner s;
     st_calls := st_calls s; st_attempts := st_attempts s; st_responses := outcome :: st_responses s |}.
Definition with_owner (o : option nat) (s : jwks_state) : jwks_state :=
  {| st_store := st_store s; st_heap := st_heap s; st_clock := st_clock s; st_owner := o;
     st_calls := st_calls s; st_attempts := st_attempts s; st_responses := st_responses s |}.
Definition attempt_now (s : jwks_state) : jwks_state :=
  {| st_store := set_lastAttempt (st_clock s) (st_store s); st_heap := st_heap s; st_clock := st_clock s; st_owner := st_owner s;
     st_calls := st_calls s; st_attempts := st_clock s :: st_attempts s; st_responses := st_responses s |}.
Definition at_clock (c : time) (s : jwks_state) : jwks_state :=
  {| st_store := st_store s; st_heap := st_heap s; st_clock := c; st_owner := st_owner s;
     st_calls := st_calls s; st_attempts := st_attempts s; st_responses := st_responses s |}.

Inductive jwks_step (s : jwks_state) : jwks_state → Prop :=
  | js_tick c : (st_clock s <= c)%Z → jwks_step s (at_clock c s)
  | js_spawn t issuer kid : st_calls s !! t = None → jwks_step s (goto t (PCall issuer kid) s)
  | js_issuer t issuer kid b store :
      st_calls s !! t = Some (PCall issuer kid) → knownIssuer (st_store s) issuer = (b, store) →
      jwks_step s (goto t (if b then PLookup kid else PDone (Ok None)) (with_store store s))
  | js_lookup t kid :
      st_calls s !! t = Some (PLookup kid) →
      jwks_step s (goto t (after_lookup (lookup_kid (st_heap s) (st_store s) (st_clock s) kid) PDone (PLock kid)) s)
  | js_lock t kid :
      st_calls s !! t = Some (PLock kid) → st_owner s = None →
      jwks_step s (goto t (PRecheck kid) (with_owner (Some t) s))
  | js_recheck t kid :
      st_calls s !! t = Some (PRecheck kid) →
      jwks_step s (goto t (after_lookup (lookup_kid (st_heap s) (st_store s) (st_clock s) kid) PUnlock (PAttempt kid)) s)
  | js_attempt t kid :
      st_calls s !! t = Some (PAttempt kid) → jwks_step s (goto t (PFetch kid) (attempt_now s))
  | js_fetch t kid outcome r h :
      st_calls s !! t = Some (PFetch kid) → fetch_keys (st_heap s) outcome = (r, h) →
      jwks_step s (goto t (match r with Ok ks => PInstall kid ks | Err e => PUnlock (Err e) | Panic => PUnlock Panic end) (fetched outcome h s))
  | js_install t kid ks :
      st_calls s !! t = Some (PInstall kid ks) →
      jwks_step s (goto t (PFinal kid) (with_store (set_keys ks (st_clock s) (st_store s)) s))
  | js_final t kid :
      st_calls s !! t = Some (PFinal kid) →
      jwks_step s (goto t (after_lookup (lookup_kid (st_heap s) (st_store s) (st_clock s) kid) PUnlock (PUnlock (Ok None))) s)
  | js_unlock t r :
      st_calls s !! t = Some (PUnlock r) → jwks_step s (goto t (PDone r) (with_owner None s)).

(** Before any call, with a clock that is past the zero time. *)
Definition jwks_init (store : JwksTrustStore) (h : heap) (c : time) : jwks_state :=
  {| st_store := store; st_heap := h; st_clock := c; st_owner := None; st_calls := ∅; st_attempts := []; st_responses := [] |}.
End jwks.
