(* ===== verification/JwksTrustStoreFacts.v ===== *)
(** Properties of [JwksTrustStore]: what a lookup may answer, that fetches are
    rate-limited whatever calls are interleaved, and that no response of the server
    makes a call panic. *)

From S2P Require Import Prelude Errors Base64 Json JsonFacts JsonCodec Types Crypto Jwk JwkFacts Jws Helpers HelpersFacts Keys KeysFacts JwksTrustStore.

(** ** Time *)
Lemma Time_Sub_lt t u d : (u <= t)%Z → (d <= MaxInt64)%Z → (Time_Sub t u <? d)%Z = false → (u + d <= t)%Z.
Proof. unfold Time_Sub, MaxInt64, MinInt64. lia. Qed.

Lemma Time_Sub_le t u d : (0 <= d < MaxInt64)%Z → (Time_Sub t u <=? d)%Z = true → (t - u <= d)%Z.
Proof. unfold Time_Sub, MaxInt64, MinInt64. lia. Qed.

Section jwks.
Context `{X509, Digests, Rsa, Ecdsa, Signers}.

(** ** Lookups *)
Lemma find_key_spec h ks kid vk : find_key h ks kid = Ok (Some vk) → vk ∈ ks ∧ VerificationKey_Kid h vk = Ok kid.
Proof.
  induction ks as [|k ks IH]; cbn; [done|]. intros (k' & Hk & Hf)%bind_Ok. case_bool_decide; [|].
  - injection Hf as <-. subst. split; [apply list_elem_of_here|done].
  - destruct (IH Hf). split; [by apply list_elem_of_further|done].
Qed.

(** A key is answered exactly when it is the first cached one with the identifier and
    the set it came with is trusted at that moment. *)
Theorem lookup_key h s now kid vk :
  lookup_kid h s now kid = Done (Ok (Some vk)) ↔ find_key h (jwks_keys s) kid = Ok (Some vk) ∧ fresh_at s now = true.
Proof.
  unfold lookup_kid. destruct (find_key h (jwks_keys s) kid) as [[k|]| |].
  - destruct (fresh_at s now); [split; [by intros [= ->]|by intros [[= ->] _]]|].
    by destruct (coolingDown_at s now); split; [|intros []| |intros []].
  - by destruct (coolingDown_at s now); split; [|intros []| |intros []].
  - by split; [|intros []].
  - by split; [|intros []].
Qed.

(** A fetch is asked for only when the last attempt is not too recent. *)
Lemma lookup_fetch h s now kid : lookup_kid h s now kid = NeedFetch → coolingDown_at s now = false.
Proof.
  unfold lookup_kid. intros Hf. destruct (find_key _ _ _) as [[k|]| |]; [|by destruct (coolingDown_at s now)|done|done].
  destruct (fresh_at s now); [done|]. by destruct (coolingDown_at s now).
Qed.

(** A stale key is withheld: while the store cools down a lookup of a cached key ends
    in [ErrJwksStale]. *)
Theorem lookup_stale h s now kid vk :
  find_key h (jwks_keys s) kid = Ok (Some vk) → fresh_at s now = false →
  lookup_kid h s now kid = if coolingDown_at s now then Done (gose_err Gose.ErrJwksStale) else NeedFetch.
Proof. unfold lookup_kid. by intros -> ->. Qed.

(** The bound on the age of a trusted set, in nanoseconds. *)
Lemma fresh_age s now : (0 < refreshInterval s < MaxInt64)%Z → fresh_at s now = true →
  fetchedAt s ≠ 0%Z ∧ (now - fetchedAt s <= refreshInterval s)%Z.
Proof.
  unfold fresh_at, Time_IsZero. intros Hr [Hz Hf]%andb_true_iff. split; [lia|].
  apply Time_Sub_le; [lia|]. destruct (Z.eqb_spec (refreshInterval s) 0); [lia|done].
Qed.

(** ** Interleaved calls *)
(** The call holds [fetchMu]. *)
Definition holds (p : pc) : Prop :=
  match p with PRecheck _ | PAttempt _ | PFetch _ | PInstall _ _ | PFinal _ | PUnlock _ => True | _ => False end.

(** Attempts are at least the minimum interval apart. *)
Fixpoint spaced (d : Z) (l : list time) : Prop :=
  match l with
  | a :: (b :: _) as l' => (b + d <= a)%Z ∧ spaced d l'
  | _ => True
  end.

Definition last_of (l : list time) : time := match l with [] => 0%Z | a :: _ => a end.

Record jwks_inv (d c0 : Z) (s : jwks_state) : Prop := {
  inv_interval : minRefreshInterval (st_store s) = d;
  inv_clock : (0 < c0 <= st_clock s)%Z;
  inv_owner t p : st_calls s !! t = Some p → holds p → st_owner s = Some t;
  inv_last : lastAttempt (st_store s) = last_of (st_attempts s);
  inv_past : Forall (λ a, c0 <= a <= st_clock s)%Z (st_attempts s);
  inv_spaced : spaced d (st_attempts s);
  (** a call that is about to attempt a fetch has found the store ready, and nobody
      has made it less ready since *)
  inv_ready t kid : st_calls s !! t = Some (PAttempt kid) → st_attempts s = [] ∨ (last_of (st_attempts s) + d <= st_clock s)%Z;
}.

Lemma knownIssuer_store s issuer b s' : knownIssuer s issuer = (b, s') →
  minRefreshInterval s' = minRefreshInterval s ∧ lastAttempt s' = lastAttempt s.
Proof. unfold knownIssuer. intros [= _ <-]. by destruct (_ =? 0)%N. Qed.

(** A step that changes neither attempts nor owner and moves call [t] to a pc which
    holds the mutex only if the old one did. *)
Lemma inv_goto d c0 s t p0 p : (0 <= d)%Z → jwks_inv d c0 s → st_calls s !! t = Some p0 → (holds p → holds p0) →
  (∀ kid, p = PAttempt kid → st_attempts s = [] ∨ (last_of (st_attempts s) + d <= st_clock s)%Z) →
  jwks_inv d c0 (goto t p s).
Proof.
  intros Hd [Hi Hc Ho Hl Hp Hs Hr] H0t Hh Hat. split; cbn; try done.
  - intros t' p' Hp' Hh'. destruct (decide (t' = t)) as [->|Hn].
    + rewrite lookup_insert_eq in Hp'. injection Hp' as <-. by eapply Ho, Hh.
    + rewrite lookup_insert_ne in Hp' by done. by eapply Ho.
  - intros t' kid Hk. destruct (decide (t' = t)) as [->|Hn].
    + rewrite lookup_insert_eq in Hk. injection Hk as ->. by eapply Hat.
    + rewrite lookup_insert_ne in Hk by done. by eapply Hr.
Qed.

Lemma inv_with_store d c0 s store : jwks_inv d c0 s →
  minRefreshInterval store = minRefreshInterval (st_store s) → lastAttempt store = lastAttempt (st_store s) →
  jwks_inv d c0 (with_store store s).
Proof. intros [] Hm Hl. split; cbn; try done; congruence. Qed.

Lemma inv_fetched d c0 s o h : jwks_inv d c0 s → jwks_inv d c0 (fetched o h s).
Proof. by intros []. Qed.

Lemma Forall_clock (l : list time) c0 c c' : (c <= c')%Z → Forall (λ a, c0 <= a <= c)%Z l → Forall (λ a, c0 <= a <= c')%Z l.
Proof. intros Hc. apply List.Forall_impl. lia. Qed.

Lemma ready_now d c0 s kid h : (0 <= d <= MaxInt64)%Z → jwks_inv d c0 s → lookup_kid h (st_store s) (st_clock s) kid = NeedFetch →
  st_attempts s = [] ∨ (last_of (st_attempts s) + d <= st_clock s)%Z.
Proof.
  intros Hd [Hi Hc _ Hl Hp _ _] Hf%lookup_fetch. unfold coolingDown_at in Hf. rewrite Hi, Hl in Hf.
  destruct (st_attempts s) as [|a l]; [by left|right]. cbn in *. apply list.Forall_cons in Hp as [Ha _].
  apply andb_false_iff in Hf as [Hf|Hf]; [unfold Time_IsZero in Hf; lia|]. apply Time_Sub_lt; [lia|lia|done].
Qed.

Lemma jwks_step_inv d c0 s s' : (0 <= d <= MaxInt64)%Z → jwks_step s s' → jwks_inv d c0 s → jwks_inv d c0 s'.
Proof.
  intros Hd Hs Hinv. destruct Hs as [c Hc|t i k Ht|t i k b store Ht Hk|t k Ht|t k Ht Ho|t k Ht|t k Ht|t k o r h Ht Hf|t k ks Ht|t k Ht|t r Ht].
  - destruct Hinv as [Hi Hc0 Ho Hl Hp Hsp Hr]. split; cbn; try done; [lia|by eapply Forall_clock|].
    intros t k Hk. destruct (Hr t k Hk); [by left|right; lia].
  - destruct Hinv as [Hi Hc0 Ho Hl Hp Hsp Hr]. split; cbn; try done.
    + intros t' p' Hp'. destruct (decide (t' = t)) as [->|Hn]; [rewrite lookup_insert_eq in Hp'; by injection Hp' as <-|].
      rewrite lookup_insert_ne in Hp' by done. by eapply Ho.
    + intros t' k' Hp'. destruct (decide (t' = t)) as [->|Hn]; [by rewrite lookup_insert_eq in Hp'|].
      rewrite lookup_insert_ne in Hp' by done. by eapply Hr.
  - apply knownIssuer_store in Hk as [Hm Hl]. eapply (inv_goto _ _ _ _ (PCall i k)); [lia|by apply inv_with_store|done|by destruct b|by destruct b].
  - eapply (inv_goto _ _ _ _ (PLookup k)); [lia|done|done|by destruct (lookup_kid _ _ _ _)|by destruct (lookup_kid _ _ _ _)].
  - destruct Hinv as [Hi Hc0 Ho' Hl Hp Hsp Hr]. split; cbn; try done.
    + intros t' p' Hp' Hh. destruct (decide (t' = t)) as [->|Hn]; [done|].
      rewrite lookup_insert_ne in Hp' by done. exfalso. by rewrite (Ho' t' p' Hp' Hh) in Ho.
    + intros t' k' Hp'. destruct (decide (t' = t)) as [->|Hn]; [by rewrite lookup_insert_eq in Hp'|].
      rewrite lookup_insert_ne in Hp' by done. by eapply Hr.
  - eapply (inv_goto _ _ _ _ (PRecheck k)); [lia|done|done|done|].
    intros k' Hk'. destruct (lookup_kid _ _ _ _) eqn:E; [done|]. by eapply ready_now.
  - destruct Hinv as [Hi Hc0 Ho Hl Hp Hsp Hr]. split; cbn; try done.
    + intros t' p' Hp' Hh. destruct (decide (t' = t)) as [->|Hn]; [by apply (Ho t (PAttempt k) Ht)|].
      rewrite lookup_insert_ne in Hp' by done. by eapply Ho.
    + apply Forall_cons_2; [lia|done].
    + destruct (st_attempts s) as [|a l] eqn:Ea; [done|]. split; [|done]. by destruct (Hr t k Ht).
    + intros t' k' Hp'. destruct (decide (t' = t)) as [->|Hn]; [by rewrite lookup_insert_eq in Hp'|].
      rewrite lookup_insert_ne in Hp' by done. exfalso.
      pose proof (Ho t (PAttempt k) Ht I). pose proof (Ho t' (PAttempt k') Hp' I). congruence.
  - eapply (inv_goto _ _ _ _ (PFetch k)); [lia|by apply inv_fetched|done|done|by destruct r].
  - eapply (inv_goto _ _ _ _ (PInstall k ks)); [lia|by apply inv_with_store|done|done|done].
  - eapply (inv_goto _ _ _ _ (PFinal k)); [lia|done|done|done|by destruct (lookup_kid _ _ _ _)].
  - destruct Hinv as [Hi Hc0 Ho Hl Hp Hsp Hr]. pose proof (Ho t _ Ht I) as Hown. split; cbn; try done.
    + intros t' p' Hp' Hh. destruct (decide (t' = t)) as [->|Hn]; [rewrite lookup_insert_eq in Hp'; by injection Hp' as <-|].
      rewrite lookup_insert_ne in Hp' by done. pose proof (Ho t' p' Hp' Hh). congruence.
    + intros t' k' Hp'. destruct (decide (t' = t)) as [->|Hn]; [by rewrite lookup_insert_eq in Hp'|].
      rewrite lookup_insert_ne in Hp' by done. by eapply Hr.
Qed.

Lemma jwks_steps_inv d c0 s s' : (0 <= d <= MaxInt64)%Z → rtc jwks_step s s' → jwks_inv d c0 s → jwks_inv d c0 s'.
Proof. intros Hd. induction 1 as [|s1 s2 s3 Hs _ IH]; [done|]. intros Hi. by eapply IH, jwks_step_inv. Qed.

Lemma jwks_init_inv store h c : lastAttempt store = 0%Z → (0 < c)%Z → jwks_inv (minRefreshInterval store) c (jwks_init store h c).
Proof. intros Hl Hc. split; cbn; try done; lia. Qed.

(** C12. However many calls are made and however they interleave, fetches are attempted at
    least the minimum interval apart, and by one call at a time. *)
Theorem fetch_rate_limit store h c s :
  lastAttempt store = 0%Z → (0 <= minRefreshInterval store <= MaxInt64)%Z → (0 < c)%Z →
  rtc jwks_step (jwks_init store h c) s →
  spaced (minRefreshInterval store) (st_attempts s) ∧
  ∀ t1 t2 p1 p2, st_calls s !! t1 = Some p1 → st_calls s !! t2 = Some p2 → holds p1 → holds p2 → t1 = t2.
Proof.
  intros Hl Hd Hc Hs. pose proof (jwks_steps_inv _ _ _ _ Hd Hs (jwks_init_inv store h c Hl Hc)) as [_ _ Ho _ _ Hsp _].
  split; [done|]. intros t1 t2 p1 p2 H1t H2t Hh1 Hh2.
  pose proof (Ho _ _ H1t Hh1). pose proof (Ho _ _ H2t Hh2). congruence.
Qed.

Lemma spaced_bound d l : spaced d l → l ≠ [] → ∃ a, a ∈ l ∧ (a + (Z.of_N (len l) - 1) * d <= last_of l)%Z.
Proof.
  intros Hs Hne. induction l as [|a [|b l] IH]; [done|exists a; split; [apply list_elem_of_here|unfold len; cbn; lia]|].
  destruct Hs as [Hab Hs]. destruct (IH Hs ltac:(done)) as (a0 & Ha0 & Hle).
  exists a0. split; [by apply list_elem_of_further|]. unfold len in *. cbn [last_of length] in *. lia.
Qed.

(** C32. So a stream of unknown identifiers costs at most one fetch per interval. *)
Theorem fetch_count store h c s :
  lastAttempt store = 0%Z → (0 < minRefreshInterval store <= MaxInt64)%Z → (0 < c)%Z →
  rtc jwks_step (jwks_init store h c) s →
  (Z.of_N (len (st_attempts s)) <= (st_clock s - c) / minRefreshInterval store + 1)%Z.
Proof.
  intros Hl Hd Hc Hs. assert (0 <= minRefreshInterval store <= MaxInt64)%Z as Hd' by lia.
  pose proof (jwks_steps_inv _ _ _ _ Hd' Hs (jwks_init_inv store h c Hl Hc)) as [_ Hck _ _ Hp Hsp _].
  set (d := minRefreshInterval store) in *.
  assert (0 <= (st_clock s - c) / d)%Z as Hpos by (apply Z.div_pos; lia).
  destruct (decide (st_attempts s = [])) as [->|Hn]; [unfold len; cbn; lia|].
  destruct (spaced_bound _ _ Hsp Hn) as (a & Hin & Hle).
  assert (last_of (st_attempts s) ∈ st_attempts s) as Hin' by (destruct (st_attempts s); [by apply elem_of_nil in Hin|apply list_elem_of_here]).
  rewrite list.Forall_forall in Hp. pose proof (Hp _ Hin). pose proof (Hp _ Hin').
  enough (Z.of_N (len (st_attempts s)) - 1 <= (st_clock s - c) / d)%Z by lia.
  apply Z.div_le_lower_bound; lia.
Qed.

Lemma goto_lookup t t' p s : st_calls (goto t p s) !! t' = if decide (t' = t) then Some p else st_calls s !! t'.
Proof. cbn. destruct (decide (t' = t)) as [->|]; [by rewrite lookup_insert_eq|by rewrite lookup_insert_ne]. Qed.

(** C31. Whatever calls interleave, a call ends with a key only if a lookup of that call
    found the key in the cache at a moment when the cached set was trusted. *)
Theorem answers_are_fresh s s' t vk : jwks_step s s' →
  (st_calls s' !! t = Some (PUnlock (Ok (Some vk))) ∨ st_calls s' !! t = Some (PDone (Ok (Some vk)))) →
  st_calls s !! t = Some (PUnlock (Ok (Some vk))) ∨ st_calls s !! t = Some (PDone (Ok (Some vk))) ∨
  (vk ∈ jwks_keys (st_store s) ∧ fresh_at (st_store s) (st_clock s) = true).
Proof.
  assert (∀ kid, lookup_kid (st_heap s) (st_store s) (st_clock s) kid = Done (Ok (Some vk)) →
    vk ∈ jwks_keys (st_store s) ∧ fresh_at (st_store s) (st_clock s) = true) as Hlk.
  { intros kid [Hf Hfr]%lookup_key. by apply find_key_spec in Hf as [? _]. }
  intros Hs Ht'. destruct Hs as [c Hc|t0 i k Ht|t0 i k b store Ht Hk|t0 k Ht|t0 k Ht Ho|t0 k Ht|t0 k Ht|t0 k o r h Ht Hf|t0 k ks Ht|t0 k Ht|t0 r Ht];
    try (rewrite !goto_lookup in Ht'; destruct (decide (t = t0)) as [->|]; [|cbn in Ht'; tauto]).
  - cbn in Ht'. tauto.
  - by destruct Ht'.
  - by destruct b, Ht'.
  - destruct (lookup_kid _ _ _ _) as [r|] eqn:E; cbn in Ht'; [|by destruct Ht']. destruct Ht' as [|[= ->]]; [done|]. right. right. by eapply Hlk.
  - by destruct Ht'.
  - destruct (lookup_kid _ _ _ _) as [r|] eqn:E; cbn in Ht'; [|by destruct Ht']. destruct Ht' as [[= ->]|]; [|done]. right. right. by eapply Hlk.
  - by destruct Ht'.
  - by destruct r, Ht'.
  - by destruct Ht'.
  - destruct (lookup_kid _ _ _ _) as [r|] eqn:E; cbn in Ht'; [|by destruct Ht']. destruct Ht' as [[= ->]|]; [|done]. right. right. by eapply Hlk.
  - destruct Ht' as [|[= ->]]; [done|]. by left.
Qed.

(** ** The fetched set *)
(** The key was made of the JWK. *)
Definition made_of (h : heap) (jwk : Jwk) (vk : VerificationKey) : Prop :=
  ∃ l, (Jwk_Ops jwk = [] ∨ KeyOpsVerify ∈ Jwk_Ops jwk) ∧ verifies_with jwk l vk ∧ VerificationKey_Kid h vk = Ok (Jwk_Kid jwk).

Definition vk_ref (vk : VerificationKey) : ref := match vk with VKRsa k => Rpub_jwk k | VKEc k => Evk_jwk k end.

Lemma verifies_with_ref jwk l vk : verifies_with jwk l vk → vk_ref vk = l.
Proof. destruct jwk, vk; try done; [by intros (? & _ & _ & _ & ->)|by intros (? & _ & ->)]. Qed.

Lemma Kid_ref h vk : VerificationKey_Kid h vk = Jwk_Kid <$> deref h (vk_ref vk).
Proof. by destruct vk. Qed.

(** Allocating and making keys keeps what is there. *)
Definition heap_le (h h' : heap) : Prop := ∀ l, is_Some (h !! l) → deref h' l = deref h l.

#[export] Instance heap_le_preorder : PreOrder heap_le.
Proof.
  split; [by intros h l|]. intros h1 h2 h3 H12 H23 l Hl. rewrite <- (H12 l Hl). apply H23.
  destruct Hl as [j Hj]. specialize (H12 l (mk_is_Some _ _ Hj)). unfold deref in H12. rewrite Hj in H12.
  destruct (h2 !! l); [by eexists|done].
Qed.

Lemma alloc_key_heap h jwk : let h' := snd (NewVerificationKey (<[new_ref h := jwk]> h) (new_ref h)) in
  heap_le h h' ∧ ∃ ops alg, h' !! new_ref h = Some (Jwk_SetOps ops (Jwk_SetAlg alg jwk)).
Proof.
  cbn zeta. destruct (NewVerificationKey_heap (<[new_ref h := jwk]> h) (new_ref h)) as [Ho Hn]. split.
  - intros l Hl. unfold deref. rewrite Ho; [rewrite lookup_insert_ne; [done|]|]; intros E; subst; rewrite new_ref_fresh in Hl; by destruct Hl.
  - apply Hn, lookup_insert_eq.
Qed.

Lemma Kid_of_set ops alg j : Jwk_Kid (Jwk_SetOps ops (Jwk_SetAlg alg j)) = Jwk_Kid j.
Proof. by destruct j. Qed.

Lemma load_jwks_spec jwks h r h' : load_jwks h jwks = (r, h') →
  heap_le h h' ∧ ∀ ks, r = Ok ks → Forall2 (made_of h') jwks ks.
Proof.
  revert h r h'. induction jwks as [|jwk jwks IH]; intros h r h'; cbn.
  { intros [= <- <-]. split; [done|]. intros ks [= <-]. constructor. }
  destruct (alloc_key_heap h jwk) as [Hle (ops & alg & Hj)].
  assert (∀ vk, fst (NewVerificationKey (<[new_ref h := jwk]> h) (new_ref h)) = Ok vk →
    (Jwk_Ops jwk = [] ∨ KeyOpsVerify ∈ Jwk_Ops jwk) ∧ verifies_with jwk (new_ref h) vk) as Hvk.
  { intros vk. rewrite NewVerificationKey_spec; [done|apply lookup_insert_eq]. }
  destruct (NewVerificationKey (<[new_ref h := jwk]> h) (new_ref h)) as [[vk|e|] h1]; cbn [fst snd] in *;
    [|by intros [= <- <-]; split|by intros [= <- <-]; split].
  destruct (load_jwks h1 jwks) as [rs h2] eqn:El. destruct (IH _ _ _ El) as [Hle2 Hks].
  assert (heap_le h h2) as Hle3 by by etransitivity.
  destruct rs as [ks|e|]; intros [= <- <-]; split; try done. intros ks' [= <-]. constructor; [|by apply Hks].
  destruct (Hvk vk eq_refl) as [Hops Hw]. exists (new_ref h). split_and!; [done|done|].
  rewrite Kid_ref, (verifies_with_ref _ _ _ Hw), Hle2 by by eexists. unfold deref. rewrite Hj. cbn. by rewrite Kid_of_set.
Qed.

(** The first certificate, if there is one, is not nil. *)
Definition first_cert (jwk : Jwk) : Prop := ∀ c, KeyX5C (Jwk_fields jwk) !! 0 = Some c → c ≠ None.

Lemma imported_first_cert jwk : imported jwk → first_cert jwk.
Proof. intros (_ & _ & _ & Hcert & _ & _) c Hc. by destruct (Hcert c Hc) as (leaf & -> & _). Qed.

(** Making a verification key never panics unless the JWK has a nil certificate,
    which an imported one has not. *)
Theorem NewVerificationKey_no_panic h l jwk : h !! l = Some jwk → first_cert jwk → fst (NewVerificationKey h l) ≠ Panic.
Proof.
  intros Hl Hcert. unfold NewVerificationKey, deref. rewrite Hl.
  destruct (len _ =? 0)%N; [done|]. destruct jwk as [v|v|v|v|v]; try done.
  - assert (fallback_alg (JPublicRsa v) ≠ Panic) as Hf.
    { unfold fallback_alg. destruct (str_empty _); [|done]. rewrite Jwk_X5C_id.
      destruct (KeyX5C _) as [|[c|] cs] eqn:E; [done|done|]. specialize (Hcert None). rewrite E in Hcert. by destruct Hcert. }
    destruct (fallback_alg _); try done. cbn [fst]. destruct (is_rsa_signature_alg _); [|done].
    destruct (_ || _); [done|]. by destruct (_ <? _)%N.
  - destruct (is_ec_signature_alg _) eqn:E; [|done]. apply is_ec_alg, ec_opts in E as [o ->]. done.
Qed.

Lemma load_jwks_no_panic jwks h : Forall imported jwks → fst (load_jwks h jwks) ≠ Panic.
Proof.
  intros Hi. revert h. induction Hi as [|jwk jwks Hj _ IH]; intros h; [done|]. cbn.
  pose proof (NewVerificationKey_no_panic (<[new_ref h := jwk]> h) (new_ref h) jwk ltac:(apply lookup_insert_eq) (imported_first_cert _ Hj)) as Hp.
  destruct (NewVerificationKey _ _) as [[vk|e|] h1]; try done. specialize (IH h1).
  by destruct (load_jwks h1 jwks) as [[] ?].
Qed.

(** What the server can make a fetch do: fail, or yield one key for each JWK of a
    key set it sent with status 200, in the first mebibyte of its response. *)
Theorem fetch_keys_spec h outcome r h' : fetch_keys h outcome = (r, h') →
  r ≠ Panic ∧ heap_le h h' ∧ ∀ ks, r = Ok ks →
  ∃ body t jwks, outcome = Response StatusOK body ∧ json_parse_first (takeN maxJwksBytes body) = Some t ∧
    Jwks_UnmarshalJSON (json_print t) [] = Ok jwks ∧ Forall imported jwks ∧ Forall2 (made_of h') jwks ks.
Proof.
  unfold fetch_keys. destruct outcome as [| |status body]; [by intros [= <- <-]..|].
  destruct (Z.eqb_spec status StatusOK) as [->|]; [|by intros [= <- <-]]. cbn [negb].
  destruct (json_parse_first _) as [t|] eqn:Et; [|by intros [= <- <-]].
  destruct (Jwks_UnmarshalJSON_imported (json_print t) []) as [Hn Hi].
  destruct (Jwks_UnmarshalJSON _ _) as [jwks|e|] eqn:Ej; [|by intros [= <- <-]|done].
  destruct (Hi _ eq_refl) as (_ & ks0 & -> & Himp). cbn [app] in *. intros Hl.
  destruct (load_jwks_spec _ _ _ _ Hl) as [Hle Hks]. split_and!; [|done|].
  - pose proof (load_jwks_no_panic ks0 h Himp) as Hp. by rewrite Hl in Hp.
  - intros ks ->. exists body, t, ks0. split_and!; try done. by apply Hks.
Qed.

(** The cached keys point to live JWKs. *)
Definition store_live (h : heap) (s : JwksTrustStore) : Prop := Forall (λ vk, is_Some (h !! vk_ref vk)) (jwks_keys s).

Lemma find_key_live h ks kid : Forall (λ vk, is_Some (h !! vk_ref vk)) ks → find_key h ks kid ≠ Panic ∧ ∀ e, find_key h ks kid ≠ Err e.
Proof.
  induction 1 as [|vk ks [j Hj] _ IH]; [done|]. cbn. rewrite Kid_ref. unfold deref. rewrite Hj. cbn. by case_bool_decide.
Qed.

Lemma lookup_live h s now kid : store_live h s → lookup_kid h s now kid ≠ Done Panic.
Proof.
  intros [Hp He]%(find_key_live _ _ kid). unfold lookup_kid. destruct (find_key _ _ _) as [[k|]|e|]; try done;
    repeat match goal with |- (if ?b then _ else _) ≠ _ => destruct b end; done.
Qed.

Lemma made_of_live h jwk vk : made_of h jwk vk → is_Some (h !! vk_ref vk).
Proof.
  intros (l & _ & _ & Hk). rewrite Kid_ref in Hk. unfold deref in Hk. destruct (h !! vk_ref vk); [by eexists|done].
Qed.

Lemma heap_le_live h h' s : heap_le h h' → store_live h s → store_live h' s.
Proof.
  intros Hle. apply List.Forall_impl. intros vk [j Hj]. specialize (Hle (vk_ref vk) (mk_is_Some _ _ Hj)). unfold deref in Hle.
  rewrite Hj in Hle. destruct (h' !! vk_ref vk); [by eexists|done].
Qed.

(** Refreshing replaces the cached set and never merges: after a fetch that succeeds
    the store holds one key for each JWK of the response and no other; after one that
    fails it holds what it did. *)
Theorem refresh_spec h s t0 t1 outcome r s' h' : refresh h s t0 t1 outcome = (r, s', h') →
  r ≠ Panic ∧ heap_le h h' ∧ lastAttempt s' = t0 ∧
  match r with
  | Ok _ => fetchedAt s' = t1 ∧ ∃ body t jwks, outcome = Response StatusOK body ∧
      json_parse_first (takeN maxJwksBytes body) = Some t ∧ Jwks_UnmarshalJSON (json_print t) [] = Ok jwks ∧
      Forall2 (made_of h') jwks (jwks_keys s')
  | _ => fetchedAt s' = fetchedAt s ∧ jwks_keys s' = jwks_keys s
  end.
Proof.
  unfold refresh. destruct (fetch_keys h outcome) as [rk h1] eqn:Ef.
  destruct (fetch_keys_spec _ _ _ _ Ef) as (Hp & Hle & Hk).
  destruct rk as [ks|e|]; intros [= <- <- <-]; split_and!; try done.
  destruct (Hk ks eq_refl) as (body & t & jwks & ? & ? & ? & _ & ?). by exists body, t, jwks.
Qed.

(** No answer of the server, and no clock, makes [Get] panic; the store stays usable. *)
Theorem JwksTrustStore_Get_no_panic h s now outcome issuer kid : store_live h s →
  let '(r, s', h') := JwksTrustStore_Get h s now outcome issuer kid in r ≠ Panic ∧ store_live h' s'.
Proof.
  intros Hl. unfold JwksTrustStore_Get. destruct (knownIssuer s issuer) as [b s0] eqn:Hk.
  assert (store_live h s0) as Hl0. { unfold knownIssuer in Hk. injection Hk as _ <-. by destruct (_ =? 0)%N. }
  clear Hl Hk. destruct b; [|done]. cbn [negb].
  pose proof (lookup_live h s0 (now 0) kid Hl0). destruct (lookup_kid h s0 (now 0) kid) as [r|] eqn:E0; [by split; [intros ->|]|].
  pose proof (lookup_live h s0 (now 1) kid Hl0). destruct (lookup_kid h s0 (now 1) kid) as [r|] eqn:E1; [by split; [intros ->|]|].
  destruct (refresh h s0 (now 2) (now 3) outcome) as [[r s1] h1] eqn:Er.
  destruct (refresh_spec _ _ _ _ _ _ _ _ Er) as (Hp & Hle & _ & Hr).
  assert (store_live h1 s1) as Hl1.
  { destruct r as [u|e|]; [|destruct Hr as [_ Hr]; unfold store_live; rewrite Hr; by eapply heap_le_live|done].
    destruct Hr as (_ & body & t & jwks & _ & _ & _ & Hf). unfold store_live. clear -Hf.
    induction Hf as [|j vk js vks Hm _ IH]; constructor; [by eapply made_of_live|done]. }
  destruct r as [u|e|]; [|done|done]. pose proof (lookup_live h1 s1 (now 4) kid Hl1).
  destruct (lookup_kid h1 s1 (now 4) kid) as [r|]; [by split; [intros ->|]|done].
Qed.

(** A key that [Get] returns is vouched for: its issuer is one of the store's, it has
    the identifier, and it was trusted when the clock was read. *)
Theorem JwksTrustStore_Get_key h s now outcome issuer kid vk s' h' :
  JwksTrustStore_Get h s now outcome issuer kid = (Ok (Some vk), s', h') →
  issuer ∈ (if (len (issuers s) =? 0)%N then Split (inputIssuers s) "," else issuers s) ∧
  VerificationKey_Kid h' vk = Ok kid ∧ vk ∈ jwks_keys s' ∧ ∃ i, fresh_at s' (now i) = true.
Proof.
  unfold JwksTrustStore_Get. destruct (knownIssuer s issuer) as [b s0] eqn:Hk.
  destruct b; [|done]. cbn [negb].
  assert (issuer ∈ (if (len (issuers s) =? 0)%N then Split (inputIssuers s) "," else issuers s)) as Hin.
  { unfold knownIssuer in Hk. injection Hk as Hk _. apply existsb_exists in Hk as (i & Hi & Hb%bool_decide_eq_true). subst i.
    apply list_elem_of_In. by destruct (_ =? 0)%N. }
  assert (∀ h s i, lookup_kid h s (now i) kid = Done (Ok (Some vk)) →
    VerificationKey_Kid h vk = Ok kid ∧ vk ∈ jwks_keys s ∧ ∃ i, fresh_at s (now i) = true) as Hlk.
  { intros h0 s1 i [[? ?]%find_key_spec Hf]%lookup_key. split_and!; try done. by exists i. }
  destruct (lookup_kid h s0 (now 0) kid) as [r|] eqn:E0; [by intros [= -> <- <-]; split; [|eapply Hlk]|].
  destruct (lookup_kid h s0 (now 1) kid) as [r|] eqn:E1; [by intros [= -> <- <-]; split; [|eapply Hlk]|].
  destruct (refresh h s0 (now 2) (now 3) outcome) as [[r s1] h1]. destruct r as [u|e|]; [|done|done].
  destruct (lookup_kid h1 s1 (now 4) kid) as [r|] eqn:E4; [|done]. intros [= -> <- <-]. split; [done|by eapply Hlk].
Qed.
End jwks.
