(* ===== verification/JwksProgress.v ===== *)
(** The steps of the calls of [JwksTrustStore.Get], with the sections that hold [mu] as
    one step each: every step of a call brings all the calls closer to being done, and
    waiting for [fetchMu] comes to an end.  A call that is alone takes the steps of the
    sequential [JwksTrustStore_Get].  [JwksMutex] has [mu] as a lock as well. *)

From S2P Require Import Prelude Errors Base64 Json JsonFacts JsonCodec Types Crypto Jwk Jws Helpers Keys KeysFacts JwksTrustStore JwksTrustStoreFacts.

(** ** Work left *)
(** The steps a call has in front of it, at most. *)
Definition rank `{X509, Digests, Rsa, Ecdsa, Signers} (p : pc) : nat :=
  match p with
  | PCall _ _ => 9 | PLookup _ => 8 | PLock _ => 7 | PRecheck _ => 6 | PAttempt _ => 5
  | PFetch _ => 4 | PInstall _ _ => 3 | PFinal _ => 2 | PUnlock _ => 1 | PDone _ => 0
  end.

Section progress.
Context `{X509, Digests, Rsa, Ecdsa, Signers}.

Definition work (s : jwks_state) : nat := total rank (st_calls s).

(** What a step does to the work: only time passing and new calls do not reduce it. *)
Definition reduces (s s' : jwks_state) : Prop :=
  (∃ c, s' = at_clock c s) ∨ (∃ t issuer kid, st_calls s !! t = None ∧ s' = goto t (PCall issuer kid) s) ∨ work s' < work s.

Lemma step_reduces s s' : jwks_step s s' → reduces s s'.
Proof.
  intros Hs. unfold reduces. destruct Hs as [c Hc|t i k Ht|t i k b store Ht Hk|t k Ht|t k Ht Ho|t k Ht|t k Ht|t k o r h Ht Hf|t k ks Ht|t k Ht|t r Ht];
    [left; by eexists|right; left; by eauto 6|right; right..]; unfold work; cbn [goto st_calls with_store fetched with_owner attempt_now];
    match goal with |- total _ (<[_ := ?p]> _) < _ => pose proof (total_update rank _ _ _ p Ht) as Hu end; cbn [rank] in Hu.
  - destruct b; cbn in Hu; lia.
  - destruct (lookup_kid _ _ _ _); cbn in Hu |- *; lia.
  - lia.
  - destruct (lookup_kid _ _ _ _); cbn in Hu |- *; lia.
  - lia.
  - destruct r; cbn in Hu |- *; lia.
  - lia.
  - destruct (lookup_kid _ _ _ _); cbn in Hu |- *; lia.
  - lia.
Qed.

(** ** The owner of the mutex is in its critical section *)
Definition owner_holds (s : jwks_state) : Prop := ∀ t, st_owner s = Some t → ∃ p, st_calls s !! t = Some p ∧ holds p.

Lemma owner_goto s t p0 p : owner_holds s → st_calls s !! t = Some p0 → (holds p0 → holds p) → owner_holds (goto t p s).
Proof.
  intros Ho Ht Hh t' Ho'. destruct (Ho t' Ho') as (p' & Hp' & Hh'). cbn. destruct (decide (t' = t)) as [->|Hn].
  - rewrite lookup_insert_eq. exists p. split; [done|]. apply Hh. by simplify_eq.
  - rewrite lookup_insert_ne by done. by exists p'.
Qed.

Lemma owner_step s s' : jwks_step s s' → owner_holds s → owner_holds s'.
Proof.
  intros Hs Ho. destruct Hs as [c Hc|t i k Ht|t i k b store Ht Hk|t k Ht|t k Ht Hown|t k Ht|t k Ht|t k o r h Ht Hf|t k ks Ht|t k Ht|t r Ht].
  - exact Ho.
  - intros t' Ho'. destruct (Ho t' Ho') as (p' & Hp' & Hh'). exists p'. cbn. rewrite lookup_insert_ne; [done|]. by intros ->; rewrite Ht in Hp'.
  - eapply (owner_goto (with_store store s)); [exact Ho|exact Ht|by intros []].
  - eapply owner_goto; [exact Ho|exact Ht|by intros []].
  - intros t' [= <-]. cbn. rewrite lookup_insert_eq. by eexists.
  - eapply owner_goto; [exact Ho|exact Ht|by destruct (lookup_kid _ _ _ _)].
  - eapply (owner_goto (attempt_now s)); [exact Ho|exact Ht|done].
  - eapply (owner_goto (fetched o h s)); [exact Ho|exact Ht|by destruct r].
  - eapply (owner_goto (with_store _ s)); [exact Ho|exact Ht|done].
  - eapply owner_goto; [exact Ho|exact Ht|by destruct (lookup_kid _ _ _ _)].
  - intros t' Ho'. done.
Qed.

(** A call that is not waiting for the mutex can go on. *)
Lemma call_step s t p : st_calls s !! t = Some p → (∀ r, p ≠ PDone r) → (∀ kid, p ≠ PLock kid) → ∃ s', jwks_step s s' ∧ work s' < work s.
Proof.
  intros Ht Hd Hl.
  assert (∀ s' p', jwks_step s s' → st_calls s' = <[t := p']> (st_calls s) → rank p' < rank p → ∃ s', jwks_step s s' ∧ work s' < work s) as Hgo.
  { intros s' p' Hs Hc Hr. exists s'. split; [done|]. unfold work. rewrite Hc. pose proof (total_update rank _ _ _ p' Ht). lia. }
  destruct p as [i k|k|k|k|k|k|k ks|k|r|r]; try by destruct (Hl k).
  - destruct (knownIssuer (st_store s) i) as [b store] eqn:Hk. eapply Hgo; [by eapply js_issuer|done|]. destruct b; cbn; lia.
  - eapply Hgo; [by eapply js_lookup|done|]. destruct (lookup_kid _ _ _ _); cbn; lia.
  - eapply Hgo; [by eapply js_recheck|done|]. destruct (lookup_kid _ _ _ _); cbn; lia.
  - eapply Hgo; [by eapply js_attempt|done|]. cbn; lia.
  - destruct (fetch_keys (st_heap s) RequestFailed) as [r h] eqn:Hf. eapply Hgo; [by eapply js_fetch|done|]. destruct r; cbn; lia.
  - eapply Hgo; [by eapply js_install|done|]. cbn; lia.
  - eapply Hgo; [by eapply js_final|done|]. destruct (lookup_kid _ _ _ _); cbn; lia.
  - eapply Hgo; [by eapply js_unlock|done|]. cbn; lia.
  - by destruct (Hd r).
Qed.

Lemma jwks_owner_holds store h c s : rtc jwks_step (jwks_init store h c) s → owner_holds s.
Proof.
  intros Hs. assert (owner_holds (jwks_init store h c)) as Hi by done. revert Hi.
  induction Hs as [|s1 s2 s3 Hstep _ IH]; [done|]. intros Hi. by eapply IH, owner_step.
Qed.

(** However the calls interleave, and whatever the server answers: as long as a call
    is not done some call can take a step that leaves less work, and no step leaves
    more, except that a new call starts.  So every run ends with all calls done, after
    at most nine steps for each. *)
Theorem jwks_calls_end store h c s :
  rtc jwks_step (jwks_init store h c) s →
  (∀ s', jwks_step s s' → reduces s s') ∧
  ((∃ t p, st_calls s !! t = Some p ∧ ∀ r, p ≠ PDone r) → ∃ s', jwks_step s s' ∧ work s' < work s) ∧
  work s ≤ 9 * size (st_calls s).
Proof.
  intros Hs. pose proof (jwks_owner_holds _ _ _ _ Hs) as Ho.
  split_and!.
  - intros s'. apply step_reduces.
  - intros (t & p & Ht & Hd). destruct p as [i k|k|k|k|k|k|k ks|k|r|r] eqn:Ep; try (by eapply call_step).
    destruct (st_owner s) as [t'|] eqn:Et.
    + destruct (Ho t' Et) as (p' & Hp' & Hh). eapply call_step; [exact Hp'|by intros r ->|by intros kid ->].
    + eexists. split; [by eapply js_lock|]. unfold work. cbn. pose proof (total_update rank _ _ _ (PRecheck k) Ht) as Hu. cbn in Hu. lia.
  - unfold work. generalize (st_calls s). intros m. induction m as [|t p m Hn IH] using map_ind; [done|].
    rewrite total_insert, map_size_insert_None by done. destruct p; cbn [rank]; lia.
Qed.
(** ** One call alone

    The steps of a call that nobody interferes with, one after the other, are
    [JwksTrustStore_Get]. *)
Definition at_call (t : nat) (p : pc) (store : JwksTrustStore) (h : heap) (c : time) (o : option nat) (s s' : jwks_state) : Prop :=
  st_store s' = store ∧ st_heap s' = h ∧ st_clock s' = c ∧ st_owner s' = o ∧ st_calls s' = <[t := p]> (st_calls s).

(** The call can get there. *)
Definition reach (s : jwks_state) (t : nat) (p : pc) (store : JwksTrustStore) (h : heap) (c : time) (o : option nat) : Prop :=
  ∃ s', rtc jwks_step s s' ∧ at_call t p store h c o s s'.

Lemma reach_tick s t p store h c o c' : reach s t p store h c o → (c <= c')%Z → reach s t p store h c' o.
Proof.
  intros (s1 & Hr & Hs & Hh & Hc & Ho & Hcs) Hle. exists (at_clock c' s1). split; [|by split_and!].
  eapply rtc_r; [exact Hr|]. apply js_tick. by rewrite Hc.
Qed.

Lemma reach_step s t p p' store h c o f : reach s t p store h c o →
  (∀ s1, st_calls s1 !! t = Some p → st_store s1 = store → st_heap s1 = h → st_clock s1 = c → st_owner s1 = o → jwks_step s1 (goto t p' (f s1))) →
  (∀ s1, st_calls (f s1) = st_calls s1 ∧ st_clock (f s1) = st_clock s1) →
  ∀ store' h' o', (∀ s1, st_store s1 = store → st_heap s1 = h → st_clock s1 = c → st_owner s1 = o →
    st_store (f s1) = store' ∧ st_heap (f s1) = h' ∧ st_owner (f s1) = o') →
  reach s t p' store' h' c o'.
Proof.
  intros (s1 & Hr & Hs & Hh & Hc & Ho & Hcs) Hstep Hf store' h' o' Hf'. destruct (Hf s1) as [Hfc Hft].
  destruct (Hf' s1 Hs Hh Hc Ho) as (Hfs & Hfh & Hfo). exists (goto t p' (f s1)). split.
  - eapply rtc_r; [exact Hr|]. apply Hstep; try done. rewrite Hcs. apply lookup_insert_eq.
  - split_and!; [exact Hfs|exact Hfh|by rewrite <- Hc|exact Hfo|]. cbn. by rewrite Hfc, Hcs, insert_insert_eq.
Qed.

Ltac go R p f js :=
  eapply (reach_step _ _ _ p _ _ _ _ f) in R;
  [|intros s1 ? Es Eh Ec Eo; first [by eapply js; rewrite ?Es, ?Eh, ?Ec, ?Eo|try rewrite <- Es; try rewrite <- Eh; try rewrite <- Ec; by eapply js]|by split|intros s1 Es Eh Ec Eo; cbn; rewrite ?Es, ?Eh, ?Ec, ?Eo; split_and!; reflexivity].

(** C21. With nobody else around, and the clock read at the five places where the code
    reads it, a call ends with the answer of [JwksTrustStore_Get], and leaves the
    store and the heap that it leaves. *)
Theorem JwksTrustStore_Get_steps s t issuer kid (now : nat → time) outcome r store' h' :
  st_calls s !! t = Some (PCall issuer kid) → st_owner s = None →
  (st_clock s <= now 0%nat <= now 1%nat)%Z → (now 1%nat <= now 2%nat <= now 3%nat)%Z → (now 3%nat <= now 4%nat)%Z →
  JwksTrustStore_Get (st_heap s) (st_store s) now outcome issuer kid = (r, store', h') →
  ∃ s', rtc jwks_step s s' ∧ st_calls s' = <[t := PDone r]> (st_calls s) ∧
    st_store s' = store' ∧ st_heap s' = h' ∧ st_owner s' = None.
Proof.
  intros Ht Ho [Hc0 Hc1] [Hc2 Hc3] Hc4 Hg.
  enough (∃ c, reach s t (PDone r) store' h' c None) as (c & s' & Hr & Hs & Hh & _ & Ho' & Hcs) by (exists s'; by split_and!).
  assert (reach s t (PCall issuer kid) (st_store s) (st_heap s) (now 0) None) as Hr.
  { eapply reach_tick; [|exact Hc0]. exists s. split; [apply rtc_refl|]. split_and!; try done. by rewrite insert_id. }
  unfold JwksTrustStore_Get in Hg. destruct (knownIssuer (st_store s) issuer) as [b store1] eqn:Hk.
  go Hr (if b then PLookup kid else PDone (Ok None)) (with_store store1) js_issuer.
  destruct b; cbn [negb] in Hg; [|injection Hg as <- <- <-; by eexists].
  destruct (lookup_kid (st_heap s) store1 (now 0) kid) as [r0|] eqn:Hl0;
    go Hr (after_lookup (lookup_kid (st_heap s) store1 (now 0) kid) PDone (PLock kid)) (λ s : jwks_state, s) js_lookup;
    rewrite Hl0 in Hr; cbn [after_lookup] in Hr.
  { injection Hg as <- <- <-. by eexists. }
  go Hr (PRecheck kid) (with_owner (Some t)) js_lock.
  apply (reach_tick _ _ _ _ _ _ _ (now 1%nat)) in Hr; [|done].
  destruct (lookup_kid (st_heap s) store1 (now 1) kid) as [r1|] eqn:Hl1;
    go Hr (after_lookup (lookup_kid (st_heap s) store1 (now 1) kid) PUnlock (PAttempt kid)) (λ s : jwks_state, s) js_recheck;
    rewrite Hl1 in Hr; cbn [after_lookup] in Hr.
  { injection Hg as <- <- <-. go Hr (PDone r1) (with_owner None) js_unlock. by eexists. }
  apply (reach_tick _ _ _ _ _ _ _ (now 2%nat)) in Hr; [|done].
  go Hr (PFetch kid) attempt_now js_attempt. unfold refresh in Hg. set (store2 := set_lastAttempt (now 2) store1) in *.
  destruct (fetch_keys (st_heap s) outcome) as [r2 h2] eqn:Hf.
  go Hr (match r2 with Ok ks => PInstall kid ks | Err e => PUnlock (Err e) | Panic => PUnlock Panic end) (fetched outcome h2) js_fetch.
  apply (reach_tick _ _ _ _ _ _ _ (now 3%nat)) in Hr; [|done].
  destruct r2 as [ks|e|]; [|injection Hg as <- <- <-; go Hr (PDone (Err e)) (with_owner None) js_unlock; by eexists
                          |injection Hg as <- <- <-; go Hr (PDone Panic) (with_owner None) js_unlock; by eexists].
  go Hr (PFinal kid) (λ s : jwks_state, with_store (set_keys ks (st_clock s) (st_store s)) s) js_install.
  apply (reach_tick _ _ _ _ _ _ _ (now 4%nat)) in Hr; [|done].
  set (store3 := set_keys ks (now 3%nat) store2) in *.
  go Hr (after_lookup (lookup_kid h2 store3 (now 4) kid) PUnlock (PUnlock (Ok None))) (λ s : jwks_state, s) js_final.
  destruct (lookup_kid h2 store3 (now 4) kid) as [r4|]; cbn [after_lookup] in Hr; injection Hg as <- <- <-.
  - go Hr (PDone r4) (with_owner None) js_unlock. by eexists.
  - go Hr (PDone (Ok (@None VerificationKey))) (with_owner None) js_unlock. by eexists.
Qed.
End progress.
