(* ===== verification/JwksMutex.v ===== *)
(** [JwksTrustStore.Get] with both its mutexes as locks: [mu], which is taken and given
    up around the fields of the store, and [fetchMu], which is kept across a fetch.

    [JwksTrustStore] has a section that holds [mu] as one step.  Here taking [mu], reading
    the clock, the accesses to the fields and giving [mu] up are steps of their own, with
    the steps of other calls in between.  Every state that calls reach in this way is one
    that [jwks_step] reaches, seen at a finer grain; and the calls come to an end. *)

From S2P Require Import Prelude Errors Base64 Json JsonFacts JsonCodec Types Crypto Jwk Jws Helpers Keys KeysFacts JwksTrustStore JwksTrustStoreFacts JwksProgress.

Section mutex.
Context `{X509, Digests, Rsa, Ecdsa, Signers}.

(** ** Where a call is *)
(** The places of [pc], outside [mu] and within the section that begins there. *)
Inductive mpc :=
  | At (p : pc)                                             (** outside [mu] *)
  | Enter (p : pc)                                          (** has taken [mu] *)
  | Read (p : pc) (now : time)                              (** has read the clock *)
  | Keys (kid : string) (ks : list VerificationKey)         (** has replaced the keys, and not yet [fetchedAt] *)
  | Leave (p : pc).                                         (** has [mu] to give up, then goes on *)

Record mutex_state := {
  mx_store : JwksTrustStore;
  mx_heap : heap;
  mx_clock : time;
  mx_mu : option nat;           (** who holds [mu] *)
  mx_fetchMu : option nat;      (** who holds [fetchMu] *)
  mx_calls : gmap nat mpc;
}.

(** A section begins by taking [mu]; these read the clock once they have it. *)
Definition critical (p : pc) : bool :=
  match p with PCall _ _ | PLookup _ | PRecheck _ | PAttempt _ | PInstall _ _ | PFinal _ => true | _ => false end.
Definition timed (p : pc) : bool :=
  match p with PLookup _ | PRecheck _ | PAttempt _ | PFinal _ => true | _ => false end.

Definition mx_goto (t : nat) (q : mpc) (m : mutex_state) : mutex_state :=
  {| mx_store := mx_store m; mx_heap := mx_heap m; mx_clock := mx_clock m; mx_mu := mx_mu m; mx_fetchMu := mx_fetchMu m;
     mx_calls := <[t := q]> (mx_calls m) |}.
Definition mx_write (store : JwksTrustStore) (m : mutex_state) : mutex_state :=
  {| mx_store := store; mx_heap := mx_heap m; mx_clock := mx_clock m; mx_mu := mx_mu m; mx_fetchMu := mx_fetchMu m; mx_calls := mx_calls m |}.
Definition mx_alloc (h : heap) (m : mutex_state) : mutex_state :=
  {| mx_store := mx_store m; mx_heap := h; mx_clock := mx_clock m; mx_mu := mx_mu m; mx_fetchMu := mx_fetchMu m; mx_calls := mx_calls m |}.
Definition mx_at (c : time) (m : mutex_state) : mutex_state :=
  {| mx_store := mx_store m; mx_heap := mx_heap m; mx_clock := c; mx_mu := mx_mu m; mx_fetchMu := mx_fetchMu m; mx_calls := mx_calls m |}.
Definition mu_of (o : option nat) (m : mutex_state) : mutex_state :=
  {| mx_store := mx_store m; mx_heap := mx_heap m; mx_clock := mx_clock m; mx_mu := o; mx_fetchMu := mx_fetchMu m; mx_calls := mx_calls m |}.
Definition fetchMu_of (o : option nat) (m : mutex_state) : mutex_state :=
  {| mx_store := mx_store m; mx_heap := mx_heap m; mx_clock := mx_clock m; mx_mu := mx_mu m; mx_fetchMu := o; mx_calls := mx_calls m |}.

(** ** Steps *)
(** A call that wants a mutex waits until nobody has it, itself included. *)
Inductive mutex_step (m : mutex_state) : mutex_state → Prop :=
  | mx_tick c : (mx_clock m <= c)%Z → mutex_step m (mx_at c m)
  | mx_spawn t issuer kid : mx_calls m !! t = None → mutex_step m (mx_goto t (At (PCall issuer kid)) m)
  | mx_lock t p :
      mx_calls m !! t = Some (At p) → critical p = true → mx_mu m = None →
      mutex_step m (mx_goto t (Enter p) (mu_of (Some t) m))
  | mx_issuer t issuer kid b store :
      mx_calls m !! t = Some (Enter (PCall issuer kid)) → knownIssuer (mx_store m) issuer = (b, store) →
      mutex_step m (mx_goto t (Leave (if b then PLookup kid else PDone (Ok None))) (mx_write store m))
  | mx_now t p :
      mx_calls m !! t = Some (Enter p) → timed p = true → mutex_step m (mx_goto t (Read p (mx_clock m)) m)
  | mx_lookup t kid now :
      mx_calls m !! t = Some (Read (PLookup kid) now) →
      mutex_step m (mx_goto t (Leave (after_lookup (lookup_kid (mx_heap m) (mx_store m) now kid) PDone (PLock kid))) m)
  | mx_recheck t kid now :
      mx_calls m !! t = Some (Read (PRecheck kid) now) →
      mutex_step m (mx_goto t (Leave (after_lookup (lookup_kid (mx_heap m) (mx_store m) now kid) PUnlock (PAttempt kid))) m)
  | mx_attempt t kid now :
      mx_calls m !! t = Some (Read (PAttempt kid) now) →
      mutex_step m (mx_goto t (Leave (PFetch kid)) (mx_write (set_lastAttempt now (mx_store m)) m))
  | mx_keys t kid ks :
      mx_calls m !! t = Some (Enter (PInstall kid ks)) →
      mutex_step m (mx_goto t (Keys kid ks) (mx_write (set_keys ks (fetchedAt (mx_store m)) (mx_store m)) m))
  | mx_time t kid ks :
      mx_calls m !! t = Some (Keys kid ks) →
      mutex_step m (mx_goto t (Leave (PFinal kid)) (mx_write (set_keys (jwks_keys (mx_store m)) (mx_clock m) (mx_store m)) m))
  | mx_final t kid now :
      mx_calls m !! t = Some (Read (PFinal kid) now) →
      mutex_step m (mx_goto t (Leave (after_lookup (lookup_kid (mx_heap m) (mx_store m) now kid) PUnlock (PUnlock (Ok None)))) m)
  | mx_unlock t p :
      mx_calls m !! t = Some (Leave p) → mutex_step m (mx_goto t (At p) (mu_of None m))
  | mx_fetch_lock t kid :
      mx_calls m !! t = Some (At (PLock kid)) → mx_fetchMu m = None →
      mutex_step m (mx_goto t (At (PRecheck kid)) (fetchMu_of (Some t) m))
  | mx_fetch t kid outcome r h :
      mx_calls m !! t = Some (At (PFetch kid)) → fetch_keys (mx_heap m) outcome = (r, h) →
      mutex_step m (mx_goto t (At (match r with Ok ks => PInstall kid ks | Err e => PUnlock (Err e) | Panic => PUnlock Panic end)) (mx_alloc h m))
  | mx_fetch_unlock t r :
      mx_calls m !! t = Some (At (PUnlock r)) → mutex_step m (mx_goto t (At (PDone r)) (fetchMu_of None m)).

Definition mutex_init (store : JwksTrustStore) (h : heap) (c : time) : mutex_state :=
  {| mx_store := store; mx_heap := h; mx_clock := c; mx_mu := None; mx_fetchMu := None; mx_calls := ∅ |}.

(** ** Sections are atomic *)
(** Where a call is for [jwks_step]: before the section until the last access of it. *)
Definition view (q : mpc) : pc :=
  match q with At p | Enter p | Read p _ | Leave p => p | Keys kid ks => PInstall kid ks end.
Definition inside (q : mpc) : Prop := match q with At _ => False | _ => True end.

Definition same_store (m : mutex_state) (s : jwks_state) : Prop := st_store s = mx_store m ∧ st_clock s = mx_clock m.

(** How the two states differ while a call is inside [mu].  Time stands still for the one
    from when the clock is read: whoever else reads it needs [mu]. *)
Definition midway (q : mpc) (m : mutex_state) (s : jwks_state) : Prop :=
  match q with
  | At _ => False
  | Enter p => critical p = true ∧ same_store m s
  | Read p now => timed p = true ∧ st_store s = mx_store m ∧ st_clock s = now ∧ (now <= mx_clock m)%Z
  | Keys _ ks => mx_store m = set_keys ks (fetchedAt (st_store s)) (st_store s) ∧ st_clock s = mx_clock m
  | Leave _ => same_store m s
  end.

Record simulates (m : mutex_state) (s : jwks_state) : Prop := {
  sim_heap : st_heap s = mx_heap m;
  sim_fetchMu : st_owner s = mx_fetchMu m;
  sim_calls : st_calls s = view <$> mx_calls m;
  sim_mu : match mx_mu m with
           | None => same_store m s ∧ ∀ t q, mx_calls m !! t = Some q → ¬ inside q
           | Some t => (∃ q, mx_calls m !! t = Some q ∧ midway q m s) ∧ ∀ t' q, mx_calls m !! t' = Some q → inside q → t' = t
           end;
}.

Lemma sim_init store h c : simulates (mutex_init store h c) (jwks_init store h c).
Proof. split; cbn; [done|done|by rewrite fmap_empty|]. split; [done|]. intros t q. by rewrite lookup_empty. Qed.

Lemma sim_call m s t q : simulates m s → mx_calls m !! t = Some q → st_calls s !! t = Some (view q).
Proof. intros Hsim Ht. by rewrite (sim_calls _ _ Hsim), lookup_fmap, Ht. Qed.

Lemma midway_inside q m s : midway q m s → inside q.
Proof. by destruct q. Qed.

Lemma sim_holder m s t q : simulates m s → mx_calls m !! t = Some q → inside q → mx_mu m = Some t ∧ midway q m s.
Proof.
  intros Hsim Ht Hq. pose proof (sim_mu _ _ Hsim) as Hmu. destruct (mx_mu m) as [t'|]; [|by destruct (proj2 Hmu t q Ht)].
  destruct Hmu as [(q' & Hq' & Hmid) Hu]. pose proof (Hu t q Ht Hq) as ->. by simplify_eq.
Qed.

(** The call that has [mu] goes on within its section. *)
Lemma sim_inside m s m' s' t q q' : simulates m s → mx_calls m !! t = Some q → inside q →
  mx_heap m' = mx_heap m → mx_fetchMu m' = mx_fetchMu m → mx_mu m' = mx_mu m → mx_calls m' = <[t := q']> (mx_calls m) →
  st_heap s' = st_heap s → st_owner s' = st_owner s → st_calls s' = <[t := view q']> (st_calls s) → midway q' m' s' → simulates m' s'.
Proof.
  intros Hsim Ht Hq E1 E2 E3 E4 F1 F2 F3 Hmid. destruct (sim_holder _ _ _ _ Hsim Ht Hq) as [Hmu _]. pose proof Hsim as [S1 S2 S3 S4].
  split; [by rewrite F1, E1|by rewrite F2, E2|by rewrite F3, E4, fmap_insert, S3|]. rewrite E3, Hmu in *. split.
  - exists q'. by rewrite E4, lookup_insert_eq.
  - intros t' q1. rewrite E4. destruct (decide (t' = t)) as [->|Hn]; [done|]. rewrite lookup_insert_ne by done. apply S4.
Qed.

(** A call goes on outside [mu]: what the sections of other calls see does not change. *)
Lemma sim_outside m s m' s' t p : simulates m s → (∀ q, mx_calls m !! t = Some q → ¬ inside q) →
  mx_store m' = mx_store m → mx_clock m' = mx_clock m → mx_mu m' = mx_mu m → mx_calls m' = <[t := At p]> (mx_calls m) →
  st_store s' = st_store s → st_clock s' = st_clock s → st_calls s' = <[t := p]> (st_calls s) →
  st_heap s' = mx_heap m' → st_owner s' = mx_fetchMu m' → simulates m' s'.
Proof.
  intros [S1 S2 S3 S4] Ht E1 E2 E3 E4 F1 F2 F3 F4 F5. split; [done|done|by rewrite F3, E4, fmap_insert, S3|]. rewrite E3.
  destruct (mx_mu m) as [t0|].
  - destruct S4 as [(q & Hq & Hmid) Hu]. assert (t0 ≠ t) as Hne by (intros ->; by apply (Ht q Hq), (midway_inside _ _ _ Hmid)). split.
    + exists q. rewrite E4, lookup_insert_ne by done. split; [done|]. unfold midway, same_store in *. by rewrite E1, E2, F1, F2.
    + intros t' q'. rewrite E4. destruct (decide (t' = t)) as [->|Hn]; [by rewrite lookup_insert_eq; intros [= <-]|]. rewrite lookup_insert_ne by done. apply Hu.
  - destruct S4 as [Hs Hu]. split; [unfold same_store in *; by rewrite E1, E2, F1, F2|]. intros t' q'. rewrite E4.
    destruct (decide (t' = t)) as [->|Hn]; [by rewrite lookup_insert_eq; intros [= <-] []|]. rewrite lookup_insert_ne by done. apply Hu.
Qed.

Lemma sim_lock m s t p : simulates m s → mx_calls m !! t = Some (At p) → critical p = true → mx_mu m = None →
  simulates (mx_goto t (Enter p) (mu_of (Some t) m)) s.
Proof.
  intros [S1 S2 S3 S4] Ht Hp Hmu. rewrite Hmu in S4. destruct S4 as [Hs Hu]. split; cbn; [done|done| |].
  - rewrite S3, fmap_insert. symmetry. apply insert_id. by rewrite lookup_fmap, Ht.
  - split; [exists (Enter p); by rewrite lookup_insert_eq|]. intros t' q. destruct (decide (t' = t)) as [->|Hn]; [done|].
    rewrite lookup_insert_ne by done. intros Hq Hi. by destruct (Hu _ _ Hq).
Qed.

Lemma sim_unlock m s t p : simulates m s → mx_calls m !! t = Some (Leave p) → simulates (mx_goto t (At p) (mu_of None m)) s.
Proof.
  intros Hsim Ht. destruct (sim_holder _ _ _ _ Hsim Ht I) as [Hmu Hmid]. pose proof Hsim as [S1 S2 S3 S4]. rewrite Hmu in S4.
  split; cbn; [done|done| |].
  - rewrite S3, fmap_insert. symmetry. apply insert_id. by rewrite lookup_fmap, Ht.
  - split; [exact Hmid|]. intros t' q. destruct (decide (t' = t)) as [->|Hn]; [by rewrite lookup_insert_eq; intros [= <-] []|].
    rewrite lookup_insert_ne by done. intros Hq Hi. by destruct (proj2 S4 _ _ Hq Hi).
Qed.

(** Time passes, unless a call has read the clock and not yet come to its last access. *)
Lemma sim_tick m s c : simulates m s → (mx_clock m <= c)%Z → ∃ s', rtc jwks_step s s' ∧ simulates (mx_at c m) s'.
Proof.
  intros [S1 S2 S3 S4] Hc. destruct (mx_mu m) as [t|] eqn:Hmu.
  - destruct S4 as [(q & Hq & Hmid) Hu]. destruct q as [p|p|p now|k ks|p]; [done|..].
    2: { exists s. split; [apply rtc_refl|]. split; [done..|]. cbn. rewrite Hmu. split; [|done]. exists (Read p now). destruct Hmid as (? & ? & ? & ?).
         split; [done|]. split_and!; try done. cbn. lia. }
    1: destruct Hmid as [Hp [Hst Hnow]].
    2,3: destruct Hmid as [Hst Hnow].
    all: exists (at_clock c s); (split; [apply rtc_once, js_tick; by rewrite Hnow|]); (split; [done..|]); cbn; rewrite Hmu; (split; [|done]); eexists; split; [exact Hq|]; by split_and!.
  - destruct S4 as [[Hst Hnow] Hu]. exists (at_clock c s). split; [apply rtc_once, js_tick; by rewrite Hnow|]. split; [done..|]. cbn. rewrite Hmu. by split_and!.
Qed.

(** The last access of a section that has read the clock is the step of [jwks_step], at the
    time that was read; then time goes on. *)
Lemma sim_read m s t p now q store : simulates m s → mx_calls m !! t = Some (Read p now) →
  (st_clock s = now → jwks_step s (goto t q (with_store store s)) ∨ (∃ l, jwks_step s
     {| st_store := store; st_heap := st_heap s; st_clock := st_clock s; st_owner := st_owner s; st_calls := <[t := q]> (st_calls s);
        st_attempts := l; st_responses := st_responses s |})) →
  ∃ s', rtc jwks_step s s' ∧ simulates (mx_goto t (Leave q) (mx_write store m)) s'.
Proof.
  intros Hsim Ht Hstep. destruct (sim_holder _ _ _ _ Hsim Ht I) as [_ (_ & Hst & Hnow & Hle)].
  assert (∃ s1, jwks_step s s1 ∧ st_store s1 = store ∧ st_heap s1 = st_heap s ∧ st_clock s1 = st_clock s ∧ st_owner s1 = st_owner s ∧
    st_calls s1 = <[t := q]> (st_calls s)) as (s1 & Hs1 & G1 & G2 & G3 & G4 & G5).
  { destruct (Hstep Hnow) as [Hs|[l Hs]]; (eexists; split; [exact Hs|by split_and!]). }
  exists (at_clock (mx_clock m) s1). split.
  - eapply rtc_l; [exact Hs1|]. apply rtc_once. apply js_tick. by rewrite G3, Hnow.
  - eapply (sim_inside m s _ _ t); [done|exact Ht|done|done..|exact G2|exact G4|exact G5|]. by split.
Qed.

Lemma with_store_same s : with_store (st_store s) s = s.
Proof. by destruct s. Qed.
Lemma mx_write_same m : mx_write (mx_store m) m = m.
Proof. by destruct m. Qed.

(** A section that looks an identifier up writes nothing. *)
Lemma sim_lookup m s t p now kid done fetch : simulates m s → mx_calls m !! t = Some (Read p now) →
  jwks_step s (goto t (after_lookup (lookup_kid (st_heap s) (st_store s) (st_clock s) kid) done fetch) s) →
  ∃ s', rtc jwks_step s s' ∧ simulates (mx_goto t (Leave (after_lookup (lookup_kid (mx_heap m) (mx_store m) now kid) done fetch)) m) s'.
Proof.
  intros Hsim Ht Hstep. destruct (sim_holder _ _ _ _ Hsim Ht I) as [_ (_ & Hst & Hnow & _)].
  pose proof (sim_read m s t p now (after_lookup (lookup_kid (mx_heap m) (mx_store m) now kid) done fetch) (mx_store m) Hsim Ht) as Hr.
  rewrite mx_write_same in Hr. apply Hr. intros _. left. rewrite <- Hst, with_store_same, <- (sim_heap _ _ Hsim), <- Hnow. exact Hstep.
Qed.

Lemma sim_step m m' s : mutex_step m m' → simulates m s → ∃ s', rtc jwks_step s s' ∧ simulates m' s'.
Proof.
  intros Hs Hsim. pose proof Hsim as [S1 S2 S3 S4].
  assert (∀ t q, mx_calls m !! t = Some q → st_calls s !! t = Some (view q)) as Hcall by (intros; by eapply sim_call).
  destruct Hs as [c Hc|t i k Ht|t p Ht Hp Hmu|t i k b store Ht Hk|t p Ht Hp|t k now Ht|t k now Ht|t k now Ht|t k ks Ht|t k ks Ht|t k now Ht|t p Ht|t k Ht Ho|t k o r h Ht Hf|t r Ht].
  - by apply sim_tick.
  - exists (goto t (PCall i k) s). split.
    + apply rtc_once, js_spawn. by rewrite S3, lookup_fmap, Ht.
    + eapply (sim_outside m s); try done; by intros q; rewrite Ht.
  - exists s. split; [apply rtc_refl|by apply sim_lock].
  - destruct (sim_holder _ _ _ _ Hsim Ht I) as [_ (_ & Hst & Hnow)]. eexists. split.
    + apply rtc_once. eapply js_issuer; [by apply (Hcall _ _ Ht)|by rewrite Hst].
    + eapply (sim_inside m s); [done|exact Ht|done..|]. by split.
  - destruct (sim_holder _ _ _ _ Hsim Ht I) as [_ (_ & Hst & Hnow)]. exists s. split; [apply rtc_refl|].
    eapply (sim_inside m s); [done|exact Ht|done..| |]; cbn.
    + symmetry. apply insert_id. by apply (Hcall _ _ Ht).
    + by split_and!.
  - eapply sim_lookup; [done|exact Ht|]. apply js_lookup. by apply (Hcall _ _ Ht).
  - eapply sim_lookup; [done|exact Ht|]. apply js_recheck. by apply (Hcall _ _ Ht).
  - destruct (sim_holder _ _ _ _ Hsim Ht I) as [_ (_ & Hst & _)]. eapply sim_read; [done|exact Ht|]. intros Hnow. right.
    exists (st_clock s :: st_attempts s). rewrite <- Hst, <- Hnow. apply js_attempt. by apply (Hcall _ _ Ht).
  - destruct (sim_holder _ _ _ _ Hsim Ht I) as [_ (_ & Hst & Hnow)]. exists s. split; [apply rtc_refl|].
    eapply (sim_inside m s); [done|exact Ht|done..| |]; cbn.
    + symmetry. apply insert_id. by apply (Hcall _ _ Ht).
    + by rewrite Hst.
  - destruct (sim_holder _ _ _ _ Hsim Ht I) as [_ [Hst Hnow]]. eexists. split.
    + apply rtc_once. eapply js_install. by apply (Hcall _ _ Ht).
    + eapply (sim_inside m s); [done|exact Ht|done..|]. split; [|done]. cbn. by rewrite Hst, Hnow.
  - eapply sim_lookup; [done|exact Ht|]. apply js_final. by apply (Hcall _ _ Ht).
  - exists s. split; [apply rtc_refl|by apply sim_unlock].
  - eexists. split; [apply rtc_once; eapply js_lock; [by apply (Hcall _ _ Ht)|by rewrite S2]|].
    eapply (sim_outside m s); try done; intros q Hq Hi; by simplify_eq.
  - eexists. split; [apply rtc_once; eapply js_fetch; [by apply (Hcall _ _ Ht)|by rewrite S1]|].
    eapply (sim_outside m s); try done; intros q Hq Hi; by simplify_eq.
  - eexists. split; [apply rtc_once; eapply js_unlock; by apply (Hcall _ _ Ht)|].
    eapply (sim_outside m s); try done; intros q Hq Hi; by simplify_eq.
Qed.

Lemma mutex_simulated store h c m : rtc mutex_step (mutex_init store h c) m →
  ∃ s, rtc jwks_step (jwks_init store h c) s ∧ simulates m s.
Proof.
  intros Hm. assert (∃ s, rtc jwks_step (jwks_init store h c) s ∧ simulates (mutex_init store h c) s) as Hi.
  { exists (jwks_init store h c). split; [apply rtc_refl|apply sim_init]. }
  induction Hm as [|m1 m2 m3 Hst _ IH]; [exact Hi|]. destruct Hi as (s1 & Hs1 & Hsim).
  destruct (sim_step _ _ _ Hst Hsim) as (s2 & Hs2 & Hsim2). apply IH. exists s2. split; [by etrans|done].
Qed.

(** ** Calls come to an end *)
(** The steps a call has in front of it, at most: four for each section that it has not
    left. *)
Definition mrank (q : mpc) : nat :=
  match q with
  | At p => 4 * rank p | Enter p => 4 * rank p - 1 | Read p _ => 4 * rank p - 2
  | Keys kid ks => 4 * rank (PInstall kid ks) - 2 | Leave p => 4 * rank p + 1
  end.
Definition mwork (m : mutex_state) : nat := total mrank (mx_calls m).

(** A step of a call that has begun, before which time may have passed. *)
Definition mutex_internal (m m' : mutex_state) : Prop :=
  ∃ c, (mx_clock m <= c)%Z ∧ mutex_step (mx_at c m) m' ∧ dom (mx_calls m') = dom (mx_calls m) ∧ mx_calls m' ≠ mx_calls m.

Definition mutex_done (q : mpc) : Prop := match q with At (PDone _) => True | _ => False end.

(** After a section that looks an identifier up there is less to do, whatever it finds. *)
Lemma leave_rank r done fetch n : (∀ r, rank (done r) < n) → rank fetch < n → 4 * rank (after_lookup r done fetch) + 1 < 4 * n - 2.
Proof. intros Hd Hf. destruct r as [r|]; cbn; [specialize (Hd r)|]; lia. Qed.

Lemma mutex_internal_work m m' : mutex_internal m m' → mwork m' < mwork m.
Proof.
  intros (c & _ & Hs & Hdom & Hne).
  assert (∀ t q q', mx_calls m !! t = Some q → mx_calls m' = <[t := q']> (mx_calls m) → mrank q' < mrank q → mwork m' < mwork m) as Hgo.
  { intros t q q' Ht Hc Hr. unfold mwork. rewrite Hc. pose proof (total_update mrank _ _ _ q' Ht). lia. }
  destruct Hs as [c' Hc|t i k Ht|t p Ht Hp Hmu|t i k b store Ht Hk|t p Ht Hp|t k now Ht|t k now Ht|t k now Ht|t k ks Ht|t k ks Ht|t k now Ht|t p Ht|t k Ht Ho|t k o r h Ht Hf|t r Ht].
  - done.
  - apply not_elem_of_dom in Ht. destruct Ht. change (mx_calls (mx_at c m)) with (mx_calls m). rewrite <- Hdom. apply elem_of_dom. cbn. rewrite lookup_insert_eq. by eexists.
  - eapply Hgo; [exact Ht|done|]. destruct p; cbn in *; try done; lia.
  - eapply Hgo; [exact Ht|done|]. destruct b; cbn; lia.
  - eapply Hgo; [exact Ht|done|]. destruct p; cbn in *; try done; lia.
  - eapply Hgo; [exact Ht|done|]. apply (leave_rank _ _ _ 8); cbn; lia.
  - eapply Hgo; [exact Ht|done|]. apply (leave_rank _ _ _ 6); cbn; lia.
  - eapply Hgo; [exact Ht|done|]. cbn; lia.
  - eapply Hgo; [exact Ht|done|]. cbn; lia.
  - eapply Hgo; [exact Ht|done|]. cbn; lia.
  - eapply Hgo; [exact Ht|done|]. apply (leave_rank _ _ _ 2); cbn; lia.
  - eapply Hgo; [exact Ht|done|]. cbn; lia.
  - eapply Hgo; [exact Ht|done|]. cbn; lia.
  - eapply Hgo; [exact Ht|done|]. destruct r; cbn; lia.
  - eapply Hgo; [exact Ht|done|]. cbn; lia.
Qed.

(** A step of a call can be taken at once. *)
Lemma mutex_goes m m' t q q' : mutex_step m m' → mx_calls m !! t = Some q → mx_calls m' = <[t := q']> (mx_calls m) → q' ≠ q → red mutex_internal m.
Proof.
  intros Hs Ht Hc Hne. exists m', (mx_clock m). split; [lia|]. split; [by destruct m|]. rewrite Hc. split.
  - rewrite dom_insert_L. apply elem_of_dom_2 in Ht. set_solver.
  - intros He. apply Hne. rewrite <- He, lookup_insert_eq in Ht. by injection Ht.
Qed.

(** The call that has [mu] can go on: it never waits. *)
Lemma inside_goes m s t q : mx_calls m !! t = Some q → midway q m s → red mutex_internal m.
Proof.
  intros Ht Hmid. destruct q as [p|p|p now|k ks|p]; [done|..].
  - destruct Hmid as [Hp _]. destruct p as [i k|k|k|k|k|k|k ks|k|r|r]; try done; try (by eapply mutex_goes; [by apply mx_now|exact Ht|done|done]).
    + destruct (knownIssuer (mx_store m) i) as [b store] eqn:Hk. by eapply mutex_goes; [by eapply mx_issuer|exact Ht|done|].
    + by eapply mutex_goes; [by eapply mx_keys|exact Ht|done|].
  - destruct Hmid as [Hp _]. destruct p as [i k|k|k|k|k|k|k ks|k|r|r]; try done.
    + by eapply mutex_goes; [by eapply mx_lookup|exact Ht|done|].
    + by eapply mutex_goes; [by eapply mx_recheck|exact Ht|done|].
    + by eapply mutex_goes; [by eapply mx_attempt|exact Ht|done|].
    + by eapply mutex_goes; [by eapply mx_final|exact Ht|done|].
  - by eapply mutex_goes; [by eapply mx_time|exact Ht|done|].
  - by eapply mutex_goes; [by eapply mx_unlock|exact Ht|done|].
Qed.

(** When nobody has [mu], a call goes on that does not wait for [fetchMu]. *)
Lemma outside_goes m t p : mx_mu m = None → mx_calls m !! t = Some (At p) → (∀ r, p ≠ PDone r) → (∀ kid, p ≠ PLock kid) → red mutex_internal m.
Proof.
  intros Hmu Ht Hd Hl. destruct (critical p) eqn:Hp; [by eapply mutex_goes; [by apply mx_lock|exact Ht|done|]|].
  destruct p as [i k|k|k|k|k|k|k ks|k|r|r]; try done; [by destruct (Hl k)|..|by destruct (Hd r)].
  - destruct (fetch_keys (mx_heap m) RequestFailed) as [r h] eqn:Hf. eapply mutex_goes; [by eapply mx_fetch|exact Ht|done|by destruct r].
  - by eapply mutex_goes; [by eapply mx_fetch_unlock|exact Ht|done|].
Qed.

Lemma mutex_sn m : sn mutex_internal m.
Proof.
  remember (mwork m) as n eqn:Hn. revert m Hn. induction n as [n IH] using lt_wf_ind. intros m ->. constructor. intros m' Hm'.
  eapply IH; [by apply mutex_internal_work|done].
Qed.

Lemma mutex_done_nf m : (∀ t q, mx_calls m !! t = Some q → mutex_done q) → nf mutex_internal m.
Proof.
  intros Hall [m' Hi]. pose proof (mutex_internal_work _ _ Hi) as Hw. assert (mwork m = 0) as Hz; [|lia].
  clear -Hall. unfold mwork. revert Hall. generalize (mx_calls m). intros c. induction c as [|t q c Hn IH] using map_ind; [done|].
  intros Hall. rewrite total_insert by done. rewrite IH.
  - specialize (Hall t q (lookup_insert_eq _ _ _)). by destruct q as [[]| | | |].
  - intros t' q' Ht'. apply (Hall t'). rewrite lookup_insert_ne; [done|]. by intros <-; rewrite Hn in Ht'.
Qed.

(** C20. With [mu] and [fetchMu] as locks that are taken and given up in steps of their own,
    however the steps of the calls interleave and whatever the server answers: the
    sections that hold [mu] are atomic, the state being one that [jwks_step] reaches with
    every call where it is, and the same fields whenever nobody has [mu]; once no new calls
    start, no run goes on for ever; and a run that cannot go on has all its calls done.
    So the two mutexes cannot deadlock, and none is left locked. *)
Theorem jwks_mutexes_end store h c m : rtc mutex_step (mutex_init store h c) m →
  (∃ s, rtc jwks_step (jwks_init store h c) s ∧ st_calls s = view <$> mx_calls m ∧ st_heap s = mx_heap m ∧
    (mx_mu m = None → st_store s = mx_store m)) ∧
  sn mutex_internal m ∧
  (nf mutex_internal m ↔ ∀ t q, mx_calls m !! t = Some q → mutex_done q) ∧
  ((∀ t q, mx_calls m !! t = Some q → mutex_done q) → mx_mu m = None ∧ mx_fetchMu m = None).
Proof.
  intros Hm. destruct (mutex_simulated _ _ _ _ Hm) as (s & Hs & Hsim). pose proof Hsim as [S1 S2 S3 S4].
  pose proof (jwks_owner_holds _ _ _ _ Hs) as Ho. split_and!.
  - exists s. split_and!; [done..|]. intros Hmu. rewrite Hmu in S4. by destruct S4 as [[? _] _].
  - apply mutex_sn.
  - split; [|apply mutex_done_nf]. intros Hnf t q Ht. destruct (mx_mu m) as [t'|] eqn:Hmu.
    { destruct Hnf. destruct S4 as [(q' & Hq' & Hmid) _]. eapply inside_goes; [exact Hq'|exact Hmid]. }
    assert (∀ t q, mx_calls m !! t = Some q → ∃ p, q = At p) as Hat.
    { intros t' q' Ht'. destruct q'; try (by destruct (proj2 S4 _ _ Ht')). by eexists. }
    destruct (Hat _ _ Ht) as [p ->]. destruct p as [i k|k|k|k|k|k|k ks|k|r|r] eqn:Ep; try done; destruct Hnf; try (by eapply outside_goes).
    destruct (mx_fetchMu m) as [t'|] eqn:Hf; [|by eapply mutex_goes; [by eapply mx_fetch_lock|exact Ht|done|]].
    destruct (Ho t') as (p' & Hp' & Hh); [by rewrite S2|]. rewrite S3, lookup_fmap in Hp'. destruct (mx_calls m !! t') as [q'|] eqn:Hq'; [|done].
    destruct (Hat _ _ Hq') as [p0 ->]. injection Hp' as ->. eapply outside_goes; [done|exact Hq'|by intros r ->|by intros kid ->].
  - intros Hall. split.
    + destruct (mx_mu m) as [t|]; [|done]. destruct S4 as [(q & Hq & Hmid) _]. specialize (Hall _ _ Hq). by destruct q.
    + destruct (mx_fetchMu m) as [t|] eqn:Hf; [|done]. destruct (Ho t) as (p & Hp & Hh); [by rewrite S2|]. rewrite S3, lookup_fmap in Hp.
      destruct (mx_calls m !! t) as [q|] eqn:Hq; [|done]. specialize (Hall _ _ Hq). destruct q as [[]| | | |]; try done. injection Hp as <-. done.
Qed.
End mutex.
