(* ===== verification/JwtSigner.v ===== *)
(** [jwt_signer.go] and [jwt_verifier.go]: issuing and accepting JWTs.

    The verifier works against the [TrustStore] interface: a class here, with an
    instance for each store.  The clock, the random identifier and the random
    source are arguments of a call. *)

From S2P Require Import Prelude Errors Base64 Json JsonFacts JsonCodec Types Crypto Jwk Jws Helpers Keys KeyStore JwksTrustStore.

(** ** [jwt_signer.go] *)
Record JwtSignerImpl := { Signer_key : SigningKey; Signer_issuer : string }.

Definition NewJwtSigner (issuer : string) (key : SigningKey) : JwtSignerImpl := {| Signer_key := key; Signer_issuer := issuer |}.
Definition JwtSignerImpl_Issuer (signer : JwtSignerImpl) : string := Signer_issuer signer.

Section jwt.
Context `{X509, Digests, Rsa, Ecdsa, Signers}.

Section signer.
(** The dynamic type of an untyped claim, and what [json.Marshal] makes of it. *)
Context {V : Type} (json_Marshal : V → result json).

Fixpoint encode_untyped (untyped : list (string * V)) : result (gmap string json) :=
  match untyped with
  | [] => Ok ∅
  | (k, v) :: untyped =>
    encoded ← json_Marshal v;
    encodedUntyped ← encode_untyped untyped;
    Ok (<[k := encoded]> encodedUntyped)
  end.

(** [now] is [time.Now().Unix()], [uuid] the text of [uuid.New()].  A nil [untyped]
    is the empty map. *)
Definition JwtSignerImpl_Sign (h : heap) (rand : tape) (now : Z) (uuid : string) (signer : JwtSignerImpl)
    (claims : option SettableJwtClaims) (untyped : gmap string V) : result string :=
  encodedUntyped ← encode_untyped (map_to_list untyped);
  kid ← SigningKey_Kid h (Signer_key signer);
  match claims with
  | None => Panic
  | Some claims =>
    let jwt := {|
      Jwt_Header := {| Jws_Alg := SigningKey_Algorithm (Signer_key signer); Jws_Jku := ""; Jws_Kid := kid; Jws_X5U := "";
                       Jws_X5C := []; Jws_X5T := None; Jws_X5T256 := None; Jws_Typ := JwtType; Jws_Cty := ""; Jws_Crit := [] |};
      Jwt_Claims := {| AutoClaims := {| Issuer := Signer_issuer signer; IssuedAt := now; JwtID := uuid |};
                       SetClaims := claims; Untyped := encodedUntyped |};
      Jwt_Signature := [] |} in
    toBeSigned ← Jwt_MarshalBody jwt;
    signature ← SigningKey_Sign rand (Signer_key signer) KeyOpsSign (s2b toBeSigned);
    Ok (MarshalJws toBeSigned signature)
  end.
End signer.

(** ** The [TrustStore] interface, as the verifier uses it *)
Class TrustStore (St : Type) :=
  TrustStore_Get : heap → St → string → string → result (option VerificationKey) * St * heap.

(** What a verifier may rely on, in the states [ts_ok] of a store: keys are found
    under their identifier, and they fit their algorithm. *)
Class TrustStoreLaws (St : Type) `{!TrustStore St} := {
  ts_ok : heap → St → Prop;
  TrustStore_Get_kid h s issuer kid vk s' h' : ts_ok h s →
    TrustStore_Get h s issuer kid = (Ok (Some vk), s', h') → VerificationKey_Kid h' vk = Ok kid;
  TrustStore_Get_wf h s issuer kid vk s' h' : ts_ok h s →
    TrustStore_Get h s issuer kid = (Ok (Some vk), s', h') →
    ∀ operation data signature, VerificationKey_Verify vk operation data signature ≠ Panic;
  TrustStore_Get_ok h s issuer kid r s' h' : ts_ok h s → TrustStore_Get h s issuer kid = (r, s', h') → ts_ok h' s';
  TrustStore_Get_no_panic h s issuer kid s' h' : ts_ok h s → TrustStore_Get h s issuer kid ≠ (Panic, s', h');
}.

#[export] Instance TrustKeyStoreImpl_TrustStore : TrustStore TrustKeyStoreImpl := λ h s issuer kid,
  let '(r, h) := TrustKeyStoreImpl_Get h s issuer kid in (Some <$> r, s, h).

(** A JWKS store together with the clock and the server it meets. *)
Record JwksEnv := { env_store : JwksTrustStore; env_now : nat → time; env_outcome : http_outcome }.
#[export] Instance JwksTrustStore_TrustStore : TrustStore JwksEnv := λ h s issuer kid,
  let '(r, store, h) := JwksTrustStore_Get h (env_store s) (env_now s) (env_outcome s) issuer kid in
  (r, {| env_store := store; env_now := env_now s; env_outcome := env_outcome s |}, h).

(** ** [jwt_verifier.go] *)
Definition audience_found (audience : list string) (auds : list string) : bool :=
  fold_left (λ found candidate, fold_left (λ found aud, found || bool_decide (candidate = aud)) auds found) audience false.

(** The identifier and the claims; [now] is the clock's [Unix()]. *)
Definition JwtVerifierImpl_Verify {St : Type} `{!TrustStore St} (h : heap) (store : St) (now : Z) (jwt : string) (audience : list string)
    : result (string * JwtClaims) * St * heap :=
  if (MaxCompactSize <? slen jwt)%N then (gose_err Gose.ErrInputTooLarge, store, h)
  else
    match Jwt_Unmarshal Jwt_zero jwt with
    | Err e => (Err e, store, h)
    | Panic => (Panic, store, h)
    | Ok (token, signed) =>
      let claims := SetClaims (Jwt_Claims token) in
      let auds := default [] (Aud claims) in
      if (now <? NotBefore claims)%Z then (gose_err Gose.ErrInvalidJwtTimeframe, store, h)
      else if (Expiration claims <=? now)%Z then (gose_err Gose.ErrInvalidJwtTimeframe, store, h)
      else if (len auds =? 0)%N || (len audience =? 0)%N then (Err (EInvalidFormat "no expected audience"), store, h)
      else if negb (audience_found audience auds) then (Err (EInvalidFormat "no expected audience"), store, h)
      else if (slen (Jws_Kid (Jwt_Header token)) =? 0)%N then (gose_err Gose.ErrInvalidKid, store, h)
      else
        let '(key, store, h) := TrustStore_Get h store (Issuer (AutoClaims (Jwt_Claims token))) (Jws_Kid (Jwt_Header token)) in
        match key with
        | Panic => (Panic, store, h)
        | Err _ | Ok None => (gose_err Gose.ErrUnknownKey, store, h)
        | Ok (Some key) =>
          if negb (bool_decide (VerificationKey_Algorithm key = Jws_Alg (Jwt_Header token)))
          then (gose_err Gose.ErrInvalidAlgorithm, store, h)
          else
            (ok ← VerificationKey_Verify key KeyOpsVerify (s2b signed) (Jwt_Signature token);
             if negb ok then gose_err Gose.ErrInvalidSignature
             else kid ← VerificationKey_Kid h key; Ok (kid, Jwt_Claims token),
             store, h)
        end
    end.
End jwt.
