(* ===== verification/JwtFacts.v ===== *)
(** Properties of [JwtSigner]: when a token is accepted, that accepting never
    panics, that what is issued is accepted, and that both trust stores keep the
    promises of the interface. *)

From S2P Require Import Prelude Errors Base64 Json JsonFacts JsonCodec Types Crypto Jwk JwkFacts Jws JwsFacts Helpers HelpersFacts Keys KeysFacts KeyStore KeyStoreFacts JwksTrustStore JwksTrustStoreFacts JwtSigner.

Lemma audience_found_spec audience auds : audience_found audience auds = true ↔ ∃ a, a ∈ audience ∧ a ∈ auds.
Proof.
  unfold audience_found. assert (∀ candidate found, fold_left (λ found aud, found || bool_decide (candidate = aud)) auds found
    = found || bool_decide (candidate ∈ auds)) as Hin.
  { intros candidate found. rewrite fold_exists. f_equal. apply eq_true_iff_eq. rewrite existsb_exists, bool_decide_eq_true. split.
    - intros (x & Hx & ->%bool_decide_eq_true). by apply list_elem_of_In.
    - intros Hc. exists candidate. split; [by apply list_elem_of_In|by apply bool_decide_eq_true]. }
  assert (∀ found, fold_left (λ found candidate, fold_left (λ found aud, found || bool_decide (candidate = aud)) auds found) audience found
    = found || existsb (λ c, bool_decide (c ∈ auds)) audience) as ->.
  { induction audience as [|c audience IH]; intros found; cbn; [by rewrite orb_false_r|]. by rewrite IH, Hin, orb_assoc. }
  cbn [orb]. rewrite existsb_exists. split; intros (a & Ha & Hb); exists a; rewrite ?bool_decide_eq_true, ?list_elem_of_In in *; done.
Qed.

Section jwt.
Context `{X509, Digests, Rsa, Ecdsa, Signers}.

(** ** Accepting a token *)
Section verifier.
Context {St : Type} `{!TrustStore St}.

(** What a token must satisfy: it parses, it is within its time frame, it is meant
    for one of the expected audiences, and the store has a key for its issuer and
    identifier that has its algorithm and accepts its signature. *)
Definition token_accepted (h : heap) (store : St) (now : Z) (jwt : string) (audience : list string)
    (token : Jwt) (signed : string) (key : VerificationKey) (store' : St) (h' : heap) : Prop :=
  (slen jwt <= MaxCompactSize)%N ∧ Jwt_Unmarshal Jwt_zero jwt = Ok (token, signed) ∧
  (NotBefore (SetClaims (Jwt_Claims token)) <= now < Expiration (SetClaims (Jwt_Claims token)))%Z ∧
  (∃ a, a ∈ audience ∧ a ∈ default [] (Aud (SetClaims (Jwt_Claims token)))) ∧
  Jws_Kid (Jwt_Header token) ≠ "" ∧
  TrustStore_Get h store (Issuer (AutoClaims (Jwt_Claims token))) (Jws_Kid (Jwt_Header token)) = (Ok (Some key), store', h') ∧
  VerificationKey_Algorithm key = Jws_Alg (Jwt_Header token) ∧
  VerificationKey_Verify key KeyOpsVerify (s2b signed) (Jwt_Signature token) = Ok true.

Lemma slen_0 s : (slen s =? 0)%N = true ↔ s = "".
Proof. destruct s; unfold slen; cbn; split; intros; simplify_eq; try done; lia. Qed.

Lemma len_nil {A} (l : list A) a : a ∈ l → (len l =? 0)%N = false.
Proof. intros Ha. destruct l; [by apply elem_of_nil in Ha|]. unfold len. cbn. lia. Qed.

Lemma Verify_iff h store now jwt audience kid claims store' h' :
  JwtVerifierImpl_Verify h store now jwt audience = (Ok (kid, claims), store', h') ↔
  ∃ token signed key, token_accepted h store now jwt audience token signed key store' h' ∧
    VerificationKey_Kid h' key = Ok kid ∧ claims = Jwt_Claims token.
Proof.
  unfold JwtVerifierImpl_Verify, token_accepted. split.
  - destruct (N.ltb_spec MaxCompactSize (slen jwt)) as [|Hl]; [done|].
    destruct (Jwt_Unmarshal Jwt_zero jwt) as [[token signed]| |]; [|done..].
    destruct (Z.ltb_spec now (NotBefore (SetClaims (Jwt_Claims token)))); [done|].
    destruct (Z.leb_spec (Expiration (SetClaims (Jwt_Claims token))) now); [done|].
    destruct (_ || _); [done|]. destruct (audience_found _ _) eqn:Ha; [|done]. apply audience_found_spec in Ha.
    destruct (slen (Jws_Kid (Jwt_Header token)) =? 0)%N eqn:Hk; [done|]. cbn [negb].
    destruct (TrustStore_Get _ _ _ _) as [[[[key|]|e|] s1] h1] eqn:Hg; [|done..].
    case_bool_decide as Halg; [|done]. cbn [negb]. intros Hr. injection Hr as Hr <- <-.
    apply bind_Ok in Hr as (ok & Hv & Hr). destruct ok; [|done]. cbn [negb] in Hr. apply bind_Ok in Hr as (k & Hkid & Hr).
    injection Hr as -> <-. exists token, signed, key. split_and!; try done; try lia.
    intros E. apply slen_0 in E. congruence.
  - intros (token & signed & key & (Hl & -> & Ht & (a & Ha & Ha') & Hk & Hg & Halg & Hv) & Hkid & ->).
    destruct (N.ltb_spec MaxCompactSize (slen jwt)); [lia|].
    destruct (Z.ltb_spec now (NotBefore (SetClaims (Jwt_Claims token)))); [lia|].
    destruct (Z.leb_spec (Expiration (SetClaims (Jwt_Claims token))) now); [lia|].
    rewrite (len_nil _ _ Ha), (len_nil _ _ Ha'). cbn [orb]. rewrite (proj2 (audience_found_spec _ _)) by by exists a.
    cbn [negb]. destruct (slen (Jws_Kid (Jwt_Header token)) =? 0)%N eqn:E; [by apply slen_0 in E|].
    rewrite Hg, bool_decide_true by done. cbn [negb]. by rewrite Hv; cbn; rewrite Hkid.
Qed.

(** C3. A token is accepted, with the identifier of the key and its claims, exactly when
    it is within the size bound and parses, the time is within its frame, it is meant
    for one of the expected audiences, it names a key, and the store has a key under
    that issuer and identifier whose algorithm is that of the header and which
    accepts the signature over the token as it was sent. *)
Theorem JwtVerifierImpl_Verify_spec h store now jwt audience kid claims store' h' :
  JwtVerifierImpl_Verify h store now jwt audience = (Ok (kid, claims), store', h') ↔
  ∃ token signed key, token_accepted h store now jwt audience token signed key store' h' ∧
    VerificationKey_Kid h' key = Ok kid ∧ claims = Jwt_Claims token.
Proof. apply Verify_iff. Qed.

Context `{!TrustStoreLaws St}.

(** C26. Whatever the token is, verifying it does not panic and leaves the store usable. *)
Theorem JwtVerifierImpl_Verify_no_panic h store now jwt audience r store' h' : ts_ok h store →
  JwtVerifierImpl_Verify h store now jwt audience = (r, store', h') → r ≠ Panic ∧ ts_ok h' store'.
Proof.
  intros Hok. unfold JwtVerifierImpl_Verify. destruct (_ <? _)%N; [by intros [= <- <- <-]|].
  pose proof (Jwt_Unmarshal_no_panic Jwt_zero jwt). destruct (Jwt_Unmarshal Jwt_zero jwt) as [[token signed]| |];
    [|by intros [= <- <- <-]|done].
  destruct (_ <? _)%Z; [by intros [= <- <- <-]|]. destruct (_ <=? _)%Z; [by intros [= <- <- <-]|].
  destruct (_ || _); [by intros [= <- <- <-]|]. destruct (negb _); [by intros [= <- <- <-]|].
  destruct (_ =? _)%N; [by intros [= <- <- <-]|]. destruct (TrustStore_Get _ _ _ _) as [[key s1] h1] eqn:Hg.
  pose proof (TrustStore_Get_ok _ _ _ _ _ _ _ Hok Hg) as Hok'.
  destruct key as [[key|]|e|]; [|by intros [= <- <- <-]..|by apply TrustStore_Get_no_panic in Hg].
  destruct (negb _); [by intros [= <- <- <-]|]. intros [= <- <- <-]. split; [|done].
  apply bind_no_panic; [exact (TrustStore_Get_wf _ _ _ _ _ _ _ Hok Hg _ _ _)|]. intros ok _. destruct (negb ok); [done|].
  by rewrite (TrustStore_Get_kid _ _ _ _ _ _ _ Hok Hg).
Qed.
End verifier.

(** ** From issuer to verifier *)
(** The verification key accepts what the signing key signs. *)
Definition key_pair (sk : SigningKey) (vk : VerificationKey) : Prop :=
  VerificationKey_Algorithm vk = SigningKey_Algorithm sk ∧
  ∀ rand data sig, SigningKey_Sign rand sk KeyOpsSign data = Ok sig → VerificationKey_Verify vk KeyOpsVerify data sig = Ok true.

Lemma Verifier_key_pair `{!EcdsaLaws} h l jwk required sk vk h' :
  h !! l = Some jwk → NewSigningKey h l required = Ok sk → (∀ key, loads_private jwk (SignerECDSA key) → ec_pair key) →
  SigningKey_Verifier h sk = (Ok vk, h') → VerificationKey_Algorithm vk = SigningKey_Algorithm sk → key_pair sk vk.
Proof. intros Hl Hsk Hp Hv Ha. split; [done|]. intros rand data sig Hs. by eapply sign_verify. Qed.

(** The claims a signer puts in a token. *)
Definition issued_claims (issuer : string) (now : Z) (uuid : string) (claims : SettableJwtClaims) (untyped : gmap string json) : JwtClaims :=
  {| AutoClaims := {| Issuer := issuer; IssuedAt := now; JwtID := uuid |}; SetClaims := claims; Untyped := untyped |}.

(** A token that was issued is accepted, with the claims it was issued with, by a
    verifier whose store has the matching key, within the time frame and for an
    audience of the token. *)
Lemma issued_accepted {V} (json_Marshal : V → result json) {St} `{!TrustStore St}
    h rand iat uuid signer claims untyped encoded kid token (hv : heap) (store : St) now audience vk store' h' :
  JwtSignerImpl_Sign json_Marshal h rand iat uuid signer (Some claims) untyped = Ok token →
  encode_untyped json_Marshal (map_to_list untyped) = Ok encoded → claims_ok (issued_claims (Signer_issuer signer) iat uuid claims encoded) →
  SigningKey_Kid h (Signer_key signer) = Ok kid → kid ≠ "" → utf8 kid = true → utf8 (SigningKey_Algorithm (Signer_key signer)) = true →
  (slen token <= MaxCompactSize)%N →
  (NotBefore claims <= now < Expiration claims)%Z → (∃ a, a ∈ audience ∧ a ∈ default [] (Aud claims)) →
  TrustStore_Get hv store (Signer_issuer signer) kid = (Ok (Some vk), store', h') →
  key_pair (Signer_key signer) vk → VerificationKey_Kid h' vk = Ok kid →
  JwtVerifierImpl_Verify hv store now token audience =
    (Ok (kid, issued_claims (Signer_issuer signer) iat uuid claims encoded), store', h').
Proof.
  intros Hs Hu Hc Hkid Hk0 Hk8 Ha8 Hl Ht Haud Hg [Halg Hpair] Hvk. unfold JwtSignerImpl_Sign in Hs.
  rewrite Hu, Hkid in Hs. cbn [mbind res_bind] in Hs. set (jwt := {| Jwt_Header := _ |}) in Hs.
  apply bind_Ok in Hs as (body & Hb & Hs). apply bind_Ok in Hs as (sig & Hsig & [= <-]).
  set (jwt' := {| Jwt_Header := Jwt_Header jwt; Jwt_Claims := Jwt_Claims jwt; Jwt_Signature := sig |}).
  assert (jwt_valid jwt') as Hv by (split_and!; [done|by left|done|by destruct Hc]).
  assert (JwsHeader_ok (Jwt_Header jwt')) as Hh by by split.
  destruct (Jwt_roundtrip jwt' Jwt_zero Hv Hh Hc) as (body' & Hb' & Hun).
  assert (body' = body) as -> by (change (Jwt_MarshalBody jwt') with (Jwt_MarshalBody jwt) in Hb'; congruence).
  apply Verify_iff. exists jwt', body, vk. split_and!; [|done|done].
  split_and!; [done|by apply Hun|apply Ht|apply Ht|done..|]. by eapply Hpair.
Qed.

(** ** The stores keep the promises of the interface *)
Definition keystore_ok (h : heap) (s : TrustKeyStoreImpl) : Prop :=
  ∀ i k l, stored s i k = Some l → ∃ j, h !! l = Some j ∧ Jwk_Kid j = k ∧ first_cert j.

Lemma vk_wf_no_panic vk operation data signature : vk_wf vk → VerificationKey_Verify vk operation data signature ≠ Panic.
Proof. intros Hw. by destruct (VerificationKey_Verify_total vk operation data signature Hw) as [b ->]. Qed.

Lemma trusted_stored s i k l : trusted s i k = Some l → stored s i k = Some l.
Proof. unfold trusted. by destruct (is_revoked s i k). Qed.

Lemma keystore_ok_set h h' s l : changes_only l h h' → keystore_ok h s → keystore_ok h' s.
Proof.
  intros [Ho Hl] Hok i k l' Hst. destruct (Hok _ _ _ Hst) as (j & Hj & Hk & Hc).
  destruct (decide (l' = l)) as [->|Hn]; [|exists j; by rewrite Ho].
  destruct (Hl j Hj) as (ops & alg & Hj'). eexists. split; [exact Hj'|]. split; [by destruct j|]. intros c.
  replace (KeyX5C (Jwk_fields (Jwk_SetOps ops (Jwk_SetAlg alg j)))) with (KeyX5C (Jwk_fields j)) by by destruct j. apply Hc.
Qed.

(** The key store, as long as the JWKs it holds keep their identifiers. *)
#[export] Instance TrustKeyStoreImpl_laws : TrustStoreLaws TrustKeyStoreImpl.
Proof.
  apply (Build_TrustStoreLaws _ _ keystore_ok).
  - intros h s issuer kid vk s' h' Hok Hg. unfold TrustStore_Get, TrustKeyStoreImpl_TrustStore in Hg. rewrite Get_refines in Hg.
    destruct (trusted s issuer kid) as [l|] eqn:Et; [|done]. destruct (Hok _ _ _ (trusted_stored _ _ _ _ Et)) as (j & Hj & <- & _).
    pose proof (NewVerificationKey_heap h l) as Hc. destruct (NewVerificationKey h l) as [r h1] eqn:En.
    destruct r as [vk'| |]; try done. injection Hg as <- <- <-.
    assert (fst (NewVerificationKey h l) = Ok vk') as Hvk by by rewrite En.
    apply (NewVerificationKey_spec _ _ _ _ Hj) in Hvk as [_ Hw]. by eapply vk_Kid.
  - intros h s issuer kid vk s' h' Hok Hg. unfold TrustStore_Get, TrustKeyStoreImpl_TrustStore in Hg. rewrite Get_refines in Hg.
    destruct (trusted s issuer kid) as [l|] eqn:Et; [|done]. destruct (Hok _ _ _ (trusted_stored _ _ _ _ Et)) as (j & Hj & _ & _).
    destruct (NewVerificationKey h l) as [r h1] eqn:En. destruct r as [vk'| |]; try done. injection Hg as <- <- <-.
    assert (fst (NewVerificationKey h l) = Ok vk') as Hvk by by rewrite En.
    apply (NewVerificationKey_spec _ _ _ _ Hj) in Hvk as [_ Hw]. intros *. by eapply vk_wf_no_panic, verifies_with_wf.
  - intros h s issuer kid r s' h' Hok Hg. unfold TrustStore_Get, TrustKeyStoreImpl_TrustStore in Hg. rewrite Get_refines in Hg.
    destruct (trusted s issuer kid) as [l|]; [|by injection Hg as _ <- <-].
    pose proof (NewVerificationKey_heap h l) as Hc. destruct (NewVerificationKey h l) as [r' h1]. injection Hg as _ <- <-.
    by eapply keystore_ok_set.
  - intros h s issuer kid s' h' Hok Hg. unfold TrustStore_Get, TrustKeyStoreImpl_TrustStore in Hg. rewrite Get_refines in Hg.
    destruct (trusted s issuer kid) as [l|] eqn:Et; [|done]. destruct (Hok _ _ _ (trusted_stored _ _ _ _ Et)) as (j & Hj & _ & Hc).
    pose proof (NewVerificationKey_no_panic h l j Hj Hc) as Hn. destruct (NewVerificationKey h l) as [[]]; by try injection Hg.
Defined.

(** The JWKS store, as long as its cached keys are live and fit their algorithms. *)
Definition jwks_ok (h : heap) (s : JwksEnv) : Prop :=
  store_live h (env_store s) ∧ Forall vk_wf (jwks_keys (env_store s)).

Lemma JwksTrustStore_Get_wf h s now outcome issuer kid r s' h' : Forall vk_wf (jwks_keys s) →
  JwksTrustStore_Get h s now outcome issuer kid = (r, s', h') → Forall vk_wf (jwks_keys s').
Proof.
  intros Hw. unfold JwksTrustStore_Get. destruct (knownIssuer s issuer) as [b s0] eqn:Hk.
  assert (Forall vk_wf (jwks_keys s0)) as Hw0. { unfold knownIssuer in Hk. injection Hk as _ <-. by destruct (_ =? 0)%N. }
  destruct (negb b); [by intros [= _ <- _]|]. destruct (lookup_kid _ _ _ _); [by intros [= _ <- _]|].
  destruct (lookup_kid _ _ _ _); [by intros [= _ <- _]|].
  destruct (refresh _ _ _ _ _) as [[r0 s1] h1] eqn:Er.
  destruct (refresh_spec _ _ _ _ _ _ _ _ Er) as (_ & _ & _ & Hr).
  assert (Forall vk_wf (jwks_keys s1)) as Hw1.
  { destruct r0; [|destruct Hr as [_ ->]; done..]. destruct Hr as (_ & body & t & jwks & _ & _ & _ & Hf). clear -Hf.
    induction Hf as [|j vk js vks (l & _ & Hv & _) _ IH]; constructor; [by eapply verifies_with_wf|done]. }
  destruct r0; [|by intros [= _ <- _]..]. destruct (lookup_kid _ _ _ _); by intros [= _ <- _].
Qed.

#[export] Instance JwksEnv_laws : TrustStoreLaws JwksEnv.
Proof.
  apply (Build_TrustStoreLaws _ _ jwks_ok); unfold TrustStore_Get, JwksTrustStore_TrustStore.
  - intros h s issuer kid vk s' h' _ Hg. destruct (JwksTrustStore_Get _ _ _ _ _ _) as [[r s1] h1] eqn:E.
    injection Hg as -> <- <-. by apply JwksTrustStore_Get_key in E as (_ & ? & _).
  - intros h s issuer kid vk s' h' [_ Hw] Hg. destruct (JwksTrustStore_Get _ _ _ _ _ _) as [[r s1] h1] eqn:E.
    injection Hg as -> <- <-. pose proof (JwksTrustStore_Get_wf _ _ _ _ _ _ _ _ _ Hw E) as Hw1.
    apply JwksTrustStore_Get_key in E as (_ & _ & Hin & _). rewrite list.Forall_forall in Hw1.
    intros *. by apply vk_wf_no_panic, Hw1.
  - intros h s issuer kid r s' h' [Hl Hw] Hg.
    pose proof (JwksTrustStore_Get_no_panic h (env_store s) (env_now s) (env_outcome s) issuer kid Hl) as Hn.
    destruct (JwksTrustStore_Get _ _ _ _ _ _) as [[r1 s1] h1] eqn:E. injection Hg as _ <- <-.
    split; [apply Hn|]. by eapply JwksTrustStore_Get_wf.
  - intros h s issuer kid s' h' [Hl _] Hg.
    pose proof (JwksTrustStore_Get_no_panic h (env_store s) (env_now s) (env_outcome s) issuer kid Hl) as Hn.
    destruct (JwksTrustStore_Get _ _ _ _ _ _) as [[r1 s1] h1] eqn:E. destruct Hn. injection Hg. done.
Defined.
(** ** The whole way: a signing key, its public JWK in a trust store, a token *)
(** The key that a store makes of a JWK is the one that any other place makes of it,
    up to where the JWK is. *)
Lemma verifies_with_moved jwk l l' vk : verifies_with jwk l vk → ∃ vk', verifies_with jwk l' vk' ∧
  VerificationKey_Algorithm vk' = VerificationKey_Algorithm vk ∧
  ∀ operation data signature, VerificationKey_Verify vk' operation data signature = VerificationKey_Verify vk operation data signature.
Proof.
  destruct jwk as [v|v|v|v|v], vk as [k|k]; try done.
  - intros (j & Hf & Ha & Hs & ->). eexists (VKRsa _). split; [by exists j|done].
  - intros (c & Hc & ->). eexists (VKEc _). split; [by exists c|done].
Qed.

(** What anybody makes of the public JWK of a signing key fits the key. *)
Lemma public_half `{!EcdsaLaws} h l jwk required sk vk0 h0 pub :
  h !! l = Some jwk → NewSigningKey h l required = Ok sk → (∀ key, loads_private jwk (SignerECDSA key) → ec_pair key) →
  SigningKey_Verifier h sk = (Ok vk0, h0) → PublicFromPrivate jwk = Ok pub →
  SigningKey_Kid h sk = Ok (Jwk_Kid jwk) ∧ Jwk_Kid pub = Jwk_Kid jwk ∧ utf8 (SigningKey_Algorithm sk) = true ∧
  (Jwk_Ops pub = [] ∨ KeyOpsVerify ∈ Jwk_Ops pub) ∧ (∃ l' vk, verifies_with pub l' vk) ∧
  ∀ lp vk, verifies_with pub lp vk → key_pair sk vk.
Proof.
  intros Hl Hsk Hpair Hv Hpub. pose proof Hsk as (Hop & _ & Hopts & key & Hkey & ->)%(NewSigningKey_spec _ _ _ _ _ Hl).
  assert (verifier_for h l = (Ok vk0, h0)) as Hvf by by destruct jwk.
  destruct (verifier_for_spec _ _ _ _ _ Hl Hopts Hop Hvf) as [[Hva _] _].
  unfold verifier_for, deref in Hvf. rewrite Hl in Hvf. cbn [mbind res_bind] in Hvf. rewrite Hpub in Hvf. unfold alloc in Hvf.
  pose proof (λ vk, NewVerificationKey_spec _ (new_ref h) _ vk (lookup_insert_eq h (new_ref h) pub)) as Hmade.
  rewrite Hvf in Hmade. cbn [fst] in Hmade. destruct (proj1 (Hmade vk0) eq_refl) as [Hallow Hw].
  apply PublicFromPrivate_inv in Hpub as (_ & _ & (_ & _ & Hpk)%Jwk_of_fields). cbn in Hpk. split_and!.
  - destruct jwk; cbn; unfold SigningKeyImpl_Kid, ECDSASigningKey_Kid, deref; cbn; by rewrite Hl.
  - done.
  - apply known_alg_utf8 in Hopts. by destruct jwk.
  - done.
  - by exists (new_ref h), vk0.
  - intros lp vk (vk' & Hw' & Halg & Hver)%(verifies_with_moved _ _ (new_ref h)).
    assert (vk' = vk0) as -> by (pose proof (proj2 (Hmade vk') (conj Hallow Hw')) as E; by injection E as ->).
    split; [rewrite <- Halg, Hva; by destruct jwk|]. intros rand' data sig Hsig. rewrite <- Hver.
    apply (sign_verify h l jwk required _ rand' data sig vk0 h0 Hl Hsk Hpair Hsig Hv).
Qed.

(** C1. A token signed with a loaded signing key is accepted by every verifier whose
    store trusts the public JWK of that key under the issuer's name: the answer is
    the key's identifier and the claims as they were issued.  The token must be
    within the size bound, within its time frame, and for an expected audience; for
    an EC key the public point in the JWK must be that of the private scalar. *)
Theorem issued_token_accepted `{!EcdsaLaws} {V} (json_Marshal : V → result json)
    h l jwk required sk vk0 h0 pub rand iat uuid issuer claims untyped encoded token hv s lp now audience :
  h !! l = Some jwk → NewSigningKey h l required = Ok sk → (∀ key, loads_private jwk (SignerECDSA key) → ec_pair key) →
  SigningKey_Verifier h sk = (Ok vk0, h0) → PublicFromPrivate jwk = Ok pub →
  JwtSignerImpl_Sign json_Marshal h rand iat uuid (NewJwtSigner issuer sk) (Some claims) untyped = Ok token →
  encode_untyped json_Marshal (map_to_list untyped) = Ok encoded → claims_ok (issued_claims issuer iat uuid claims encoded) →
  Jwk_Kid jwk ≠ "" → utf8 (Jwk_Kid jwk) = true → (slen token <= MaxCompactSize)%N →
  (NotBefore claims <= now < Expiration claims)%Z → (∃ a, a ∈ audience ∧ a ∈ default [] (Aud claims)) →
  trusted s issuer (Jwk_Kid jwk) = Some lp → hv !! lp = Some pub →
  ∃ h', JwtVerifierImpl_Verify hv s now token audience = (Ok (Jwk_Kid jwk, issued_claims issuer iat uuid claims encoded), s, h').
Proof.
  intros Hl Hsk Hpair Hv Hpub Hs Hu Hc Hk0 Hk8 Hsz Ht Ha Htr Hlp.
  destruct (public_half _ _ _ _ _ _ _ _ Hl Hsk Hpair Hv Hpub) as (Hkid & Hpk & Ha8 & Hallow & (l' & vk' & Hw') & Hkp).
  destruct (verifies_with_moved _ _ lp _ Hw') as (vk & Hw & _). pose proof (proj2 (NewVerificationKey_spec _ _ _ vk Hlp) (conj Hallow Hw)) as Hnew.
  pose proof (NewVerificationKey_heap hv lp) as Hch. destruct (NewVerificationKey hv lp) as [r h'] eqn:En. cbn [fst snd] in Hnew, Hch. subst r.
  exists h'. eapply (issued_accepted json_Marshal h rand iat uuid (NewJwtSigner issuer sk)); try done.
  - unfold TrustStore_Get, TrustKeyStoreImpl_TrustStore. rewrite Get_refines. cbn [Signer_issuer NewJwtSigner]. rewrite Htr, En. done.
  - by eapply Hkp.
  - rewrite <- Hpk. by eapply vk_Kid.
Qed.
End jwt.
