(* ===== verification/ServedKeys.v ===== *)
(** Key sets that are served: a server that publishes JWKs as a JWKS document, and a
    store of [JwksTrustStore] that has not fetched it yet.  What the store answers is
    what the server publishes. *)

From S2P Require Import Prelude Errors Base64 Json JsonFacts JsonCodec Types Crypto Jwk JwkFacts Jws JwsFacts Helpers HelpersFacts Keys KeysFacts KeyStore KeyStoreFacts JwksTrustStore JwksTrustStoreFacts JwtSigner JwtFacts.

Section served.
Context `{X509, Digests, Rsa, Ecdsa, Signers}.

(** ** The document *)
Fixpoint marshal_all (js : list Jwk) : result (list bytes) :=
  match js with
  | [] => Ok []
  | j :: js => doc ← Jwk_MarshalJSON j; docs ← marshal_all js; Ok (doc :: docs)
  end.

(** The object with the one member [keys], the list of the documents. *)
Definition jwks_doc (docs : list bytes) : bytes :=
  "{"%byte :: (quoted (quote (s2b "keys")) ++ ":"%byte :: "["%byte :: join_with [","%byte] docs ++ ["]"%byte]) ++ ["}"%byte].
Definition publish (js : list Jwk) : result bytes := jwks_doc <$> marshal_all js.

Lemma jwks_doc_tree ts : jwks_doc (map json_print ts) = json_print (JObj (member "keys" (JArr ts))).
Proof. reflexivity. Qed.

Lemma join_elem_length {A} (c : A) x ls : x ∈ ls → length x <= length (join_with [c] ls).
Proof.
  induction ls as [|l ls IH]; [by intros ?%elem_of_nil|]. intros [->|Hx]%elem_of_cons.
  - destruct ls; [done|]. rewrite join_with_cons, length_app. lia.
  - destruct ls as [|l' ls]; [by apply elem_of_nil in Hx|]. rewrite join_with_cons, !length_app. specialize (IH Hx). lia.
Qed.

Lemma jwks_doc_elem docs x : x ∈ docs → (len x <= len (jwks_doc docs))%N.
Proof.
  intros Hx%(join_elem_length ","%byte). unfold jwks_doc, len. cbn [length]. rewrite !length_app. cbn [length]. rewrite length_app. lia.
Qed.

(** What stands for a JWK in the document is read as the JWK. *)
Definition published (j : Jwk) (t : json) : Prop :=
  json_wf t = true ∧ (json_depth t <= 2)%N ∧ ((len (json_print t) <= MaxJwksSize)%N → UnmarshalJwk (json_print t) = Ok j).

Lemma marshal_all_trees js : Forall Jwk_ok js → ∃ ts, marshal_all js = Ok (map json_print ts) ∧ Forall2 published js ts.
Proof.
  induction 1 as [|j js Hj _ (ts & Hts & Hf)]; [by exists []|]. destruct (MarshalJSON_doc j Hj) as (ms & Hms & Hm & Hr).
  exists (JObj ms :: ts). cbn [marshal_all]. rewrite Hm, Hts. split; [done|]. constructor; [|done].
  split_and!; [by eapply members_ok_wf|exact (members_ok_depth 1 ms Hms)|done].
Qed.

Lemma Jwks_append_published js ts js0 : Forall2 published js ts → Forall (λ t, (len (json_print t) <= MaxJwksSize)%N) ts →
  Jwks_append (map Some ts) js0 = Ok (js0 ++ js).
Proof.
  intros Hf. revert js0. induction Hf as [|j t js ts (_ & _ & Hr) _ IH]; intros js0 Hl; [by rewrite app_nil_r|].
  apply list.Forall_cons in Hl as [Ht Hl]. cbn [map Jwks_append raw_bytes]. rewrite Hr by done. cbn [mbind res_bind].
  rewrite IH by done. by rewrite <- app_assoc.
Qed.

Lemma published_tree js ts : Forall2 published js ts → let m := member "keys" (JArr ts) in members_ok 3 m.
Proof.
  intros Hf m. constructor; [|done]. cbn [fst snd]. split_and!; [by vm_compute|..].
  - cbn [json_wf]. apply forallb_forall. intros t Ht%list_elem_of_In. by apply list_elem_of_lookup in Ht as (i & (j & _ & (? & _))%(Forall2_lookup_r _ _ _ _ _ Hf)).
  - cbn [json_depth]. enough (fold_right N.max 0%N (map json_depth ts) <= 2)%N by lia.
    clear m. induction Hf as [|j t js ts (_ & Hd & _) _ IH]; cbn [map fold_right]; lia.
Qed.

(** Well-formed JWKs are published as a document that reads as those JWKs. *)
Lemma publish_reads js : Forall Jwk_ok js →
  ∃ t, publish js = Ok (json_print t) ∧ json_wf t = true ∧ (json_depth t <= maxNestingDepth)%N ∧
    ((len (json_print t) <= MaxJwksSize)%N → Jwks_UnmarshalJSON (json_print t) [] = Ok js).
Proof.
  intros (ts & Hts & Hf)%marshal_all_trees. pose proof (published_tree _ _ Hf) as Hm. cbn zeta in Hm.
  exists (JObj (member "keys" (JArr ts))). unfold publish. rewrite Hts. cbn [fmap res_fmap]. rewrite jwks_doc_tree.
  split_and!; [done|by eapply members_ok_wf|etrans; [exact (members_ok_depth _ _ Hm)|by vm_compute]|]. intros Hl.
  unfold Jwks_UnmarshalJSON. destruct (N.ltb_spec MaxJwksSize (len (json_print (JObj (member "keys" (JArr ts)))))); [lia|].
  rewrite (unmarshal_obj _ 3) by (done || by vm_compute).
  cbn [dec_struct]. rewrite (dec_member _ "keys" _ _ (map Some ts) (field_at "keys" (λ s, s) (λ v _, v) (dec_vec dec_raw None)).2).
  - cbn [finish done_with mbind res_bind]. apply (Jwks_append_published js ts []); [done|]. apply list.Forall_forall. intros t Ht.
    pose proof (jwks_doc_elem (map json_print ts) (json_print t) (list_elem_of_fmap_2 json_print _ _ Ht)) as He. rewrite jwks_doc_tree in He. lia.
  - find_name.
  - cbn [field_at snd]. rewrite <- (map_id ts) at 1. by rewrite (dec_vec_map dec_raw None (λ t, t) Some) by by apply list.Forall_forall.
Qed.

(** ** Loading it *)
(** What a verification key can be made of. *)
Definition verifies (j : Jwk) : Prop := (Jwk_Ops j = [] ∨ KeyOpsVerify ∈ Jwk_Ops j) ∧ ∃ l vk, verifies_with j l vk.

Lemma load_jwks_verifies js : Forall verifies js → ∀ h, ∃ ks h', load_jwks h js = (Ok ks, h') ∧ Forall2 (made_of h') js ks.
Proof.
  intros Hv h. enough (∃ ks h', load_jwks h js = (Ok ks, h')) as (ks & h' & Hl).
  { exists ks, h'. split; [done|]. by apply (load_jwks_spec _ _ _ _ Hl). }
  revert h. induction Hv as [|j js (Hops & l & vk & Hw) _ IH]; intros h; [by exists [], h|]. cbn [load_jwks alloc].
  destruct (verifies_with_moved _ _ (new_ref h) _ Hw) as (vk' & Hw' & _).
  pose proof (proj2 (NewVerificationKey_spec _ _ _ vk' (lookup_insert_eq h (new_ref h) j)) (conj Hops Hw')) as Hn. unfold alloc.
  destruct (NewVerificationKey _ _) as [r h1]. cbn in Hn. subst r. destruct (IH h1) as (ks & h2 & ->). by eexists _, _.
Qed.

(** The first key with an identifier is found under it. *)
Lemma find_key_first h js1 j js2 ks : Forall2 (made_of h) (js1 ++ j :: js2) ks → Forall (λ j', Jwk_Kid j' ≠ Jwk_Kid j) js1 →
  ∃ vk, find_key h ks (Jwk_Kid j) = Ok (Some vk) ∧ made_of h j vk.
Proof.
  revert ks. induction js1 as [|j1 js1 IH]; intros ks Hf Hn; inversion Hf as [|? vk ? ks' Hm Hf' E1 E2]; subst.
  - exists vk. cbn. pose proof Hm as (_ & _ & _ & ->). cbn. by rewrite bool_decide_true.
  - apply list.Forall_cons in Hn as [Hj1 Hn]. cbn. destruct Hm as (_ & _ & _ & ->). cbn. rewrite bool_decide_false by done. by apply IH.
Qed.

(** A store that has not fetched anything finds, with one fetch, the keys that are
    published, if it believes what it fetched until its last reading of the clock. *)
Lemma cold_Get (h : heap) s (now : nat → time) js1 j js2 body issuer :
  jwks_keys s = [] → lastAttempt s = 0%Z → fst (knownIssuer s issuer) = true →
  Forall Jwk_ok (js1 ++ j :: js2) → Forall verifies (js1 ++ j :: js2) → Forall (λ j', Jwk_Kid j' ≠ Jwk_Kid j) js1 →
  publish (js1 ++ j :: js2) = Ok body → (len body <= maxJwksBytes)%N →
  now 3 ≠ 0%Z → (refreshInterval s = 0 ∨ (0 <= refreshInterval s ∧ now 4%nat - now 3%nat <= refreshInterval s))%Z →
  ∃ vk s' h', JwksTrustStore_Get h s now (Response StatusOK body) issuer (Jwk_Kid j) = (Ok (Some vk), s', h') ∧ made_of h' j vk.
Proof.
  intros Hk Ha Hi Hok Hv Hf Hp Hl Hz Hr. destruct (publish_reads _ Hok) as (t & Hp' & Hwf & Hd & Hread). rewrite Hp in Hp'. injection Hp' as ->.
  destruct (load_jwks_verifies _ Hv h) as (ks & h' & Hload & Hm). destruct (find_key_first _ _ _ _ _ Hm Hf) as (vk & Hfind & Hvk).
  unfold JwksTrustStore_Get. destruct (knownIssuer s issuer) as [b s0] eqn:Ek. cbn in Hi. subst b. cbn [negb].
  assert (jwks_keys s0 = [] ∧ lastAttempt s0 = 0%Z ∧ refreshInterval s0 = refreshInterval s) as (Hk0 & Ha0 & Hr0).
  { unfold knownIssuer in Ek. injection Ek as _ <-. by destruct (_ =? 0)%N. }
  assert (∀ i, lookup_kid h s0 (now i) (Jwk_Kid j) = NeedFetch) as Hlk.
  { intros i. unfold lookup_kid, coolingDown_at. by rewrite Hk0, Ha0. }
  rewrite !Hlk. unfold refresh, fetch_keys. cbn [negb Z.eqb StatusOK Pos.eqb]. rewrite takeN_all, json_parse_first_print by done.
  rewrite Hread, Hload by done. unfold lookup_kid at 1. cbn [jwks_keys set_keys]. rewrite Hfind.
  assert (fresh_at (set_keys ks (now 3) (set_lastAttempt (now 2) s0)) (now 4) = true) as ->.
  { unfold fresh_at, Time_IsZero, Time_Sub. cbn [fetchedAt refreshInterval set_keys set_lastAttempt]. rewrite Hr0.
    unfold MaxInt64, MinInt64 in *. lia. }
  by eexists _, _, _.
Qed.
(** ** From the issuer's key to a verifier that only knows where the issuer publishes *)
(** A token signed with a loaded signing key is accepted by a verifier whose store has
    fetched nothing yet, if the server answers with a set of well-formed JWKs that
    verify, the public JWK of the key being the first under its identifier: one fetch
    is made, and the answer is the key's identifier and the claims as they were issued. *)
Theorem served_token_accepted `{!EcdsaLaws} {V} (json_Marshal : V → result json)
    h l jwk required sk vk0 h0 pub rand iat uuid issuer claims untyped encoded token
    (hv : heap) s (clock : nat → time) js1 js2 body now audience :
  h !! l = Some jwk → NewSigningKey h l required = Ok sk → (∀ key, loads_private jwk (SignerECDSA key) → ec_pair key) →
  SigningKey_Verifier h sk = (Ok vk0, h0) → PublicFromPrivate jwk = Ok pub →
  JwtSignerImpl_Sign json_Marshal h rand iat uuid (NewJwtSigner issuer sk) (Some claims) untyped = Ok token →
  encode_untyped json_Marshal (map_to_list untyped) = Ok encoded → claims_ok (issued_claims issuer iat uuid claims encoded) →
  Jwk_Kid jwk ≠ "" → utf8 (Jwk_Kid jwk) = true → (slen token <= MaxCompactSize)%N →
  (NotBefore claims <= now < Expiration claims)%Z → (∃ a, a ∈ audience ∧ a ∈ default [] (Aud claims)) →
  publish (js1 ++ pub :: js2) = Ok body → (len body <= maxJwksBytes)%N →
  Forall Jwk_ok (js1 ++ pub :: js2) → Forall verifies (js1 ++ js2) → Forall (λ j, Jwk_Kid j ≠ Jwk_Kid pub) js1 →
  jwks_keys s = [] → lastAttempt s = 0%Z → fst (knownIssuer s issuer) = true → clock 3 ≠ 0%Z →
  (refreshInterval s = 0 ∨ (0 <= refreshInterval s ∧ clock 4%nat - clock 3%nat <= refreshInterval s))%Z →
  ∃ s' h', JwtVerifierImpl_Verify hv {| env_store := s; env_now := clock; env_outcome := Response StatusOK body |} now token audience =
    (Ok (Jwk_Kid jwk, issued_claims issuer iat uuid claims encoded), s', h').
Proof.
  intros Hl Hsk Hpair Hv Hpub Hs Hu Hc Hk0 Hk8 Hsz Ht Ha Hp Hb Hok Hvs Hf Hks Hla Hi Hz Hr.
  destruct (public_half _ _ _ _ _ _ _ _ Hl Hsk Hpair Hv Hpub) as (Hkid & Hpk & Ha8 & Hallow & Hw & Hkp).
  assert (Forall verifies (js1 ++ pub :: js2)) as Hall by (apply Forall_app in Hvs as [? ?]; apply Forall_app; split; [done|by constructor]).
  destruct (cold_Get hv s clock js1 pub js2 body issuer Hks Hla Hi Hok Hall Hf Hp Hb Hz Hr) as (vk & s' & h' & Hget & lp & _ & Hvk & Hvkid).
  rewrite Hpk in Hget, Hvkid. eexists _, h'. eapply (issued_accepted json_Marshal h rand iat uuid (NewJwtSigner issuer sk)); try done.
  - unfold TrustStore_Get, JwksTrustStore_TrustStore. cbn [env_store env_now env_outcome Signer_issuer NewJwtSigner]. by rewrite Hget.
  - by eapply Hkp.
Qed.
End served.
