(* ===== verification/ServedStore.v ===== *)
(** What a store of [JwksTrustStore] promises to those who ask it, said without documents,
    memory or key objects: [spec_Get], over the set of JWKs that the store holds.  The
    store implements it along every sequence of calls; so a key is trusted while the
    server publishes it, and not for longer than the refresh interval after that. *)

From S2P Require Import Prelude Errors Base64 Json JsonFacts JsonCodec Types Crypto Jwk JwkFacts Jws JwsFacts Helpers HelpersFacts Keys KeysFacts KeyStore KeyStoreFacts JwksTrustStore JwksTrustStoreFacts JwtSigner JwtFacts ServedKeys.

(** ** The specification *)
Record spec_store := {
  vouched : list string;   (** the issuers it answers for *)
  trust_for : Z;           (** how long a set is trusted; 0 is for ever *)
  retry_after : Z;
  held : list Jwk;
  held_at : time;          (** when it was fetched; 0 is never *)
  tried_at : time;
}.
Definition tried (t : time) (a : spec_store) : spec_store :=
  {| vouched := vouched a; trust_for := trust_for a; retry_after := retry_after a; held := held a; held_at := held_at a; tried_at := t |}.
Definition hold (js : list Jwk) (t : time) (a : spec_store) : spec_store :=
  {| vouched := vouched a; trust_for := trust_for a; retry_after := retry_after a; held := js; held_at := t; tried_at := tried_at a |}.

Definition trusted (a : spec_store) (t : time) : bool :=
  negb (held_at a =? 0)%Z && ((trust_for a =? 0) || (t - held_at a <=? trust_for a))%Z.
Definition waiting (a : spec_store) (t : time) : bool := negb (tried_at a =? 0)%Z && (t - tried_at a <? retry_after a)%Z.

Inductive answer := Unknown | Key (j : Jwk) | Stale | FetchFailed.

Fixpoint first_with (js : list Jwk) (kid : string) : option Jwk :=
  match js with
  | [] => None
  | j :: js => if bool_decide (Jwk_Kid j = kid) then Some j else first_with js kid
  end.

(** The answer without a fetch, if there is one. *)
Definition spec_answer (a : spec_store) (t : time) (kid : string) : option answer :=
  match first_with (held a) kid with
  | Some j => if trusted a t then Some (Key j) else if waiting a t then Some Stale else None
  | None => if waiting a t then Some Unknown else None
  end.

(** The server publishes a set of keys, or does not answer with one that can be used. *)
Inductive server := Serves (js : list Jwk) | Down.

Definition spec_fetch (a : spec_store) (now : nat → time) (srv : server) (kid : string) : answer * spec_store :=
  let a := tried (now 2) a in
  match srv with
  | Down => (FetchFailed, a)
  | Serves js => let a := hold js (now 3) a in (default Unknown (spec_answer a (now 4) kid), a)
  end.

(** [now 0] and [now 1]: the cache is looked at twice before anything is fetched. *)
Definition spec_Get (a : spec_store) (now : nat → time) (srv : server) (issuer kid : string) : answer * spec_store :=
  if negb (bool_decide (issuer ∈ vouched a)) then (Unknown, a)
  else
    match spec_answer a (now 0) kid, spec_answer a (now 1) kid with
    | Some r, _ | None, Some r => (r, a)
    | None, None => spec_fetch a now srv kid
    end.

Section served.
Context `{X509, Digests, Rsa, Ecdsa, Signers}.

(** ** How the two correspond *)
Definition answers (h : heap) (r : result (option VerificationKey)) (ans : answer) : Prop :=
  match ans with
  | Unknown => r = Ok None
  | Key j => ∃ vk, r = Ok (Some vk) ∧ made_of h j vk
  | Stale => r = gose_err Gose.ErrJwksStale
  | FetchFailed => ∃ e, r = Err e ∧ e ≠ EGose Gose.ErrJwksStale
  end.

Record represents (h : heap) (s : JwksTrustStore) (a : spec_store) : Prop := {
  rep_issuers : Split (inputIssuers s) "," = vouched a;
  rep_listed : issuers s = [] ∨ issuers s = vouched a;
  rep_keys : Forall2 (made_of h) (held a) (jwks_keys s);
  rep_fetched : fetchedAt s = held_at a;
  rep_attempt : lastAttempt s = tried_at a;
  rep_refresh : refreshInterval s = trust_for a ∧ (0 <= trust_for a < MaxInt64)%Z;
  rep_retry : minRefreshInterval s = retry_after a ∧ (0 <= retry_after a <= MaxInt64)%Z;
}.

(** What the server does to a request: what counts is what the first mebibyte of a
    response with status 200 decodes to, and whether keys can be made of all of it. *)
Definition decodes_to (body : bytes) (js : list Jwk) : Prop :=
  ∃ t, json_parse_first (takeN maxJwksBytes body) = Some t ∧ Jwks_UnmarshalJSON (json_print t) [] = Ok js.

Inductive server_says : http_outcome → server → Prop :=
  | says_keys js body : decodes_to body js → Forall verifies js → server_says (Response StatusOK body) (Serves js)
  | says_unusable js body : decodes_to body js → ¬ Forall verifies js → server_says (Response StatusOK body) Down
  | says_garbage body : (∀ js, ¬ decodes_to body js) → server_says (Response StatusOK body) Down
  | says_status status body : status ≠ StatusOK → server_says (Response status body) Down
  | says_nothing : server_says DoFailed Down
  | says_no_request : server_says RequestFailed Down.

Lemma made_of_le h h' j vk : heap_le h h' → made_of h j vk → made_of h' j vk.
Proof.
  intros Hle Hm. pose proof (made_of_live _ _ _ Hm) as Hl. destruct Hm as (l & Ho & Hv & Hk). exists l. split_and!; [done|done|].
  by rewrite Kid_ref, Hle, <- Kid_ref.
Qed.

Lemma made_all_le h h' js ks : heap_le h h' → Forall2 (made_of h) js ks → Forall2 (made_of h') js ks.
Proof. intros Hle. apply Forall2_impl. intros j vk. by apply made_of_le. Qed.

Lemma answers_le h h' r ans : heap_le h h' → answers h r ans → answers h' r ans.
Proof. intros Hle. destruct ans; try done. intros (vk & Hr & Hm). exists vk. split; [done|by eapply made_of_le]. Qed.

Lemma represents_le h h' s a : heap_le h h' → represents h s a → represents h' s a.
Proof. intros Hle [? ? Hk ? ? ? ?]. split; try done. by eapply made_all_le. Qed.

(** A store that was just made holds nothing. *)
Lemma new_represents h issuers url refresh retry : (0 <= refresh < MaxInt64)%Z → (0 <= retry <= MaxInt64)%Z →
  represents h (NewJwksKeyStore issuers url [WithJwksRefreshInterval refresh; WithJwksMinRefreshInterval retry])
    {| vouched := Split issuers ","; trust_for := refresh; retry_after := retry; held := []; held_at := 0%Z; tried_at := 0%Z |}.
Proof. intros Hr Hm. split; cbn; try done; by left. Qed.

(** ** A lookup *)
Lemma find_key_first_with h js ks kid : Forall2 (made_of h) js ks →
  match first_with js kid with
  | Some j => ∃ vk, find_key h ks kid = Ok (Some vk) ∧ made_of h j vk
  | None => find_key h ks kid = Ok None
  end.
Proof.
  induction 1 as [|j vk js ks Hm _ IH]; [done|]. cbn. pose proof Hm as (_ & _ & _ & ->). cbn. case_bool_decide; [by exists vk|done].
Qed.

Lemma fresh_trusted h s a t : represents h s a → fresh_at s t = trusted a t.
Proof.
  intros [_ _ _ Hf _ [Hr Hb] _]. unfold fresh_at, trusted, Time_IsZero, Time_Sub. rewrite Hf, Hr.
  destruct (held_at a =? 0)%Z; [done|]. destruct (Z.eqb_spec (trust_for a) 0); [done|]. cbn [negb andb orb].
  apply eq_true_iff_eq. rewrite !Z.leb_le. unfold MaxInt64, MinInt64 in *. lia.
Qed.

Lemma cooling_waiting h s a t : represents h s a → coolingDown_at s t = waiting a t.
Proof.
  intros [_ _ _ _ Hl _ [Hr Hb]]. unfold coolingDown_at, waiting, Time_IsZero, Time_Sub. rewrite Hl, Hr.
  destruct (tried_at a =? 0)%Z; [done|]. cbn [negb andb]. apply eq_true_iff_eq. rewrite !Z.ltb_lt. unfold MaxInt64, MinInt64 in *. lia.
Qed.

Lemma lookup_answers h s a t kid : represents h s a →
  match spec_answer a t kid with
  | Some ans => ∃ r, lookup_kid h s t kid = Done r ∧ answers h r ans
  | None => lookup_kid h s t kid = NeedFetch
  end.
Proof.
  intros Hr. unfold lookup_kid, spec_answer. rewrite (fresh_trusted _ _ _ _ Hr), (cooling_waiting _ _ _ _ Hr).
  pose proof (find_key_first_with _ _ _ kid (rep_keys _ _ _ Hr)) as Hf. destruct (first_with (held a) kid) as [j|].
  - destruct Hf as (vk & -> & Hm). destruct (trusted a t); [|by destruct (waiting a t); [eexists|]].
    eexists. split; [done|]. by exists vk.
  - rewrite Hf. destruct (waiting a t); [by eexists|done].
Qed.

Lemma knownIssuer_vouched h s a issuer : represents h s a →
  ∃ s', knownIssuer s issuer = (bool_decide (issuer ∈ vouched a), s') ∧ represents h s' a.
Proof.
  intros [Hi Hl Hk Hf Ha Hr Hm].
  assert (∀ l, existsb (λ i, bool_decide (i = issuer)) l = bool_decide (issuer ∈ l)) as Hex.
  { intros l. apply eq_true_iff_eq. rewrite existsb_exists, bool_decide_eq_true. split.
    - intros (i & Hin & ->%bool_decide_eq_true). by apply list_elem_of_In.
    - intros Hin. exists issuer. split; [by apply list_elem_of_In|by apply bool_decide_eq_true]. }
  unfold knownIssuer. destruct (N.eqb_spec (len (issuers s)) 0) as [E|E].
  - eexists. rewrite Hex. cbn [issuers set_issuers]. rewrite Hi. split; [done|]. split; try done. by right.
  - exists s. rewrite Hex. destruct Hl as [Hl|Hl]; [by rewrite Hl in E|]. rewrite Hl. split; [done|]. split; try done. by right.
Qed.

(** ** A fetch *)
Lemma load_jwks_error h js e h' : load_jwks h js = (Err e, h') → e ≠ EGose Gose.ErrJwksStale.
Proof.
  revert h h'. induction js as [|j js IH]; intros h h'; cbn [load_jwks]; [done|]. destruct (alloc j h) as [l h1].
  destruct (NewVerificationKey h1 l) as [[vk|e'|] h2]; [|by intros [= <- _]|done].
  destruct (load_jwks h2 js) as [[ks|e'|] h3] eqn:El; intros [= <- <-]. by eapply IH.
Qed.

Lemma fetch_keys_error h outcome e h' : fetch_keys h outcome = (Err e, h') → e ≠ EGose Gose.ErrJwksStale.
Proof.
  unfold fetch_keys. destruct outcome as [| |status body]; [by intros [= <- _]..|]. destruct (negb _); [by intros [= <- _]|].
  destruct (json_parse_first _); [|by intros [= <- _]]. destruct (Jwks_UnmarshalJSON _ _); [|by intros [= <- _]|done].
  apply load_jwks_error.
Qed.

(** A document that decodes is fetched as the JWKs. *)
Lemma fetch_decoded h js body : decodes_to body js → fetch_keys h (Response StatusOK body) = load_jwks h js.
Proof. intros (t & Ht & Hj). unfold fetch_keys. cbn [negb Z.eqb StatusOK Pos.eqb]. by rewrite Ht, Hj. Qed.

Lemma fetch_garbage h body r h' : (∀ js, ¬ decodes_to body js) → fetch_keys h (Response StatusOK body) = (r, h') → ∀ ks, r ≠ Ok ks.
Proof. intros Hg Hf ks ->. destruct (fetch_keys_spec _ _ _ _ Hf) as (_ & _ & Hk). destruct (Hk ks eq_refl) as (b & t & js & [= <-] & Ht & Hj & _). by destruct (Hg js); exists t. Qed.

(** The document of a set of well-formed JWKs decodes to it. *)
Lemma publish_decodes js body : publish js = Ok body → (len body <= maxJwksBytes)%N → Forall Jwk_ok js → decodes_to body js.
Proof.
  intros Hp Hl Hok. destruct (publish_reads _ Hok) as (t & Hp' & Hwf & Hd & Hread). rewrite Hp in Hp'. injection Hp' as ->.
  exists t. rewrite takeN_all, json_parse_first_print by done. by split; [|apply Hread].
Qed.

Lemma made_verifies h js ks : Forall2 (made_of h) js ks → Forall verifies js.
Proof. induction 1 as [|j vk js ks (l & Ho & Hv & _) _ IH]; constructor; [split; [done|by exists l, vk]|done]. Qed.

Lemma fetch_keys_says h outcome srv : server_says outcome srv → let '(r, h') := fetch_keys h outcome in heap_le h h' ∧
  match srv with
  | Serves js => ∃ ks, r = Ok ks ∧ Forall2 (made_of h') js ks
  | Down => ∃ e, r = Err e ∧ e ≠ EGose Gose.ErrJwksStale
  end.
Proof.
  intros Hs. destruct (fetch_keys h outcome) as [r h'] eqn:Ef. destruct (fetch_keys_spec _ _ _ _ Ef) as (Hp & Hle & _). split; [done|].
  pose proof Ef as He. destruct Hs as [js body Hd Hv|js body Hd Hv|body Hg|status body Hst| |].
  - rewrite (fetch_decoded h js) in Ef by done. destruct (load_jwks_verifies _ Hv h) as (ks & h1 & Hload & Hm).
    rewrite Hload in Ef. injection Ef as <- <-. by exists ks.
  - rewrite (fetch_decoded h js) in Ef by done. destruct r as [ks|e|]; [|exists e; split; [done|by eapply fetch_keys_error]|done].
    destruct Hv. eapply made_verifies. by eapply (load_jwks_spec _ _ _ _ Ef).
  - destruct r as [ks|e|]; [by eapply fetch_garbage in Ef|exists e; split; [done|by eapply fetch_keys_error]|done].
  - unfold fetch_keys in Ef. destruct (Z.eqb_spec status StatusOK); [done|]. injection Ef as <- _. by eexists.
  - injection Ef as <- _. by eexists.
  - injection Ef as <- _. by eexists.
Qed.

(** Whatever happens to a request is one of these. *)
Lemma server_says_total outcome : ∃ srv, server_says outcome srv.
Proof.
  destruct outcome as [| |status body]; [by eexists; constructor..|]. destruct (decide (status = StatusOK)) as [->|]; [|by eexists; constructor].
  destruct (fetch_keys ∅ (Response StatusOK body)) as [r h'] eqn:Ef.
  destruct (json_parse_first (takeN maxJwksBytes body)) as [t|] eqn:Et; [|by exists Down; apply says_garbage; intros js (t & Ht & _); rewrite Et in Ht].
  destruct (Jwks_UnmarshalJSON (json_print t) []) as [js|e|] eqn:Ej.
  2,3: exists Down; apply says_garbage; intros js (t' & Ht & Hj); rewrite Et in Ht; injection Ht as <-; by rewrite Ej in Hj.
  assert (decodes_to body js) as Hd by by exists t. rewrite (fetch_decoded ∅ js) in Ef by done. destruct r as [ks|e|].
  - exists (Serves js). apply says_keys; [done|]. eapply made_verifies. by eapply (load_jwks_spec _ _ _ _ Ef).
  - exists Down. apply (says_unusable js); [done|]. intros Hv. destruct (load_jwks_verifies _ Hv ∅) as (ks & h1 & Hl & _). by rewrite Hl in Ef.
  - exists Down. apply (says_unusable js); [done|]. intros Hv. destruct (load_jwks_verifies _ Hv ∅) as (ks & h1 & Hl & _). by rewrite Hl in Ef.
Qed.

Lemma represents_tried h s a t : represents h s a → represents h (set_lastAttempt t s) (tried t a).
Proof. by intros []. Qed.

Lemma represents_hold h s a js ks t : represents h s a → Forall2 (made_of h) js ks → represents h (set_keys ks t s) (hold js t a).
Proof. by intros []. Qed.

Lemma refresh_fetches h s a t0 t1 outcome srv : represents h s a → server_says outcome srv →
  let '(r, s', h') := refresh h s t0 t1 outcome in heap_le h h' ∧
  match srv with
  | Serves js => r = Ok tt ∧ represents h' s' (hold js t1 (tried t0 a))
  | Down => (∃ e, r = Err e ∧ e ≠ EGose Gose.ErrJwksStale) ∧ represents h' s' (tried t0 a)
  end.
Proof.
  intros Hr Hs. pose proof (fetch_keys_says h _ _ Hs) as Hf. unfold refresh. destruct (fetch_keys h outcome) as [r h']. destruct Hf as [Hle Hf].
  apply (represents_le _ h' _ _ Hle), (represents_tried _ _ _ t0) in Hr. destruct srv as [js|].
  - destruct Hf as (ks & -> & Hm). split_and!; [done..|]. by apply represents_hold.
  - destruct Hf as (e & -> & He). split_and!; [done|by exists e|done].
Qed.

(** ** One call, and any number of them *)
Lemma Get_answers h s a now outcome srv issuer kid : represents h s a → server_says outcome srv →
  let '(r, s', h') := JwksTrustStore_Get h s now outcome issuer kid in
  let '(ans, a') := spec_Get a now srv issuer kid in
  heap_le h h' ∧ answers h' r ans ∧ represents h' s' a'.
Proof.
  intros Hr Hs. unfold JwksTrustStore_Get, spec_Get. destruct (knownIssuer_vouched _ _ _ issuer Hr) as (s0 & -> & Hr0).
  case_bool_decide; cbn [negb]; [|done].
  pose proof (lookup_answers _ _ _ (now 0) kid Hr0) as Hl0. destruct (spec_answer a (now 0) kid) as [ans|]; [by destruct Hl0 as (r & -> & Ha)|].
  pose proof (lookup_answers _ _ _ (now 1) kid Hr0) as Hl1. destruct (spec_answer a (now 1) kid) as [ans|]; [by destruct Hl1 as (r & -> & Ha); rewrite Hl0|].
  rewrite Hl0, Hl1. pose proof (refresh_fetches _ _ _ (now 2) (now 3) _ _ Hr0 Hs) as Hf. unfold spec_fetch.
  destruct (refresh h s0 (now 2) (now 3) outcome) as [[r s1] h1]. destruct Hf as [Hle Hf]. destruct srv as [js|].
  - destruct Hf as [-> Hr1]. pose proof (lookup_answers _ _ _ (now 4) kid Hr1) as Hl4.
    destruct (spec_answer _ (now 4) kid) as [ans|]; [by destruct Hl4 as (r & -> & Ha)|]. by rewrite Hl4.
  - destruct Hf as [(e & -> & He) Hr1]. split_and!; [done|by exists e|done].
Qed.

(** A call: when, of what, and what the server would say. *)
Record call := { c_now : nat → time; c_outcome : http_outcome; c_server : server; c_issuer : string; c_kid : string }.

Fixpoint Gets (h : heap) (s : JwksTrustStore) (calls : list call) : list (result (option VerificationKey)) * JwksTrustStore * heap :=
  match calls with
  | [] => ([], s, h)
  | c :: calls =>
    let '(r, s, h) := JwksTrustStore_Get h s (c_now c) (c_outcome c) (c_issuer c) (c_kid c) in
    let '(rs, s, h) := Gets h s calls in (r :: rs, s, h)
  end.
Fixpoint spec_Gets (a : spec_store) (calls : list call) : list answer * spec_store :=
  match calls with
  | [] => ([], a)
  | c :: calls =>
    let '(ans, a) := spec_Get a (c_now c) (c_server c) (c_issuer c) (c_kid c) in
    let '(anss, a) := spec_Gets a calls in (ans :: anss, a)
  end.

(** C5. Along every sequence of calls, whatever the clock and the server do, the store
    answers as specified over the JWKs that the server published: with a key made of the
    first JWK under the identifier, with nothing, with the error for a stale key, or with
    another error; and it is then in a state that the specification describes. *)
Theorem JwksTrustStore_refinement h s a calls : represents h s a → Forall (λ c, server_says (c_outcome c) (c_server c)) calls →
  let '(rs, s', h') := Gets h s calls in
  let '(anss, a') := spec_Gets a calls in
  heap_le h h' ∧ Forall2 (answers h') rs anss ∧ represents h' s' a'.
Proof.
  intros Hr Hc. revert h s a Hr. induction Hc as [|c calls Hc _ IH]; intros h s a Hr; cbn [Gets spec_Gets]; [by split_and!|].
  pose proof (Get_answers _ _ _ (c_now c) _ _ (c_issuer c) (c_kid c) Hr Hc) as Hg.
  destruct (JwksTrustStore_Get _ _ _ _ _ _) as [[r s1] h1], (spec_Get _ _ _ _ _) as [ans a1]. destruct Hg as (Hle & Ha & Hr1).
  specialize (IH _ _ _ Hr1). destruct (Gets h1 s1 calls) as [[rs s2] h2], (spec_Gets a1 calls) as [anss a2]. destruct IH as (Hle2 & Has & Hr2).
  split_and!; [by etrans|by constructor; [eapply answers_le|]|done].
Qed.

(** ** What a verifier accepts *)
Lemma env_Get_answers h env a srv issuer kid : represents h (env_store env) a → server_says (env_outcome env) srv →
  let '(r, env', h') := TrustStore_Get h env issuer kid in
  let '(ans, a') := spec_Get a (env_now env) srv issuer kid in
  answers h' r ans ∧ represents h' (env_store env') a'.
Proof.
  intros Hr Hs. unfold TrustStore_Get, JwksTrustStore_TrustStore.
  pose proof (Get_answers _ _ _ (env_now env) _ _ issuer kid Hr Hs) as Hg.
  destruct (JwksTrustStore_Get _ _ _ _ _ _) as [[r s'] h'], (spec_Get _ _ _ _ _) as [ans a']. by destruct Hg as (_ & ? & ?).
Qed.

(** An accepted token is signed under a key that the specification answers. *)
Lemma accepted_answered h env a srv now token audience kid claims env' h' :
  represents h (env_store env) a → server_says (env_outcome env) srv →
  JwtVerifierImpl_Verify h env now token audience = (Ok (kid, claims), env', h') →
  ∃ j a', spec_Get a (env_now env) srv (Issuer (AutoClaims claims)) kid = (Key j, a') ∧ represents h' (env_store env') a'.
Proof.
  intros Hr Hs (t & signed & vk & (_ & _ & _ & _ & _ & Hg & _) & Hk & ->)%Verify_iff.
  pose proof (env_Get_answers _ _ _ _ (Issuer (AutoClaims (Jwt_Claims t))) (Jws_Kid (Jwt_Header t)) Hr Hs) as Ha. rewrite Hg in Ha.
  destruct (spec_Get a (env_now env) srv (Issuer (AutoClaims (Jwt_Claims t))) (Jws_Kid (Jwt_Header t))) as [ans a'] eqn:Ea.
  destruct Ha as [Ha Hr']. destruct ans as [|j| |]; [done| |done|by destruct Ha as (? & ? & _)]. destruct Ha as (vk' & [= <-] & _).
  assert (Jws_Kid (Jwt_Header t) = kid) as <-.
  { unfold TrustStore_Get, JwksTrustStore_TrustStore in Hg. destruct (JwksTrustStore_Get _ _ _ _ _ _) as [[r s1] h1] eqn:Eg. injection Hg as -> _ <-.
    pose proof (JwksTrustStore_Get_key _ _ _ _ _ _ _ _ _ Eg) as (_ & Hk' & _). rewrite Hk in Hk'. by injection Hk'. }
  by exists j, a'.
Qed.

(** What a key is answered from: the set held, if it is still trusted, or one just fetched. *)
Lemma spec_Get_Key a now srv issuer kid j a' : spec_Get a now srv issuer kid = (Key j, a') →
  issuer ∈ vouched a ∧
  (a' = a ∧ first_with (held a) kid = Some j ∧ (trusted a (now 0) = true ∨ trusted a (now 1) = true) ∨
   ∃ js, srv = Serves js ∧ first_with js kid = Some j ∧ a' = hold js (now 3) (tried (now 2) a) ∧ trusted a' (now 4) = true).
Proof.
  assert (∀ a t, spec_answer a t kid = Some (Key j) → first_with (held a) kid = Some j ∧ trusted a t = true) as Hkey.
  { intros b t. unfold spec_answer. destruct (first_with _ _) as [j'|]; [|by destruct (waiting b t)].
    destruct (trusted b t); [by intros [= ->]|by destruct (waiting b t)]. }
  unfold spec_Get, spec_fetch. case_bool_decide as Hin; cbn [negb]; [|done]. intros Hg. split; [done|].
  destruct (spec_answer a (now 0) kid) as [ans|] eqn:E0; [injection Hg as -> <-; left; destruct (Hkey _ _ E0); by split_and!; [| |left]|].
  destruct (spec_answer a (now 1) kid) as [ans|] eqn:E1; [injection Hg as -> <-; left; destruct (Hkey _ _ E1); by split_and!; [| |right]|].
  destruct srv as [js|]; [|done]. right. exists js. destruct (spec_answer _ (now 4) kid) as [ans|] eqn:E4; [|done].
  injection Hg as -> <-. by destruct (Hkey _ _ E4).
Qed.

(** C6. Once the set it holds is no longer trusted, a verifier accepts no token under an
    identifier that the server does not publish any more, whoever signed it, and none at
    all while the server does not answer with a usable set. *)
Theorem withdrawn_key_rejected h env a srv now token audience kid claims env' h' :
  represents h (env_store env) a → server_says (env_outcome env) srv →
  trusted a (env_now env 0) = false → trusted a (env_now env 1) = false →
  match srv with Serves js => Forall (λ j, Jwk_Kid j ≠ kid) js | Down => True end →
  JwtVerifierImpl_Verify h env now token audience ≠ (Ok (kid, claims), env', h').
Proof.
  intros Hr Hs H0t H1t Hsrv Hv. destruct (accepted_answered _ _ _ _ _ _ _ _ _ _ _ Hr Hs Hv) as (j & a' & Hg & _).
  apply spec_Get_Key in Hg as (_ & [(_ & _ & [Ht|Ht])|(js & -> & Hf & _)]); [congruence..|].
  clear - Hsrv Hf. induction Hsrv as [|j' js Hj _ IH]; [done|]. cbn in Hf. rewrite bool_decide_false in Hf by done. by apply IH.
Qed.

Lemma published_accepted `{!EcdsaLaws} {V} (json_Marshal : V → result json)
    h l jwk required sk vk0 h0 pub rand iat uuid issuer claims untyped encoded token (hv : heap) env a srv a' now audience :
  h !! l = Some jwk → NewSigningKey h l required = Ok sk → (∀ key, loads_private jwk (SignerECDSA key) → ec_pair key) →
  SigningKey_Verifier h sk = (Ok vk0, h0) → PublicFromPrivate jwk = Ok pub →
  JwtSignerImpl_Sign json_Marshal h rand iat uuid (NewJwtSigner issuer sk) (Some claims) untyped = Ok token →
  encode_untyped json_Marshal (map_to_list untyped) = Ok encoded → claims_ok (issued_claims issuer iat uuid claims encoded) →
  Jwk_Kid jwk ≠ "" → utf8 (Jwk_Kid jwk) = true → (slen token <= MaxCompactSize)%N →
  (NotBefore claims <= now < Expiration claims)%Z → (∃ a, a ∈ audience ∧ a ∈ default [] (Aud claims)) →
  represents hv (env_store env) a → server_says (env_outcome env) srv →
  spec_Get a (env_now env) srv issuer (Jwk_Kid jwk) = (Key pub, a') →
  ∃ env' h', JwtVerifierImpl_Verify hv env now token audience = (Ok (Jwk_Kid jwk, issued_claims issuer iat uuid claims encoded), env', h') ∧
    represents h' (env_store env') a'.
Proof.
  intros Hl Hsk Hpair Hv Hpub Hs Hu Hc Hk0 Hk8 Hsz Ht Ha Hr Hsrv Hg.
  destruct (public_half _ _ _ _ _ _ _ _ Hl Hsk Hpair Hv Hpub) as (Hkid & Hpk & Ha8 & Hallow & Hw & Hkp).
  pose proof (env_Get_answers _ _ _ _ issuer (Jwk_Kid jwk) Hr Hsrv) as Hget. rewrite Hg in Hget.
  destruct (TrustStore_Get hv env issuer (Jwk_Kid jwk)) as [[r env'] h'] eqn:Et. destruct Hget as [(vk & -> & lp & _ & Hvk & Hvkid) Hr'].
  exists env', h'. split; [|done]. eapply (issued_accepted json_Marshal h rand iat uuid (NewJwtSigner issuer sk)); try done; [by eapply Hkp|congruence].
Qed.

(** C16. A token that a loaded key signed is accepted whenever the specification answers the
    public half of the key: from the set that is held, whatever the server would say, or
    from the one that it publishes now. *)
Theorem published_token_accepted `{!EcdsaLaws} {V} (json_Marshal : V → result json)
    h l jwk required sk vk0 h0 pub rand iat uuid issuer claims untyped encoded token (hv : heap) env a srv a' now audience :
  h !! l = Some jwk → NewSigningKey h l required = Ok sk → (∀ key, loads_private jwk (SignerECDSA key) → ec_pair key) →
  SigningKey_Verifier h sk = (Ok vk0, h0) → PublicFromPrivate jwk = Ok pub →
  JwtSignerImpl_Sign json_Marshal h rand iat uuid (NewJwtSigner issuer sk) (Some claims) untyped = Ok token →
  encode_untyped json_Marshal (map_to_list untyped) = Ok encoded → claims_ok (issued_claims issuer iat uuid claims encoded) →
  Jwk_Kid jwk ≠ "" → utf8 (Jwk_Kid jwk) = true → (slen token <= MaxCompactSize)%N →
  (NotBefore claims <= now < Expiration claims)%Z → (∃ a, a ∈ audience ∧ a ∈ default [] (Aud claims)) →
  represents hv (env_store env) a → server_says (env_outcome env) srv →
  spec_Get a (env_now env) srv issuer (Jwk_Kid jwk) = (Key pub, a') →
  ∃ env' h', JwtVerifierImpl_Verify hv env now token audience = (Ok (Jwk_Kid jwk, issued_claims issuer iat uuid claims encoded), env', h') ∧
    represents h' (env_store env') a'.
Proof. apply published_accepted. Qed.
End served.
