(* ===== verification/JwksConcurrent.v ===== *)
(** What concurrent calls of [JwksTrustStore.Get] may see: the keys of the last usable
    response of the server, never a mixture of two, and no panic, whatever it sends. *)

From S2P Require Import Prelude Errors Base64 Json JsonFacts JsonCodec Types Crypto Jwk JwkFacts Jws Helpers Keys KeysFacts JwksTrustStore JwksTrustStoreFacts ServedStore.

Section concurrent.
Context `{X509, Digests, Rsa, Ecdsa, Signers}.

(** ** The set that should be held *)
(** The JWKs of the last response from which keys could be made, in a record of what came
    of the requests, the last one first; none before the first such response. *)
Inductive published_last : list http_outcome → list Jwk → Prop :=
  | pl_nothing : published_last [] []
  | pl_usable o os js : server_says o (Serves js) → published_last (o :: os) js
  | pl_useless o os js : server_says o Down → published_last os js → published_last (o :: os) js.

(** The key was made of a JWK of one of the responses. *)
Definition of_response (h : heap) (os : list http_outcome) (vk : VerificationKey) : Prop :=
  ∃ o js jwk, o ∈ os ∧ server_says o (Serves js) ∧ jwk ∈ js ∧ imported jwk ∧ made_of h jwk vk.

Lemma server_says_imported o js : server_says o (Serves js) → Forall imported js.
Proof.
  inversion 1 as [js' body (t & _ & Hj) _ E1 E2| | | | |]; subst. destruct (Jwks_UnmarshalJSON_imported (json_print t) []) as [_ Hi].
  destruct (Hi _ Hj) as (_ & ks & -> & Himp). exact Himp.
Qed.

Lemma published_last_usable os js : published_last os js → js = [] ∨ ∃ o, o ∈ os ∧ server_says o (Serves js).
Proof.
  induction 1 as [|o os js Hs|o os js _ _ [->|(o' & Hin & Hs)]]; [by left|right; exists o; split; [apply list_elem_of_here|done]|by left|].
  right. exists o'. split; [by apply list_elem_of_further|done].
Qed.

(** ** The state of a run *)
Definition answer_ok (h : heap) (os : list http_outcome) (r : result (option VerificationKey)) : Prop :=
  r ≠ Panic ∧ ∀ vk, r = Ok (Some vk) → of_response h os vk.

Definition pc_ok (h : heap) (os : list http_outcome) (p : pc) : Prop :=
  match p with PUnlock r | PDone r => answer_ok h os r | _ => True end.

Definition installs (p : pc) : bool := match p with PInstall _ _ => true | _ => false end.

(** The JWKs of the keys that are held: those of the last usable response; or, while a
    call is about to install that one, those of the one before. *)
Definition up_to_date (s : jwks_state) (js : list Jwk) : Prop :=
  (published_last (st_responses s) js ∧ ∀ t p, st_calls s !! t = Some p → installs p = false) ∨
  ∃ t kid ks o os js', st_calls s !! t = Some (PInstall kid ks) ∧ st_responses s = o :: os ∧
    server_says o (Serves js') ∧ Forall2 (made_of (st_heap s)) js' ks ∧ published_last os js.

Record calls_ok (s : jwks_state) : Prop := {
  co_keys : ∃ js, Forall2 (made_of (st_heap s)) js (jwks_keys (st_store s)) ∧ up_to_date s js;
  co_owner t p : st_calls s !! t = Some p → holds p → st_owner s = Some t;
  co_calls t p : st_calls s !! t = Some p → pc_ok (st_heap s) (st_responses s) p;
}.

Lemma calls_alone s t t' p p' : calls_ok s → st_calls s !! t = Some p → holds p → st_calls s !! t' = Some p' → holds p' → t' = t.
Proof. intros [_ Ho _] Ht Hh Ht' Hh'. pose proof (Ho _ _ Ht Hh). pose proof (Ho _ _ Ht' Hh'). congruence. Qed.

(** ** What keeps it *)
Lemma of_response_le h h' os os' vk : heap_le h h' → (∀ o, o ∈ os → o ∈ os') → of_response h os vk → of_response h' os' vk.
Proof. intros Hle Hos (o & js & jwk & Hin & Hs & Hj & Hi & Hm). exists o, js, jwk. split_and!; [by apply Hos|done..|by eapply made_of_le]. Qed.

Lemma pc_ok_le h h' os os' p : heap_le h h' → (∀ o, o ∈ os → o ∈ os') → pc_ok h os p → pc_ok h' os' p.
Proof.
  intros Hle Hos. assert (∀ r, answer_ok h os r → answer_ok h' os' r) as Ha.
  { intros r [Hp Hk]. split; [done|]. intros vk Hr. eapply of_response_le; [done..|by apply Hk]. }
  destruct p; cbn; try done; by apply Ha.
Qed.

Lemma set_of_response h os js ks vk : Forall2 (made_of h) js ks → js = [] ∨ (∃ o, o ∈ os ∧ server_says o (Serves js)) → vk ∈ ks → of_response h os vk.
Proof.
  intros Hm Hjs (i & Hk)%list_elem_of_lookup. destruct (Forall2_lookup_r _ _ _ _ _ Hm Hk) as (jwk & Hj & Hmade).
  destruct Hjs as [->|(o & Hin & Hs)]; [done|]. exists o, js, jwk. split_and!; [done|done|by eapply list_elem_of_lookup_2| |done].
  eapply Forall_lookup_1; [by eapply server_says_imported|done].
Qed.

Lemma cached_of_response s vk : calls_ok s → vk ∈ jwks_keys (st_store s) → of_response (st_heap s) (st_responses s) vk.
Proof.
  intros [(js & Hm & Hu) _ _]. eapply set_of_response; [exact Hm|]. destruct Hu as [[Hp _]|(_ & _ & _ & o & os & _ & _ & -> & _ & _ & Hp)];
    apply published_last_usable in Hp as [->|(o' & Hin & Hs)]; [by left|right; by exists o'|by left|].
  right. exists o'. split; [by apply list_elem_of_further|done].
Qed.

Lemma lookup_answer_ok s kid r : calls_ok s → lookup_kid (st_heap s) (st_store s) (st_clock s) kid = Done r → answer_ok (st_heap s) (st_responses s) r.
Proof.
  intros Hok Hl. split.
  - intros ->. apply (lookup_live (st_heap s) (st_store s) (st_clock s) kid); [|done]. apply list.Forall_forall. intros vk Hk.
    destruct (cached_of_response _ _ Hok Hk) as (_ & _ & jwk & _ & _ & _ & _ & Hm). by eapply made_of_live.
  - intros vk ->. apply lookup_key in Hl as [[Hin _]%find_key_spec _]. by apply cached_of_response.
Qed.

Lemma lookup_pc_ok s kid done next : calls_ok s → (∀ r, answer_ok (st_heap s) (st_responses s) r → pc_ok (st_heap s) (st_responses s) (done r)) →
  pc_ok (st_heap s) (st_responses s) next →
  pc_ok (st_heap s) (st_responses s) (after_lookup (lookup_kid (st_heap s) (st_store s) (st_clock s) kid) done next).
Proof. intros Hok Hd Hn. destruct (lookup_kid _ _ _ _) as [r|] eqn:E; cbn [after_lookup]; [|exact Hn]. by eapply Hd, lookup_answer_ok. Qed.

(** A call goes on, from a place where it does not install and to one. *)
Lemma up_to_date_goto s t p js : up_to_date s js → (∀ p0, st_calls s !! t = Some p0 → installs p0 = false) → installs p = false → up_to_date (goto t p s) js.
Proof.
  intros [[Hp Hn]|(t' & kid & ks & o & os & js' & Ht' & Hr)] H0p Hi.
  - left. split; [done|]. intros t' p' Hp'. rewrite goto_lookup in Hp'. case_decide; [by simplify_eq|by eapply Hn].
  - right. exists t', kid, ks, o, os, js'. split; [|done]. rewrite goto_lookup, decide_False; [done|]. intros ->. by apply H0p in Ht'.
Qed.

Lemma calls_ok_goto s t p0 p : calls_ok s → st_calls s !! t = Some p0 → installs p0 = false → installs p = false → (holds p → holds p0) →
  pc_ok (st_heap s) (st_responses s) p → calls_ok (goto t p s).
Proof.
  intros [(js & Hm & Hu) Ho Hc] Ht H0i Hi Hh Hp. split.
  - exists js. split; [done|]. apply up_to_date_goto; [done| |done]. by intros p1 Hp1; simplify_eq.
  - intros t' p' Hp' Hh'. rewrite goto_lookup in Hp'. case_decide; simplify_eq; [by eapply Ho, Hh|by eapply Ho].
  - intros t' p' Hp'. rewrite goto_lookup in Hp'. case_decide; simplify_eq; [done|by eapply Hc].
Qed.

(** A step that does not touch the cached keys. *)
Lemma calls_ok_store s store : calls_ok s → jwks_keys store = jwks_keys (st_store s) → calls_ok (with_store store s).
Proof. intros [Hk Ho Hc] Hs. split; [|done|done]. cbn. by rewrite Hs. Qed.

(** A response comes in: what was made stays, and the record grows. *)
Lemma calls_ok_fetch s t kid o r h : calls_ok s → st_calls s !! t = Some (PFetch kid) → fetch_keys (st_heap s) o = (r, h) →
  calls_ok (goto t (match r with Ok ks => PInstall kid ks | Err e => PUnlock (Err e) | Panic => PUnlock Panic end) (fetched o h s)).
Proof.
  intros Hok Ht Hf. pose proof Hok as [(js & Hm & Hu) Ho Hc]. destruct (server_says_total o) as [srv Hsrv].
  pose proof (fetch_keys_says (st_heap s) _ _ Hsrv) as Hsays. rewrite Hf in Hsays. destruct Hsays as [Hle Hr].
  assert (published_last (st_responses s) js ∧ ∀ t p, st_calls s !! t = Some p → installs p = false) as [Hp Hn].
  { destruct Hu as [Hu|(t' & kid' & ks & _ & _ & _ & Ht' & _)]; [done|]. pose proof (calls_alone _ _ _ _ _ Hok Ht I Ht' I). simplify_eq. }
  split; cbn [st_heap st_store st_responses goto fetched].
  - exists js. split; [by eapply made_all_le|]. destruct srv as [js'|].
    + destruct Hr as (ks & -> & Hks). right. exists t, kid, ks, o, (st_responses s), js'. by rewrite goto_lookup, decide_True.
    + destruct Hr as (e & -> & _). left. split; [by apply pl_useless|]. intros t' p' Hp'. rewrite goto_lookup in Hp'. case_decide; [by simplify_eq|by eapply (Hn t')].
  - intros t' p' Hp' Hh'. rewrite goto_lookup in Hp'. case_decide; simplify_eq; [by apply (Ho t (PFetch kid))|by eapply Ho].
  - intros t' p' Hp'. rewrite goto_lookup in Hp'. case_decide; simplify_eq.
    + destruct srv as [js'|]; [by destruct Hr as (ks & -> & _)|by destruct Hr as (e & -> & _)].
    + eapply pc_ok_le; [exact Hle| |by eapply Hc]. intros o' Ho'. by apply list_elem_of_further.
Qed.

(** The keys of the last response replace those of the one before. *)
Lemma calls_ok_install s t kid ks now : calls_ok s → st_calls s !! t = Some (PInstall kid ks) →
  calls_ok (goto t (PFinal kid) (with_store (set_keys ks now (st_store s)) s)).
Proof.
  intros Hok Ht. pose proof Hok as [(js & Hm & Hu) Ho Hc]. split; cbn [st_heap st_store st_responses goto with_store jwks_keys set_keys].
  - destruct Hu as [[_ Hn]|(t' & kid' & ks' & o & os & js' & Ht' & Hr & Hs & Hks & _)]; [by apply Hn in Ht|].
    pose proof (calls_alone _ _ _ _ _ Hok Ht I Ht' I) as ->. simplify_eq. exists js'. split; [done|]. left. cbn [st_responses goto with_store].
    rewrite Hr. split; [by apply pl_usable|]. intros t' p' Hp'. rewrite goto_lookup in Hp'. case_decide as Hd; [by simplify_eq|].
    destruct p'; try done. destruct Hd. by eapply (calls_alone s t t'); [exact Hok|exact Ht| |exact Hp'|].
  - intros t' p' Hp' Hh'. rewrite goto_lookup in Hp'. case_decide; simplify_eq; [by apply (Ho t (PInstall kid ks))|by eapply Ho].
  - intros t' p' Hp'. rewrite goto_lookup in Hp'. case_decide; simplify_eq; [done|by eapply Hc].
Qed.

Lemma step_calls_ok s s' : jwks_step s s' → calls_ok s → calls_ok s'.
Proof.
  intros Hs Hok. pose proof Hok as [Hk Ho' Hc].
  destruct Hs as [c Ht|t i k Ht|t i k b store Ht Hi|t k Ht|t k Ht Ho|t k Ht|t k Ht|t k o r h Ht Hf|t k ks Ht|t k Ht|t r Ht].
  - by split.
  - destruct Hk as (js & Hm & Hu). split.
    + exists js. split; [done|]. by apply up_to_date_goto; [|by intros p Hp; rewrite Ht in Hp|].
    + intros t' p' Hp' Hh'. rewrite goto_lookup in Hp'. case_decide; simplify_eq; [done|by eapply Ho'].
    + intros t' p' Hp'. rewrite goto_lookup in Hp'. case_decide; simplify_eq; [done|by eapply Hc].
  - eapply (calls_ok_goto (with_store store s)); [|exact Ht|by destruct b..]. apply calls_ok_store; [done|].
    unfold knownIssuer in Hi. injection Hi as _ <-. by destruct (_ =? 0)%N.
  - eapply calls_ok_goto; [done|exact Ht|done|by destruct (lookup_kid _ _ _ _)..|by apply lookup_pc_ok].
  - destruct Hk as (js & Hm & Hu). split.
    + exists js. split; [done|]. apply (up_to_date_goto (with_owner (Some t) s)); [exact Hu| |done]. by intros p Hp; cbn in Hp; simplify_eq.
    + intros t' p' Hp' Hh'. rewrite goto_lookup in Hp'. case_decide; simplify_eq; [done|]. cbn in Hp'. by rewrite (Ho' _ _ Hp' Hh') in Ho.
    + intros t' p' Hp'. rewrite goto_lookup in Hp'. case_decide; simplify_eq; [done|by eapply Hc].
  - eapply calls_ok_goto; [done|exact Ht|done|by destruct (lookup_kid _ _ _ _)..|by apply lookup_pc_ok].
  - eapply (calls_ok_goto (attempt_now s)); [by split|exact Ht|done..].
  - by apply calls_ok_fetch.
  - by apply calls_ok_install.
  - eapply calls_ok_goto; [done|exact Ht|done|by destruct (lookup_kid _ _ _ _)..|by apply lookup_pc_ok; [| |split]].
  - pose proof (Hc _ _ Ht) as Hr. pose proof (Ho' _ _ Ht I) as Hown. destruct Hk as (js & Hm & Hu). split.
    + exists js. split; [done|]. apply (up_to_date_goto (with_owner None s)); [exact Hu| |done]. by intros p Hp; cbn in Hp; simplify_eq.
    + intros t' p' Hp' Hh'. rewrite goto_lookup in Hp'. case_decide as Hd; simplify_eq; [done|]. cbn in Hp'. pose proof (Ho' _ _ Hp' Hh'). congruence.
    + intros t' p' Hp'. rewrite goto_lookup in Hp'. case_decide; simplify_eq; [exact Hr|by eapply Hc].
Qed.

(** C15. However many calls are made, however they interleave and whatever the server sends,
    the cached keys are one for each JWK, in order, of the last response of this run from
    which keys could be made (none before the first such response), or, while a call is
    about to install those, of the last one before it; no call panics; and a key that a
    call has ended with was made of a JWK that was imported from a response of this run. *)
Theorem concurrent_calls_safe store h c s : jwks_keys store = [] → rtc jwks_step (jwks_init store h c) s →
  (∃ js, Forall2 (made_of (st_heap s)) js (jwks_keys (st_store s)) ∧
    (published_last (st_responses s) js ∨
     ∃ t kid ks o os, st_calls s !! t = Some (PInstall kid ks) ∧ st_responses s = o :: os ∧ published_last os js)) ∧
  ∀ t r, st_calls s !! t = Some (PDone r) → r ≠ Panic ∧ ∀ vk, r = Ok (Some vk) →
    ∃ o js jwk, o ∈ st_responses s ∧ server_says o (Serves js) ∧ jwk ∈ js ∧ imported jwk ∧ made_of (st_heap s) jwk vk.
Proof.
  intros Hks Hs. enough (calls_ok s) as [(js & Hm & Hu) _ Hc].
  { split; [|intros t r Ht; exact (Hc _ _ Ht)]. exists js. split; [done|].
    destruct Hu as [[Hp _]|(t & kid & ks & o & os & js' & Ht & Hr & _ & _ & Hp)]; [by left|right; by exists t, kid, ks, o, os]. }
  assert (calls_ok (jwks_init store h c)) as Hi.
  { split; cbn; [|done|done]. exists []. rewrite Hks. split; [done|]. left. by split; [constructor|]. }
  induction Hs as [|s1 s2 s3 Hst _ IH]; [done|]. by eapply IH, step_calls_ok.
Qed.
End concurrent.
