(* ===== verification/Interfaces.v ===== *)
(** [interfaces.go]: what the JWE components promise to each other.

    A component is proved against the class, and the instances (the cryptors, the
    RSA keys, the key stores) are declared where the implementation is.  A method
    that changes its receiver returns the changed one; a method that draws
    randomness takes the tape and returns what is left of it. *)

From S2P Require Import Prelude Errors Types Crypto.

(** ** [AeadEncryptionKey] *)
Class AeadEncryptionKey (K : Type) := {
  AeadKey_Kid : K → string;
  AeadKey_Algorithm : K → Alg;
  AeadKey_GenerateNonce : tape → K → result (bytes * tape);
  (** a nil nonce asks the key to supply one *)
  AeadKey_Seal : tape → K → Types.KeyOps → option bytes → bytes → bytes → result (bytes * bytes * tape);
  AeadKey_Open : K → Types.KeyOps → bytes → bytes → bytes → bytes → result bytes;
}.

(** Two keys that belong together: what the first seals the second opens.  A key
    that supplies the nonce itself appends it to the tag. *)
Record aead_pair `{AeadEncryptionKey K} (e d : K) : Prop := {
  pair_Kid : AeadKey_Kid d = AeadKey_Kid e;
  pair_Algorithm : AeadKey_Algorithm d = AeadKey_Algorithm e;
  pair_Open_Seal r n p aad ct tag r' : AeadKey_Seal r e KeyOpsEncrypt (Some n) p aad = Ok (ct, tag, r') →
    AeadKey_Open d KeyOpsDecrypt n ct aad tag = Ok p;
  pair_Open_Seal_nil r p aad ct tag r' n r1 r2 : AeadKey_Seal r e KeyOpsEncrypt None p aad = Ok (ct, tag, r') →
    AeadKey_GenerateNonce r1 e = Ok (n, r2) → (len n <= len tag)%N →
    AeadKey_Open d KeyOpsDecrypt (drop (length tag - length n) tag) ct aad (take (length tag - length n) tag) = Ok p;
}.

(** ** [BlockEncryptionKey] *)
Class BlockEncryptionKey (K : Type) := {
  BlockKey_Kid : K → string;
  BlockKey_Algorithm : K → Alg;
  BlockKey_Seal : K → bytes → result (bytes * K);
  BlockKey_Open : K → bytes → result (bytes * K);
}.

(** ** [HmacKey] *)
Class HmacKey (K : Type) := {
  HmacKey_Kid : K → string;
  HmacKey_Hash : K → bytes → result (bytes * K);
  HmacKey_Destroy : K → K;
}.

(** ** [AsymmetricDecryptionKey] and its store, as far as they decrypt *)
Class AsymmetricDecryptionKey (K : Type) := {
  DecKey_Algorithm : K → Alg;
  DecKey_Decrypt : K → Types.KeyOps → Hash → bytes → result bytes;
}.
Class AsymmetricDecryptionKeyStore (St K : Type) := DecKeyStore_Get : St → string → result K.
