(* ===== verification/Cryptors.v ===== *)
(** [aes_gcm_cryptor.go], [aes_cbc_cryptor.go], [hmac_sha_cryptor.go] and
    [jwe_hmac_verifier.go]: the symmetric keys of JWEs.

    A block mode and a hash have a state, which a call changes: the changed cryptor
    is returned.  The mutex of the HMAC makes its methods atomic. *)

From S2P Require Import Prelude Errors Base64 Json JsonFacts JsonCodec Types Crypto Jwk Jws Jwe Helpers Interfaces.

Definition gcm_validEncryptionOpts : list Types.KeyOps := [KeyOpsEncrypt].
Definition gcm_validDecryptionOpts : list Types.KeyOps := [KeyOpsDecrypt].
Definition validCryptorOpts : list Types.KeyOps := [KeyOpsEncrypt; KeyOpsDecrypt].

Section cryptors.
Context `{X509, Digests, Rsa, Ecdsa, Aes}.

(** ** [aes_gcm_cryptor.go]

    The random source of a cryptor is the tape given to [GenerateNonce]. *)
Record AesGcmCryptor := {
  Gcm_kid : string;
  Gcm_alg : Alg;
  Gcm_aead : AEAD;
  Gcm_opts : list Types.KeyOps;
}.

Definition AesGcmCryptor_Kid (cryptor : AesGcmCryptor) : string := Gcm_kid cryptor.
Definition AesGcmCryptor_Algorithm (cryptor : AesGcmCryptor) : Alg := Gcm_alg cryptor.

Definition AesGcmCryptor_GenerateNonce (rng : tape) (cryptor : AesGcmCryptor) : result (bytes * tape) :=
  ReadFull (NonceSize (Gcm_aead cryptor)) rng.

Definition AesGcmCryptor_Open (cryptor : AesGcmCryptor) (operation : Types.KeyOps) (nonce ciphertext aad tag : bytes) : result bytes :=
  let ops := intersection gcm_validDecryptionOpts (Gcm_opts cryptor) in
  if negb (isSubset ops [operation]) then gose_err Gose.ErrInvalidOperations
  else if (MaxPlaintextSize <? len ciphertext)%N then gose_err Gose.ErrInputTooLarge
  else if negb (len nonce =? NonceSize (Gcm_aead cryptor))%N then gose_err Gose.ErrInvalidNonce
  else if negb (len tag =? Overhead (Gcm_aead cryptor))%N then gose_err Gose.ErrInvalidAuthenticationTag
  else aead_Open (Gcm_aead cryptor) nonce (ciphertext ++ tag) aad.

(** The deferred [recover] turns a panic of the AEAD into an error. *)
Definition sealAEAD (aead : AEAD) (nonce : option bytes) (plaintext aad : bytes) : result bytes :=
  match aead_Seal aead nonce plaintext aad with
  | Panic => Err (EWrap "seal" (EGose Gose.ErrSealFailed))
  | r => r
  end.

(** The ciphertext and the tag; a nil nonce asks the AEAD to supply one. *)
Definition AesGcmCryptor_Seal (cryptor : AesGcmCryptor) (operation : Types.KeyOps) (nonce : option bytes) (plaintext aad : bytes)
    : result (bytes * bytes) :=
  let aead := Gcm_aead cryptor in
  let ops := intersection gcm_validEncryptionOpts (Gcm_opts cryptor) in
  if negb (isSubset ops [operation]) then gose_err Gose.ErrInvalidOperations
  else if (MaxPlaintextSize <? len plaintext)%N then gose_err Gose.ErrInputTooLarge
  else if match nonce with Some n => negb (len n =? NonceSize aead)%N | None => false end then gose_err Gose.ErrInvalidNonce
  else
    let sz := (Overhead aead + len plaintext)%N in
    let sz := match nonce with None => (sz + NonceSize aead)%N | Some _ => sz end in
    dst ← sealAEAD aead nonce plaintext aad;
    if negb (len dst =? sz)%N then gose_err Gose.ErrSealFailed
    else Ok (take (length plaintext) dst, drop (length plaintext) dst).

(** [helpers.go]: the AEAD of a symmetric JWK. *)
Definition LoadSymmetricAEAD (jwk : Jwk) (required : list Types.KeyOps) : result AEAD :=
  key ← loadSymmetricBytes jwk required;
  match jwk with
  | JOct _ =>
    if bool_decide (Jwk_Alg jwk ∈ [AlgA128GCM; AlgA192GCM; AlgA256GCM]) then NewGCM key
    else gose_err Gose.ErrUnsupportedKeyType
  | _ => Panic
  end.

Definition NewAesGcmCryptorFromJwk (jwk : Jwk) (required : list Types.KeyOps) : result AesGcmCryptor :=
  let ops := intersection validCryptorOpts (Jwk_Ops jwk) in
  if (len ops =? 0)%N then gose_err Gose.ErrInvalidOperations
  else
    aead ← LoadSymmetricAEAD jwk required;
    Ok {| Gcm_kid := Jwk_Kid jwk; Gcm_alg := Jwk_Alg jwk; Gcm_aead := aead; Gcm_opts := cloneOps (Jwk_Ops jwk) |}.

Definition NewAesGcmCryptor (aead : AEAD) (kid : string) (alg : Alg) (operations : list Types.KeyOps) : AesGcmCryptor :=
  {| Gcm_kid := kid; Gcm_alg := alg; Gcm_aead := aead; Gcm_opts := cloneOps operations |}.

(** The cryptor as an [AeadEncryptionKey]; its [rng] is the tape. *)
#[export] Instance AesGcmCryptor_Aead : AeadEncryptionKey AesGcmCryptor := {|
  AeadKey_Kid := AesGcmCryptor_Kid;
  AeadKey_Algorithm := AesGcmCryptor_Algorithm;
  AeadKey_GenerateNonce := AesGcmCryptor_GenerateNonce;
  AeadKey_Seal rng c operation nonce plaintext aad :=
    '(ciphertext, tag) ← AesGcmCryptor_Seal c operation nonce plaintext aad; Ok (ciphertext, tag, rng);
  AeadKey_Open := AesGcmCryptor_Open;
|}.

(** ** [aes_cbc_cryptor.go] *)
Record AesCbcCryptor := {
  Cbc_kid : string;
  Cbc_alg : Alg;
  Cbc_blockCipher : BlockMode;
  Cbc_state : bm_state Cbc_blockCipher;
}.

Definition NewAesCbcCryptor (blockCipher : BlockMode) (st : bm_state blockCipher) (kid : string) (alg : Alg) : AesCbcCryptor :=
  {| Cbc_kid := kid; Cbc_alg := alg; Cbc_blockCipher := blockCipher; Cbc_state := st |}.

Definition AesCbcCryptor_Kid (cryptor : AesCbcCryptor) : string := Cbc_kid cryptor.
Definition AesCbcCryptor_Algorithm (cryptor : AesCbcCryptor) : Alg := Cbc_alg cryptor.

Definition trimSize (blockSize : N) (input : bytes) : bytes :=
  if (MaxPlaintextSize <? len input)%N then []
  else if negb (len input mod blockSize =? 0)%N
  then input ++ replicate (N.to_nat ((len input / blockSize + 1) * blockSize - len input)) x00
  else input.

Definition getDestinationSize (inputLength blockSize : N) : N :=
  let multiplier := (inputLength / blockSize)%N in
  if (0 <? multiplier)%N then (multiplier * blockSize + blockSize)%N else blockSize.

Definition set_state (c : AesCbcCryptor) (st : bm_state (Cbc_blockCipher c)) : AesCbcCryptor :=
  {| Cbc_kid := Cbc_kid c; Cbc_alg := Cbc_alg c; Cbc_blockCipher := Cbc_blockCipher c; Cbc_state := st |}.

Definition AesCbcCryptor_Seal (cryptor : AesCbcCryptor) (plaintext : bytes) : result (bytes * AesCbcCryptor) :=
  let mode := Cbc_blockCipher cryptor in
  if (MaxPlaintextSize <? len plaintext)%N then Ok ([], cryptor)
  else
    let src := trimSize (BlockSize mode) plaintext in
    let dstSize := getDestinationSize (len plaintext) (BlockSize mode) in
    '(dst, st) ← CryptBlocks mode (Cbc_state cryptor) dstSize src;
    Ok (dst, set_state cryptor st).

Definition AesCbcCryptor_Open (cryptor : AesCbcCryptor) (ciphertext : bytes) : result (bytes * AesCbcCryptor) :=
  let mode := Cbc_blockCipher cryptor in
  if (MaxPlaintextSize <? len ciphertext)%N then Ok ([], cryptor)
  else if negb (len ciphertext mod BlockSize mode =? 0)%N then Ok ([], cryptor)
  else
    let dstSize := getDestinationSize (len ciphertext) (BlockSize mode) in
    '(dst, st) ← CryptBlocks mode (Cbc_state cryptor) dstSize ciphertext;
    Ok (dst, set_state cryptor st).

#[export] Instance AesCbcCryptor_Block : BlockEncryptionKey AesCbcCryptor := {|
  BlockKey_Kid := AesCbcCryptor_Kid;
  BlockKey_Algorithm := AesCbcCryptor_Algorithm;
  BlockKey_Seal := AesCbcCryptor_Seal;
  BlockKey_Open := AesCbcCryptor_Open;
|}.

(** ** [hmac_sha_cryptor.go] *)
(** The hash and what was written to it; a nil hash is [None]. *)
Record HmacShaCryptor := { Hmac_kid : string; Hmac_hash : option (hash_Hash * bytes); destroyed : bool }.

(** A keyed hash says so, or is a type [HMAC] of a package with [hmac] in its path, or
    a pointer to one; nil is neither. *)
Definition isHmac (h : option hash_Hash) : bool :=
  match h with
  | None => false
  | Some h =>
    if hash_IsKeyedHash h then true
    else
      let t := match hash_type h with TypePointer elem => elem | t => t end in
      bool_decide (Type_Name t = "HMAC") && Contains (Type_PkgPath t) "hmac"
  end.

Definition NewHmacShaCryptor (kid : string) (hash : option hash_Hash) (written : bytes) : result HmacShaCryptor :=
  if negb (isHmac hash) then Panic
  else Ok {| Hmac_kid := kid; Hmac_hash := (λ h, (h, written)) <$> hash; destroyed := false |}.

Definition HmacShaCryptor_Kid (h : HmacShaCryptor) : string := Hmac_kid h.

Definition HmacShaCryptor_Hash (h : HmacShaCryptor) (input : bytes) : result (bytes * HmacShaCryptor) :=
  if destroyed h then Panic
  else
    match Hmac_hash h with
    | None => Panic
    | Some (hash, _) =>
      let written := [] ++ input in (* Reset, Write *)
      Ok (hash_mac hash written, {| Hmac_kid := Hmac_kid h; Hmac_hash := Some (hash, written); destroyed := destroyed h |})
    end.

Definition HmacShaCryptor_Destroy (h : HmacShaCryptor) : HmacShaCryptor :=
  {| Hmac_kid := Hmac_kid h; Hmac_hash := None; destroyed := true |}.

#[export] Instance HmacShaCryptor_Hmac : HmacKey HmacShaCryptor := {|
  HmacKey_Kid := HmacShaCryptor_Kid;
  HmacKey_Hash := HmacShaCryptor_Hash;
  HmacKey_Destroy := HmacShaCryptor_Destroy;
|}.
End cryptors.

(** ** [jwe_hmac_verifier.go] *)
Section verifier.
Context {K : Type} `{!HmacKey K}.

Record JweHmacVerifierImpl := { hmacKey : K }.

Definition NewJweHmacVerifier (key : K) : JweHmacVerifierImpl := {| hmacKey := key |}.

Definition computeAL (aad : bytes) : bytes := uintToBytesBigEndian (len aad).

Definition JweHmacVerifierImpl_ComputeHash (verifier : JweHmacVerifierImpl) (aad iv ciphertext : bytes)
    : result (bytes * JweHmacVerifierImpl) :=
  let inputHmac := gose_concatByteArrays [aad; iv; ciphertext; computeAL aad] in
  '(out, key) ← HmacKey_Hash (hmacKey verifier) inputHmac;
  Ok (out, {| hmacKey := key |}).

(** [hmac.Equal]. *)
Definition hmac_Equal (a b : bytes) : bool := bool_decide (a = b).

Definition JweHmacVerifierImpl_VerifyCompact (verifier : JweHmacVerifierImpl) (jwe : JweRfc7516Compact)
    : result (bool * JweHmacVerifierImpl) :=
  aad ← wrap_err "error marshalling the JWE Header" (JweRfc7516Compact_AAD jwe);
  let inputHmac := gose_concatByteArrays [aad; InitializationVector jwe; Ciphertext jwe; computeAL aad] in
  '(outputHmac, key) ← HmacKey_Hash (hmacKey verifier) inputHmac;
  Ok (hmac_Equal outputHmac (AuthenticationTag jwe), {| hmacKey := key |}).
End verifier.
Arguments JweHmacVerifierImpl : clear implicits.
