(* ===== verification/CryptorsFacts.v ===== *)
(** Properties of the AEAD cryptor of [Cryptors]: what opens was sealed, what is
    sealed opens, and no panic of an AEAD gets through. *)

From S2P Require Import Prelude Errors Base64 Json JsonFacts JsonCodec Types Crypto Toy Jwk Jws Jwe Helpers HelpersFacts Keys KeysFacts Cryptors.

Section cryptors.
Context `{X509, Digests, Rsa, Ecdsa, Aes}.

(** ** AES-GCM *)
Lemma tag_guard (a b : N) : negb (a =? b)%N = false ↔ a = b.
Proof. rewrite negb_false_iff. apply N.eqb_eq. Qed.

(** A ciphertext opens exactly when the cryptor may decrypt, the lengths fit, and
    the AEAD accepts. *)
Lemma AesGcmCryptor_Open_iff c operation nonce ct aad tag p :
  AesGcmCryptor_Open c operation nonce ct aad tag = Ok p ↔
  (operation = KeyOpsDecrypt ∧ KeyOpsDecrypt ∈ Gcm_opts c) ∧ (len ct <= MaxPlaintextSize)%N ∧
  len nonce = NonceSize (Gcm_aead c) ∧ len tag = Overhead (Gcm_aead c) ∧
  aead_Open (Gcm_aead c) nonce (ct ++ tag) aad = Ok p.
Proof.
  unfold AesGcmCryptor_Open, gcm_validDecryptionOpts. rewrite <- authorised.
  destruct (isSubset _ _); cbn [negb]; [|by split; [|intros [? _]]].
  destruct (N.ltb_spec MaxPlaintextSize (len ct)); [split; [done|intros (_ & ? & _); lia]|].
  destruct (N.eqb_spec (len nonce) (NonceSize (Gcm_aead c))); cbn [negb]; [|by split; [|intros (_ & _ & ? & _)]].
  destruct (N.eqb_spec (len tag) (Overhead (Gcm_aead c))); cbn [negb]; [|by split; [|intros (_ & _ & _ & ? & _)]].
  split; [done|by intros (_ & _ & _ & _ & ?)].
Qed.

Lemma sealAEAD_Ok aead nonce p aad c : sealAEAD aead nonce p aad = Ok c ↔ aead_Seal aead nonce p aad = Ok c.
Proof. unfold sealAEAD. by destruct (aead_Seal _ _ _ _). Qed.

Lemma AesGcmCryptor_Seal_inv c operation n p aad ct tag :
  AesGcmCryptor_Seal c operation (Some n) p aad = Ok (ct, tag) →
  (operation = KeyOpsEncrypt ∧ KeyOpsEncrypt ∈ Gcm_opts c) ∧ (len p <= MaxPlaintextSize)%N ∧ len n = NonceSize (Gcm_aead c) ∧
  aead_Seal (Gcm_aead c) (Some n) p aad = Ok (ct ++ tag) ∧ len ct = len p ∧ len tag = Overhead (Gcm_aead c).
Proof.
  unfold AesGcmCryptor_Seal, gcm_validEncryptionOpts. rewrite <- authorised.
  destruct (isSubset _ _); [|done]. cbn [negb]. destruct (N.ltb_spec MaxPlaintextSize (len p)); [done|].
  destruct (N.eqb_spec (len n) (NonceSize (Gcm_aead c))); [|done]. cbn [negb].
  intros (dst & Hd%sealAEAD_Ok & Hs)%bind_Ok. destruct (N.eqb_spec (len dst) (Overhead (Gcm_aead c) + len p)); [|done].
  cbn [negb] in Hs. injection Hs as <- <-. rewrite take_drop. unfold len in *.
  rewrite length_take, length_drop. split_and!; try done; lia.
Qed.

Lemma gcm_seal_open c d n p aad ct tag :
  aead_laws (Gcm_aead c) → Gcm_aead d = Gcm_aead c → KeyOpsDecrypt ∈ Gcm_opts d →
  AesGcmCryptor_Seal c KeyOpsEncrypt (Some n) p aad = Ok (ct, tag) →
  AesGcmCryptor_Open d KeyOpsDecrypt n ct aad tag = Ok p.
Proof.
  intros Hl Hd Hop (_ & Hsz & Hn & Hs & Hct & Htag)%AesGcmCryptor_Seal_inv.
  apply AesGcmCryptor_Open_iff. rewrite Hd. split_and!; try done; [lia|]. by apply (aead_Open_Seal _ Hl).
Qed.

Lemma gcm_open_seal c d n p aad ct tag :
  aead_laws (Gcm_aead d) → Gcm_aead c = Gcm_aead d → KeyOpsEncrypt ∈ Gcm_opts c →
  AesGcmCryptor_Open d KeyOpsDecrypt n ct aad tag = Ok p →
  AesGcmCryptor_Seal c KeyOpsEncrypt (Some n) p aad = Ok (ct, tag).
Proof.
  intros Hl Hc Hop (_ & Hsz & Hn & Htag & Ho)%AesGcmCryptor_Open_iff. apply (aead_Open_valid _ Hl) in Ho as [Hs Hlen].
  assert (len p = len ct) as Hp by (unfold len in *; rewrite length_app in Hlen; lia).
  unfold AesGcmCryptor_Seal, gcm_validEncryptionOpts. rewrite (proj2 (authorised _ _ _)) by done. cbn [negb]. rewrite Hc, Hn, N.eqb_refl.
  destruct (N.ltb_spec MaxPlaintextSize (len p)); [lia|]. cbn [negb].
  rewrite (proj2 (sealAEAD_Ok _ _ _ _ _) Hs). cbn [mbind res_bind].
  replace (len (ct ++ tag) =? _)%N with true by (unfold len in *; rewrite length_app; lia). cbn [negb].
  by rewrite take_app_length', drop_app_length' by (unfold len in *; lia).
Qed.

(** Under the right operation, with a nonce of the right size, every plaintext within the
    bound is sealed. *)
Lemma AesGcmCryptor_Seal_Ok c n p aad : aead_laws (Gcm_aead c) → KeyOpsEncrypt ∈ Gcm_opts c → len n = NonceSize (Gcm_aead c) →
  (len p <= MaxPlaintextSize)%N →
  ∃ ct tag, AesGcmCryptor_Seal c KeyOpsEncrypt (Some n) p aad = Ok (ct, tag) ∧ len ct = len p ∧ len tag = Overhead (Gcm_aead c).
Proof.
  intros Hl Hop Hn Hp. destruct (aead_Seal_Ok _ Hl n p aad Hn) as (d & Hd & Hlen); [unfold MaxPlaintextSize in Hp; lia|].
  exists (take (length p) d), (drop (length p) d). assert (len d = len (take (length p) d) + len (drop (length p) d))%N as Hs
    by (unfold len; rewrite length_take, length_drop; lia).
  assert (len (take (length p) d) = len p) as Ht by (unfold len in *; rewrite length_take; lia). split_and!; [|done|lia].
  unfold AesGcmCryptor_Seal, gcm_validEncryptionOpts. rewrite (proj2 (authorised _ _ _)) by done. cbn [negb]. rewrite Hn, N.eqb_refl.
  destruct (N.ltb_spec MaxPlaintextSize (len p)); [lia|]. cbn [negb]. rewrite (proj2 (sealAEAD_Ok _ _ _ _ _) Hd). cbn [mbind res_bind].
  rewrite Hlen, N.add_comm, N.eqb_refl. done.
Qed.

(** C38. Sealing and opening are inverse on cryptors that share an AEAD: a plaintext
    seals to a ciphertext and a tag exactly when these open to it, under the same
    nonce and additional data. *)
Theorem AesGcm_Seal_Open c d n p aad ct tag :
  aead_laws (Gcm_aead c) → Gcm_aead d = Gcm_aead c → KeyOpsEncrypt ∈ Gcm_opts c → KeyOpsDecrypt ∈ Gcm_opts d →
  AesGcmCryptor_Seal c KeyOpsEncrypt (Some n) p aad = Ok (ct, tag) ↔ AesGcmCryptor_Open d KeyOpsDecrypt n ct aad tag = Ok p.
Proof. intros Hl Hd Hc Hop. split; [by apply gcm_seal_open|]. apply gcm_open_seal; [by rewrite Hd|done..]. Qed.

Lemma gcm_open_no_panic c operation n ct aad tag : aead_laws (Gcm_aead c) → AesGcmCryptor_Open c operation n ct aad tag ≠ Panic.
Proof.
  intros Hl. unfold AesGcmCryptor_Open. destruct (negb _); [done|]. destruct (_ <? _)%N; [done|].
  destruct (N.eqb_spec (len n) (NonceSize (Gcm_aead c))); [|done]. cbn [negb]. destruct (negb _); [done|]. by apply (aead_Open_no_panic _ Hl).
Qed.

(** Neither sealing nor opening panics, whatever the lengths of the inputs are: a
    panic of the AEAD while it seals, as on a nil nonce, becomes [ErrSealFailed], and
    what is sealed is as long as the plaintext and the tag. *)
Theorem AesGcm_Seal_total c operation nonce p aad :
  match AesGcmCryptor_Seal c operation nonce p aad with
  | Ok (ct, tag) => len ct = len p ∧
      len tag = (Overhead (Gcm_aead c) + match nonce with Some _ => 0 | None => NonceSize (Gcm_aead c) end)%N ∧
      operation = KeyOpsEncrypt ∧ KeyOpsEncrypt ∈ Gcm_opts c ∧ (len p <= MaxPlaintextSize)%N
  | Err e => True
  | Panic => False
  end ∧
  (KeyOpsEncrypt ∈ Gcm_opts c → (len p <= MaxPlaintextSize)%N → aead_laws (Gcm_aead c) →
   AesGcmCryptor_Seal c KeyOpsEncrypt None p aad = Err (EWrap "seal" (EGose Gose.ErrSealFailed))).
Proof.
  unfold AesGcmCryptor_Seal, gcm_validEncryptionOpts. split.
  - destruct (isSubset _ [operation]) eqn:Ho; [|done]. apply authorised in Ho. cbn [negb].
    destruct (N.ltb_spec MaxPlaintextSize (len p)); [done|]. destruct (match nonce with Some _ => _ | None => _ end); [done|].
    unfold sealAEAD. destruct (aead_Seal _ _ _ _) as [dst|e|]; cbn [mbind res_bind]; [|done..].
    destruct (N.eqb_spec (len dst) (match nonce with Some _ => (Overhead (Gcm_aead c) + len p)%N | None => (Overhead (Gcm_aead c) + len p + NonceSize (Gcm_aead c))%N end)) as [Hd|]; [|done].
    cbn [negb]. unfold len in *. rewrite length_take, length_drop. destruct Ho. split_and!; try done; destruct nonce; lia.
  - intros Hop Hsz Hl. rewrite (proj2 (authorised _ _ _)) by done. cbn [negb]. destruct (N.ltb_spec MaxPlaintextSize (len p)); [lia|].
    unfold sealAEAD. by rewrite (aead_Seal_nonce _ Hl).
Qed.

Lemma gcm_len_spec alg n : gcm_len alg = Some n →
  alg ∈ [AlgA128GCM; AlgA192GCM; AlgA256GCM] ∧ ∀ key, n = len key → aes_key key = true.
Proof.
  unfold gcm_len, aes_key. intros Hg. repeat case_bool_decide; simplify_eq; (split; [set_solver|]); intros key <-; done.
Qed.

(** The AEAD of a JWK is GCM with its bytes. *)
Lemma LoadSymmetricAEAD_spec jwk required aead :
  LoadSymmetricAEAD jwk required = Ok aead ↔
  ∃ v, (∀ op, op ∈ required → op ∈ Jwk_Ops jwk) ∧ jwk = JOct v ∧
    gcm_len (Jwk_Alg jwk) = Some (len (Oct_K (Oct_fields v))) ∧ aead = gcm (Oct_K (Oct_fields v)).
Proof.
  unfold LoadSymmetricAEAD, NewGCM. split.
  - intros (key & (Hr & v & -> & -> & Hg)%loadSymmetricBytes_spec & Ha)%bind_Ok.
    destruct (gcm_len_spec _ _ Hg) as [Halg Hk]. rewrite bool_decide_true, Hk in Ha by done. injection Ha as <-. by exists v.
  - intros (v & Hr & -> & Hg & ->). rewrite (proj2 (loadSymmetricBytes_spec _ _ (Oct_K (Oct_fields v)))) by eauto.
    destruct (gcm_len_spec _ _ Hg) as [Halg Hk]. cbn [mbind res_bind]. by rewrite bool_decide_true, Hk.
Qed.

(** A JWK makes a cryptor exactly when it is an [oct] key whose length its algorithm
    names, that may encrypt or decrypt and do what is required; the cryptor is
    AES-GCM with the bytes of the key. *)
Lemma NewAesGcmCryptorFromJwk_iff jwk required c :
  NewAesGcmCryptorFromJwk jwk required = Ok c ↔
  (KeyOpsEncrypt ∈ Jwk_Ops jwk ∨ KeyOpsDecrypt ∈ Jwk_Ops jwk) ∧ (∀ op, op ∈ required → op ∈ Jwk_Ops jwk) ∧
  ∃ v, jwk = JOct v ∧ gcm_len (Jwk_Alg jwk) = Some (len (Oct_K (Oct_fields v))) ∧
    c = {| Gcm_kid := Jwk_Kid jwk; Gcm_alg := Jwk_Alg jwk; Gcm_aead := gcm (Oct_K (Oct_fields v)); Gcm_opts := Jwk_Ops jwk |}.
Proof.
  assert ((len (intersection validCryptorOpts (Jwk_Ops jwk)) =? 0)%N = false ↔ KeyOpsEncrypt ∈ Jwk_Ops jwk ∨ KeyOpsDecrypt ∈ Jwk_Ops jwk) as Hops.
  { assert (∀ op, op ∈ intersection validCryptorOpts (Jwk_Ops jwk) ↔ (op = KeyOpsEncrypt ∨ op = KeyOpsDecrypt) ∧ op ∈ Jwk_Ops jwk) as Hi.
    { intros op. rewrite intersection_spec. unfold validCryptorOpts. rewrite !elem_of_cons, elem_of_nil. tauto. }
    destruct (intersection validCryptorOpts (Jwk_Ops jwk)) as [|o os] eqn:E.
    - split; [done|]. intros [Hx|Hx]; exfalso; eapply elem_of_nil; apply Hi; eauto.
    - split; [intros _|unfold len; cbn; lia]. destruct (proj1 (Hi o) (list_elem_of_here _ _)) as [[->| ->] ?]; [by left|by right]. }
  unfold NewAesGcmCryptorFromJwk. rewrite <- Hops. clear Hops. destruct (_ =? 0)%N; [by split; [|intros [? _]]|].
  split.
  - intros (aead & (v & Hr & Hv & Hg & ->)%LoadSymmetricAEAD_spec & [= <-])%bind_Ok. split_and!; [done|done|by exists v].
  - intros (_ & Hr & v & Hv & Hg & ->). rewrite (proj2 (LoadSymmetricAEAD_spec _ _ _)) by (exists v; split_and!; done). done.
Qed.

Lemma NewAesGcmCryptorFromJwk_no_panic jwk required : NewAesGcmCryptorFromJwk jwk required ≠ Panic.
Proof.
  unfold NewAesGcmCryptorFromJwk. destruct (_ =? 0)%N; [done|]. apply bind_no_panic; [|done]. unfold LoadSymmetricAEAD, loadSymmetricBytes.
  destruct (symmetricAlgs _); [|done]. destruct (_ && _); [done|]. destruct jwk; try done. destruct (_ || _); [done|]. cbn [mbind res_bind].
  destruct (bool_decide _); [|done]. unfold NewGCM. by destruct (aes_key _).
Qed.
End cryptors.
