(* ===== verification/BlockFacts.v ===== *)
(** Properties of the block and MAC cryptors of [Cryptors]: what the CBC cryptor
    seals opens again while the two chains agree, when they stop agreeing, and what
    an authentication tag covers. *)

From S2P Require Import Prelude Errors Base64 Json JsonFacts JsonCodec Types Crypto Toy Jwk Jws Jwe JweFacts Helpers HelpersFacts Interfaces Cryptors.

(** ** Blocks *)
Lemma xor_byte_cancel x y : n2b (N.lxor (b2n (n2b (N.lxor (b2n x) (b2n y)))) (b2n y)) = x.
Proof.
  rewrite b2n_n2b, N.mod_small.
  - by rewrite N.lxor_assoc, N.lxor_nilpotent, N.lxor_0_r, n2b_b2n.
  - destruct (N.eq_dec (N.lxor (b2n x) (b2n y)) 0%N) as [->|Hne]; [lia|].
    change 256%N with (2 ^ 8)%N. apply N.log2_lt_pow2; [lia|].
    assert (∀ b, (N.log2 (b2n b) < 8)%N) as Hb.
    { intros b. pose proof (b2n_lt b) as Hlt. destruct (N.eq_dec (b2n b) 0%N) as [->|]; [done|]. apply N.log2_lt_pow2; [lia|done]. }
    pose proof (N.log2_lxor (b2n x) (b2n y)). pose proof (Hb x). pose proof (Hb y). lia.
Qed.

Lemma xor_bytes_cancel a b : length a = length b → xor_bytes (xor_bytes a b) b = a.
Proof.
  revert b. induction a as [|x a IH]; intros [|y b] Hl; try done. cbn in Hl |- *.
  rewrite xor_byte_cancel. f_equal. apply IH. lia.
Qed.

Lemma xor_bytes_length a b : length a = length b → length (xor_bytes a b) = length a.
Proof. intros Hl. unfold xor_bytes. rewrite length_zip_with. lia. Qed.

Lemma blocks_split k l : length l = 16 * k → concat (blocks k l) = l ∧ Forall (λ b, length b = 16) (blocks k l).
Proof.
  revert l. induction k as [|k IH]; intros l Hl; cbn [blocks concat].
  - by destruct l.
  - destruct (IH (drop 16 l)) as [Hc Hf]; [rewrite length_drop; lia|].
    rewrite Hc, take_drop. split; [done|]. apply list.Forall_cons. split; [rewrite length_take; lia|done].
Qed.

Lemma blocks_length k l : length (blocks k l) = k.
Proof. revert l. induction k as [|k IH]; intros l; cbn [blocks length]; [done|by rewrite IH]. Qed.

Lemma blocks_cons k b l : length b = 16 → blocks (S k) (b ++ l) = b :: blocks k l.
Proof. intros Hb. cbn [blocks]. by rewrite take_app_length', drop_app_length'. Qed.

Lemma blocks_app j k l m : length l = 16 * j → blocks (j + k) (l ++ m) = blocks j l ++ blocks k m.
Proof.
  revert l. induction j as [|j IH]; intros l Hl; [by destruct l|].
  cbn [Nat.add blocks app]. rewrite take_app_le, drop_app_le by lia. f_equal. apply IH. rewrite length_drop. lia.
Qed.

Lemma blocks_concat bs : Forall (λ b, length b = 16) bs → blocks (length bs) (concat bs) = bs.
Proof.
  induction 1 as [|b bs Hb Hbs IH]; [done|]. cbn [length concat]. rewrite blocks_cons by done. by rewrite IH.
Qed.

Section cbc.
Context `{Aes}.
Local Abbreviation block b := (length b = 16).

(** Decrypting the blocks of a ciphertext gives the plaintext back, and leaves the
    decrypter with the chaining value of the encrypter. *)
Lemma cbc_dec_enc key bs iv : Forall (λ b, block b) bs → block iv →
  let '(out, iv') := cbc_enc_blocks key iv bs in
  length out = 16 * length bs ∧ block iv' ∧ cbc_dec_blocks key iv (blocks (length bs) out) = (concat bs, iv').
Proof.
  intros Hbs. revert iv. induction Hbs as [|b bs Hb Hbs IH]; intros iv Hiv; cbn [cbc_enc_blocks]; [done|].
  assert (block (xor_bytes b iv)) as Hx by (rewrite xor_bytes_length; congruence).
  pose proof (aes_enc_len key _ Hx) as Hc. specialize (IH _ Hc).
  destruct (cbc_enc_blocks key (aes_enc key (xor_bytes b iv)) bs) as [out iv']. destruct IH as (Hl & Hiv' & Hd).
  split_and!; [rewrite length_app, Hc, Hl; cbn [length]; lia|done|].
  cbn [length]. rewrite blocks_cons by done. cbn [cbc_dec_blocks]. rewrite Hd, aes_dec_enc by done.
  by rewrite xor_bytes_cancel by congruence.
Qed.

Lemma cbc_dec_app key iv bs1 bs2 :
  cbc_dec_blocks key iv (bs1 ++ bs2) =
    let '(out1, iv1) := cbc_dec_blocks key iv bs1 in
    let '(out2, iv2) := cbc_dec_blocks key iv1 bs2 in (out1 ++ out2, iv2).
Proof.
  revert iv. induction bs1 as [|b bs1 IH]; intros iv; cbn [cbc_dec_blocks app].
  - by destruct (cbc_dec_blocks key iv bs2).
  - rewrite IH. destruct (cbc_dec_blocks key b bs1) as [o1 i1]. destruct (cbc_dec_blocks key i1 bs2) as [o2 i2].
    by rewrite app_assoc.
Qed.

Lemma cbc_dec_length key iv bs : Forall (λ b, block b) bs → block iv → length (fst (cbc_dec_blocks key iv bs)) = 16 * length bs.
Proof.
  intros Hbs. revert iv. induction Hbs as [|b bs Hb Hbs IH]; intros iv Hiv; [done|]. cbn [cbc_dec_blocks].
  specialize (IH b Hb). destruct (cbc_dec_blocks key b bs) as [o i]. cbn [fst] in *.
  rewrite length_app, IH, xor_bytes_length by (rewrite aes_dec_len; done). rewrite aes_dec_len by done. cbn [length]. lia.
Qed.
End cbc.

(** ** Sizes *)
Lemma getDestinationSize_eq n bs : bs ≠ 0%N → getDestinationSize n bs = ((n / bs + 1) * bs)%N.
Proof.
  intros Hbs. unfold getDestinationSize. destruct (N.ltb_spec 0 (n / bs)); [lia|].
  assert (n / bs = 0)%N as -> by lia. lia.
Qed.

Lemma getDestinationSize_ge n bs : bs ≠ 0%N → (n <= getDestinationSize n bs)%N.
Proof.
  intros Hbs. rewrite getDestinationSize_eq by done. pose proof (N.div_mod n bs Hbs). pose proof (N.mod_lt n bs Hbs). lia.
Qed.

(** What is encrypted: the plaintext and the zeros that complete its last block. *)
Lemma trimSize_spec bs p : bs ≠ 0%N → (len p <= MaxPlaintextSize)%N →
  ∃ z, trimSize bs p = p ++ replicate z x00 ∧ (len (trimSize bs p) mod bs = 0)%N ∧
       (len (trimSize bs p) <= getDestinationSize (len p) bs)%N ∧
       ((len p mod bs = 0)%N → z = 0) ∧ ((len p mod bs ≠ 0)%N → len (trimSize bs p) = getDestinationSize (len p) bs).
Proof.
  intros Hbs Hp. rewrite getDestinationSize_eq by done. unfold trimSize.
  destruct (N.ltb_spec MaxPlaintextSize (len p)); [lia|].
  pose proof (N.div_mod (len p) bs Hbs) as Hdm. pose proof (N.mod_lt (len p) bs Hbs) as Hlt.
  destruct (N.eqb_spec (len p mod bs) 0) as [Hm|Hm]; cbn [negb].
  - exists 0. cbn [replicate]. rewrite app_nil_r. split_and!; try done. lia.
  - set (z := ((len p / bs + 1) * bs - len p)%N). exists (N.to_nat z).
    assert (len (p ++ replicate (N.to_nat z) x00) = ((len p / bs + 1) * bs)%N) as Hl.
    { unfold len at 1. rewrite length_app, length_replicate. fold (len p). unfold len in *. lia. }
    rewrite Hl, N.Div0.mod_mul. split_and!; try done. 
Qed.

Section block_cryptors.
Context `{X509, Digests, Rsa, Ecdsa, Aes}.
Local Abbreviation block b := (length b = 16).

(** The CBC cryptors of a key, with their chaining value. *)
Definition cbc_encryptor (key : bytes) (iv : bytes) (kid : string) (alg : Alg) : AesCbcCryptor :=
  NewAesCbcCryptor (NewCBCEncrypter key) iv kid alg.
Definition cbc_decryptor (key : bytes) (iv : bytes) (kid : string) (alg : Alg) : AesCbcCryptor :=
  NewAesCbcCryptor (NewCBCDecrypter key) iv kid alg.

Lemma aligned16 (l : bytes) : (len l mod 16 = 0)%N → length l = 16 * (length l / 16) ∧ len l = (16 * (len l / 16))%N.
Proof.
  intros Hm. pose proof (N.div_mod (len l) 16 ltac:(done)) as Hd. rewrite Hm, N.add_0_r in Hd. split; [|done].
  unfold len in *. assert (length l mod 16 = 0) as Hn by lia. pose proof (Nat.div_mod (length l) 16 ltac:(done)). lia.
Qed.

Lemma CryptBlocks_enc key iv dst src : (len src mod 16 = 0)%N → (len src <= dst)%N →
  CryptBlocks (NewCBCEncrypter key) iv dst src =
    let '(out, iv') := cbc_enc_blocks key iv (blocks (length src / 16) src) in
    Ok (out ++ replicate (N.to_nat (dst - len src)) x00, iv').
Proof.
  intros Hm Hd. unfold CryptBlocks. cbn [BlockSize NewCBCEncrypter bm_crypt]. rewrite Hm, N.eqb_refl. cbn [negb].
  by destruct (N.ltb_spec dst (len src)); [lia|].
Qed.

Lemma CryptBlocks_dec key iv dst src : (len src mod 16 = 0)%N → (len src <= dst)%N →
  CryptBlocks (NewCBCDecrypter key) iv dst src =
    let '(out, iv') := cbc_dec_blocks key iv (blocks (length src / 16) src) in
    Ok (out ++ replicate (N.to_nat (dst - len src)) x00, iv').
Proof.
  intros Hm Hd. unfold CryptBlocks. cbn [BlockSize NewCBCDecrypter bm_crypt]. rewrite Hm, N.eqb_refl. cbn [negb].
  by destruct (N.ltb_spec dst (len src)); [lia|].
Qed.

(** Decrypting what was encrypted, followed by zeros. *)
Lemma cbc_dec_padded key iv src (k : nat) : block iv → length src = 16 * (length src / 16) →
  let '(out, iv1) := cbc_enc_blocks key iv (blocks (length src / 16) src) in
  length out = length src ∧ block iv1 ∧
  ∃ tail iv2, cbc_dec_blocks key iv (blocks (length src / 16 + k) (out ++ replicate (16 * k) x00)) = (src ++ tail, iv2) ∧
    block iv2 ∧ (k = 0 → iv2 = iv1) ∧ (0 < k → iv2 = replicate 16 x00).
Proof.
  intros Hiv Hsrc. destruct (blocks_split _ _ Hsrc) as [Hc Hf].
  pose proof (cbc_dec_enc key _ _ Hf Hiv) as He. destruct (cbc_enc_blocks _ _ _) as [out iv1].
  destruct He as (Ho & Hi1 & Hd). rewrite blocks_length in Ho, Hd. split_and!; [lia|done|]. rewrite blocks_app by done. rewrite cbc_dec_app, Hd, Hc.
  assert (∀ j v, block v → ∃ t w, cbc_dec_blocks key v (blocks j (replicate (16 * j) x00)) = (t, w) ∧ block w ∧
            (j = 0 → w = v) ∧ (0 < j → w = replicate 16 x00)) as Hz.
  { clear. induction j as [|j IH]; intros v Hv; [exists [], v; split_and!; [done|done|done|lia]|].
    replace (16 * S j) with (16 + 16 * j) by lia. rewrite replicate_add, blocks_cons by apply length_replicate. cbn [cbc_dec_blocks].
    destruct (IH (replicate 16 x00) (length_replicate _ _)) as (t & w & -> & Hw & Hw0 & Hp). eexists _, w.
    split_and!; [done|done|done|]. intros _. destruct j; [by apply Hw0|apply Hp; lia]. }
  destruct (Hz k iv1 Hi1) as (t & w & -> & Hw & Hw0 & Hp).
  exists t, w. split_and!; try done.
Qed.

(** What is sealed: whole blocks, then a destination block that stays zero if the
    plaintext ends on a block boundary. *)
Lemma sealed_blocks p : (getDestinationSize (len p) 16 <= MaxPlaintextSize)%N →
  (len p <= MaxPlaintextSize)%N ∧ ∃ z k, let src := trimSize 16 p in
    src = p ++ replicate z x00 ∧ (len src mod 16 = 0)%N ∧ (len src <= getDestinationSize (len p) 16)%N ∧
    N.to_nat (getDestinationSize (len p) 16 - len src) = 16 * k ∧ (k = 0 ↔ (len p mod 16 ≠ 0)%N).
Proof.
  intros Hp. assert (len p <= MaxPlaintextSize)%N as Hle.
  { pose proof (getDestinationSize_ge (len p) 16 ltac:(done)). lia. }
  split; [done|]. destruct (trimSize_spec 16 p) as (z & Hz & Hm & Hd & Hz0 & Hz1); [done|done|].
  exists z, (N.to_nat (getDestinationSize (len p) 16 - len (trimSize 16 p)) / 16). split_and!; try done.
  all: rewrite getDestinationSize_eq in * by done; destruct (decide (len p mod 16 = 0)%N) as [Hpm|Hpm].
  1,3: rewrite Hz, (Hz0 Hpm), app_nil_r; destruct (aligned16 _ Hpm) as [_ Hpl];
    replace ((len p / 16 + 1) * 16 - len p)%N with 16%N by lia; done.
  all: by rewrite (Hz1 Hpm), N.sub_diag.
Qed.

(** What one CBC cryptor seals, another with the same key and the same chaining
    value opens: the plaintext is the start of what comes out.  The chaining values
    agree again afterwards if the plaintext does not end on a block boundary; if it
    does, the destination has one block more than what was encrypted, which the
    other side decrypts too, and its chaining value becomes that block of zeros. *)
Lemma cbc_seal_open key iv kid alg kid' alg' p :
  block iv → (getDestinationSize (len p) 16 <= MaxPlaintextSize)%N →
  ∃ ct iv1 pt iv2,
    AesCbcCryptor_Seal (cbc_encryptor key iv kid alg) p = Ok (ct, cbc_encryptor key iv1 kid alg) ∧
    AesCbcCryptor_Open (cbc_decryptor key iv kid' alg') ct = Ok (pt, cbc_decryptor key iv2 kid' alg') ∧
    len ct = getDestinationSize (len p) 16 ∧ (len ct <= len pt)%N ∧ take (length p) pt = p ∧ block iv1 ∧ block iv2 ∧
    ((len p mod 16 ≠ 0)%N → iv2 = iv1) ∧ ((len p mod 16 = 0)%N → iv2 = replicate 16 x00).
Proof.
  intros Hiv Hp. destruct (sealed_blocks p Hp) as (Hle & z & k & Hz & Hm & Hd & Hk & Hk0).
  set (src := trimSize 16 p) in *. destruct (aligned16 _ Hm) as [Hsrc _].
  pose proof (cbc_dec_padded key iv src k Hiv Hsrc) as Hcd.
  unfold AesCbcCryptor_Seal. change (BlockSize (Cbc_blockCipher (cbc_encryptor key iv kid alg))) with 16%N. fold src.
  destruct (N.ltb_spec MaxPlaintextSize (len p)); [lia|]. cbn [cbc_encryptor NewAesCbcCryptor Cbc_blockCipher Cbc_state].
  rewrite CryptBlocks_enc by done. destruct (cbc_enc_blocks _ _ _) as [out iv1].
  destruct Hcd as (Hlo & Hi1 & tail & iv2 & Hdec & Hi2 & Hs0 & Hs1). rewrite Hk. set (ct := out ++ replicate (16 * k) x00) in *.
  assert (length ct = length src + 16 * k) as Hlc by (subst ct; rewrite length_app, length_replicate; lia).
  assert (len ct = getDestinationSize (len p) 16) as Hct by (unfold len in *; lia).
  assert (len ct mod 16 = 0)%N as Hcm by (rewrite Hct, getDestinationSize_eq by done; apply N.Div0.mod_mul).
  assert (length ct / 16 = length src / 16 + k) as Hcb by (rewrite Hlc, (Nat.mul_comm 16 k); by apply Nat.div_add).
  exists ct, iv1, ((src ++ tail) ++ replicate (N.to_nat (getDestinationSize (len ct) 16 - len ct)) x00), iv2.
  split_and!; try done.
  - unfold AesCbcCryptor_Open. change (BlockSize (Cbc_blockCipher (cbc_decryptor key iv kid' alg'))) with 16%N.
    destruct (N.ltb_spec MaxPlaintextSize (len ct)); [lia|]. rewrite Hcm. cbn [N.eqb negb cbc_decryptor NewAesCbcCryptor Cbc_blockCipher Cbc_state].
    rewrite CryptBlocks_dec, Hcb, Hdec; [done|done|]. by apply getDestinationSize_ge.
  - destruct (blocks_split (length src / 16 + k) ct) as [_ Hf]; [lia|].
    pose proof (cbc_dec_length key iv _ Hf Hiv) as Hdl. rewrite Hdec, blocks_length in Hdl. cbn [fst] in Hdl.
    unfold len. rewrite length_app. lia.
  - rewrite Hz, <- !app_assoc. apply take_app_length.
  - intros Hpm. apply Hs0, Hk0, Hpm.
  - intros Hpm. apply Hs1. destruct k; [|lia]. by destruct (proj1 Hk0 eq_refl).
Qed.
End block_cryptors.

(** ** Message authentication *)
Section mac.
Lemma concat4 (a b c d : bytes) : gose_concatByteArrays [a; b; c; d] = a ++ b ++ c ++ d.
Proof. unfold gose_concatByteArrays. cbn [fold_left app]. by rewrite <- !app_assoc. Qed.

(** What the tag of a compact JWE covers. *)
Definition mac_input (aad iv ciphertext : bytes) : bytes := aad ++ iv ++ ciphertext ++ computeAL aad.

Lemma computeAL_length aad : length (computeAL aad) = 8.
Proof. apply be_fixed_length. Qed.
Lemma computeAL_value aad : (len aad < 2 ^ 64)%N → be_to_N (computeAL aad) = len aad.
Proof. intros Hl. unfold computeAL, uintToBytesBigEndian. rewrite be_to_N_fixed. by apply N.mod_small. Qed.

(** The input of the MAC determines the additional data, and the initialization
    vector and the ciphertext taken together. *)
Lemma mac_input_inj aad1 iv1 ct1 aad2 iv2 ct2 : (len aad1 < 2 ^ 64)%N → (len aad2 < 2 ^ 64)%N →
  mac_input aad1 iv1 ct1 = mac_input aad2 iv2 ct2 ↔ aad1 = aad2 ∧ iv1 ++ ct1 = iv2 ++ ct2.
Proof.
  intros H1 H2. unfold mac_input. split.
  - intros Heq. rewrite !app_assoc in Heq.
    apply app_inj_2 in Heq as [Heq Hal]; [|by rewrite !computeAL_length].
    apply (f_equal be_to_N) in Hal. rewrite !computeAL_value in Hal by done.
    rewrite <- !app_assoc in Heq. apply app_inj_1 in Heq; [done|]. unfold len in Hal. lia.
  - intros [-> Hc]. by rewrite (app_assoc iv1), (app_assoc iv2), Hc.
Qed.

(** A cryptor whose key has not been destroyed. *)
Definition live_hmac (c : HmacShaCryptor) (hash : hash_Hash) : Prop := destroyed c = false ∧ ∃ w, Hmac_hash c = Some (hash, w).

(** The tag of an input does not depend on what was hashed before, and hashing
    keeps the key. *)
Lemma HmacShaCryptor_Hash_live c hash input : live_hmac c hash →
  ∃ c', HmacShaCryptor_Hash c input = Ok (hash_mac hash input, c') ∧ live_hmac c' hash ∧ HmacShaCryptor_Kid c' = HmacShaCryptor_Kid c.
Proof.
  intros (Hd & w & Hw). unfold HmacShaCryptor_Hash. rewrite Hd, Hw. cbn [app]. eexists. split; [reflexivity|].
  split; [|done]. split; [done|]. by eexists.
Qed.

(** A hash that counts as keyed: it says so, or it is a type [HMAC] of a package with
    [hmac] in its path, directly or behind a pointer. *)
Definition keyed_hash (hash : hash_Hash) : Prop :=
  hash_IsKeyedHash hash = true ∨ ∃ a b,
    hash_type hash = TypeNamed "HMAC" (a +:+ "hmac" +:+ b) ∨ hash_type hash = TypePointer (TypeNamed "HMAC" (a +:+ "hmac" +:+ b)).

Lemma isHmac_spec hash : isHmac hash = true ↔ ∃ hs, hash = Some hs ∧ keyed_hash hs.
Proof.
  unfold isHmac, keyed_hash. destruct hash as [hs|]; [|by split; [|intros (? & ? & _)]].
  transitivity (hash_IsKeyedHash hs = true ∨ ∃ a b,
    hash_type hs = TypeNamed "HMAC" (a +:+ "hmac" +:+ b) ∨ hash_type hs = TypePointer (TypeNamed "HMAC" (a +:+ "hmac" +:+ b)));
    [|by split; [intros Hk; exists hs|intros (hs' & [= <-] & Hk)]].
  destruct (hash_IsKeyedHash hs); [by split; [left|]|]. rewrite andb_true_iff, bool_decide_eq_true, Contains_spec. split.
  - intros [Hn (a & b & Hp)]. right. exists a, b.
    destruct (hash_type hs) as [n p|[n p|t]]; cbn in Hn, Hp; subst; [by left|by right|done].
  - intros [?|(a & b & [-> | ->])]; [done|..]; (split; [done|by exists a, b]).
Qed.

(** A key is only made from a keyed hash, computes the MAC of whatever it is given
    however often it was used before, and refuses to work once destroyed, which
    destroying it again does not change. *)
Theorem HmacShaCryptor_lifecycle kid hash written inputs input :
  match NewHmacShaCryptor kid hash written with
  | Ok c => ∃ hs, hash = Some hs ∧ keyed_hash hs ∧
      (∃ c', foldr (λ i r, c ← r; snd <$> HmacShaCryptor_Hash c i) (Ok c) inputs = Ok c' ∧
             fst <$> HmacShaCryptor_Hash c' input = Ok (hash_mac hs input) ∧
             HmacShaCryptor_Hash (HmacShaCryptor_Destroy c') input = Panic ∧
             HmacShaCryptor_Destroy (HmacShaCryptor_Destroy c') = HmacShaCryptor_Destroy c')
  | Panic => ∀ hs, hash = Some hs → ¬ keyed_hash hs
  | Err _ => False
  end.
Proof.
  unfold NewHmacShaCryptor. pose proof (isHmac_spec hash) as Hk. destruct (isHmac hash); cbn [negb].
  2:{ intros hs Hs Hks. assert (false = true) by (apply Hk; by exists hs). done. }
  destruct (proj1 Hk eq_refl) as (hs & -> & Hks). exists hs. split_and!; [done|done|]. cbn [fmap option_fmap option_map].
  set (c := {| Hmac_kid := kid; Hmac_hash := Some (hs, written); destroyed := false |}).
  assert (∃ c', foldr (λ i r, c ← r; snd <$> HmacShaCryptor_Hash c i) (Ok c) inputs = Ok c' ∧ live_hmac c' hs) as (c' & Hc & Hl).
  { induction inputs as [|i inputs (c' & Hc & Hl)]; [exists c; split; [done|split; [done|by eexists]]|].
    cbn [foldr]. rewrite Hc. cbn [mbind res_bind]. destruct (HmacShaCryptor_Hash_live c' hs i Hl) as (c2 & -> & Hl2 & _). by exists c2. }
  exists c'. split; [done|]. destruct (HmacShaCryptor_Hash_live c' hs input Hl) as (c2 & -> & _). split_and!; done.
Qed.

(** A compact JWE passes exactly when its tag is the MAC of its header octets, its
    initialization vector, its ciphertext and the length of the header octets. *)
Lemma VerifyCompact_live v hash jwe aad : live_hmac (hmacKey v) hash → JweRfc7516Compact_AAD jwe = Ok aad →
  ∃ v', JweHmacVerifierImpl_VerifyCompact v jwe =
    Ok (bool_decide (hash_mac hash (mac_input aad (InitializationVector jwe) (Ciphertext jwe)) = AuthenticationTag jwe), v') ∧
    live_hmac (hmacKey v') hash.
Proof.
  intros Hl Ha. unfold JweHmacVerifierImpl_VerifyCompact. rewrite Ha. cbn [wrap_err mbind res_bind]. rewrite concat4. cbn [HmacKey_Hash HmacShaCryptor_Hmac].
  destruct (HmacShaCryptor_Hash_live (hmacKey v) hash (mac_input aad (InitializationVector jwe) (Ciphertext jwe)) Hl) as (c & Hc & Hl' & _).
  unfold mac_input in Hc. rewrite Hc. cbn [mbind res_bind]. by eexists.
Qed.

Lemma ComputeHash_live v hash aad iv ct : live_hmac (hmacKey v) hash →
  ∃ v', JweHmacVerifierImpl_ComputeHash v aad iv ct = Ok (hash_mac hash (mac_input aad iv ct), v') ∧ live_hmac (hmacKey v') hash.
Proof.
  intros Hl. unfold JweHmacVerifierImpl_ComputeHash. rewrite concat4. cbn [HmacKey_Hash HmacShaCryptor_Hmac].
  destruct (HmacShaCryptor_Hash_live (hmacKey v) hash (mac_input aad iv ct) Hl) as (c & Hc & Hl' & _).
  unfold mac_input in Hc. rewrite Hc. cbn [mbind res_bind]. by eexists.
Qed.

(** C36. Two compact JWEs with the same tag that both pass have the same header octets
    and the same initialization vector and ciphertext taken together, unless the octets
    that the code computes the MAC of for the one and for the other are different and
    have the same MAC: the two JWEs are themselves a collision.  Nothing fixes the border
    between the vector and the ciphertext: a JWE that passes also passes with that border
    moved. *)
Theorem VerifyCompact_binds v hash jwe1 jwe2 aad1 aad2 v1 :
  live_hmac (hmacKey v) hash →
  JweRfc7516Compact_AAD jwe1 = Ok aad1 → JweRfc7516Compact_AAD jwe2 = Ok aad2 → (len aad1 < 2 ^ 64)%N → (len aad2 < 2 ^ 64)%N →
  JweHmacVerifierImpl_VerifyCompact v jwe1 = Ok (true, v1) → AuthenticationTag jwe1 = AuthenticationTag jwe2 →
  let same := aad1 = aad2 ∧ InitializationVector jwe1 ++ Ciphertext jwe1 = InitializationVector jwe2 ++ Ciphertext jwe2 in
  (same → ∃ v2, JweHmacVerifierImpl_VerifyCompact v jwe2 = Ok (true, v2)) ∧
  (∀ v2, JweHmacVerifierImpl_VerifyCompact v jwe2 = Ok (true, v2) →
     let input1 := mac_input aad1 (InitializationVector jwe1) (Ciphertext jwe1) in
     let input2 := mac_input aad2 (InitializationVector jwe2) (Ciphertext jwe2) in
     same ∨ (input1 ≠ input2 ∧ hash_mac hash input1 = hash_mac hash input2)).
Proof.
  intros Hl H1 H2 Hl1 Hl2 Hv Ht same.
  destruct (VerifyCompact_live v hash jwe1 aad1 Hl H1) as (w1 & E1 & _). destruct (VerifyCompact_live v hash jwe2 aad2 Hl H2) as (w2 & E2 & _).
  rewrite Hv in E1. injection E1 as E1 _. symmetry in E1. apply bool_decide_eq_true in E1.
  pose proof (mac_input_inj aad1 (InitializationVector jwe1) (Ciphertext jwe1) aad2 (InitializationVector jwe2) (Ciphertext jwe2) Hl1 Hl2) as Hinj.
  split.
  - intros Hs. apply Hinj in Hs. exists w2. rewrite E2. by rewrite bool_decide_true by congruence.
  - intros v2 Hv2. rewrite E2 in Hv2. injection Hv2 as Hv2 _. apply bool_decide_eq_true in Hv2.
    destruct (decide (mac_input aad1 (InitializationVector jwe1) (Ciphertext jwe1) = mac_input aad2 (InitializationVector jwe2) (Ciphertext jwe2))) as [Hm|Hm].
    + left. by apply Hinj.
    + right. split; [exact Hm|]. congruence.
Qed.

(** [computeAL] counts the octets of the additional data, where [GetALFromAAD] and
    RFC 7518 count its bits: the two encode the same length for no data at all only. *)
Theorem computeAL_octets aad : (len aad < 2 ^ 61)%N →
  be_to_N (computeAL aad) = len aad ∧ be_to_N (GetALFromAAD aad) = (8 * be_to_N (computeAL aad))%N ∧
  (computeAL aad = GetALFromAAD aad ↔ aad = []).
Proof.
  intros Hl. assert (len aad < 2 ^ 64)%N as Hl' by lia.
  assert (be_to_N (GetALFromAAD aad) = (8 * len aad)%N) as Hg.
  { unfold GetALFromAAD. rewrite be_to_N_fixed. rewrite N.mod_small; [lia|]. change (256 ^ N.of_nat 8)%N with (2 ^ 64)%N. lia. }
  rewrite computeAL_value by done. split_and!; [done|done|]. split; [|by intros ->].
  intros Heq. apply (f_equal be_to_N) in Heq. rewrite Hg, computeAL_value in Heq by done. destruct aad; [done|]. unfold len in Heq. cbn in Heq. lia.
Qed.
End mac.
