(* ===== verification/HmacSteps.v ===== *)
(** [hmac_sha_cryptor.go] under concurrency: any number of goroutines call [Hash] and
    [Destroy] of one cryptor.

    A call takes one step for each operation on the shared hash.  [Cryptors] has the
    same methods as one step each; the calls here refine those, because of the
    mutex: every run is one in which the calls happen one after the other. *)

From S2P Require Import Prelude Errors Base64 Json JsonFacts JsonCodec Types Crypto Jwk Jws Jwe Helpers Interfaces Cryptors BlockFacts.

(** ** Where a call is *)
Inductive hmac_pc :=
  | HLock (input : bytes) | HCheck (input : bytes) | HReset (input : bytes) | HWrite (input : bytes) | HSum (input : bytes)
  | HUnlock (input : bytes) (r : result bytes) | HDone (input : bytes) (r : result bytes)
  | DLock | DMark | DClear | DUnlock | DDone.

(** What a call that has given up the mutex did, for the record only. *)
Inductive hmac_event :=
  | EvHash (t : nat) (input : bytes) (r : result bytes)
  | EvDestroy (t : nat).

Record hmac_state := {
  hs_cryptor : HmacShaCryptor;
  hs_owner : option nat;
  hs_calls : gmap nat hmac_pc;
  hs_log : list hmac_event;
}.

Definition hmac_init (c : HmacShaCryptor) : hmac_state := {| hs_cryptor := c; hs_owner := None; hs_calls := ∅; hs_log := [] |}.

(** ** Steps *)
Definition set_written (w : bytes) (c : HmacShaCryptor) : HmacShaCryptor :=
  {| Hmac_kid := Hmac_kid c; Hmac_hash := (λ hw, (hw.1, w)) <$> Hmac_hash c; destroyed := destroyed c |}.
Definition mark_destroyed (c : HmacShaCryptor) : HmacShaCryptor :=
  {| Hmac_kid := Hmac_kid c; Hmac_hash := Hmac_hash c; destroyed := true |}.
Definition clear_hash (c : HmacShaCryptor) : HmacShaCryptor :=
  {| Hmac_kid := Hmac_kid c; Hmac_hash := None; destroyed := destroyed c |}.

(** Call [t] goes on to [p]. *)
Definition hgoto (t : nat) (p : hmac_pc) (s : hmac_state) : hmac_state :=
  {| hs_cryptor := hs_cryptor s; hs_owner := hs_owner s; hs_calls := <[t := p]> (hs_calls s); hs_log := hs_log s |}.
Definition hwith (c : HmacShaCryptor) (s : hmac_state) : hmac_state :=
  {| hs_cryptor := c; hs_owner := hs_owner s; hs_calls := hs_calls s; hs_log := hs_log s |}.
Definition hlocked (t : nat) (s : hmac_state) : hmac_state :=
  {| hs_cryptor := hs_cryptor s; hs_owner := Some t; hs_calls := hs_calls s; hs_log := hs_log s |}.
Definition hunlocked (ev : hmac_event) (s : hmac_state) : hmac_state :=
  {| hs_cryptor := hs_cryptor s; hs_owner := None; hs_calls := hs_calls s; hs_log := hs_log s ++ [ev] |}.

(** Using a nil hash panics; the deferred unlock runs all the same. *)
Inductive hmac_step (s : hmac_state) : hmac_state → Prop :=
  | hm_spawn_hash t input : hs_calls s !! t = None → hmac_step s (hgoto t (HLock input) s)
  | hm_spawn_destroy t : hs_calls s !! t = None → hmac_step s (hgoto t DLock s)
  | hm_lock t input : hs_calls s !! t = Some (HLock input) → hs_owner s = None → hmac_step s (hgoto t (HCheck input) (hlocked t s))
  | hm_check t input : hs_calls s !! t = Some (HCheck input) →
      hmac_step s (hgoto t (if destroyed (hs_cryptor s) then HUnlock input Panic else HReset input) s)
  | hm_reset t input : hs_calls s !! t = Some (HReset input) →
      hmac_step s (match Hmac_hash (hs_cryptor s) with
                   | None => hgoto t (HUnlock input Panic) s
                   | Some _ => hgoto t (HWrite input) (hwith (set_written [] (hs_cryptor s)) s)
                   end)
  | hm_write t input : hs_calls s !! t = Some (HWrite input) →
      hmac_step s (match Hmac_hash (hs_cryptor s) with
                   | None => hgoto t (HUnlock input Panic) s
                   | Some (_, w) => hgoto t (HSum input) (hwith (set_written (w ++ input) (hs_cryptor s)) s)
                   end)
  | hm_sum t input : hs_calls s !! t = Some (HSum input) →
      hmac_step s (match Hmac_hash (hs_cryptor s) with
                   | None => hgoto t (HUnlock input Panic) s
                   | Some (hash, w) => hgoto t (HUnlock input (Ok (hash_mac hash w))) s
                   end)
  | hm_unlock t input r : hs_calls s !! t = Some (HUnlock input r) → hmac_step s (hgoto t (HDone input r) (hunlocked (EvHash t input r) s))
  | hm_dlock t : hs_calls s !! t = Some DLock → hs_owner s = None → hmac_step s (hgoto t DMark (hlocked t s))
  | hm_mark t : hs_calls s !! t = Some DMark → hmac_step s (hgoto t DClear (hwith (mark_destroyed (hs_cryptor s)) s))
  | hm_clear t : hs_calls s !! t = Some DClear → hmac_step s (hgoto t DUnlock (hwith (clear_hash (hs_cryptor s)) s))
  | hm_dunlock t : hs_calls s !! t = Some DUnlock → hmac_step s (hgoto t DDone (hunlocked (EvDestroy t) s)).

(** ** The calls one after the other *)
(** What the methods of [Cryptors] answer to a list of calls. *)
Inductive sequential (c0 : HmacShaCryptor) : list hmac_event → HmacShaCryptor → Prop :=
  | seq_nil : sequential c0 [] c0
  | seq_hash l c t input m c' : sequential c0 l c → HmacShaCryptor_Hash c input = Ok (m, c') → sequential c0 (l ++ [EvHash t input (Ok m)]) c'
  | seq_panic l c t input : sequential c0 l c → HmacShaCryptor_Hash c input = Panic → sequential c0 (l ++ [EvHash t input Panic]) c
  | seq_destroy l c t : sequential c0 l c → sequential c0 (l ++ [EvDestroy t]) (HmacShaCryptor_Destroy c).

(** How far the call that has the mutex is, when [c] is the cryptor that it found and
    [cur] the present one. *)
Definition critical (p : hmac_pc) (c cur : HmacShaCryptor) : Prop :=
  match p with
  | HCheck _ | DMark => cur = c
  | HReset _ => cur = c ∧ destroyed c = false
  | HWrite _ => destroyed c = false ∧ is_Some (Hmac_hash c) ∧ cur = set_written [] c
  | HSum input => destroyed c = false ∧ is_Some (Hmac_hash c) ∧ cur = set_written input c
  | HUnlock input r =>
    match r with
    | Ok m => HmacShaCryptor_Hash c input = Ok (m, cur)
    | Err _ => False
    | Panic => HmacShaCryptor_Hash c input = Panic ∧ cur = c
    end
  | DClear => cur = mark_destroyed c
  | DUnlock => cur = HmacShaCryptor_Destroy c
  | _ => False
  end.

(** Only the call that has the mutex touches the cryptor, and calls that are done are on record. *)
Record hmac_inv (c0 : HmacShaCryptor) (s : hmac_state) : Prop := {
  hinv_log : ∃ c, sequential c0 (hs_log s) c ∧
    match hs_owner s with
    | None => hs_cryptor s = c
    | Some t => ∃ p, hs_calls s !! t = Some p ∧ critical p c (hs_cryptor s)
    end;
  hinv_owner t p : hs_calls s !! t = Some p →
    match p with HLock _ | DLock | HDone _ _ | DDone => True | _ => hs_owner s = Some t end;
  hinv_done t input r : hs_calls s !! t = Some (HDone input r) → EvHash t input r ∈ hs_log s;
}.

Lemma hmac_init_inv c : hmac_inv c (hmac_init c).
Proof. split; cbn; [exists c; split; [constructor|done]|intros t p; by rewrite lookup_empty|intros t input r; by rewrite lookup_empty]. Qed.

(** A call goes on within its critical section. *)
Lemma inv_critical c0 s t p p' cur : hmac_inv c0 s → hs_calls s !! t = Some p → hs_owner s = Some t →
  (∀ c, critical p c (hs_cryptor s) → critical p' c cur) →
  match p' with HLock _ | DLock | HDone _ _ | DDone => False | _ => True end →
  hmac_inv c0 (hgoto t p' (hwith cur s)).
Proof.
  intros [(c & Hlog & Hown) Hmu Hdone] Ht Ho Hc Hp'. rewrite Ho in Hown. destruct Hown as (p0 & Hp0 & Hcr). simplify_eq. split; cbn.
  - exists c. split; [done|]. rewrite Ho. exists p'. rewrite lookup_insert_eq. split; [done|by apply Hc].
  - intros t' q. destruct (decide (t' = t)) as [->|Hn]; [rewrite lookup_insert_eq; intros [= <-]; by destruct p'|].
    rewrite lookup_insert_ne by done. apply Hmu.
  - intros t' input r. destruct (decide (t' = t)) as [->|Hn]; [rewrite lookup_insert_eq; intros [= ->]; done|].
    rewrite lookup_insert_ne by done. apply Hdone.
Qed.

(** A call takes the mutex. *)
Lemma inv_lock c0 s t p p' : hmac_inv c0 s → hs_calls s !! t = Some p → hs_owner s = None → (∀ c, critical p' c c) →
  hmac_inv c0 (hgoto t p' (hlocked t s)).
Proof.
  intros [(c & Hlog & Hown) Hmu Hdone] Ht Ho Hc. rewrite Ho in Hown. split; cbn.
  - exists c. split; [done|]. exists p'. rewrite lookup_insert_eq, Hown. split; [done|apply Hc].
  - intros t' q. destruct (decide (t' = t)) as [->|Hn]; [rewrite lookup_insert_eq; intros _; by destruct q|].
    rewrite lookup_insert_ne by done. intros Hq. specialize (Hmu _ _ Hq). rewrite Ho in Hmu. by destruct q.
  - intros t' input r. destruct (decide (t' = t)) as [->|Hn]; [rewrite lookup_insert_eq; intros [= ->]; by destruct (Hc c)|].
    rewrite lookup_insert_ne by done. apply Hdone.
Qed.

(** A call gives up the mutex, and what it did is the next event. *)
Lemma inv_unlock c0 s t p p' ev : hmac_inv c0 s → hs_calls s !! t = Some p → hs_owner s = Some t →
  (∀ c l, sequential c0 l c → critical p c (hs_cryptor s) → sequential c0 (l ++ [ev]) (hs_cryptor s)) →
  match p' with HDone input r => ev = EvHash t input r | DDone => True | _ => False end →
  hmac_inv c0 (hgoto t p' (hunlocked ev s)).
Proof.
  intros [(c & Hlog & Hown) Hmu Hdone] Ht Ho Hc Hp'. rewrite Ho in Hown. destruct Hown as (p0 & Hp0 & Hcr). simplify_eq. split; cbn.
  - exists (hs_cryptor s). split; [by eapply Hc|done].
  - intros t' q. destruct (decide (t' = t)) as [->|Hn]; [rewrite lookup_insert_eq; intros [= <-]; by destruct p'|].
    rewrite lookup_insert_ne by done. intros Hq. specialize (Hmu _ _ Hq). rewrite Ho in Hmu. destruct q; try done; by injection Hmu as ->.
  - intros t' input r. rewrite elem_of_app, list_elem_of_singleton. destruct (decide (t' = t)) as [->|Hn].
    + rewrite lookup_insert_eq. intros [= ->]. by right.
    + rewrite lookup_insert_ne by done. intros Hd. left. by apply Hdone.
Qed.

(** A new call does not touch anything. *)
Lemma inv_spawn c0 s t p : hmac_inv c0 s → hs_calls s !! t = None → match p with HLock _ | DLock => True | _ => False end →
  hmac_inv c0 (hgoto t p s).
Proof.
  intros [(c & Hlog & Hown) Hmu Hdone] Ht Hp. split; cbn.
  - exists c. split; [done|]. destruct (hs_owner s) as [t'|]; [|done]. destruct Hown as (q & Hq & Hcr). exists q.
    rewrite lookup_insert_ne; [done|]. by intros ->; rewrite Ht in Hq.
  - intros t' q. destruct (decide (t' = t)) as [->|Hn]; [rewrite lookup_insert_eq; intros [= <-]; by destruct p|].
    rewrite lookup_insert_ne by done. apply Hmu.
  - intros t' input r. destruct (decide (t' = t)) as [->|Hn]; [rewrite lookup_insert_eq; intros [= ->]; done|].
    rewrite lookup_insert_ne by done. apply Hdone.
Qed.

(** The step that [Hash] makes of a cryptor. *)
Lemma Hash_live c input hash w : destroyed c = false → Hmac_hash c = Some (hash, w) →
  HmacShaCryptor_Hash c input = Ok (hash_mac hash input, set_written input c).
Proof. intros Hd Hh. unfold HmacShaCryptor_Hash, set_written. by rewrite Hd, Hh. Qed.

Lemma hmac_step_inv c0 s s' : hmac_step s s' → hmac_inv c0 s → hmac_inv c0 s'.
Proof.
  intros Hs Hi. pose proof (hinv_owner _ _ Hi) as Hmu. destruct Hs as
    [t i Ht|t Ht|t i Ht Ho|t i Ht|t i Ht|t i Ht|t i Ht|t i r Ht|t Ht Ho|t Ht|t Ht|t Ht].
  - by apply inv_spawn.
  - by apply inv_spawn.
  - by eapply inv_lock.
  - eapply (inv_critical _ _ _ _ _ (hs_cryptor s)); [done|exact Ht|exact (Hmu _ _ Ht)| |by destruct (destroyed _)].
    intros c Hc. cbn in Hc. destruct (destroyed (hs_cryptor s)) eqn:Hd; cbn; rewrite Hc in Hd; [|done]. split; [|done].
    unfold HmacShaCryptor_Hash. by rewrite Hd.
  - destruct (Hmac_hash (hs_cryptor s)) as [[hash w]|] eqn:Hh.
    + eapply inv_critical; [done|exact Ht|exact (Hmu _ _ Ht)| |done]. intros c [Hc Hd]. cbn. rewrite Hc in *. split_and!; [done|by rewrite Hh|done].
    + eapply (inv_critical _ _ _ _ _ (hs_cryptor s)); [done|exact Ht|exact (Hmu _ _ Ht)| |done].
      intros c [Hc Hd]. cbn. split; [|done]. unfold HmacShaCryptor_Hash. rewrite Hc in Hh. by rewrite Hd, Hh.
  - destruct (Hmac_hash (hs_cryptor s)) as [[hash w]|] eqn:Hh.
    + eapply inv_critical; [done|exact Ht|exact (Hmu _ _ Ht)| |done]. intros c (Hd & [[hs w0] Hs] & Hc). cbn.
      rewrite Hc in Hh |- *. cbn in Hh. rewrite Hs in Hh. injection Hh as <- <-. split_and!; [done|by eexists|]. unfold set_written. cbn. by rewrite Hs.
    + eapply (inv_critical _ _ _ _ _ (hs_cryptor s)); [done|exact Ht|exact (Hmu _ _ Ht)| |done].
      intros c (_ & [hw Hs] & Hc). rewrite Hc in Hh. cbn in Hh. by rewrite Hs in Hh.
  - destruct (Hmac_hash (hs_cryptor s)) as [[hash w]|] eqn:Hh;
      (eapply (inv_critical _ _ _ _ _ (hs_cryptor s)); [done|exact Ht|exact (Hmu _ _ Ht)| |done]); intros c (Hd & [[hs w0] Hs] & Hc);
      rewrite Hc in Hh |- *; cbn in Hh; rewrite Hs in Hh; [|done]. injection Hh as <- <-. cbn. by eapply Hash_live.
  - eapply inv_unlock; [done|exact Ht|exact (Hmu _ _ Ht)| |done]. intros c l Hl Hc. cbn in Hc. destruct r as [m|e|]; [by eapply seq_hash|done|].
    destruct Hc as [Hp ->]. by apply seq_panic.
  - by eapply inv_lock.
  - eapply inv_critical; [done|exact Ht|exact (Hmu _ _ Ht)| |done]. intros c Hc. cbn in Hc |- *. by rewrite Hc.
  - eapply inv_critical; [done|exact Ht|exact (Hmu _ _ Ht)| |done]. intros c Hc. cbn in Hc |- *. by rewrite Hc.
  - eapply inv_unlock; [done|exact Ht|exact (Hmu _ _ Ht)| |done]. intros c l Hl Hc. cbn in Hc. rewrite Hc. by apply seq_destroy.
Qed.

Lemma hmac_reachable_inv c0 s : rtc hmac_step (hmac_init c0) s → hmac_inv c0 s.
Proof.
  intros Hs. assert (hmac_inv c0 (hmac_init c0)) as Hi by apply hmac_init_inv. revert Hi.
  induction Hs as [|s1 s2 s3 Hstep _ IH]; [done|]. intros Hi. by eapply IH, hmac_step_inv.
Qed.

(** What the calls answer, one after the other: the MAC of their own input as long as the
    key has not been destroyed. *)
Lemma sequential_answers c0 hash l c : live_hmac c0 hash → sequential c0 l c →
  (∀ t input r, EvHash t input r ∈ l → r = Ok (hash_mac hash input) ∨ (r = Panic ∧ ∃ t', EvDestroy t' ∈ l)) ∧
  (live_hmac c hash ∨ ∃ t, EvDestroy t ∈ l) ∧ (destroyed c = false → live_hmac c hash).
Proof.
  intros Hl. induction 1 as [|l c t input m c' Hs (IHr & IHl & IHd) Hh|l c t input Hs (IHr & IHl & IHd) Hh|l c t Hs (IHr & IHl & IHd)].
  - split_and!; [by intros t i r ?%elem_of_nil|by left|done].
  - assert (destroyed c = false) as Hd by (unfold HmacShaCryptor_Hash in Hh; by destruct (destroyed c)).
    destruct (HmacShaCryptor_Hash_live c hash input (IHd Hd)) as (c2 & Hc2 & Hl2 & _). rewrite Hh in Hc2. injection Hc2 as -> <-.
    split_and!; [|by left|done]. intros t' i r. rewrite elem_of_app, list_elem_of_singleton. intros [Hin|[= -> -> ->]]; [|by left].
    destruct (IHr _ _ _ Hin) as [->|[-> [t2 Ht2]]]; [by left|]. right. split; [done|]. exists t2. rewrite elem_of_app. by left.
  - assert (∃ t2, EvDestroy t2 ∈ l) as [t2 Ht2].
    { destruct IHl as [Hlc|?]; [|done]. destruct (HmacShaCryptor_Hash_live c hash input Hlc) as (c2 & Hc2 & _). by rewrite Hh in Hc2. }
    assert (∃ t', EvDestroy t' ∈ l ++ [EvHash t input Panic]) as Hex by (exists t2; rewrite elem_of_app; by left).
    split_and!; [|by right|done]. intros t' i r. rewrite elem_of_app, list_elem_of_singleton. intros [Hin|[= -> -> ->]]; [|by right].
    destruct (IHr _ _ _ Hin) as [->|[-> _]]; [by left|by right].
  - assert (∃ t', EvDestroy t' ∈ l ++ [EvDestroy t]) as Hex by (exists t; rewrite elem_of_app, list_elem_of_singleton; by right).
    split_and!; [|by right|done]. intros t' i r. rewrite elem_of_app, list_elem_of_singleton. intros [Hin|?]; [|done].
    destruct (IHr _ _ _ Hin) as [->|[-> _]]; [by left|by right].
Qed.

(** C14. However the operations of concurrent calls of one cryptor interleave, the calls that
    are done answered what they would have answered one after the other, in the order
    in which they released the mutex; and between calls the cryptor is what it would
    be.  So a call answers the MAC of its own input, whatever the others hash; it
    panics only if the key was destroyed. *)
Theorem hmac_calls_atomic c0 hash s : live_hmac c0 hash → rtc hmac_step (hmac_init c0) s →
  (∃ c, sequential c0 (hs_log s) c ∧ (hs_owner s = None → hs_cryptor s = c)) ∧
  ∀ t input r, hs_calls s !! t = Some (HDone input r) →
    EvHash t input r ∈ hs_log s ∧ (r = Ok (hash_mac hash input) ∨ (r = Panic ∧ ∃ t', EvDestroy t' ∈ hs_log s)).
Proof.
  intros Hl Hs. pose proof (hmac_reachable_inv _ _ Hs) as [(c & Hlog & Hown) _ Hdone]. split.
  - exists c. split; [done|]. intros Ho. by rewrite Ho in Hown.
  - intros t input r Ht. specialize (Hdone _ _ _ Ht). split; [done|]. destruct (sequential_answers _ _ _ _ Hl Hlog) as [Hr _]. by eapply Hr.
Qed.

(** ** Calls come to an end *)
(** The steps a call has in front of it, at most. *)
Definition hrank (p : hmac_pc) : nat :=
  match p with
  | HLock _ => 6 | HCheck _ => 5 | HReset _ => 4 | HWrite _ => 3 | HSum _ => 2 | HUnlock _ _ => 1 | HDone _ _ => 0
  | DLock => 4 | DMark => 3 | DClear => 2 | DUnlock => 1 | DDone => 0
  end.

Definition hwork (s : hmac_state) : nat := total hrank (hs_calls s).

(** A step of a call that has begun. *)
Definition hmac_internal (s s' : hmac_state) : Prop := hmac_step s s' ∧ dom (hs_calls s') = dom (hs_calls s).
Definition hmac_done (p : hmac_pc) : Prop := match p with HDone _ _ | DDone => True | _ => False end.

Lemma internal_work s s' : hmac_internal s s' → hwork s' < hwork s.
Proof.
  intros [Hs Hd]. destruct Hs as [t i Ht|t Ht|t i Ht Ho|t i Ht|t i Ht|t i Ht|t i Ht|t i r Ht|t Ht Ho|t Ht|t Ht|t Ht];
    unfold hwork;
    try (match goal with |- context [match Hmac_hash ?c with _ => _ end] => destruct (Hmac_hash c) as [[hash w]|] end);
    cbn [hs_calls hgoto hwith hlocked hunlocked] in *;
    try (exfalso; apply not_elem_of_dom in Ht; apply Ht; rewrite <- Hd; set_solver; fail);
    match goal with |- total _ (<[_ := ?p]> _) < _ => pose proof (total_update hrank _ _ _ p Ht) as Hu end;
    repeat (match type of Hu with context [if ?b then _ else _] => destruct b end); cbn [hrank] in Hu; lia.
Qed.

(** A call goes on within the calls that there are. *)
Lemma internal_goto s s' t p p' : hmac_step s s' → hs_calls s !! t = Some p → hs_calls s' = <[t := p']> (hs_calls s) → hmac_internal s s'.
Proof. intros Hs Ht Hc. split; [done|]. rewrite Hc, dom_insert_L. apply elem_of_dom_2 in Ht. set_solver. Qed.

(** A call that is not done and does not wait for the mutex can go on. *)
Lemma holder_steps s t p : hs_calls s !! t = Some p → ¬ hmac_done p → (∀ i, p ≠ HLock i) → p ≠ DLock → red hmac_internal s.
Proof.
  intros Ht Hd Hl Hdl. unfold red. destruct p as [i|i|i|i|i|i r|i r| | | | |]; try (by destruct (Hl i)); try (by destruct Hd); try done.
  - eexists. eapply internal_goto; [by apply hm_check|exact Ht|reflexivity].
  - pose proof (hm_reset s t i Ht) as Hs. destruct (Hmac_hash (hs_cryptor s)); (eexists; eapply internal_goto; [exact Hs|exact Ht|reflexivity]).
  - pose proof (hm_write s t i Ht) as Hs. destruct (Hmac_hash (hs_cryptor s)) as [[? ?]|]; (eexists; eapply internal_goto; [exact Hs|exact Ht|reflexivity]).
  - pose proof (hm_sum s t i Ht) as Hs. destruct (Hmac_hash (hs_cryptor s)) as [[? ?]|]; (eexists; eapply internal_goto; [exact Hs|exact Ht|reflexivity]).
  - eexists. eapply internal_goto; [by apply hm_unlock|exact Ht|reflexivity].
  - eexists. eapply internal_goto; [by apply hm_mark|exact Ht|reflexivity].
  - eexists. eapply internal_goto; [by apply hm_clear|exact Ht|reflexivity].
  - eexists. eapply internal_goto; [by apply hm_dunlock|exact Ht|reflexivity].
Qed.

(** C35. Every call returns: once no new calls start, no run goes on for ever, whatever the
    scheduler does, and a run that cannot go on has all its calls done.  In particular a
    panic does not leave the mutex locked. *)
Theorem hmac_calls_end c0 s : rtc hmac_step (hmac_init c0) s →
  sn hmac_internal s ∧ (nf hmac_internal s ↔ ∀ t p, hs_calls s !! t = Some p → hmac_done p).
Proof.
  intros Hs. pose proof (hmac_reachable_inv _ _ Hs) as [(c & _ & Hown) _ _]. clear Hs. split; [|split].
  - clear.
    remember (hwork s) as n eqn:Hn. revert s Hn. induction n as [n IH] using lt_wf_ind. intros s ->. constructor. intros s' Hs'.
    eapply IH; [by apply internal_work|done].
  - intros Hnf t p Ht. destruct (hs_owner s) as [t'|] eqn:Ho.
    + destruct Hown as (q & Hq & Hcr). destruct Hnf. eapply holder_steps; [exact Hq|intros Hd; by destruct q|by intros i ->|by intros ->].
    + destruct p as [i|i|i|i|i|i r|i r| | | | |] eqn:Ep; try done; destruct Hnf;
        try (eapply holder_steps; [exact Ht|intros Hd; exact Hd|done|done]).
      * eexists. eapply internal_goto; [by apply hm_lock|exact Ht|reflexivity].
      * eexists. eapply internal_goto; [by apply hm_dlock|exact Ht|reflexivity].
  - intros Hall [s' Hi]. pose proof (internal_work _ _ Hi) as Hw. assert (hwork s = 0) as Hz; [|lia].
    clear -Hall. unfold hwork. revert Hall. generalize (hs_calls s). intros m. induction m as [|t p m Hn IH] using map_ind; [done|].
    intros Hall. rewrite total_insert by done. rewrite IH.
    + specialize (Hall t p (lookup_insert_eq _ _ _)). by destruct p.
    + intros t' p' Ht'. apply (Hall t'). rewrite lookup_insert_ne; [done|]. by intros <-; rewrite Hn in Ht'.
Qed.
