(* ===== verification/JweCryptors.v ===== *)
(** [jwe_direct_encryptor_aead.go], [jwe_direct_decryptor_aead.go],
    [jwe_direct_encryptor_block.go], [jwe_direct_decryptor_block.go],
    [jwe_key_encryption_encryptor.go], [jwe_key_encryption_decryptor.go] and
    [asymmetric_decryption_key_store.go]: encrypting to and decrypting from compact
    JWEs.

    The keys are used through the classes of [Interfaces].  A random source is a
    tape; the block cryptors have a state, which encrypting and decrypting return. *)

From S2P Require Import Prelude Errors Base64 Json JsonFacts JsonCodec Types Crypto Jwk Jws Jwe Helpers Keys Interfaces Cryptors.

Definition Jwe_zero : Jwe :=
  {| Dep_Header := JweProtectedHeader_zero; MarshalledHeader := []; Dep_EncryptedKey := []; Dep_Iv := []; Dep_Ciphertext := [];
     Dep_Tag := []; Plaintext := [] |}.

(** A lookup in a Go map of encryptions gives the empty one for a missing key. *)
Definition gcmAlgToEncMap (alg : Alg) : option Enc :=
  if bool_decide (alg = AlgA128GCM) then Some EncA128GCM
  else if bool_decide (alg = AlgA192GCM) then Some EncA192GCM
  else if bool_decide (alg = AlgA256GCM) then Some EncA256GCM
  else None.
Definition cbcAlgToEncMap (alg : Alg) : option Enc :=
  if bool_decide (alg = AlgA256CBC) then Some EncA256CBC
  else if bool_decide (alg = AlgA256GCM) then Some EncA256GCM
  else None.

(** ** Direct encryption with an AEAD *)
Section direct_aead.
Context {K : Type} `{!AeadEncryptionKey K}.

Record JweDirectEncryptorAead := { Dea_key : K; externalIV : bool }.

Definition NewJweDirectEncryptorAead (key : K) (externalIV : bool) : JweDirectEncryptorAead :=
  {| Dea_key := key; externalIV := externalIV |}.

Definition JweDirectEncryptorAead_Encrypt (rng : tape) (encryptor : JweDirectEncryptorAead) (plaintext aad : bytes) : result (string * tape) :=
  let key := Dea_key encryptor in
  '(nonce, rng) ← (if negb (externalIV encryptor)
                   then '(n, rng) ← AeadKey_GenerateNonce rng key; Ok (Some n, rng)
                   else Ok (None, rng));
  let customHeaderFields := {| OtherAad := if (0 <? len aad)%N then Some aad else None |} in
  jwe ← Jwe_MarshalHeader {|
    Dep_Header := {|
      Jwe_Jws := set_Kid (AeadKey_Kid key) (set_Alg AlgDir JwsHeader_zero);
      Jwe_Custom := customHeaderFields;
      Jwe_Enc := default "" (gcmAlgToEncMap (AeadKey_Algorithm key));
      Jwe_Zip := "" |};
    MarshalledHeader := []; Dep_EncryptedKey := []; Dep_Iv := default [] nonce; Dep_Ciphertext := []; Dep_Tag := []; Plaintext := plaintext |};
  '(ciphertext, tag, rng) ← AeadKey_Seal rng key KeyOpsEncrypt nonce (Plaintext jwe) (MarshalledHeader jwe);
  '(iv, tag, rng) ←
    (if externalIV encryptor then
       '(throwaway, rng) ← AeadKey_GenerateNonce rng key;
       if (len tag <? len throwaway)%N then gose_err Gose.ErrInvalidAuthenticationTag
       else Ok (drop (length tag - length throwaway) tag, take (length tag - length throwaway) tag, rng)
     else Ok (Dep_Iv jwe, tag, rng));
  Ok (Jwe_Marshal {| Dep_Header := Dep_Header jwe; MarshalledHeader := MarshalledHeader jwe; Dep_EncryptedKey := Dep_EncryptedKey jwe;
                     Dep_Iv := iv; Dep_Ciphertext := ciphertext; Dep_Tag := tag; Plaintext := Plaintext jwe |}, rng).

Record JweDirectDecryptorAeadImpl := { Dda_keystore : gmap string K }.

Definition NewJweDirectDecryptorAeadImpl (keys : list K) : JweDirectDecryptorAeadImpl :=
  {| Dda_keystore := fold_left (λ m key, <[AeadKey_Kid key := key]> m) keys ∅ |}.

(** The plaintext and the additional data; nil data are empty. *)
Definition JweDirectDecryptorAeadImpl_Decrypt (decryptor : JweDirectDecryptorAeadImpl) (jwe : string) : result (bytes * bytes) :=
  if (MaxCompactSize <? slen jwe)%N then gose_err Gose.ErrInputTooLarge
  else
    jweStruct ← Jwe_Unmarshal Jwe_zero jwe;
    let header := Dep_Header jweStruct in
    if negb (str_empty (Jwe_Zip header)) then gose_err Gose.ErrZipCompressionNotSupported
    else if (slen (Jws_Kid (Jwe_Jws header)) =? 0)%N then gose_err Gose.ErrInvalidKid
    else
      match Dda_keystore decryptor !! Jws_Kid (Jwe_Jws header) with
      | None => gose_err Gose.ErrUnknownKey
      | Some key =>
        match gcmAlgToEncMap (AeadKey_Algorithm key) with
        | None => gose_err Gose.ErrInvalidEncryption
        | Some enc =>
          if negb (bool_decide (Jws_Alg (Jwe_Jws header) = AlgDir)) || negb (bool_decide (Jwe_Enc header = enc))
          then gose_err Gose.ErrInvalidAlgorithm
          else
            plaintext ← AeadKey_Open key KeyOpsDecrypt (Dep_Iv jweStruct) (Dep_Ciphertext jweStruct) (MarshalledHeader jweStruct) (Dep_Tag jweStruct);
            Ok (plaintext, default [] (OtherAad (Jwe_Custom header)))
        end
      end.
End direct_aead.
Arguments JweDirectEncryptorAead : clear implicits.
Arguments JweDirectDecryptorAeadImpl : clear implicits.

(** ** Direct encryption with a block mode and a MAC *)
Section direct_block.
Context {K M : Type} `{!BlockEncryptionKey K, !HmacKey M}.

Record JweDirectEncryptorBlock := { Deb_aesKey : K; Deb_iv : bytes; Deb_jweVerifier : JweHmacVerifierImpl M }.

Definition NewJweDirectEncryptorBlock (aesKey : K) (hmacKey : M) (iv : bytes) : JweDirectEncryptorBlock :=
  {| Deb_aesKey := aesKey; Deb_iv := iv; Deb_jweVerifier := {| hmacKey := hmacKey |} |}.

Definition block_makeJweProtectedHeader (encryptor : JweDirectEncryptorBlock) : JweProtectedHeader :=
  let aesKey := Deb_aesKey encryptor in
  {| Jwe_Jws := set_Cty "JWT" (set_Typ "JWT" (set_Kid (BlockKey_Kid aesKey) (set_Alg (BlockKey_Algorithm aesKey) JwsHeader_zero)));
     Jwe_Custom := {| OtherAad := None |};
     Jwe_Enc := default "" (cbcAlgToEncMap (BlockKey_Algorithm aesKey));
     Jwe_Zip := "" |}.

Definition JweDirectEncryptorBlock_Encrypt (encryptor : JweDirectEncryptorBlock) (plaintext : bytes)
    : result (string * JweDirectEncryptorBlock) :=
  let iv := Deb_iv encryptor in
  let jweProtectedHeader := block_makeJweProtectedHeader encryptor in
  let jweProtectedHeader := Jwe_set_Custom {| OtherAad := Some (uintToBytesBigEndian (len plaintext)) |} jweProtectedHeader in
  aad ← wrap_err "error marshalling the JWE Header" (MarshalProtectedHeader jweProtectedHeader);
  '(ciphertext, aesKey) ← BlockKey_Seal (Deb_aesKey encryptor) plaintext;
  '(tag, jweVerifier) ← JweHmacVerifierImpl_ComputeHash (Deb_jweVerifier encryptor) aad iv ciphertext;
  out ← JweRfc7516Compact_Marshal {| ProtectedHeader := jweProtectedHeader; RawProtectedHeader := []; EncryptedKey := [];
                                     InitializationVector := iv; Ciphertext := ciphertext; AuthenticationTag := tag |};
  Ok (out, {| Deb_aesKey := aesKey; Deb_iv := iv; Deb_jweVerifier := jweVerifier |}).

Record JweDirectDecryptorBlock := { Ddb_aesKey : K; Ddb_jweVerifier : JweHmacVerifierImpl M }.

Definition NewJweDirectDecryptorBlock (aesKey : K) (hmacKey : M) : JweDirectDecryptorBlock :=
  {| Ddb_aesKey := aesKey; Ddb_jweVerifier := {| hmacKey := hmacKey |} |}.

(** [aes.BlockSize] *)
Definition aes_BlockSize : N := 16.

(** The decrypted blocks, cut to the length that the header declares. *)
Definition declared_plaintext (header : JweProtectedHeader) (plaintextBlock : bytes) : result bytes :=
  match OtherAad (Jwe_Custom header) with
  | None => Err (EText "error decoding plaintext length: missing length header")
  | Some data =>
    if (len data <? 8)%N then Err (EText "error decoding plaintext length: header field too short")
    else
      let plaintextLength := be_to_N (take 8 data) in
      if (len plaintextBlock <? plaintextLength)%N
      then Err (EText "error decoding plaintext: declared length exceeds decrypted length")
      else Ok (takeN plaintextLength plaintextBlock)
  end.

(** The plaintext, and the keys as they are afterwards. *)
Definition JweDirectDecryptorBlock_Decrypt (decryptor : JweDirectDecryptorBlock) (marshalledJwe : string)
    : result bytes * JweDirectDecryptorBlock :=
  if (MaxCompactSize <? slen marshalledJwe)%N then (gose_err Gose.ErrInputTooLarge, decryptor)
  else
    match wrap_err "error unmarshalling the jwe" (JweRfc7516Compact_Unmarshal JweRfc7516Compact_zero marshalledJwe) with
    | Err e => (Err e, decryptor)
    | Panic => (Panic, decryptor)
    | Ok jwe =>
      let header := ProtectedHeader jwe in
      let aesKey := Ddb_aesKey decryptor in
      if negb (bool_decide (Jws_Alg (Jwe_Jws header) = BlockKey_Algorithm aesKey))
      then (Err (EText "error checking the JWE protected header's algorithm"), decryptor)
      else if negb (bool_decide (Jws_Kid (Jwe_Jws header) = BlockKey_Kid aesKey))
      then (Err (EText "error checking the Key ID for decryption"), decryptor)
      else
        match JweHmacVerifierImpl_VerifyCompact (Ddb_jweVerifier decryptor) jwe with
        | Err e => (Err e, decryptor)
        | Panic => (Panic, decryptor)
        | Ok (integrity, jweVerifier) =>
          let decryptor := {| Ddb_aesKey := aesKey; Ddb_jweVerifier := jweVerifier |} in
          if negb integrity then (Err (EText "error corrupted jwe : integrity check failed"), decryptor)
          else if negb (str_empty (Jwe_Zip header)) then (gose_err Gose.ErrZipCompressionNotSupported, decryptor)
          else if negb (len (Ciphertext jwe) mod aes_BlockSize =? 0)%N
          then (Err (EText "error decrypting: ciphertext length is not a multiple of the AES block size"), decryptor)
          else
            match BlockKey_Open aesKey (Ciphertext jwe) with
            | Err e => (Err e, decryptor)
            | Panic => (Panic, decryptor)
            | Ok (plaintextBlock, aesKey) =>
              (declared_plaintext header plaintextBlock, {| Ddb_aesKey := aesKey; Ddb_jweVerifier := jweVerifier |})
            end
        end
    end.
End direct_block.
Arguments JweDirectEncryptorBlock : clear implicits.
Arguments JweDirectDecryptorBlock : clear implicits.

(** ** RSA key encryption *)
Definition cekSize : N := 32.
Definition ivSize : N := 12.
Definition cekAlgorithm : Alg := AlgA256GCM.

Definition encCekLength (enc : Enc) : option N :=
  if bool_decide (enc = EncA128GCM) then Some 16%N
  else if bool_decide (enc = EncA192GCM) then Some 24%N
  else if bool_decide (enc = EncA256GCM) then Some 32%N
  else None.

Section key_encryption.
Context `{X509, Digests, Rsa, Ecdsa, Aes}.

Record JweRsaKeyEncryptionEncryptorImpl := { rsaPublicKey : RsaPublicKey; rsaPublicKid : string; rsaAlg : Alg }.

Definition rsa_makeJweProtectedHeader (e : JweRsaKeyEncryptionEncryptorImpl) (oaepAlg : Alg) : JweProtectedHeader :=
  {| Jwe_Jws := set_Cty "JWT" (set_Typ "JWT" (set_Kid (rsaPublicKid e) (set_Alg oaepAlg JwsHeader_zero)));
     Jwe_Custom := {| OtherAad := None |};
     Jwe_Enc := default "" (cbcAlgToEncMap cekAlgorithm);
     Jwe_Zip := "" |}.

Definition JweRsaKeyEncryptionEncryptorImpl_Encrypt (randomSource : tape) (e : JweRsaKeyEncryptionEncryptorImpl) (plaintext : bytes) (oaepHash : Hash)
    : result (string * tape) :=
  match OaepAlgFromHash oaepHash with
  | None => Err (EWrap "no RFC 7518 RSAES-OAEP algorithm for digest" (EGose Gose.ErrInvalidAlgorithm))
  | Some oaepAlg =>
    let protectedHeader := rsa_makeJweProtectedHeader e oaepAlg in
    '(cek, randomSource) ← wrap_err "unable to read random source to generate the CEK" (ReadFull cekSize randomSource);
    '(encryptedCEK, randomSource) ← wrap_err "failed to encrypt CEK" (rsa_EncryptOAEP oaepHash randomSource (rsaPublicKey e) cek);
    '(iv, randomSource) ← wrap_err "unable to read random source to generate the IV" (ReadFull ivSize randomSource);
    aad ← wrap_err "error marshalling the JWE Header" (MarshalProtectedHeader protectedHeader);
    aesGCM ← wrap_err "error creating AES cipher" (NewGCM cek);
    let aesGCMCryptor := NewAesGcmCryptor aesGCM "" cekAlgorithm [KeyOpsEncrypt] in
    '(ciphertext, tag) ← wrap_err "error encrypting the plaintext" (AesGcmCryptor_Seal aesGCMCryptor KeyOpsEncrypt (Some iv) plaintext aad);
    jwe ← wrap_err "error marshalling the JWE" (JweRfc7516Compact_Marshal {|
      ProtectedHeader := protectedHeader; RawProtectedHeader := []; EncryptedKey := encryptedCEK;
      InitializationVector := iv; Ciphertext := ciphertext; AuthenticationTag := tag |});
    Ok (jwe, randomSource)
  end.

Definition NewJweRsaKeyEncryptionEncryptorImpl (rsaPublicKeyRecipient : Jwk) : result JweRsaKeyEncryptionEncryptorImpl :=
  if negb (isSubset (Jwk_Ops rsaPublicKeyRecipient) [KeyOpsEncrypt]) then gose_err Gose.ErrInvalidOperations
  else
    kek ← LoadPublicKey rsaPublicKeyRecipient gcm_validEncryptionOpts;
    match kek with
    | PubRSA rsaKek =>
      if negb (isRsaOaepAlg (Jwk_Alg rsaPublicKeyRecipient)) then gose_err Gose.ErrInvalidAlgorithm
      else Ok {| rsaPublicKey := rsaKek; rsaAlg := Jwk_Alg rsaPublicKeyRecipient; rsaPublicKid := Jwk_Kid rsaPublicKeyRecipient |}
    | _ => gose_err Gose.ErrInvalidKeyType
    end.

Context {St K : Type} `{!AsymmetricDecryptionKey K, !AsymmetricDecryptionKeyStore St K}.

Record JweRsaKeyEncryptionDecryptorImpl := { Rkd_keystore : St }.

Definition NewJweRsaKeyEncryptionDecryptorImpl (keystore : St) : JweRsaKeyEncryptionDecryptorImpl := {| Rkd_keystore := keystore |}.

(** The content encryption key: what unwraps to the right length, or random bytes.
    [rand] is [rand.Reader]. *)
Definition unwrap_or_random (rand : tape) (key : K) (oaepHash : Hash) (encryptedKey : bytes) (cekLength : N) : result bytes :=
  let substitute := fst <$> wrap_err "error generating substitute CEK" (ReadFull cekLength rand) in
  match DecKey_Decrypt key KeyOpsDecrypt oaepHash encryptedKey with
  | Ok cek => if (len cek =? cekLength)%N then Ok cek else substitute
  | Err _ => substitute
  | Panic => Panic
  end.

(** The plaintext and the additional data.  [crypto.Hash(0)] is [None]. *)
Definition JweRsaKeyEncryptionDecryptorImpl_Decrypt (rand : tape) (d : JweRsaKeyEncryptionDecryptorImpl) (jweRaw : string) (oaepHash : option Hash)
    : result (bytes * bytes) :=
  if (MaxCompactSize <? slen jweRaw)%N then gose_err Gose.ErrInputTooLarge
  else
    jwe ← wrap_err "error unmarshalling the jwe" (JweRfc7516Compact_Unmarshal JweRfc7516Compact_zero jweRaw);
    let header := ProtectedHeader jwe in
    if negb (str_empty (Jwe_Zip header)) then gose_err Gose.ErrZipCompressionNotSupported
    else
      match encCekLength (Jwe_Enc header) with
      | None => gose_err Gose.ErrInvalidEncryption
      | Some cekLength =>
        key ← wrap_err "error getting key from keystore" (DecKeyStore_Get (Rkd_keystore d) (Jws_Kid (Jwe_Jws header)));
        match OaepHashFromAlg (Jws_Alg (Jwe_Jws header)) with
        | None => gose_err Gose.ErrInvalidAlgorithm
        | Some headerHash =>
          if negb (isRsaOaepAlg (DecKey_Algorithm key)) then gose_err Gose.ErrInvalidAlgorithm
          else
            cek ← unwrap_or_random rand key (default headerHash oaepHash) (EncryptedKey jwe) cekLength;
            aead ← wrap_err "error creating AES cipher" (NewGCM cek);
            if negb (len (InitializationVector jwe) =? NonceSize aead)%N then gose_err Gose.ErrInvalidNonce
            else if negb (len (AuthenticationTag jwe) =? Overhead aead)%N then gose_err Gose.ErrInvalidAuthenticationTag
            else
              aad ← wrap_err "error getting AAD" (JweRfc7516Compact_AAD jwe);
              plaintext ← aead_Open aead (InitializationVector jwe) (Ciphertext jwe ++ AuthenticationTag jwe) aad;
              Ok (plaintext, aad)
        end
      end.
End key_encryption.
Arguments JweRsaKeyEncryptionDecryptorImpl : clear implicits.

(** ** [asymmetric_decryption_key_store.go] *)
Section key_store.
Context {K : Type} `{!AsymmetricDecryptionKey K}.

Record AsymmetricDecryptionKeyStoreImpl := { Adk_keys : gmap string K }.

Definition NewAsymmetricDecryptionKeyStoreImpl (keys : gmap string K) : result AsymmetricDecryptionKeyStoreImpl := Ok {| Adk_keys := keys |}.

(** A single key answers for every identifier. *)
Definition AsymmetricDecryptionKeyStoreImpl_Get (a : AsymmetricDecryptionKeyStoreImpl) (kid : string) : result K :=
  match Adk_keys a !! kid with
  | Some key => Ok key
  | None =>
    match map_to_list (Adk_keys a) with
    | [(_, key)] => Ok key
    | _ => gose_err Gose.ErrUnknownKey
    end
  end.

#[export] Instance AsymmetricDecryptionKeyStoreImpl_Store : AsymmetricDecryptionKeyStore AsymmetricDecryptionKeyStoreImpl K :=
  AsymmetricDecryptionKeyStoreImpl_Get.
End key_store.
Arguments AsymmetricDecryptionKeyStoreImpl : clear implicits.

(** ** [rsa_private.go]: the decryption keys of the library *)
Section rsa_key.
Context `{X509, Digests, Rsa, Ecdsa, Signers}.
#[export] Instance RsaPrivateKeyImpl_Decryption : AsymmetricDecryptionKey RsaPrivateKeyImpl := {|
  DecKey_Algorithm := RsaPrivateKeyImpl_Algorithm;
  DecKey_Decrypt := RsaPrivateKeyImpl_Decrypt;
|}.
End rsa_key.
