(* ===== verification/KeyGenerator.v ===== *)
(** [key_generator.go]: fresh keys.

    A generator allocates the JWK it makes in the heap; [rand] is [rand.Reader]. *)

From S2P Require Import Prelude Errors Base64 Json JsonFacts JsonCodec Types Crypto Jwk Jws Helpers Keys Interfaces Cryptors.

Definition minimumRsaKeySize : N := 2048.

Definition rsaSigningAlgs (alg : Alg) : bool :=
  bool_decide (alg ∈ [AlgRS256; AlgRS384; AlgRS512; AlgPS256; AlgPS384; AlgPS512]).
Definition ecdsAlgs (alg : Alg) : option Curve :=
  if bool_decide (alg = AlgES256) then Some P256
  else if bool_decide (alg = AlgES384) then Some P384
  else if bool_decide (alg = AlgES512) then Some P521
  else None.
Definition authenticatedEncryptionAlgs (alg : Alg) : option N :=
  if bool_decide (alg = AlgA128GCM) then Some 16%N
  else if bool_decide (alg = AlgA192GCM) then Some 24%N
  else if bool_decide (alg = AlgA256GCM) then Some 32%N
  else None.
Definition rsaEncryptionAlgs (alg : Alg) : bool := bool_decide (alg ∈ [AlgRSAOAEP; AlgRSAOAEPSHA2]).

Section generators.
Context `{X509, Digests, Rsa, Ecdsa, Signers}.

Definition generateRsaKey (rand : tape) (alg : Alg) (bitLen : Z) (operations : list Types.KeyOps) : result (Jwk * RsaPrivateKey) :=
  if (bitLen <? Z.of_N minimumRsaKeySize)%Z then gose_err Gose.ErrInvalidKeySize
  else
    let operations := cloneOps operations in
    privateKey ← rsa_GenerateKey rand (Z.to_N bitLen);
    jwk ← JwkFromPrivateKey (SignerRSA privateKey) operations [];
    Ok (Jwk_SetAlg alg jwk, privateKey).

(** A fresh JWK becomes a signing key. *)
Definition alloc_signing_key (h : heap) (jwk : Jwk) (operations : list Types.KeyOps) : result SigningKey * heap :=
  let '(l, h) := alloc jwk h in (NewSigningKey h l operations, h).

Definition RsaSigningKeyGenerator_Generate (h : heap) (rand : tape) (alg : Alg) (bitLen : Z) (operations : list Types.KeyOps)
    : result SigningKey * heap :=
  if negb (rsaSigningAlgs alg) then (gose_err Gose.ErrInvalidAlgorithm, h)
  else
    match generateRsaKey rand alg bitLen operations with
    | Ok (jwk, _) => alloc_signing_key h jwk operations
    | Err e => (Err e, h)
    | Panic => (Panic, h)
    end.

Definition ECDSASigningKeyGenerator_Generate (h : heap) (rand : tape) (alg : Alg) (operations : list Types.KeyOps)
    : result SigningKey * heap :=
  match ecdsAlgs alg with
  | None => (gose_err Gose.ErrInvalidAlgorithm, h)
  | Some curve =>
    let operations := cloneOps operations in
    match (privateKey ← ecdsa_GenerateKey curve rand;
           jwk ← JwkFromPrivateKey (SignerECDSA privateKey) operations [];
           Ok (Jwk_SetAlg alg jwk)) with
    | Ok jwk => alloc_signing_key h jwk operations
    | Err e => (Err e, h)
    | Panic => (Panic, h)
    end
  end.

Definition AuthenticatedEncryptionKeyGenerator_Generate `{Aes} (rand : tape) (alg : Alg) (operations : list Types.KeyOps)
    : result (AesGcmCryptor * Jwk) :=
  match authenticatedEncryptionAlgs alg with
  | None => gose_err Gose.ErrInvalidAlgorithm
  | Some sz =>
    let operations := cloneOps operations in
    '(key, _) ← ReadFull sz rand;
    jwk ← JwkFromSymmetric key alg;
    let jwk := Jwk_SetOps operations jwk in
    cryptor ← NewAesGcmCryptorFromJwk jwk operations;
    Ok (cryptor, jwk)
  end.

Definition RsaKeyDecryptionKeyGenerator_Generate (h : heap) (rand : tape) (alg : Alg) (bitLen : Z) (operations : list Types.KeyOps)
    : result RsaPrivateKeyImpl * heap :=
  if negb (rsaEncryptionAlgs alg) then (gose_err Gose.ErrInvalidAlgorithm, h)
  else
    match generateRsaKey rand alg bitLen operations with
    | Ok (jwk, key) =>
      let '(l, h) := alloc jwk h in
      (Ok {| Rpk_jwk := l; Rpk_key := key; Rpk_ops := cloneOps operations; Rpk_alg := alg |}, h)
    | Err e => (Err e, h)
    | Panic => (Panic, h)
    end.
End generators.
