(* ===== verification/DirectAeadFacts.v ===== *)
(** Properties of direct encryption with an AEAD ([JweCryptors]): exactly which JWEs
    are decrypted, that they are authentic, and that what is encrypted is decrypted,
    whoever supplies the nonce. *)

From S2P Require Import Prelude Errors Base64 Json JsonFacts JsonCodec Types Crypto Toy Jwk Jws JwsFacts Jwe JweFacts Helpers HelpersFacts Interfaces Cryptors CryptorsFacts JweCryptors.

(** The encryptions of the GCM keys. *)
Lemma gcmAlgToEncMap_supported alg enc : gcmAlgToEncMap alg = Some enc → enc ∈ supportedJweEncs ∧ utf8 enc = true.
Proof. unfold gcmAlgToEncMap, supportedJweEncs. intros Hg. repeat case_bool_decide; simplify_eq; (split; [set_solver|done]). Qed.

Section direct_aead.
Context {K : Type} `{!AeadEncryptionKey K}.

(** ** The header of an encryptor *)
Definition aead_header (key : K) (aad : bytes) : JweHeader :=
  {| Jwe_Jws := set_Kid (AeadKey_Kid key) (set_Alg AlgDir JwsHeader_zero);
     Jwe_Custom := {| OtherAad := if (0 <? len aad)%N then Some aad else None |};
     Jwe_Enc := default "" (gcmAlgToEncMap (AeadKey_Algorithm key));
     Jwe_Zip := "" |}.

Lemma aead_header_ok key aad enc : utf8 (AeadKey_Kid key) = true → gcmAlgToEncMap (AeadKey_Algorithm key) = Some enc →
  (len aad <= MaxBlobSize)%N → JweHeader_ok (aead_header key aad).
Proof.
  intros Hk He Ha. destruct (gcmAlgToEncMap_supported _ _ He) as [_ Hu]. unfold aead_header. rewrite He. split; cbn [Jwe_Jws Jwe_Custom OtherAad Jwe_Enc Jwe_Zip].
  - split; try done.
  - intros b Hb. destruct (N.ltb_spec 0 (len aad)); [|done]. injection Hb as <-. split; [|done]. by intros ->.
  - done.
  - done.
Qed.

(** A JWE decrypts exactly when it is within the size bound, parses without
    compression, names a known key, is labelled with direct encryption and the
    encryption of that key, and opens under the key with the header octets as
    received; the additional data are those of its header. *)
Lemma JweDirectDecryptorAeadImpl_Decrypt_spec d jwe p a :
  JweDirectDecryptorAeadImpl_Decrypt d jwe = Ok (p, a) ↔
  (slen jwe <= MaxCompactSize)%N ∧ ∃ t key enc, Jwe_Unmarshal Jwe_zero jwe = Ok t ∧
    Jwe_Zip (Dep_Header t) = "" ∧ Jws_Kid (Jwe_Jws (Dep_Header t)) ≠ "" ∧ Dda_keystore d !! Jws_Kid (Jwe_Jws (Dep_Header t)) = Some key ∧
    gcmAlgToEncMap (AeadKey_Algorithm key) = Some enc ∧ Jws_Alg (Jwe_Jws (Dep_Header t)) = AlgDir ∧ Jwe_Enc (Dep_Header t) = enc ∧
    AeadKey_Open key KeyOpsDecrypt (Dep_Iv t) (Dep_Ciphertext t) (MarshalledHeader t) (Dep_Tag t) = Ok p ∧
    a = default [] (OtherAad (Jwe_Custom (Dep_Header t))).
Proof.
  unfold JweDirectDecryptorAeadImpl_Decrypt. destruct (N.ltb_spec MaxCompactSize (slen jwe)); [split; [done|intros [? _]; lia]|].
  split.
  - intros (t & Ht & Hd)%bind_Ok. split; [done|]. exists t.
    destruct (str_empty (Jwe_Zip (Dep_Header t))) eqn:Hz; [|done]. cbn [negb] in Hd.
    destruct (slen (Jws_Kid (Jwe_Jws (Dep_Header t))) =? 0)%N eqn:Hk; [done|].
    destruct (Dda_keystore d !! _) as [key|] eqn:Hkey; [|done]. destruct (gcmAlgToEncMap (AeadKey_Algorithm key)) as [enc|] eqn:He; [|done].
    destruct (negb _ || negb _) eqn:Hg in Hd; [done|]. apply orb_false_iff in Hg as [Ha%negb_false_iff%bool_decide_eq_true He'%negb_false_iff%bool_decide_eq_true].
    apply bind_Ok in Hd as (p' & Hp & [= <- <-]). exists key, enc. split_and!; try done.
    + by destruct (Jwe_Zip (Dep_Header t)).
    + intros Hn. rewrite Hn in Hk. done.
  - intros (_ & t & key & enc & -> & Hz & Hk & Hkey & He & Ha & He' & Ho & ->). cbn [mbind res_bind]. rewrite Hz. cbn [str_empty negb].
    destruct (N.eqb_spec (slen (Jws_Kid (Jwe_Jws (Dep_Header t)))) 0) as [Hs|_].
    { exfalso. apply Hk. destruct (Jws_Kid _); [done|]. unfold slen in Hs. cbn in Hs. lia. }
    rewrite Hkey, He, !bool_decide_true by done. cbn [negb orb]. by rewrite Ho.
Qed.

(** ** Round trip *)
Lemma Jwe_MarshalHeader_Ok jwe t : Jwe_MarshalHeader jwe = Ok t →
  JweHeader_MarshalHeader (Dep_Header jwe) = Ok (MarshalledHeader t) ∧ Dep_Header t = Dep_Header jwe ∧
  Dep_EncryptedKey t = Dep_EncryptedKey jwe ∧ Dep_Iv t = Dep_Iv jwe ∧ Plaintext t = Plaintext jwe.
Proof. unfold Jwe_MarshalHeader. intros (m & Hm & [= <-])%bind_Ok. done. Qed.

(** What an encryptor produces, in either mode: a JWE in its own header whose
    vector, ciphertext and tag open under the paired key. *)
Lemma JweDirectEncryptorAead_Encrypt_inv rng e d p aad token rng' :
  aead_pair (Dea_key e) d → JweDirectEncryptorAead_Encrypt rng e p aad = Ok (token, rng') →
  ∃ t, token = Jwe_Marshal t ∧ Dep_Header t = aead_header (Dea_key e) aad ∧ Dep_EncryptedKey t = [] ∧
    JweHeader_MarshalHeader (Dep_Header t) = Ok (MarshalledHeader t) ∧
    AeadKey_Open d KeyOpsDecrypt (Dep_Iv t) (Dep_Ciphertext t) (MarshalledHeader t) (Dep_Tag t) = Ok p.
Proof.
  intros Hp. unfold JweDirectEncryptorAead_Encrypt. intros ([nonce rng1] & Hn & Hrest)%bind_Ok.
  apply bind_Ok in Hrest as (t & Ht & Hrest). apply Jwe_MarshalHeader_Ok in Ht as (Hm & Hh & Hk & Hiv & Hpt). cbn [Dep_Header Dep_EncryptedKey Dep_Iv Plaintext] in *.
  apply bind_Ok in Hrest as ([[ct tag] rng2] & Hs & Hrest). rewrite Hpt in Hs. destruct (externalIV e); cbn [negb] in Hn.
  - injection Hn as <- <-. apply bind_Ok in Hrest as ([[iv tag'] rng3] & Hx & [= <- <-]). eexists. split; [reflexivity|].
    cbn [Dep_Header Dep_EncryptedKey Dep_Iv Dep_Ciphertext MarshalledHeader Dep_Tag]. rewrite Hh. split_and!; try done.
    apply bind_Ok in Hx as ([n rng4] & Hg & Hx). destruct (N.ltb_spec (len tag) (len n)); [done|]. injection Hx as <- <- <-.
    by apply (pair_Open_Seal_nil _ _ Hp _ _ _ _ _ _ _ _ _ Hs Hg).
  - apply bind_Ok in Hn as ([n rng4] & Hg & [= <- <-]). apply bind_Ok in Hrest as ([[iv tag'] rng3] & [= <- <- <-] & [= <- <-]). eexists. split; [reflexivity|].
    cbn [Dep_Header Dep_EncryptedKey Dep_Iv Dep_Ciphertext MarshalledHeader Dep_Tag]. rewrite Hh, Hiv. split_and!; try done.
    by apply (pair_Open_Seal _ _ Hp _ _ _ _ _ _ _ Hs).
Qed.

(** What is encrypted with a key is decrypted under the paired key. *)
Lemma aead_decrypted rng key d ext ks p aad enc token rng' :
  aead_pair key d → ks !! AeadKey_Kid key = Some d →
  AeadKey_Kid key ≠ "" → utf8 (AeadKey_Kid key) = true → gcmAlgToEncMap (AeadKey_Algorithm key) = Some enc → (len aad <= MaxBlobSize)%N →
  JweDirectEncryptorAead_Encrypt rng (NewJweDirectEncryptorAead key ext) p aad = Ok (token, rng') → (slen token <= MaxCompactSize)%N →
  JweDirectDecryptorAeadImpl_Decrypt {| Dda_keystore := ks |} token = Ok (p, aad).
Proof.
  intros Hp Hks Hkid Hutf Henc Haad Henc' Hsz.
  destruct (JweDirectEncryptorAead_Encrypt_inv rng (NewJweDirectEncryptorAead key ext) d p aad token rng' Hp Henc') as (t & -> & Hh & Hk & Hm & Ho). cbn [Dea_key NewJweDirectEncryptorAead] in Hh.
  apply JweDirectDecryptorAeadImpl_Decrypt_spec. split; [done|]. unfold Jwe_zero.
  exists {| Dep_Header := Dep_Header t; MarshalledHeader := MarshalledHeader t; Dep_EncryptedKey := []; Dep_Iv := Dep_Iv t;
            Dep_Ciphertext := Dep_Ciphertext t; Dep_Tag := Dep_Tag t; Plaintext := [] |}, d, enc.
  cbn [Dep_Header Dep_Iv Dep_Ciphertext MarshalledHeader Dep_Tag]. split_and!.
  - apply Jwe_roundtrip; try done; rewrite Hh; [by eapply aead_header_ok|done].
  - by rewrite Hh.
  - by rewrite Hh.
  - by rewrite Hh.
  - by rewrite (pair_Algorithm _ _ Hp).
  - by rewrite Hh.
  - rewrite Hh. unfold aead_header. cbn [Jwe_Enc]. by rewrite Henc.
  - done.
  - rewrite Hh. unfold aead_header. cbn [Jwe_Custom OtherAad]. destruct (N.ltb_spec 0 (len aad)); [done|]. destruct aad; [done|]. unfold len in *. cbn in *. lia.
Qed.

(** C10. What is encrypted with a key is decrypted, with its additional data, by a
    decryptor that knows the paired key, whether the encryptor draws the nonce or
    the key supplies it. *)
Theorem JweDirectAead_roundtrip rng key d ext ks p aad enc token rng' :
  aead_pair key d → ks !! AeadKey_Kid key = Some d →
  AeadKey_Kid key ≠ "" → utf8 (AeadKey_Kid key) = true → gcmAlgToEncMap (AeadKey_Algorithm key) = Some enc → (len aad <= MaxBlobSize)%N →
  JweDirectEncryptorAead_Encrypt rng (NewJweDirectEncryptorAead key ext) p aad = Ok (token, rng') → (slen token <= MaxCompactSize)%N →
  JweDirectDecryptorAeadImpl_Decrypt {| Dda_keystore := ks |} token = Ok (p, aad).
Proof. apply aead_decrypted. Qed.

(** A decryptor knows, under each identifier, the last key given with it. *)
Lemma keystore_last keys : ∀ m : gmap string K, ∀ kid key, fold_left (λ m key, <[AeadKey_Kid key := key]> m) keys m !! kid = Some key →
  (AeadKey_Kid key = kid ∧ key ∈ keys) ∨ m !! kid = Some key.
Proof.
  induction keys as [|k keys IH]; intros m kid key Hk; [by right|]. cbn [fold_left] in Hk. apply IH in Hk as [[? ?]|Hk].
  - left. split; [done|]. by apply list_elem_of_further.
  - destruct (decide (AeadKey_Kid k = kid)) as [<-|Hne]; [|rewrite lookup_insert_ne in Hk by done; by right].
    rewrite lookup_insert_eq in Hk. injection Hk as <-. left. split; [done|]. apply list_elem_of_here.
Qed.

Lemma NewJweDirectDecryptorAeadImpl_spec keys kid key :
  Dda_keystore (NewJweDirectDecryptorAeadImpl keys) !! kid = Some key → AeadKey_Kid key = kid ∧ key ∈ keys.
Proof. intros Hk. by destruct (keystore_last _ _ _ _ Hk) as [?|Hn]. Qed.
End direct_aead.

(** ** With the AES-GCM keys of the library *)
Section gcm.
Context `{X509, Digests, Rsa, Ecdsa, Aes}.

(** What a pair of keys needs of the AEAD they share.  An AEAD that supplies the
    nonce itself, as that of a token does, appends it to what it returns. *)
Record aead_opens (a : AEAD) : Prop := {
  opens_Some n p d c : aead_Seal a (Some n) p d = Ok c → aead_Open a n c d = Ok p;
  opens_None p d c : aead_Seal a None p d = Ok c →
    ∃ c' n, c = c' ++ n ∧ len n = NonceSize a ∧ len c' = (len p + Overhead a)%N ∧ aead_Open a n c' d = Ok p;
}.

Lemma aead_laws_opens a : aead_laws a → aead_opens a.
Proof. intros Hl. split; [apply (aead_Open_Seal _ Hl)|]. intros p d c. by rewrite (aead_Seal_nonce _ Hl). Qed.

(** A supplied nonce is at the end of the tag. *)
Lemma AesGcmCryptor_Seal_nil c p aad ct tag : aead_opens (Gcm_aead c) →
  AesGcmCryptor_Seal c KeyOpsEncrypt None p aad = Ok (ct, tag) →
  (len p <= MaxPlaintextSize)%N ∧ ∃ tag' n, tag = tag' ++ n ∧ len n = NonceSize (Gcm_aead c) ∧ len ct = len p ∧
    len tag' = Overhead (Gcm_aead c) ∧ aead_Open (Gcm_aead c) n (ct ++ tag') aad = Ok p.
Proof.
  intros Ha. unfold AesGcmCryptor_Seal. destruct (negb _); [done|]. destruct (N.ltb_spec MaxPlaintextSize (len p)); [done|].
  intros (dst & Hs%sealAEAD_Ok & Hd)%bind_Ok. split; [done|].
  destruct (opens_None _ Ha _ _ _ Hs) as (c' & n & -> & Hn & Hc & Ho). destruct (negb _) in Hd; [done|]. injection Hd as <- <-.
  assert (length p ≤ length c') as Hle by (unfold len in *; lia).
  exists (drop (length p) c'), n. rewrite take_app_le, drop_app_le by done. split_and!; [done|done|..].
  - unfold len in *. rewrite length_take. lia.
  - unfold len in *. rewrite length_drop. lia.
  - by rewrite take_drop.
Qed.

Lemma AesGcm_pair c d : aead_opens (Gcm_aead c) → Gcm_aead d = Gcm_aead c → Gcm_kid d = Gcm_kid c → Gcm_alg d = Gcm_alg c →
  KeyOpsDecrypt ∈ Gcm_opts d → aead_pair c d.
Proof.
  intros Hl Ha Hk Hg Ho. split; try done.
  - intros r n p aad ct tag r' ([ct' tag'] & Hs & [= -> -> _])%bind_Ok.
    apply AesGcmCryptor_Seal_inv in Hs as (_ & Hsz & Hn & Hs & Hc & Ht). apply AesGcmCryptor_Open_iff. rewrite Ha.
    split_and!; try done; [lia|]. by apply (opens_Some _ Hl).
  - intros r p aad ct tag r' n r1 r2 ([ct' tag'] & Hs & [= -> -> _])%bind_Ok [Hn _]%ReadFull_Ok _.
    apply AesGcmCryptor_Seal_nil in Hs as (Hsz & tag' & n' & -> & Hn' & Hc & Ht & Hop); [|done].
    assert (length (tag' ++ n') - length n = length tag') as -> by (rewrite length_app; unfold len in *; lia).
    rewrite take_app_length, drop_app_length. apply AesGcmCryptor_Open_iff. rewrite Ha. split_and!; try done. lia.
Qed.

(** A cryptor of the library encrypts whatever it may encrypt, under a header that can be
    written, with twelve bytes of randomness; the length of the token is that of its parts. *)
Lemma gcm_encrypts rng c p aad enc : aead_laws (Gcm_aead c) → NonceSize (Gcm_aead c) = 12%N → Overhead (Gcm_aead c) = 16%N →
  KeyOpsEncrypt ∈ Gcm_opts c → utf8 (Gcm_kid c) = true → gcmAlgToEncMap (Gcm_alg c) = Some enc → (len aad <= MaxBlobSize)%N →
  (len p <= MaxPlaintextSize)%N → (12 <= len rng)%N →
  ∃ token, JweDirectEncryptorAead_Encrypt rng (NewJweDirectEncryptorAead c false) p aad = Ok (token, drop 12 rng) ∧
    slen token = (EncodedLen RawURLEncoding (len (jwe_header_doc (aead_header c aad))) + EncodedLen RawURLEncoding (len p) + 42)%N.
Proof.
  intros Hl Hns Hov Hop Hk He Ha Hp Hr. destruct (AesGcmCryptor_Seal_Ok c (takeN 12 rng) p) with (aad := s2b (EncodeToString RawURLEncoding (jwe_header_doc (aead_header c aad))))
    as (ct & tag & Hs & Hct & Htag); [done..|by rewrite Hns, len_takeN|done|].
  eexists. split.
  - unfold JweDirectEncryptorAead_Encrypt. cbn [externalIV NewJweDirectEncryptorAead negb Dea_key AeadKey_GenerateNonce AesGcmCryptor_Aead].
    unfold AesGcmCryptor_GenerateNonce, ReadFull. rewrite Hns. destruct (N.leb_spec 12 (len rng)); [|lia]. cbn [mbind res_bind].
    unfold Jwe_MarshalHeader, JweHeader_MarshalHeader. cbn [Dep_Header]. fold (aead_header c aad).
    rewrite MarshalProtectedHeader_Ok by by eapply aead_header_ok. cbn [mbind res_bind Plaintext MarshalledHeader AeadKey_Seal AesGcmCryptor_Aead NewJweDirectEncryptorAead Dea_key]. rewrite Hs. cbn [mbind res_bind]. reflexivity.
  - unfold Jwe_Marshal. cbn [MarshalledHeader Dep_EncryptedKey Dep_Iv Dep_Ciphertext Dep_Tag from_option id]. rewrite !Join_cons, Join_one, b2s_s2b.
    rewrite !slen_app, !slen_EncodeToString, Hct, Htag, Hov, len_takeN by lia. change (slen (b2s ["."%byte])) with 1%N.
    change (EncodedLen RawURLEncoding (len [])) with 0%N. change (EncodedLen RawURLEncoding 12) with 16%N. change (EncodedLen RawURLEncoding 16) with 22%N. lia.
Qed.

(** C18. Whatever is accepted was sealed: sealing the plaintext again under the key the
    header names, with the nonce of the JWE and its header octets as received, gives
    that very ciphertext and tag. *)
Theorem JweDirectAead_authentic keys jwe p a : (∀ key, key ∈ keys → aead_laws (Gcm_aead key)) →
  JweDirectDecryptorAeadImpl_Decrypt (NewJweDirectDecryptorAeadImpl keys) jwe = Ok (p, a) →
  ∃ t key, Jwe_Unmarshal Jwe_zero jwe = Ok t ∧ key ∈ keys ∧ Gcm_kid key = Jws_Kid (Jwe_Jws (Dep_Header t)) ∧ KeyOpsDecrypt ∈ Gcm_opts key ∧
    (∃ p0 rest, jwe = p0 +:+ "." +:+ rest ∧ no_sep "." (s2b p0) ∧ MarshalledHeader t = s2b p0) ∧
    aead_Seal (Gcm_aead key) (Some (Dep_Iv t)) p (MarshalledHeader t) = Ok (Dep_Ciphertext t ++ Dep_Tag t).
Proof.
  intros Hl. intros (_ & t & key & enc & Ht & _ & _ & Hk & _ & _ & _ & Ho & _)%JweDirectDecryptorAeadImpl_Decrypt_spec.
  apply NewJweDirectDecryptorAeadImpl_spec in Hk as [Hkid Hin]. apply AesGcmCryptor_Open_iff in Ho as ([_ Hop] & _ & _ & _ & Ho).
  exists t, key. split_and!; try done.
  - by apply Jwe_Unmarshal_header in Ht.
  - by apply (aead_Open_valid _ (Hl _ Hin)).
Qed.

(** Decrypting panics on no input at all. *)
Theorem JweDirectAead_no_panic keys jwe : (∀ key, key ∈ keys → aead_laws (Gcm_aead key)) →
  JweDirectDecryptorAeadImpl_Decrypt (NewJweDirectDecryptorAeadImpl keys) jwe ≠ Panic.
Proof.
  intros Hl. unfold JweDirectDecryptorAeadImpl_Decrypt. destruct (_ <? _)%N; [done|]. apply bind_no_panic; [apply Jwe_Unmarshal_no_panic|]. intros t _.
  destruct (negb (str_empty _)); [done|]. destruct (_ =? 0)%N; [done|]. destruct (_ !! _) as [key|] eqn:Hk; [|done].
  destruct (gcmAlgToEncMap _); [|done]. destruct (negb _ || negb _); [done|]. apply NewJweDirectDecryptorAeadImpl_spec in Hk as [_ Hin].
  apply bind_no_panic; [|done]. by apply gcm_open_no_panic, Hl.
Qed.
End gcm.
