(* ===== verification/DirectBlockFacts.v ===== *)
(** Properties of direct encryption with CBC and a MAC ([JweCryptors]): nothing is
    decrypted before the tag is checked, what one side encrypts the other decrypts
    as long as the chains agree, and what the tag leaves open. *)

From S2P Require Import Prelude Errors Base64 Json JsonFacts JsonCodec Types Crypto Toy Jwk Jws JwsFacts Jwe JweFacts Helpers HelpersFacts Interfaces Cryptors BlockFacts JweCryptors.

Lemma cbcAlgToEncMap_supported alg enc : cbcAlgToEncMap alg = Some enc →
  alg ∈ supportedJweAlgs ∧ utf8 alg = true ∧ enc ∈ supportedJweEncs ∧ utf8 enc = true.
Proof. unfold cbcAlgToEncMap. intros Hc. repeat case_bool_decide; simplify_eq; (split_and!; [apply list_elem_of_In; cbn; tauto|done|apply list_elem_of_In; cbn; tauto|done]). Qed.

Section direct_block.
Context `{X509, Digests, Rsa, Ecdsa, Aes}.
Local Abbreviation block b := (length b = 16).
Local Abbreviation encryptor := (JweDirectEncryptorBlock AesCbcCryptor HmacShaCryptor).
Local Abbreviation decryptor := (JweDirectDecryptorBlock AesCbcCryptor HmacShaCryptor).

(** ** Declared lengths *)
Lemma declared_plaintext_no_panic h b : declared_plaintext h b ≠ Panic.
Proof. unfold declared_plaintext. destruct (OtherAad _); [|done]. destruct (_ <? _)%N; [done|]. by destruct (_ <? _)%N. Qed.

Lemma declared_plaintext_spec h b p : declared_plaintext h b = Ok p ↔
  ∃ data, OtherAad (Jwe_Custom h) = Some data ∧ (8 <= len data)%N ∧ (be_to_N (take 8 data) <= len b)%N ∧ p = takeN (be_to_N (take 8 data)) b.
Proof.
  unfold declared_plaintext. destruct (OtherAad (Jwe_Custom h)) as [data|]; [|split; [done|by intros (? & ? & _)]].
  destruct (N.ltb_spec (len data) 8); [split; [done|intros (? & [= <-] & ? & _); lia]|].
  destruct (N.ltb_spec (len b) (be_to_N (take 8 data))); [split; [done|intros (? & [= <-] & _ & ? & _); lia]|].
  split; [intros [= <-]; by exists data|]. by intros (? & [= <-] & _ & _ & ->).
Qed.

Lemma be8_len n : len (uintToBytesBigEndian n) = 8%N.
Proof. unfold len, uintToBytesBigEndian. by rewrite be_fixed_length. Qed.

Lemma be8_value n : (n < 2 ^ 64)%N → be_to_N (take 8 (uintToBytesBigEndian n)) = n.
Proof.
  intros Hn. unfold uintToBytesBigEndian. rewrite take_ge by by rewrite be_fixed_length. rewrite be_to_N_fixed. by apply N.mod_small.
Qed.

Lemma declared_exact h p b : OtherAad (Jwe_Custom h) = Some (uintToBytesBigEndian (len p)) → (len p < 2 ^ 64)%N →
  (len p <= len b)%N → take (length p) b = p → declared_plaintext h b = Ok p.
Proof.
  intros Hh Hp Hb Ht. apply declared_plaintext_spec. eexists. split; [exact Hh|].
  rewrite be8_value by done. split_and!; [by rewrite be8_len|done|]. rewrite takeN_take. unfold len. by rewrite Nat2N.id.
Qed.

(** ** What is accepted *)
(** The checks that come before anything is decrypted. *)
Definition block_checked (d : decryptor) (hash : hash_Hash) (token : string) (jwe : JweRfc7516Compact) : Prop :=
  (slen token <= MaxCompactSize)%N ∧ JweRfc7516Compact_Unmarshal JweRfc7516Compact_zero token = Ok jwe ∧
  Jws_Alg (Jwe_Jws (ProtectedHeader jwe)) = BlockKey_Algorithm (Ddb_aesKey d) ∧
  Jws_Kid (Jwe_Jws (ProtectedHeader jwe)) = BlockKey_Kid (Ddb_aesKey d) ∧
  hash_mac hash (mac_input (RawProtectedHeader jwe) (InitializationVector jwe) (Ciphertext jwe)) = AuthenticationTag jwe ∧
  Jwe_Zip (ProtectedHeader jwe) = "" ∧ (len (Ciphertext jwe) mod 16 = 0)%N.

(** Nothing is decrypted before the checks: a JWE that does not pass them is refused
    and leaves the block key as it was. *)
Lemma Decrypt_unchecked d hash token r d' : live_hmac (hmacKey (Ddb_jweVerifier d)) hash →
  JweDirectDecryptorBlock_Decrypt d token = (r, d') →
  live_hmac (hmacKey (Ddb_jweVerifier d')) hash ∧
  ((∃ jwe, block_checked d hash token jwe) ∨ ((∃ e, r = Err e) ∧ Ddb_aesKey d' = Ddb_aesKey d)).
Proof.
  intros Hl. destruct d as [k v]. unfold JweDirectDecryptorBlock_Decrypt, block_checked. cbn [Ddb_aesKey Ddb_jweVerifier] in *.
  destruct (N.ltb_spec MaxCompactSize (slen token)) as [|Hsz]; [intros [= <- <-]; eauto|].
  pose proof (JweRfc7516Compact_Unmarshal_no_panic JweRfc7516Compact_zero token) as Hnp.
  destruct (JweRfc7516Compact_Unmarshal JweRfc7516Compact_zero token) as [jwe|e|] eqn:Hu; cbn [wrap_err]; [|intros [= <- <-]; eauto|done]. clear Hnp.
  destruct (negb (bool_decide (_ = BlockKey_Algorithm k))) eqn:Ha; [intros [= <- <-]; eauto|]. apply negb_false_iff, bool_decide_eq_true in Ha.
  destruct (negb (bool_decide (_ = BlockKey_Kid k))) eqn:Hk; [intros [= <- <-]; eauto|]. apply negb_false_iff, bool_decide_eq_true in Hk.
  destruct (VerifyCompact_live v hash jwe _ Hl (parsed_AAD _ _ _ Hu)) as (v' & -> & Hl').
  case_bool_decide as Hm; cbn [negb]; [|intros [= <- <-]; eauto].
  destruct (str_empty (Jwe_Zip (ProtectedHeader jwe))) eqn:Hz; cbn [negb]; [|intros [= <- <-]; eauto].
  destruct (N.eqb_spec (len (Ciphertext jwe) mod aes_BlockSize) 0) as [Hbl|]; cbn [negb]; [|intros [= <- <-]; eauto].
  intros Hd. split; [|left; exists jwe; split_and!; try done; by destruct (Jwe_Zip _)].
  by destruct (BlockKey_Open k (Ciphertext jwe)) as [[b k']|e|]; injection Hd as <- <-.
Qed.

(** A JWE that passes them is decrypted. *)
Lemma Decrypt_checked d hash token jwe : live_hmac (hmacKey (Ddb_jweVerifier d)) hash → block_checked d hash token jwe →
  ∃ m, live_hmac (hmacKey m) hash ∧ JweDirectDecryptorBlock_Decrypt d token =
    match BlockKey_Open (Ddb_aesKey d) (Ciphertext jwe) with
    | Ok (b, k) => (declared_plaintext (ProtectedHeader jwe) b, {| Ddb_aesKey := k; Ddb_jweVerifier := m |})
    | Err e => (Err e, {| Ddb_aesKey := Ddb_aesKey d; Ddb_jweVerifier := m |})
    | Panic => (Panic, {| Ddb_aesKey := Ddb_aesKey d; Ddb_jweVerifier := m |})
    end.
Proof.
  intros Hl (Hsz & Hu & Ha & Hk & Hm & Hz & Hc). destruct d as [k v]. cbn [Ddb_aesKey Ddb_jweVerifier] in *.
  destruct (VerifyCompact_live v hash jwe _ Hl (parsed_AAD _ _ _ Hu)) as (v' & Hv & Hl'). exists v'. split; [done|].
  unfold JweDirectDecryptorBlock_Decrypt. cbn [Ddb_aesKey Ddb_jweVerifier].
  destruct (N.ltb_spec MaxCompactSize (slen token)); [lia|]. rewrite Hu. cbn [wrap_err]. rewrite Ha, Hk, !bool_decide_true by done. cbn [negb].
  rewrite Hv, bool_decide_true by done. cbn [negb]. rewrite Hz. cbn [str_empty negb]. change aes_BlockSize with 16%N. by rewrite Hc.
Qed.

Lemma block_checked_unique d hash token jwe1 jwe2 : block_checked d hash token jwe1 → block_checked d hash token jwe2 → jwe1 = jwe2.
Proof. intros (_ & Hx1 & _) (_ & Hx2 & _). congruence. Qed.

(** The CBC cryptor never panics on whole blocks. *)
Lemma cbc_open_total key iv kid alg ct : (len ct mod 16 = 0)%N →
  ∃ b iv', AesCbcCryptor_Open (cbc_decryptor key iv kid alg) ct = Ok (b, cbc_decryptor key iv' kid alg).
Proof.
  intros Hc. unfold AesCbcCryptor_Open. change (BlockSize (Cbc_blockCipher (cbc_decryptor key iv kid alg))) with 16%N.
  destruct (_ <? _)%N; [by exists [], iv|]. rewrite Hc. cbn [N.eqb negb cbc_decryptor NewAesCbcCryptor Cbc_blockCipher Cbc_state].
  rewrite CryptBlocks_dec; [|done|].
  - destruct (cbc_dec_blocks _ _ _) as [out iv']. by exists (out ++ replicate (N.to_nat (getDestinationSize (len ct) 16 - len ct)) x00), iv'.
  - by apply getDestinationSize_ge.
Qed.

(** C19. Decrypting with a CBC cryptor and a live MAC key never panics.  A JWE is only
    decrypted, and the chaining value only changes, when the JWE names the key and
    its algorithm, is not compressed, has whole blocks, and its tag is the MAC of
    its header octets as received, its vector and its ciphertext; in all other
    cases it is refused with the chaining value as it was. *)
Theorem JweDirectBlock_authentic key iv kid alg v hash token r d' : live_hmac (hmacKey v) hash →
  JweDirectDecryptorBlock_Decrypt {| Ddb_aesKey := cbc_decryptor key iv kid alg; Ddb_jweVerifier := v |} token = (r, d') →
  r ≠ Panic ∧ live_hmac (hmacKey (Ddb_jweVerifier d')) hash ∧
  ∃ iv', Ddb_aesKey d' = cbc_decryptor key iv' kid alg ∧
    ((∃ p, r = Ok p) ∨ iv' ≠ iv →
     ∃ jwe, JweRfc7516Compact_Unmarshal JweRfc7516Compact_zero token = Ok jwe ∧
       Jws_Alg (Jwe_Jws (ProtectedHeader jwe)) = alg ∧ Jws_Kid (Jwe_Jws (ProtectedHeader jwe)) = kid ∧
       hash_mac hash (mac_input (RawProtectedHeader jwe) (InitializationVector jwe) (Ciphertext jwe)) = AuthenticationTag jwe ∧
       Jwe_Zip (ProtectedHeader jwe) = "" ∧ (len (Ciphertext jwe) mod 16 = 0)%N).
Proof.
  intros Hl Hd. pose (d := {| Ddb_aesKey := cbc_decryptor key iv kid alg; Ddb_jweVerifier := v |}). fold d in Hd.
  destruct (Decrypt_unchecked d hash _ _ _ Hl Hd) as [Hl' Hc]. split_and!; [|done|].
  - destruct Hc as [(jwe & Hc)|((e & ->) & _)]; [|done].
    destruct (Decrypt_checked d hash _ _ Hl Hc) as (m & _ & He). rewrite Hd in He. cbn [d Ddb_aesKey BlockKey_Open AesCbcCryptor_Block] in He.
    destruct Hc as (_ & _ & _ & _ & _ & _ & Hb). destruct (cbc_open_total key iv kid alg _ Hb) as (b & iv' & Ho). rewrite Ho in He.
    injection He as -> _. apply declared_plaintext_no_panic.
  - destruct Hc as [(jwe & Hc)|((e & ->) & Hk)].
    + destruct (Decrypt_checked d hash _ _ Hl Hc) as (m & _ & He). rewrite Hd in He. cbn [d Ddb_aesKey BlockKey_Open AesCbcCryptor_Block] in He.
      destruct Hc as (_ & Hu & Ha & Hk & Hm & Hz & Hb). destruct (cbc_open_total key iv kid alg _ Hb) as (b & iv' & Ho). rewrite Ho in He.
      injection He as _ ->. exists iv'. split; [done|]. intros _. exists jwe. split_and!; done.
    + exists iv. split; [by rewrite Hk|]. intros [(p & Hp)|Hn]; done.
Qed.

(** ** Round trip *)
Definition block_encryptor (key iv : bytes) (kid : string) (alg : Alg) (declared_iv : bytes) (v : JweHmacVerifierImpl HmacShaCryptor) : encryptor :=
  {| Deb_aesKey := cbc_encryptor key iv kid alg; Deb_iv := declared_iv; Deb_jweVerifier := v |}.
Definition block_decryptor (key iv : bytes) (kid : string) (alg : Alg) (v : JweHmacVerifierImpl HmacShaCryptor) : decryptor :=
  {| Ddb_aesKey := cbc_decryptor key iv kid alg; Ddb_jweVerifier := v |}.

(** The header of an encryptor for a plaintext. *)
Definition block_header (e : encryptor) (p : bytes) : JweProtectedHeader :=
  Jwe_set_Custom {| OtherAad := Some (uintToBytesBigEndian (len p)) |} (block_makeJweProtectedHeader e).

Lemma block_header_ok key iv kid alg enc div v p : cbcAlgToEncMap alg = Some enc → utf8 kid = true →
  let h := block_header (block_encryptor key iv kid alg div v) p in JweHeader_ok h ∧ jwe_supported h.
Proof.
  intros He Hk h. destruct (cbcAlgToEncMap_supported _ _ He) as (Ha & Hau & Hen & Hu).
  assert (h = {| Jwe_Jws := set_Cty "JWT" (set_Typ "JWT" (set_Kid kid (set_Alg alg JwsHeader_zero)));
                 Jwe_Custom := {| OtherAad := Some (uintToBytesBigEndian (len p)) |}; Jwe_Enc := enc; Jwe_Zip := "" |}) as ->.
  { subst h. unfold block_header, block_makeJweProtectedHeader, block_encryptor. cbn. unfold AesCbcCryptor_Algorithm. cbn. by rewrite He. }
  split.
  - split; cbn [Jwe_Jws Jwe_Custom OtherAad Jwe_Enc Jwe_Zip]; [by split| |done|done].
    intros b [= <-]. pose proof (be8_len (len p)) as Hl. split; [by intros Hn; rewrite Hn in Hl|]. by rewrite Hl.
  - by split_and!.
Qed.

(** Once the plaintext is sealed encrypting succeeds, and a decryptor with the same
    keys, whatever its chaining value, accepts the JWE if it has whole blocks. *)
Lemma block_encrypt_sealed key iv kid alg enc div ve hash p ct k :
  AesCbcCryptor_Seal (cbc_encryptor key iv kid alg) p = Ok (ct, k) → live_hmac (hmacKey ve) hash →
  cbcAlgToEncMap alg = Some enc → utf8 kid = true →
  ∃ token ve', JweDirectEncryptorBlock_Encrypt (block_encryptor key iv kid alg div ve) p =
      Ok (token, {| Deb_aesKey := k; Deb_iv := div; Deb_jweVerifier := ve' |}) ∧ live_hmac (hmacKey ve') hash ∧
    ((slen token <= MaxCompactSize)%N → (len ct mod 16 = 0)%N → ∃ jwe,
      JweRfc7516Compact_Unmarshal JweRfc7516Compact_zero token = Ok jwe ∧ Ciphertext jwe = ct ∧
      OtherAad (Jwe_Custom (ProtectedHeader jwe)) = Some (uintToBytesBigEndian (len p)) ∧
      ∀ iv' vd, block_checked (block_decryptor key iv' kid alg vd) hash token jwe).
Proof.
  intros Hseal Hl Henc Hkid. set (e := block_encryptor key iv kid alg div ve). pose (h := block_header e p).
  destruct (block_header_ok key iv kid alg enc div ve p Henc Hkid) as [Hh Hs]. fold e in Hh, Hs. fold h in Hh, Hs.
  pose (aad := s2b (EncodeToString RawURLEncoding (jwe_header_doc h))). pose (tag := hash_mac hash (mac_input aad div ct)).
  destruct (ComputeHash_live ve hash aad div ct Hl) as (ve' & Hmac & Hl'). fold tag in Hmac.
  destruct (JweRfc7516Compact_Marshal_Unmarshal {| ProtectedHeader := h; RawProtectedHeader := []; EncryptedKey := [];
    InitializationVector := div; Ciphertext := ct; AuthenticationTag := tag |} Hh Hs) as (token & raw & Hmar & Hraw & Hun).
  cbn [ProtectedHeader] in Hraw. rewrite MarshalProtectedHeader_Ok in Hraw by done. injection Hraw as <-. fold aad in Hun.
  exists token, ve'. split_and!; [|done|].
  - unfold JweDirectEncryptorBlock_Encrypt. fold (block_header e p). fold h. rewrite MarshalProtectedHeader_Ok by done. fold aad.
    cbn [wrap_err mbind res_bind]. unfold e, block_encryptor. cbn [Deb_aesKey BlockKey_Seal AesCbcCryptor_Block Deb_jweVerifier Deb_iv].
    rewrite Hseal. cbn [mbind res_bind]. rewrite Hmac. cbn [mbind res_bind]. by rewrite Hmar.
  - intros Hsz Hb. eexists. split; [exact (Hun Hsz)|]. split_and!; [done|done|]. intros iv' vd. by split_and!; [exact Hsz|exact (Hun Hsz)|..].
Qed.

(** Encrypting always succeeds; what it produces is decrypted to the plaintext by
    the holder of the same keys whose chaining value is the same.  Both chaining
    values are the same again afterwards if the plaintext does not end on a block
    boundary, and the decryptor's is sixteen zeros if it does. *)
Lemma block_encrypt_decrypt key iv kid alg enc div ve vd hash p :
  block iv → live_hmac (hmacKey ve) hash → live_hmac (hmacKey vd) hash →
  cbcAlgToEncMap alg = Some enc → utf8 kid = true → (getDestinationSize (len p) 16 <= MaxPlaintextSize)%N →
  ∃ token iv1 ve', JweDirectEncryptorBlock_Encrypt (block_encryptor key iv kid alg div ve) p = Ok (token, block_encryptor key iv1 kid alg div ve') ∧
    live_hmac (hmacKey ve') hash ∧ block iv1 ∧
    ((slen token <= MaxCompactSize)%N →
     ∃ iv2 vd', JweDirectDecryptorBlock_Decrypt (block_decryptor key iv kid alg vd) token = (Ok p, block_decryptor key iv2 kid alg vd') ∧
       live_hmac (hmacKey vd') hash ∧ ((len p mod 16 ≠ 0)%N → iv2 = iv1) ∧ ((len p mod 16 = 0)%N → iv2 = replicate 16 x00)).
Proof.
  intros Hiv Hle Hld Henc Hkid Hsz.
  destruct (cbc_seal_open key iv kid alg kid alg p Hiv Hsz) as (ct & iv1 & pt & iv2 & Hseal & Hopen & Hct & Hpt & Htk & Hi1 & Hi2 & Hne & Heq).
  destruct (block_encrypt_sealed key iv kid alg enc div ve hash p ct _ Hseal Hle Henc Hkid) as (token & ve' & He & Hle' & Hc).
  exists token, iv1, ve'. split_and!; [done|done|done|]. intros Hl.
  destruct (Hc Hl) as (jwe & _ & Hj & Hdecl & Hchk); [rewrite Hct, getDestinationSize_eq by done; apply N.Div0.mod_mul|].
  destruct (Decrypt_checked (block_decryptor key iv kid alg vd) hash token jwe Hld (Hchk _ _)) as (vd' & Hld' & Hd).
  exists iv2, vd'. split_and!; [|done..]. rewrite Hd. cbn [block_decryptor Ddb_aesKey BlockKey_Open AesCbcCryptor_Block]. rewrite Hj, Hopen.
  pose proof (getDestinationSize_ge (len p) 16 ltac:(done)). unfold MaxPlaintextSize in Hsz.
  by rewrite (declared_exact _ p pt) by (done || lia).
Qed.

(** A conversation: messages through one encryptor, read in order by one decryptor. *)
Fixpoint encrypt_all (e : encryptor) (ps : list bytes) : result (list string * encryptor) :=
  match ps with
  | [] => Ok ([], e)
  | p :: ps =>
    '(token, e) ← JweDirectEncryptorBlock_Encrypt e p;
    '(tokens, e) ← encrypt_all e ps;
    Ok (token :: tokens, e)
  end.
Fixpoint decrypt_all (d : decryptor) (tokens : list string) : list (result bytes) :=
  match tokens with
  | [] => []
  | token :: tokens => let '(r, d) := JweDirectDecryptorBlock_Decrypt d token in r :: decrypt_all d tokens
  end.

(** C9. An encryptor and a decryptor that start with the same keys and chaining value
    stay in step over any number of messages, read in the order in which they were
    written, as long as none ends on a block boundary, the last one apart. *)
Theorem JweDirectBlock_conversation key iv kid alg enc div ve vd hash ps q :
  block iv → live_hmac (hmacKey ve) hash → live_hmac (hmacKey vd) hash → cbcAlgToEncMap alg = Some enc → utf8 kid = true →
  Forall (λ p, getDestinationSize (len p) 16 <= MaxPlaintextSize)%N (ps ++ [q]) → Forall (λ p, len p mod 16 ≠ 0)%N ps →
  ∃ tokens e', encrypt_all (block_encryptor key iv kid alg div ve) (ps ++ [q]) = Ok (tokens, e') ∧
    (Forall (λ token, slen token <= MaxCompactSize)%N tokens →
     decrypt_all (block_decryptor key iv kid alg vd) tokens = map Ok (ps ++ [q])).
Proof.
  intros Hiv Hle Hld Henc Hkid Hsz Hna. revert iv ve vd Hiv Hle Hld. induction ps as [|p ps IH]; intros iv ve vd Hiv Hle Hld; cbn [app] in *.
  - apply list.Forall_cons in Hsz as [Hp _].
    destruct (block_encrypt_decrypt key iv kid alg enc div ve vd hash q Hiv Hle Hld Henc Hkid Hp) as (token & iv1 & ve' & He & _ & _ & Hd).
    exists [token]. eexists. cbn [encrypt_all]. rewrite He. split; [done|]. intros [Ht _]%list.Forall_cons.
    destruct (Hd Ht) as (iv2 & vd' & Hd' & _). cbn [decrypt_all]. by rewrite Hd'.
  - apply list.Forall_cons in Hsz as [Hp Hsz]. apply list.Forall_cons in Hna as [Hnp Hna].
    destruct (block_encrypt_decrypt key iv kid alg enc div ve vd hash p Hiv Hle Hld Henc Hkid Hp) as (token & iv1 & ve' & He & Hle' & Hi1 & Hd).
    destruct (decide (slen token <= MaxCompactSize)%N) as [Ht|Ht].
    + destruct (Hd Ht) as (iv2 & vd' & Hd' & Hld' & Hs & _). rewrite (Hs Hnp) in Hd'.
      destruct (IH Hsz Hna iv1 ve' vd' Hi1 Hle' Hld') as (tokens & e' & Hes & Hds). exists (token :: tokens), e'.
      cbn [encrypt_all]. rewrite He. cbn [mbind res_bind]. rewrite Hes. split; [done|]. intros [_ Hts]%list.Forall_cons.
      cbn [decrypt_all map]. rewrite Hd'. by rewrite Hds.
    + destruct (IH Hsz Hna iv1 ve' vd Hi1 Hle' Hld) as (tokens & e' & Hes & _). exists (token :: tokens), e'.
      cbn [encrypt_all]. rewrite He. cbn [mbind res_bind]. rewrite Hes. split; [done|]. by intros [? _]%list.Forall_cons.
Qed.

(** ** What the tag leaves open *)
Lemma cbc_open_length key iv kid alg ct : block iv → (len ct mod 16 = 0)%N → (len ct <= MaxPlaintextSize)%N →
  ∃ b iv', AesCbcCryptor_Open (cbc_decryptor key iv kid alg) ct = Ok (b, cbc_decryptor key iv' kid alg) ∧ len b = getDestinationSize (len ct) 16.
Proof.
  intros Hiv Hc Hsz. unfold AesCbcCryptor_Open. change (BlockSize (Cbc_blockCipher (cbc_decryptor key iv kid alg))) with 16%N.
  destruct (N.ltb_spec MaxPlaintextSize (len ct)); [lia|]. rewrite Hc. cbn [N.eqb negb cbc_decryptor NewAesCbcCryptor Cbc_blockCipher Cbc_state].
  pose proof (getDestinationSize_ge (len ct) 16 ltac:(done)) as Hd.
  rewrite CryptBlocks_dec by done. destruct (aligned16 _ Hc) as [Hl _]. destruct (blocks_split _ _ Hl) as [_ Hf].
  pose proof (cbc_dec_length key iv _ Hf Hiv) as Hdl. rewrite blocks_length in Hdl.
  destruct (cbc_dec_blocks _ _ _) as [out iv']. cbn [fst] in Hdl. do 2 eexists. split; [reflexivity|].
  unfold len in *. rewrite length_app, length_replicate. lia.
Qed.

(** C37. The length of the initialization vector is not checked, and nothing in the MAC
    separates it from the ciphertext.  From a JWE that is accepted, whoever sees it
    makes another that is accepted too, without the keys: blocks are moved from the
    front of the ciphertext to the end of the vector. *)
Theorem JweDirectBlock_border key iv kid alg v hash token1 token2 jwe1 jwe2 a p1 d1 :
  block iv → live_hmac (hmacKey v) hash →
  JweDirectDecryptorBlock_Decrypt (block_decryptor key iv kid alg v) token1 = (Ok p1, d1) →
  JweRfc7516Compact_Unmarshal JweRfc7516Compact_zero token1 = Ok jwe1 → JweRfc7516Compact_Unmarshal JweRfc7516Compact_zero token2 = Ok jwe2 →
  ProtectedHeader jwe2 = ProtectedHeader jwe1 → RawProtectedHeader jwe2 = RawProtectedHeader jwe1 → AuthenticationTag jwe2 = AuthenticationTag jwe1 →
  InitializationVector jwe2 = InitializationVector jwe1 ++ a → Ciphertext jwe1 = a ++ Ciphertext jwe2 →
  (len a mod 16 = 0)%N → (len (Ciphertext jwe1) <= MaxPlaintextSize)%N → (len p1 <= len (Ciphertext jwe2) + 16)%N →
  ∃ p2 d2, JweDirectDecryptorBlock_Decrypt (block_decryptor key iv kid alg v) token2 = (Ok p2, d2) ∧ len p2 = len p1.
Proof.
  intros Hiv Hl Hd1 Hu1 Hu2 Hh Hr Ht Hi Hct Ha Hsz Hp. set (d := block_decryptor key iv kid alg v) in *.
  destruct (Decrypt_unchecked d hash _ _ _ Hl Hd1) as [_ [(j & Hc)|((e & He) & _)]]; [|done].
  assert (j = jwe1) as -> by (destruct Hc as (_ & Hj & _); congruence).
  destruct (Decrypt_checked d hash _ _ Hl Hc) as (m1 & _ & Hd1'). rewrite Hd1 in Hd1'.
  destruct Hc as (_ & _ & Halg & Hkid & Hmac & Hz & Hb).
  assert (len (Ciphertext jwe2) mod 16 = 0)%N as Hb2.
  { rewrite Hct in Hb. unfold len in Hb. rewrite length_app, Nat2N.inj_add in Hb. fold (len a) (len (Ciphertext jwe2)) in Hb.
    by rewrite N.Div0.add_mod, Ha, N.add_0_l, N.Div0.mod_mod in Hb. }
  assert (block_checked d hash token2 jwe2) as Hc2.
  { destruct (parsed_segments _ _ _ Hu2) as [Hs2 _]. split_and!; [done|done|by rewrite Hh|by rewrite Hh| |by rewrite Hh|done].
    rewrite Hr, Ht, <- Hmac. unfold mac_input. by rewrite Hi, Hct, <- !app_assoc. }
  destruct (Decrypt_checked d hash _ _ Hl Hc2) as (m2 & _ & ->). unfold d in Hd1' |- *. cbn [block_decryptor Ddb_aesKey BlockKey_Open AesCbcCryptor_Block] in Hd1' |- *.
  destruct (cbc_open_total key iv kid alg _ Hb) as (b1 & iv1 & Ho1). rewrite Ho1 in Hd1'. injection Hd1' as Hd1' _. symmetry in Hd1'.
  apply declared_plaintext_spec in Hd1' as (data & Ho & H8 & Hn & ->).
  assert (len (Ciphertext jwe2) <= MaxPlaintextSize)%N as Hsz2 by (rewrite Hct in Hsz; unfold len in *; rewrite length_app in Hsz; lia).
  destruct (cbc_open_length key iv kid alg _ Hiv Hb2 Hsz2) as (b2 & iv2 & -> & Hlb).
  assert (∀ b : bytes, (be_to_N (take 8 data) <= len b)%N → len (takeN (be_to_N (take 8 data)) b) = be_to_N (take 8 data)) as Htk.
  { intros b Hle. rewrite takeN_take. unfold len in *. rewrite length_take. lia. }
  rewrite (Htk b1 Hn) in *. rewrite getDestinationSize_eq in Hlb by done. destruct (aligned16 _ Hb2) as [_ Hal].
  do 2 eexists. split; [|]; [f_equal; apply declared_plaintext_spec; exists data; rewrite Hh; split_and!; [done|done|lia|reflexivity]|].
  apply Htk. lia.
Qed.
(** A plaintext over the size bound is not refused: encrypting succeeds, without the
    plaintext.  The JWE carries an empty ciphertext under a valid tag, and whoever
    receives it learns that something is missing. *)
Theorem JweDirectBlock_oversized key iv kid alg enc div ve vd hash p :
  block iv → live_hmac (hmacKey ve) hash → live_hmac (hmacKey vd) hash → cbcAlgToEncMap alg = Some enc → utf8 kid = true →
  (MaxPlaintextSize < len p < 2 ^ 64)%N →
  ∃ token ve', JweDirectEncryptorBlock_Encrypt (block_encryptor key iv kid alg div ve) p = Ok (token, block_encryptor key iv kid alg div ve') ∧
    ((slen token <= MaxCompactSize)%N → ∃ jwe,
     JweRfc7516Compact_Unmarshal JweRfc7516Compact_zero token = Ok jwe ∧ Ciphertext jwe = [] ∧
     fst (JweDirectDecryptorBlock_Decrypt (block_decryptor key iv kid alg vd) token) =
       Err (EText "error decoding plaintext: declared length exceeds decrypted length")).
Proof.
  intros Hiv Hle Hld Henc Hkid Hsz.
  assert (AesCbcCryptor_Seal (cbc_encryptor key iv kid alg) p = Ok ([], cbc_encryptor key iv kid alg)) as Hseal.
  { unfold AesCbcCryptor_Seal. by destruct (N.ltb_spec MaxPlaintextSize (len p)); [|lia]. }
  destruct (block_encrypt_sealed key iv kid alg enc div ve hash p [] _ Hseal Hle Henc Hkid) as (token & ve' & He & _ & Hc).
  exists token, ve'. split; [done|]. intros Hl. destruct (Hc Hl) as (jwe & Hu & Hj & Hdecl & Hchk); [done|]. exists jwe. split_and!; [done|done|].
  destruct (Decrypt_checked (block_decryptor key iv kid alg vd) hash token jwe Hld (Hchk _ _)) as (vd' & _ & ->).
  cbn [block_decryptor Ddb_aesKey BlockKey_Open AesCbcCryptor_Block]. rewrite Hj.
  destruct (cbc_open_length key iv kid alg [] Hiv) as (b & iv' & -> & Hb); [done|done|]. cbn [fst].
  destruct (declared_plaintext _ b) as [q|e|] eqn:Hd; [| |by apply declared_plaintext_no_panic in Hd].
  - apply declared_plaintext_spec in Hd as (data & Hd & _ & Hle' & _). rewrite Hdecl in Hd. injection Hd as <-.
    rewrite be8_value in Hle' by lia. unfold MaxPlaintextSize in Hsz. change (getDestinationSize (len []) 16) with 16%N in Hb. lia.
  - unfold declared_plaintext in Hd. rewrite Hdecl in Hd. rewrite be8_len in Hd. cbn [N.ltb N.compare Pos.compare Pos.compare_cont] in Hd.
    destruct (_ <? _)%N; [by injection Hd as <-|done].
Qed.
End direct_block.
