(* ===== verification/KeyEncryptionFacts.v ===== *)
(** Properties of RSA key encryption ([JweCryptors]): what is encrypted to a key is
    decrypted with it, exactly which JWEs are decrypted, and that a recipient does
    not tell a key that fails to unwrap from a tag that fails to verify. *)

From S2P Require Import Prelude Errors Base64 Json JsonFacts JsonCodec Types Crypto Toy Jwk Jws JwsFacts Jwe JweFacts Helpers HelpersFacts Keys KeysFacts Interfaces Cryptors CryptorsFacts JweCryptors.

Lemma encCekLength_key enc n cek : encCekLength enc = Some n → len cek = n → aes_key cek = true.
Proof. unfold encCekLength, aes_key. intros He <-. repeat case_bool_decide; simplify_eq; match goal with E : _ = len cek |- _ => by rewrite <- E end. Qed.

Lemma oaep_alg_supported h alg : OaepAlgFromHash h = Some alg →
  alg ∈ supportedJweAlgs ∧ utf8 alg = true ∧ Hash_Available h = true ∧ OaepHashFromAlg alg = Some h.
Proof. destruct h; cbn; intros [= <-]; (split_and!; [apply list_elem_of_In; cbn; tauto|done..]). Qed.

Section key_encryption.
Context `{X509, Digests, Rsa, Ecdsa, Aes}.
Context {St K : Type} `{!AsymmetricDecryptionKey K, !AsymmetricDecryptionKeyStore St K}.
Local Abbreviation decryptor := (JweRsaKeyEncryptionDecryptorImpl St).

(** ** Unwrapping *)
(** The content encryption key that unwraps to the length asked for. *)
Definition unwrapped (key : K) (h : Hash) (encryptedKey : bytes) (n : N) : option bytes :=
  match DecKey_Decrypt key KeyOpsDecrypt h encryptedKey with Ok cek => if (len cek =? n)%N then Some cek else None | _ => None end.

Lemma unwrap_or_random_spec rand key h ek n cek : unwrap_or_random rand key h ek n = Ok cek →
  len cek = n ∧ (unwrapped key h ek n = Some cek ∨ (unwrapped key h ek n = None ∧ ∃ rand', ReadFull n rand = Ok (cek, rand'))).
Proof.
  unfold unwrap_or_random, unwrapped.
  assert (fst <$> wrap_err "error generating substitute CEK" (ReadFull n rand) = Ok cek → len cek = n ∧ ∃ rand', ReadFull n rand = Ok (cek, rand')) as Hr.
  { intros Hf. destruct (ReadFull n rand) as [[c r]|e|] eqn:E; [|done..]. injection Hf as ->. split; [by apply ReadFull_Ok in E as [? _]|by exists r]. }
  destruct (DecKey_Decrypt _ _ _ _) as [c|e|]; [|by intros [? ?]%Hr; eauto|done].
  destruct (N.eqb_spec (len c) n); [intros [= <-]; by eauto|]. intros [? ?]%Hr; eauto.
Qed.

(** ** What is accepted *)
(** The checks that precede the unwrapping, and what they find. *)
Definition rsa_parsed (d : decryptor) (token : string) (jwe : JweRfc7516Compact) (n : N) (key : K) (h : Hash) : Prop :=
  JweRfc7516Compact_Unmarshal JweRfc7516Compact_zero token = Ok jwe ∧ Jwe_Zip (ProtectedHeader jwe) = "" ∧
  encCekLength (Jwe_Enc (ProtectedHeader jwe)) = Some n ∧
  DecKeyStore_Get (Rkd_keystore d) (Jws_Kid (Jwe_Jws (ProtectedHeader jwe))) = Ok key ∧
  OaepHashFromAlg (Jws_Alg (Jwe_Jws (ProtectedHeader jwe))) = Some h ∧ isRsaOaepAlg (DecKey_Algorithm key) = true.

(** After the checks the outcome is that of opening under the key that unwraps, or
    under a random one. *)
Definition open_with (jwe : JweRfc7516Compact) (cek : bytes) : result (bytes * bytes) :=
  if negb (len (InitializationVector jwe) =? 12)%N then gose_err Gose.ErrInvalidNonce
  else if negb (len (AuthenticationTag jwe) =? 16)%N then gose_err Gose.ErrInvalidAuthenticationTag
  else
    plaintext ← aead_Open (gcm cek) (InitializationVector jwe) (Ciphertext jwe ++ AuthenticationTag jwe) (RawProtectedHeader jwe);
    Ok (plaintext, RawProtectedHeader jwe).

Lemma Decrypt_parsed (rand : tape) (d : decryptor) token o jwe n key h : (slen token <= MaxCompactSize)%N → rsa_parsed d token jwe n key h →
  JweRsaKeyEncryptionDecryptorImpl_Decrypt rand d token o =
    (cek ← unwrap_or_random rand key (default h o) (EncryptedKey jwe) n; open_with jwe cek).
Proof.
  intros Hsz (Hu & Hz & He & Hk & Hh & Ha). unfold JweRsaKeyEncryptionDecryptorImpl_Decrypt.
  destruct (N.ltb_spec MaxCompactSize (slen token)); [lia|]. rewrite Hu. cbn [wrap_err mbind res_bind]. rewrite Hz. cbn [str_empty negb].
  rewrite He, Hk. cbn [wrap_err mbind res_bind]. rewrite Hh, Ha. cbn [negb].
  destruct (unwrap_or_random _ _ _ _ _) as [cek|e|] eqn:Hc; cbn [mbind res_bind]; [|done..].
  apply unwrap_or_random_spec in Hc as [Hl _]. unfold NewGCM. rewrite (encCekLength_key _ _ _ He Hl). cbn [wrap_err mbind res_bind].
  rewrite gcm_NonceSize, gcm_Overhead. unfold open_with. rewrite (parsed_AAD _ _ _ Hu). reflexivity.
Qed.

Lemma Decrypt_unparsed (d : decryptor) token o : (∀ kid, DecKeyStore_Get (Rkd_keystore d) kid ≠ Panic) →
  ((slen token <= MaxCompactSize)%N ∧ ∃ jwe n key h, rsa_parsed d token jwe n key h) ∨
  ∃ e, ∀ rand, JweRsaKeyEncryptionDecryptorImpl_Decrypt rand d token o = Err e.
Proof.
  intros Hks. unfold JweRsaKeyEncryptionDecryptorImpl_Decrypt, rsa_parsed.
  destruct (N.ltb_spec MaxCompactSize (slen token)) as [|Hsz]; [right; by eexists|].
  pose proof (JweRfc7516Compact_Unmarshal_no_panic JweRfc7516Compact_zero token) as Hnp.
  destruct (JweRfc7516Compact_Unmarshal JweRfc7516Compact_zero token) as [jwe|e|] eqn:Hu; cbn [wrap_err mbind res_bind]; [|right; by eexists|done]. clear Hnp.
  destruct (str_empty (Jwe_Zip (ProtectedHeader jwe))) eqn:Hz; cbn [negb]; [|right; by eexists].
  destruct (encCekLength _) as [n|] eqn:He; [|right; by eexists].
  pose proof (Hks (Jws_Kid (Jwe_Jws (ProtectedHeader jwe)))) as Hnk. destruct (DecKeyStore_Get _ _) as [key|e|] eqn:Hk; cbn [wrap_err mbind res_bind]; [|right; by eexists|done].
  destruct (OaepHashFromAlg _) as [h|] eqn:Hh; [|right; by eexists].
  destruct (isRsaOaepAlg _) eqn:Ha; cbn [negb]; [|right; by eexists].
  left. split; [done|]. exists jwe, n, key, h. split_and!; try done. by destruct (Jwe_Zip _).
Qed.

(** Decrypting does not panic if the key store and its keys do not, whatever the JWE is. *)
Lemma key_decrypt_no_panic (rand : tape) (d : decryptor) token o :
  (∀ kid, DecKeyStore_Get (Rkd_keystore d) kid ≠ Panic) →
  (∀ kid key h c, DecKeyStore_Get (Rkd_keystore d) kid = Ok key → Hash_Available h = true → DecKey_Decrypt key KeyOpsDecrypt h c ≠ Panic) →
  (∀ h, o = Some h → Hash_Available h = true) →
  JweRsaKeyEncryptionDecryptorImpl_Decrypt rand d token o ≠ Panic.
Proof.
  intros Hks Hk Ho. destruct (Decrypt_unparsed d token o Hks) as [(Hsz & jwe & n & key & h & Hp)|(e & He)]; [|by rewrite He].
  rewrite (Decrypt_parsed _ _ _ _ _ _ _ _ Hsz Hp). destruct Hp as (_ & _ & He & Hkey & Hh & _). apply bind_no_panic.
  - unfold unwrap_or_random. assert (Hash_Available (default h o) = true) as Ha.
    { destruct o as [h'|]; [by apply Ho|]. cbn. unfold OaepHashFromAlg, oaepAlgToHash in Hh. by repeat case_bool_decide; simplify_eq. }
    specialize (Hk _ _ _ (EncryptedKey jwe) Hkey Ha). assert (fst <$> wrap_err "error generating substitute CEK" (ReadFull n rand) ≠ Panic) as Hr by (unfold ReadFull; by destruct (_ <=? _)%N).
    destruct (DecKey_Decrypt _ _ _ _); [by destruct (_ =? _)%N|done|done].
  - intros cek [Hl _]%unwrap_or_random_spec. unfold open_with.
    destruct (N.eqb_spec (len (InitializationVector jwe)) 12); cbn [negb]; [|done]. destruct (negb _); [done|].
    apply bind_no_panic; [|done]. apply (aead_Open_no_panic _ (gcm_laws _ (encCekLength_key _ _ _ He Hl))). by rewrite gcm_NonceSize.
Qed.

(** The error that a JWE which passes the checks ends with, if it fails: it can be
    read off the lengths of its vector and its tag. *)
Definition visible_error (auth : error) (jwe : JweRfc7516Compact) : error :=
  if negb (len (InitializationVector jwe) =? 12)%N then EGose Gose.ErrInvalidNonce
  else if negb (len (AuthenticationTag jwe) =? 16)%N then EGose Gose.ErrInvalidAuthenticationTag
  else auth.

(** C8. A sender does not learn whether the content encryption key unwrapped.  When it
    does not, for whatever reason, the JWE is opened with random bytes of the right
    length; and every failure, with the right key or with a random one, is the error
    that the visible lengths of the JWE determine, if GCM has a single error. *)
Theorem unwrap_failure_hidden (rand : tape) (d : decryptor) token o jwe n key h auth cek rand' :
  (slen token <= MaxCompactSize)%N → rsa_parsed d token jwe n key h →
  (∀ c, DecKey_Decrypt key KeyOpsDecrypt (default h o) c ≠ Panic) →
  (∀ k nonce ct ad e, aead_Open (gcm k) nonce ct ad = Err e → e = auth) →
  ReadFull n rand = Ok (cek, rand') →
  JweRsaKeyEncryptionDecryptorImpl_Decrypt rand d token o =
    open_with jwe (default cek (unwrapped key (default h o) (EncryptedKey jwe) n)) ∧
  ∀ e, JweRsaKeyEncryptionDecryptorImpl_Decrypt rand d token o = Err e → e = visible_error auth jwe.
Proof.
  intros Hsz Hp Hnp Hauth Hr. rewrite (Decrypt_parsed _ _ _ _ _ _ _ _ Hsz Hp).
  assert (unwrap_or_random rand key (default h o) (EncryptedKey jwe) n = Ok (default cek (unwrapped key (default h o) (EncryptedKey jwe) n))) as ->.
  { unfold unwrap_or_random, unwrapped. specialize (Hnp (EncryptedKey jwe)). rewrite Hr. destruct (DecKey_Decrypt _ _ _ _) as [c|e|]; [|done|done]. by destruct (_ =? _)%N. }
  cbn [mbind res_bind]. split; [done|]. intros e. unfold open_with, visible_error.
  destruct (negb _); [by intros [= <-]|]. destruct (negb _); [by intros [= <-]|].
  intros [He|(p & _ & He)]%bind_Err; [by apply Hauth in He|done].
Qed.
End key_encryption.

(** ** With the RSA keys and the key store of the library *)
Section rsa.
Context `{X509, Digests, Rsa, Ecdsa, Signers, Aes}.
Local Abbreviation store := (AsymmetricDecryptionKeyStoreImpl RsaPrivateKeyImpl).

(** A key is found under its identifier; a key that is alone answers for all. *)
Lemma key_store_spec (s : store) kid : AsymmetricDecryptionKeyStoreImpl_Get s kid =
  match Adk_keys s !! kid with
  | Some key => Ok key
  | None => match map_to_list (Adk_keys s) with [(_, key)] => Ok key | _ => gose_err Gose.ErrUnknownKey end
  end.
Proof. done. Qed.

Lemma key_store_no_panic (s : store) kid : AsymmetricDecryptionKeyStoreImpl_Get s kid ≠ Panic.
Proof. unfold AsymmetricDecryptionKeyStoreImpl_Get. by repeat case_match. Qed.

(** Decrypting never panics, whatever the JWE is, as long as an override names a
    digest that is linked into the program. *)
Theorem JweRsaKeyEncryption_no_panic rand (s : store) token o : (∀ h, o = Some h → Hash_Available h = true) →
  JweRsaKeyEncryptionDecryptorImpl_Decrypt rand (NewJweRsaKeyEncryptionDecryptorImpl s) token o ≠ Panic.
Proof.
  intros Ho. apply key_decrypt_no_panic; [apply key_store_no_panic| |done]. intros kid key h c _ Hh. cbn [DecKey_Decrypt RsaPrivateKeyImpl_Decryption].
  unfold RsaPrivateKeyImpl_Decrypt. destruct (negb _); [done|]. rewrite Hh. apply rsa_DecryptOAEP_no_panic.
Qed.

(** An encryptor is made exactly from the public RSA keys labelled with an OAEP
    algorithm that may encrypt. *)
Lemma NewJweRsaKeyEncryptionEncryptorImpl_spec pub e : NewJweRsaKeyEncryptionEncryptorImpl pub = Ok e ↔
  KeyOpsEncrypt ∈ Jwk_Ops pub ∧ isRsaOaepAlg (Jwk_Alg pub) = true ∧
  ∃ k, loads_public pub (PubRSA k) ∧ e = {| rsaPublicKey := k; rsaAlg := Jwk_Alg pub; rsaPublicKid := Jwk_Kid pub |}.
Proof.
  unfold NewJweRsaKeyEncryptionEncryptorImpl, gcm_validEncryptionOpts.
  assert (isSubset (Jwk_Ops pub) [KeyOpsEncrypt] = true ↔ KeyOpsEncrypt ∈ Jwk_Ops pub) as Hs.
  { rewrite isSubset_spec. split; [intros [_ Hx]; apply Hx, list_elem_of_here|]. intros Hx. split; [done|]. by intros op ->%list_elem_of_singleton. }
  rewrite <- Hs. destruct (isSubset _ _); cbn [negb]; [|by split; [|intros [? _]]]. split.
  - intros (kek & (_ & _ & Hk)%LoadPublicKey_iff & He)%bind_Ok. destruct kek as [k| |]; try done.
    destruct (isRsaOaepAlg _); [|done]. injection He as <-. split_and!; try done. by exists k.
  - intros (_ & Ha & k & Hk & ->). rewrite (proj2 (LoadPublicKey_iff _ _ (PubRSA k))); [cbn [mbind res_bind]; by rewrite Ha|].
    split_and!; [|by intros op ->%list_elem_of_singleton; apply Hs|done].
    apply bool_decide_eq_true in Ha as [hh Ha]. unfold OaepHashFromAlg, oaepAlgToHash in Ha.
    repeat case_bool_decide; try done.
    all: match goal with E : Jwk_Alg _ = _ |- _ => rewrite E; apply list_elem_of_In; cbn; tauto end.
Qed.

(** What is encrypted to a key: a JWE whose key unwraps with the digest that its
    header names, and whose ciphertext opens. *)
Lemma JweRsa_Encrypt_inv rs e p hash token rs' : JweRsaKeyEncryptionEncryptorImpl_Encrypt rs e p hash = Ok (token, rs') →
  utf8 (rsaPublicKid e) = true →
  ∃ alg cek encryptedCEK iv ct tag raw r1 r2, OaepAlgFromHash hash = Some alg ∧ len cek = 32%N ∧ len iv = 12%N ∧ len tag = 16%N ∧
    rsa_EncryptOAEP hash r1 (rsaPublicKey e) cek = Ok (encryptedCEK, r2) ∧
    aead_Seal (gcm cek) (Some iv) p raw = Ok (ct ++ tag) ∧
    ((slen token <= MaxCompactSize)%N → JweRfc7516Compact_Unmarshal JweRfc7516Compact_zero token =
      Ok {| ProtectedHeader := rsa_makeJweProtectedHeader e alg; RawProtectedHeader := raw; EncryptedKey := encryptedCEK;
            InitializationVector := iv; Ciphertext := ct; AuthenticationTag := tag |}).
Proof.
  intros He Hu. unfold JweRsaKeyEncryptionEncryptorImpl_Encrypt in He. destruct (OaepAlgFromHash hash) as [alg|] eqn:Ha; [|done].
  destruct (oaep_alg_supported _ _ Ha) as (Hsup & Hau & _ & _).
  apply bind_Ok in He as ([cek r1] & Hcek%wrap_err_Ok & He). apply ReadFull_Ok in Hcek as [Hcl _].
  apply bind_Ok in He as ([ek r2] & Hek%wrap_err_Ok & He). apply bind_Ok in He as ([iv r3] & Hiv%wrap_err_Ok & He). apply ReadFull_Ok in Hiv as [Hil _].
  apply bind_Ok in He as (raw & Hraw%wrap_err_Ok & He). apply bind_Ok in He as (aead & Hg%wrap_err_Ok & He).
  unfold NewGCM in Hg. destruct (aes_key cek); [|done]. injection Hg as <-.
  apply bind_Ok in He as ([ct tag] & Hs%wrap_err_Ok & He). apply AesGcmCryptor_Seal_inv in Hs as (_ & _ & _ & Hs & _ & Htl). cbn [Gcm_aead NewAesGcmCryptor] in Hs, Htl.
  rewrite gcm_Overhead in Htl. apply bind_Ok in He as (jwe & Hm%wrap_err_Ok & [= <- <-]).
  assert (JweHeader_ok (rsa_makeJweProtectedHeader e alg)) as Hh by (split; [by split|done|done|done]).
  assert (jwe_supported (rsa_makeJweProtectedHeader e alg)) as Hsu by (split_and!; [done|done|apply list_elem_of_In; cbn; tauto]).
  destruct (JweRfc7516Compact_Marshal_Unmarshal {| ProtectedHeader := rsa_makeJweProtectedHeader e alg; RawProtectedHeader := []; EncryptedKey := ek;
    InitializationVector := iv; Ciphertext := ct; AuthenticationTag := tag |} Hh Hsu) as (src & raw' & Hmar & Hraw' & Hun).
  cbn [ProtectedHeader] in Hraw'. rewrite Hraw in Hraw'. injection Hraw' as <-. rewrite Hm in Hmar. injection Hmar as <-.
  exists alg, cek, ek, iv, ct, tag, raw, r1, r2. by split_and!.
Qed.

(** The same for any key and key store: a JWE opens with the key that the store has
    under the encryptor's identifier, if that key unwraps what is encrypted to it.
    If the store refuses, so does the decryptor. *)
Section any_key.
Context {St K : Type} `{!AsymmetricDecryptionKey K, !AsymmetricDecryptionKeyStore St K}.

Definition unwraps (key : K) (pub : RsaPublicKey) (hash : Hash) : Prop := ∀ r cek encryptedCEK r',
  rsa_EncryptOAEP hash r pub cek = Ok (encryptedCEK, r') → DecKey_Decrypt key KeyOpsDecrypt hash encryptedCEK = Ok cek.

Lemma encrypted_opens rs e p hash token rs' rand (d : JweRsaKeyEncryptionDecryptorImpl St) key o :
  JweRsaKeyEncryptionEncryptorImpl_Encrypt rs e p hash = Ok (token, rs') → utf8 (rsaPublicKid e) = true → (slen token <= MaxCompactSize)%N →
  DecKeyStore_Get (Rkd_keystore d) (rsaPublicKid e) = Ok key → isRsaOaepAlg (DecKey_Algorithm key) = true →
  unwraps key (rsaPublicKey e) hash → o = None ∨ o = Some hash →
  ∃ aad, JweRsaKeyEncryptionDecryptorImpl_Decrypt rand d token o = Ok (p, aad) ∧ ∃ rest, token = b2s aad +:+ "." +:+ rest.
Proof.
  intros Henc Hu Hsz Hget Hoaep Hkey Ho.
  destruct (JweRsa_Encrypt_inv _ _ _ _ _ _ Henc Hu) as (alg & cek & ek & iv & ct & tag & raw & r1 & r2 & Ha & Hcl & Hil & Htl & Hek & Hseal & Hun).
  specialize (Hun Hsz). destruct (oaep_alg_supported _ _ Ha) as (_ & _ & _ & Hh).
  assert (default hash o = hash) as Hdef by (by destruct Ho as [-> | ->]).
  erewrite (Decrypt_parsed (K := K)); [|done|split_and!; [exact Hun|done|reflexivity|exact Hget|exact Hh|exact Hoaep]].
  rewrite Hdef. unfold unwrap_or_random. cbn [EncryptedKey]. rewrite (Hkey _ _ _ _ Hek), Hcl, N.eqb_refl.
  cbn [mbind res_bind]. unfold open_with. cbn [InitializationVector AuthenticationTag Ciphertext RawProtectedHeader].
  rewrite Hil, Htl, !N.eqb_refl. cbn [negb]. assert (aes_key cek = true) as Hck by (unfold aes_key; by rewrite Hcl).
  rewrite (aead_Open_Seal _ (gcm_laws _ Hck) _ _ _ _ Hseal). cbn [mbind res_bind]. exists raw. split; [done|].
  destruct (parsed_segments _ _ _ Hun) as (_ & _ & p0 & rest & Hsrc & _ & _ & Hraw). cbn [RawProtectedHeader] in Hraw. exists rest. by rewrite Hraw, b2s_s2b.
Qed.

Lemma encrypted_refused rs e p hash token rs' rand (d : JweRsaKeyEncryptionDecryptorImpl St) o :
  JweRsaKeyEncryptionEncryptorImpl_Encrypt rs e p hash = Ok (token, rs') → utf8 (rsaPublicKid e) = true → (slen token <= MaxCompactSize)%N →
  match DecKeyStore_Get (Rkd_keystore d) (rsaPublicKid e) with
  | Ok _ => True
  | Err err => JweRsaKeyEncryptionDecryptorImpl_Decrypt rand d token o = Err (EWrap "error getting key from keystore" err)
  | Panic => JweRsaKeyEncryptionDecryptorImpl_Decrypt rand d token o = Panic
  end.
Proof.
  intros Henc Hu Hsz. destruct (DecKeyStore_Get _ _) eqn:Hget; [done|..].
  all: destruct (JweRsa_Encrypt_inv _ _ _ _ _ _ Henc Hu) as (alg & cek & ek & iv & ct & tag & raw & r1 & r2 & _ & _ & _ & _ & _ & _ & Hun).
  all: unfold JweRsaKeyEncryptionDecryptorImpl_Decrypt; destruct (N.ltb_spec MaxCompactSize (slen token)); [lia|].
  all: rewrite (Hun Hsz); cbn [wrap_err mbind res_bind]; unfold rsa_makeJweProtectedHeader; cbn; by rewrite Hget.
Qed.
End any_key.

(** C7. What is encrypted to the public half of a private RSA key is decrypted with
    that key, wherever the store finds it, with the digest that the header names or
    with the right override; the additional data are the header octets. *)
Theorem JweRsaKeyEncryption_roundtrip h l jwk k pub e rs p hash token rs' rand (s : store) o :
  h !! l = Some jwk → NewRsaDecryptionKey h l = Ok k → PublicFromPrivate jwk = Ok pub → NewJweRsaKeyEncryptionEncryptorImpl pub = Ok e →
  utf8 (Jwk_Kid jwk) = true → JweRsaKeyEncryptionEncryptorImpl_Encrypt rs e p hash = Ok (token, rs') → (slen token <= MaxCompactSize)%N →
  AsymmetricDecryptionKeyStoreImpl_Get s (Jwk_Kid jwk) = Ok k → o = None ∨ o = Some hash →
  ∃ aad, JweRsaKeyEncryptionDecryptorImpl_Decrypt rand (NewJweRsaKeyEncryptionDecryptorImpl s) token o = Ok (p, aad) ∧
    ∃ rest, token = b2s aad +:+ "." +:+ rest.
Proof.
  intros Hl Hk Hpub He Hu Henc Hsz Hget Ho. unfold NewRsaDecryptionKey, deref in Hk. rewrite Hl in Hk. cbn [mbind res_bind] in Hk.
  apply bind_Ok in Hk as (sg & (_ & Hreq & Hs)%LoadPrivateKey_iff & Hk). destruct sg as [key| |]; try done. injection Hk as <-.
  specialize (Hreq KeyOpsDecrypt (list_elem_of_here _ _)). destruct jwk as [|v| | |]; try done. destruct Hs as (-> & _ & _ & Hval & _).
  apply PublicFromPrivate_inv in Hpub as (Hispub & Hof & (_ & Halg & Hkid)%Jwk_of_fields).
  apply NewJweRsaKeyEncryptionEncryptorImpl_spec in He as (_ & Hoaep & pk & Hlp & ->). destruct pub as [pv| | | |]; try done. destruct Hlp as [-> _]. cbn [public_of] in Hof.
  rewrite Hof in Henc. rewrite Halg, Hkid in Henc. rewrite Halg in Hoaep.
  eapply (encrypted_opens (K := RsaPrivateKeyImpl)); [exact Henc|done|done|exact Hget|exact Hoaep| |done].
  intros r cek ek r' Hek. cbn [DecKey_Decrypt RsaPrivateKeyImpl_Decryption]. unfold RsaPrivateKeyImpl_Decrypt, validDecryptionOps. cbn [Rpk_ops Rpk_key].
  unfold cloneOps. rewrite (proj2 (authorised _ _ _)) by done. cbn [negb rsaPublicKey] in *.
  assert (Hash_Available hash = true) as ->.
  { unfold JweRsaKeyEncryptionEncryptorImpl_Encrypt in Henc. by destruct hash. }
  exact (rsa_oaep _ _ (rsa_priv_of v) _ _ _ Hval Hek).
Qed.
End rsa.
