(* ===== verification/Hsm.v ===== *)
(** [hsm/]: decryption keys that stay in a hardware security module.

    The module is reached through crypto11, which is not part of the repository: a
    class holds the calls that the package makes.  What they answer depends on the
    [Token], the objects that are on the token at the time of the call; a
    [Context] is the session that a key or a store was made with. *)

From S2P Require Import Prelude Errors Types Crypto Jwk Helpers Keys Interfaces.

(** ** crypto11 *)
Class Crypto11 := {
  Token : Type;
  crypto11_Context : Type;
  crypto11_SignerDecrypter : Type;
  (** a key pair that signs and does not decrypt *)
  crypto11_SignOnly : Type;
  (** identifier and label, either of which may be nil; no pair is a nil interface *)
  FindKeyPair : Token → crypto11_Context → option bytes → option bytes →
    result (option (crypto11_SignerDecrypter + crypto11_SignOnly));
  (** identifier and label; the serial number is always nil *)
  FindCertificate : Token → crypto11_Context → option bytes → option bytes → result (option x509_Certificate);
  NewRandomReader : Token → crypto11_Context → result tape;
  hsm_Public : crypto11_SignerDecrypter → PublicKey;
  (** [Decrypt] with [rsa.OAEPOptions] of this digest and a nil label *)
  hsm_Decrypt : Token → crypto11_SignerDecrypter → tape → bytes → Hash → result bytes;
}.

(** The bytes of a slice that may be nil, as a string. *)
Definition slice_string (b : option bytes) : string := b2s (default [] b).

Section hsm.
Context `{X509, Digests, Rsa, Ecdsa, Crypto11}.

(** ** [asymmetric_decryption_key.go] *)
Record hsm_AsymmetricDecryptionKey := {
  Hsm_kid : option bytes;
  Hsm_keylabel : option bytes;
  Hsm_ctx : crypto11_Context;
  Hsm_key : crypto11_SignerDecrypter;
}.

Definition AsymmetricDecryptionKey_Kid (a : hsm_AsymmetricDecryptionKey) : string := slice_string (Hsm_kid a).

(** No certificates when the lookup fails; a certificate that is not there is nil. *)
Definition AsymmetricDecryptionKey_Certificates (tok : Token) (a : hsm_AsymmetricDecryptionKey) : result (list (option x509_Certificate)) :=
  match FindCertificate tok (Hsm_ctx a) (Hsm_kid a) (Hsm_keylabel a) with
  | Ok cert => Ok [cert]
  | Err _ => Ok []
  | Panic => Panic
  end.

Definition AsymmetricDecryptionKey_Algorithm (a : hsm_AsymmetricDecryptionKey) : Alg := AlgRSAOAEP.

(** The operation is not looked at. *)
Definition AsymmetricDecryptionKey_Decrypt (tok : Token) (a : hsm_AsymmetricDecryptionKey) (operation : Types.KeyOps) (hash : Hash) (ciphertext : bytes)
    : result bytes :=
  randReader ← NewRandomReader tok (Hsm_ctx a);
  hsm_Decrypt tok (Hsm_key a) randReader ciphertext hash.

(** The JWK is new. *)
Definition AsymmetricDecryptionKey_Encryptor (tok : Token) (h : heap) (a : hsm_AsymmetricDecryptionKey) : result RsaPublicKeyImpl * heap :=
  match (certs ← AsymmetricDecryptionKey_Certificates tok a;
         JwkFromPublicKey (hsm_Public (Hsm_key a)) [KeyOpsEncrypt] certs) with
  | Ok jwk => let '(l, h) := alloc jwk h in (NewRsaPublicKeyImpl h l, h)
  | Err e => (Err e, h)
  | Panic => (Panic, h)
  end.

Definition NewAsymmetricDecryptionKey (pkcs11Context : crypto11_Context) (key : crypto11_SignerDecrypter) (kid keylabel : option bytes)
    : result hsm_AsymmetricDecryptionKey :=
  Ok {| Hsm_kid := kid; Hsm_keylabel := keylabel; Hsm_ctx := pkcs11Context; Hsm_key := key |}.

(** ** [asymmetric_decryption_key_store.go] *)
Record hsm_AsymmetricDecryptionKeyStore := { HsmStore_ctx : crypto11_Context }.

(** The type assertion fails on a pair that only signs, and on none. *)
Definition AsymmetricDecryptionKeyStore_Get (tok : Token) (a : hsm_AsymmetricDecryptionKeyStore) (kid : string) : result hsm_AsymmetricDecryptionKey :=
  keyPair ← FindKeyPair tok (HsmStore_ctx a) (Some (s2b kid)) None;
  match keyPair with
  | Some (inl rsaKeyPair) =>
    Ok {| Hsm_kid := Some (s2b kid); Hsm_keylabel := None; Hsm_ctx := HsmStore_ctx a; Hsm_key := rsaKeyPair |}
  | _ => gose_err Gose.ErrInvalidKeyType
  end.

Definition NewAsymmetricDecryptionKeyStore (ctx : crypto11_Context) : hsm_AsymmetricDecryptionKeyStore := {| HsmStore_ctx := ctx |}.

(** Keys and store are the ones that [JweCryptors] decrypts with, on a token. *)
Definition AsymmetricDecryptionKey_Decryption (tok : Token) : AsymmetricDecryptionKey hsm_AsymmetricDecryptionKey := {|
  DecKey_Algorithm := AsymmetricDecryptionKey_Algorithm;
  DecKey_Decrypt := AsymmetricDecryptionKey_Decrypt tok;
|}.
Definition AsymmetricDecryptionKeyStore_Store (tok : Token) : AsymmetricDecryptionKeyStore hsm_AsymmetricDecryptionKeyStore hsm_AsymmetricDecryptionKey :=
  AsymmetricDecryptionKeyStore_Get tok.
End hsm.
