(* ===== verification/HsmFacts.v ===== *)
(** Properties of [Hsm]: what the encryptor of a key on a token is, that the token
    decrypts what is encrypted to it, under which identifier, and that it does not
    marshal when the token has no certificate. *)

From S2P Require Import Prelude Errors Base64 Json JsonFacts JsonCodec Types Crypto Jwk Jws JwsFacts Jwe JweFacts Helpers HelpersFacts Keys KeysFacts Interfaces Cryptors JweCryptors KeyEncryptionFacts Hsm.

Section hsm.
Context `{X509, Digests, Rsa, Ecdsa, Signers, Aes, !Crypto11}.
Variable tok : Token.
#[local] Instance hsm_decryption : AsymmetricDecryptionKey hsm_AsymmetricDecryptionKey := AsymmetricDecryptionKey_Decryption tok.
#[local] Instance hsm_store : AsymmetricDecryptionKeyStore hsm_AsymmetricDecryptionKeyStore hsm_AsymmetricDecryptionKey := AsymmetricDecryptionKeyStore_Store tok.

(** ** The encryptor *)
Section key.
Variables (a : hsm_AsymmetricDecryptionKey) (k : RsaPublicKey).
Hypotheses (Hpub : hsm_Public (Hsm_key a) = PubRSA k) (Hexp : (0 < RsaPub_E k <= MaxInt32)%Z)
  (Hbits : (MinRsaModulusBits <= BitLen (RsaPub_N k))%N).

Definition encryptor_jwk (certs : list (option x509_Certificate)) : Jwk := rsa_public_jwk k [KeyOpsEncrypt] AlgRSAOAEP certs (rsa_kid k).
Definition encryptor_key (l : ref) : RsaPublicKeyImpl :=
  {| Rpub_key := k; Rpub_jwk := l; Rpub_ops := [KeyOpsEncrypt]; Rpub_alg := AlgRSAOAEP |}.

Lemma encryptor_jwk_made certs : JwkFromPublicKey (PubRSA k) [KeyOpsEncrypt] certs = Ok (encryptor_jwk certs).
Proof. rewrite JwkFromPublicKey_rsa by lia. done. Qed.

Lemma encryptor_jwk_loads certs required : (∀ op, op ∈ required → op ∈ [KeyOpsEncrypt]) → LoadPublicKey (encryptor_jwk certs) required = Ok (PubRSA k).
Proof. intros Hr. eapply JwkFromPublicKey_LoadPublicKey; [apply encryptor_jwk_made| |done]. by cbn; lia. Qed.

(** The encryptor of a key that the library can use: its JWK has the identifier that
    the library computes, and the certificates that the token has. *)
Lemma Encryptor_spec h certs : AsymmetricDecryptionKey_Certificates tok a = Ok certs →
  AsymmetricDecryptionKey_Encryptor tok h a = (Ok (encryptor_key (new_ref h)), <[new_ref h := encryptor_jwk certs]> h).
Proof.
  intros Hc. unfold AsymmetricDecryptionKey_Encryptor. rewrite Hc, Hpub. cbn [mbind res_bind]. rewrite encryptor_jwk_made. unfold alloc.
  unfold NewRsaPublicKeyImpl, deref. rewrite lookup_insert_eq. cbn [mbind res_bind].
  rewrite encryptor_jwk_loads by by intros op ?%elem_of_nil. done.
Qed.

Lemma encryptor_Jwk h l certs : h !! l = Some (encryptor_jwk certs) → RsaPublicKeyImpl_Jwk h (encryptor_key l) = Ok (encryptor_jwk certs).
Proof.
  intros Hl. unfold RsaPublicKeyImpl_Jwk, deref. cbn [Rpub_jwk encryptor_key]. rewrite Hl. cbn [mbind res_bind].
  rewrite Jwk_X5C_id. cbn [Jwk_fields encryptor_jwk rsa_public_jwk KeyX5C Rpub_key Rpub_ops Rpub_alg]. unfold cloneOps. by rewrite encryptor_jwk_made.
Qed.

Definition jwe_encryptor : JweRsaKeyEncryptionEncryptorImpl := {| rsaPublicKey := k; rsaPublicKid := rsa_kid k; rsaAlg := AlgRSAOAEP |}.

Lemma encryptor_jwe certs : NewJweRsaKeyEncryptionEncryptorImpl (encryptor_jwk certs) = Ok jwe_encryptor.
Proof.
  unfold NewJweRsaKeyEncryptionEncryptorImpl, gcm_validEncryptionOpts. rewrite encryptor_jwk_loads by done. done.
Qed.

(** ** Decrypting on the token *)
(** What a token promises for a digest that it supports: it has a random source, and
    it decrypts what is encrypted to the key. *)
Definition token_decrypts (hash : Hash) : Prop := ∃ rd, NewRandomReader tok (Hsm_ctx a) = Ok rd ∧
  ∀ r m c r', rsa_EncryptOAEP hash r k m = Ok (c, r') → hsm_Decrypt tok (Hsm_key a) rd c hash = Ok m.

Lemma token_unwraps hash b : token_decrypts hash → Hsm_ctx b = Hsm_ctx a → Hsm_key b = Hsm_key a → unwraps b k hash.
Proof.
  intros (rd & Hrd & Hdec) Hctx Hkey r cek ek r' Henc. cbn [DecKey_Decrypt hsm_decryption AsymmetricDecryptionKey_Decryption].
  unfold AsymmetricDecryptionKey_Decrypt. rewrite Hctx, Hrd, Hkey. cbn [mbind res_bind]. by eapply Hdec.
Qed.
End key.

(** C39. A key on a token has an encryptor, whether or not a certificate is found.  The token
    decrypts what the encryptor encrypts, for any operation that is named; and JWEs for
    the encryptor's JWK are decrypted with the key, if it is the only one of its store
    or stored under the identifier of that JWK. *)
Theorem Hsm_Encryptor_roundtrip h a k certs hash :
  hsm_Public (Hsm_key a) = PubRSA k → (0 < RsaPub_E k <= MaxInt32)%Z → (MinRsaModulusBits <= BitLen (RsaPub_N k))%N →
  AsymmetricDecryptionKey_Certificates tok a = Ok certs → token_decrypts a k hash →
  ∃ enc h' jwk e, AsymmetricDecryptionKey_Encryptor tok h a = (Ok enc, h') ∧ RsaPublicKeyImpl_Jwk h' enc = Ok jwk ∧
    NewJweRsaKeyEncryptionEncryptorImpl jwk = Ok e ∧
    (∀ r m c r' op, RsaPublicKeyImpl_Encrypt r enc KeyOpsEncrypt hash m = Ok (c, r') → AsymmetricDecryptionKey_Decrypt tok a op hash c = Ok m) ∧
    ∀ rs p token rs' rand s, JweRsaKeyEncryptionEncryptorImpl_Encrypt rs e p hash = Ok (token, rs') → (slen token <= MaxCompactSize)%N →
      AsymmetricDecryptionKeyStoreImpl_Get s (Jwk_Kid jwk) = Ok a →
      ∃ aad, JweRsaKeyEncryptionDecryptorImpl_Decrypt rand (NewJweRsaKeyEncryptionDecryptorImpl s) token None = Ok (p, aad).
Proof.
  intros Hpub He Hb Hc Ht. exists (encryptor_key k (new_ref h)). eexists. exists (encryptor_jwk k certs), (jwe_encryptor k).
  split_and!; [by apply Encryptor_spec|by apply encryptor_Jwk, lookup_insert_eq|by apply encryptor_jwe| |].
  - intros r m c r' op Henc. destruct Ht as (rd & Hrd & Hdec). unfold AsymmetricDecryptionKey_Decrypt. rewrite Hrd. cbn [mbind res_bind].
    eapply Hdec. unfold RsaPublicKeyImpl_Encrypt in Henc. destruct (negb _); [done|]. destruct (Hash_Available hash); [exact Henc|done].
  - intros rs p token rs' rand s Henc Hsz Hget.
    destruct (encrypted_opens (K := hsm_AsymmetricDecryptionKey) rs (jwe_encryptor k) p hash token rs' rand (NewJweRsaKeyEncryptionDecryptorImpl s) a None)
      as (aad & Hdec & _); [done|apply rsa_kid_text|done|exact Hget|done|by apply (token_unwraps a)|by left|]. by exists aad.
Qed.

(** What an encryptor hands out, once it is made, and the JWE encryptor of its JWK. *)
Lemma Encryptor_made h a k enc h' jwk e :
  hsm_Public (Hsm_key a) = PubRSA k → (0 < RsaPub_E k <= MaxInt32)%Z → (MinRsaModulusBits <= BitLen (RsaPub_N k))%N →
  AsymmetricDecryptionKey_Encryptor tok h a = (Ok enc, h') → RsaPublicKeyImpl_Jwk h' enc = Ok jwk → NewJweRsaKeyEncryptionEncryptorImpl jwk = Ok e →
  RsaPublicKeyImpl_Kid h' enc = Ok (rsa_kid k) ∧ Jwk_Kid jwk = rsa_kid k ∧ e = jwe_encryptor k.
Proof.
  intros Hpub He Hb Henc Hj Hnew. destruct (AsymmetricDecryptionKey_Certificates tok a) as [certs|err|] eqn:Hc.
  2,3: unfold AsymmetricDecryptionKey_Encryptor in Henc; rewrite Hc in Henc; discriminate.
  rewrite (Encryptor_spec a k Hpub He Hb h certs Hc) in Henc. injection Henc as <- <-.
  rewrite (encryptor_Jwk k He Hb _ _ certs) in Hj by apply lookup_insert_eq. injection Hj as <-.
  rewrite (encryptor_jwe k He Hb) in Hnew. injection Hnew as <-.
  split_and!; [|done..]. unfold RsaPublicKeyImpl_Kid, deref. cbn [Rpub_jwk encryptor_key]. by rewrite lookup_insert_eq.
Qed.

(** What is encrypted to a key is decrypted with the store exactly if the store finds the
    key under the identifier that the library computes. *)
Lemma computed_id_needed rs a k hash p token rs' rand s :
  Hsm_ctx a = HsmStore_ctx s → token_decrypts a k hash →
  JweRsaKeyEncryptionEncryptorImpl_Encrypt rs (jwe_encryptor k) p hash = Ok (token, rs') → (slen token <= MaxCompactSize)%N →
  match FindKeyPair tok (HsmStore_ctx s) (Some (s2b (rsa_kid k))) None with
  | Ok (Some (inl key)) => key = Hsm_key a → ∃ aad, JweRsaKeyEncryptionDecryptorImpl_Decrypt rand (NewJweRsaKeyEncryptionDecryptorImpl s) token None = Ok (p, aad)
  | Ok _ => JweRsaKeyEncryptionDecryptorImpl_Decrypt rand (NewJweRsaKeyEncryptionDecryptorImpl s) token None =
      Err (EWrap "error getting key from keystore" (EGose Gose.ErrInvalidKeyType))
  | Err e => JweRsaKeyEncryptionDecryptorImpl_Decrypt rand (NewJweRsaKeyEncryptionDecryptorImpl s) token None =
      Err (EWrap "error getting key from keystore" e)
  | Panic => JweRsaKeyEncryptionDecryptorImpl_Decrypt rand (NewJweRsaKeyEncryptionDecryptorImpl s) token None = Panic
  end.
Proof.
  intros Hctx Ht Henc Hsz. destruct (rsa_kid_text k) as [Hu _].
  pose proof (encrypted_refused (K := hsm_AsymmetricDecryptionKey) rs (jwe_encryptor k) p hash token rs' rand (NewJweRsaKeyEncryptionDecryptorImpl s) None Henc Hu Hsz) as Href.
  unfold DecKeyStore_Get, hsm_store, AsymmetricDecryptionKeyStore_Store, AsymmetricDecryptionKeyStore_Get in Href. cbn [Rkd_keystore NewJweRsaKeyEncryptionDecryptorImpl rsaPublicKid jwe_encryptor] in Href.
  destruct (FindKeyPair _ _ _ _) as [[[key|key]|]|e|] eqn:Ef; cbn [mbind res_bind] in Href; try exact Href.
  intros ->. destruct (encrypted_opens (K := hsm_AsymmetricDecryptionKey) rs (jwe_encryptor k) p hash token rs' rand (NewJweRsaKeyEncryptionDecryptorImpl s)
    {| Hsm_kid := Some (s2b (rsa_kid k)); Hsm_keylabel := None; Hsm_ctx := HsmStore_ctx s; Hsm_key := Hsm_key a |} None) as (aad & Hdec & _); try done.
  - unfold DecKeyStore_Get, hsm_store, AsymmetricDecryptionKeyStore_Store, AsymmetricDecryptionKeyStore_Get. cbn [Rkd_keystore NewJweRsaKeyEncryptionDecryptorImpl rsaPublicKid jwe_encryptor]. by rewrite Ef.
  - by apply (token_unwraps a).
  - by left.
  - by exists aad.
Qed.

(** C40. The store of a token looks keys up under their PKCS 11 identifiers.  The encryptor
    of a key of that store, and the JWK that it hands out, have the identifier that the
    library computes from the public key instead.  So what is encrypted to that JWK is
    decrypted if the token has the same key under the computed identifier; if it has
    none under that one, the answer is an error, although the store has the key. *)
Theorem Hsm_store_needs_computed_id h rs a kid k enc h' jwk e hash p token rs' rand s :
  AsymmetricDecryptionKeyStore_Get tok s kid = Ok a → token_decrypts a k hash →
  hsm_Public (Hsm_key a) = PubRSA k → (0 < RsaPub_E k <= MaxInt32)%Z → (MinRsaModulusBits <= BitLen (RsaPub_N k))%N →
  AsymmetricDecryptionKey_Encryptor tok h a = (Ok enc, h') → RsaPublicKeyImpl_Jwk h' enc = Ok jwk → NewJweRsaKeyEncryptionEncryptorImpl jwk = Ok e →
  JweRsaKeyEncryptionEncryptorImpl_Encrypt rs e p hash = Ok (token, rs') → (slen token <= MaxCompactSize)%N →
  AsymmetricDecryptionKey_Kid a = kid ∧ RsaPublicKeyImpl_Kid h' enc = Ok (rsa_kid k) ∧ Jwk_Kid jwk = rsa_kid k ∧
  match FindKeyPair tok (HsmStore_ctx s) (Some (s2b (Jwk_Kid jwk))) None with
  | Ok (Some (inl key)) => key = Hsm_key a → ∃ aad, JweRsaKeyEncryptionDecryptorImpl_Decrypt rand (NewJweRsaKeyEncryptionDecryptorImpl s) token None = Ok (p, aad)
  | Ok _ => JweRsaKeyEncryptionDecryptorImpl_Decrypt rand (NewJweRsaKeyEncryptionDecryptorImpl s) token None =
      Err (EWrap "error getting key from keystore" (EGose Gose.ErrInvalidKeyType))
  | Err e => JweRsaKeyEncryptionDecryptorImpl_Decrypt rand (NewJweRsaKeyEncryptionDecryptorImpl s) token None =
      Err (EWrap "error getting key from keystore" e)
  | Panic => JweRsaKeyEncryptionDecryptorImpl_Decrypt rand (NewJweRsaKeyEncryptionDecryptorImpl s) token None = Panic
  end.
Proof.
  intros Hget Ht Hpub He Hb Hmade Hj Hnew Henc Hsz.
  destruct (Encryptor_made h a k enc h' jwk e) as (Hkid & Hjk & ->); try done.
  assert (Hsm_ctx a = HsmStore_ctx s ∧ Hsm_kid a = Some (s2b kid)) as [Hctx Hk].
  { unfold AsymmetricDecryptionKeyStore_Get in Hget. apply bind_Ok in Hget as ([[key|key]|] & _ & Hget); try done. by injection Hget as <-. }
  split_and!; [unfold AsymmetricDecryptionKey_Kid; rewrite Hk; apply b2s_s2b|done|done|].
  rewrite Hjk. by eapply computed_id_needed.
Qed.

(** A token that has no certificate for a key answers nil, which the key hands out as a
    certificate: marshalling the JWK of the encryptor panics. *)
Theorem Hsm_Encryptor_Marshal_panics h a k :
  hsm_Public (Hsm_key a) = PubRSA k → (0 < RsaPub_E k <= MaxInt32)%Z → (MinRsaModulusBits <= BitLen (RsaPub_N k))%N →
  FindCertificate tok (Hsm_ctx a) (Hsm_kid a) (Hsm_keylabel a) = Ok None →
  ∃ enc h', AsymmetricDecryptionKey_Encryptor tok h a = (Ok enc, h') ∧ RsaPublicKeyImpl_Marshal h' enc = Panic.
Proof.
  intros Hpub He Hb Hc. assert (AsymmetricDecryptionKey_Certificates tok a = Ok [None]) as Hcs by (unfold AsymmetricDecryptionKey_Certificates; by rewrite Hc).
  eexists _, _. split; [by apply (Encryptor_spec a k)|]. unfold RsaPublicKeyImpl_Marshal.
  rewrite (encryptor_Jwk k He Hb _ _ [None]) by apply lookup_insert_eq. reflexivity.
Qed.

(** Decrypting does not panic as long as the calls of the token do not. *)
Theorem Hsm_Decrypt_no_panic rand s token o :
  (∀ kid, FindKeyPair tok (HsmStore_ctx s) kid None ≠ Panic) → NewRandomReader tok (HsmStore_ctx s) ≠ Panic →
  (∀ key rd c hash, hsm_Decrypt tok key rd c hash ≠ Panic) → (∀ h, o = Some h → Hash_Available h = true) →
  JweRsaKeyEncryptionDecryptorImpl_Decrypt rand (NewJweRsaKeyEncryptionDecryptorImpl s) token o ≠ Panic.
Proof.
  intros Hf Hr Hd Ho. apply key_decrypt_no_panic; [| |done]; cbn [Rkd_keystore NewJweRsaKeyEncryptionDecryptorImpl];
    unfold DecKeyStore_Get, hsm_store, AsymmetricDecryptionKeyStore_Store, AsymmetricDecryptionKeyStore_Get.
  - intros kid. apply bind_no_panic; [done|]. by intros [[key|key]|] _.
  - intros kid key h c Hg _. apply bind_Ok in Hg as ([[kp|kp]|] & _ & Hg); try done. injection Hg as <-.
    cbn [DecKey_Decrypt hsm_decryption AsymmetricDecryptionKey_Decryption]. unfold AsymmetricDecryptionKey_Decrypt. by apply bind_no_panic.
Qed.
End hsm.
