(* ===== verification/KeyGeneratorFacts.v ===== *)
(** Properties of [KeyGenerator]: what a generator makes is a key of the kind it was
    asked for, that loads from its JWK and does what it may, and nothing else. *)

From S2P Require Import Prelude Errors Base64 Json JsonFacts JsonCodec Types Crypto Toy Jwk Jws Jwe Helpers HelpersFacts Keys KeysFacts Interfaces Cryptors CryptorsFacts KeyGenerator.

Lemma ecdsAlgs_curve alg c : ecdsAlgs alg = Some c → ecdsaCurveForAlg alg = Ok c ∧ is_Some (algToOptsMap alg) ∧ c ≠ P224.
Proof. unfold ecdsAlgs. intros He. repeat case_bool_decide; simplify_eq; (split_and!; [done|by eexists|done]). Qed.

Lemma rsaSigningAlgs_opts alg : rsaSigningAlgs alg = true → is_Some (algToOptsMap alg).
Proof.
  unfold rsaSigningAlgs. rewrite bool_decide_eq_true, !elem_of_cons, elem_of_nil.
  intros [->|[->|[->|[->|[->|[->|[]]]]]]]; by eexists.
Qed.

Section generators.
Context `{X509, Digests, Rsa, Ecdsa, Signers}.

Lemma loads_private_SetAlg alg jwk k : loads_private jwk (SignerRSA k) → loads_private (Jwk_SetAlg alg jwk) (SignerRSA k).
Proof. by destruct jwk. Qed.
Lemma SetAlg_Ops alg jwk : Jwk_Ops (Jwk_SetAlg alg jwk) = Jwk_Ops jwk.
Proof. by destruct jwk. Qed.
Lemma Alg_SetAlg alg jwk : Jwk_Alg (Jwk_SetAlg alg jwk) = alg.
Proof. by destruct jwk. Qed.

(** A generated RSA key has the size asked for and loads from its JWK. *)
Lemma generateRsaKey_spec rand alg bitLen ops jwk key : generateRsaKey rand alg bitLen ops = Ok (jwk, key) →
  (2048 <= bitLen)%Z ∧ rsa_GenerateKey rand (Z.to_N bitLen) = Ok key ∧ BitLen (RsaPub_N (RsaPriv_Pub key)) = Z.to_N bitLen ∧
  Jwk_Alg jwk = alg ∧ Jwk_Ops jwk = ops ∧ loads_private jwk (SignerRSA key).
Proof.
  unfold generateRsaKey, minimumRsaKeySize. destruct (Z.ltb_spec bitLen (Z.of_N 2048)); [done|].
  intros (key' & Hg & (j & Hj & [= <- <-])%bind_Ok)%bind_Ok. destruct (rsa_GenerateKey_valid _ _ _ Hg) as (Hv & Hp & Hb & He).
  assert (importable (SignerRSA key')) as Hi by (cbn; rewrite He, Hb; unfold MinRsaModulusBits; split_and!; try done; lia).
  destruct (JwkFromPrivateKey_loads _ _ _ _ Hj Hi) as (Ho & _ & Hl).
  rewrite Alg_SetAlg, SetAlg_Ops. split_and!; try done. by apply loads_private_SetAlg.
Qed.

Lemma alloc_signing_key_spec h jwk ops sk h' : alloc_signing_key h jwk ops = (Ok sk, h') →
  ∃ l key, h !! l = None ∧ h' = <[l := jwk]> h ∧ NewSigningKey h' l ops = Ok sk ∧ KeyOpsSign ∈ Jwk_Ops jwk ∧
    loads_private jwk key ∧ sk = signing_key jwk l key.
Proof.
  unfold alloc_signing_key, alloc. intros [= Hn <-].
  destruct (proj1 (NewSigningKey_spec _ _ jwk _ _ (lookup_insert_eq _ _ _)) Hn) as (Hs & _ & _ & key & Hk & ->).
  exists (new_ref h), key. split_and!; try done. apply new_ref_fresh.
Qed.

(** A private RSA JWK holds one key. *)
Lemma loads_private_unique jwk k1 k2 : loads_private jwk k1 → loads_private jwk k2 → k1 = k2.
Proof.
  destruct jwk as [|v| |v|], k1, k2; try done; cbn.
  - by intros [-> _] [-> _].
  - intros (c & Hc & -> & _) (c' & Hc' & -> & _). congruence.
Qed.

(** What a signing key generator makes: a key that may sign, in a JWK of its own
    with the algorithm and the operations asked for. *)
Definition generated_signing_key (h : heap) (alg : Alg) (ops : list Types.KeyOps) (key : Signer) (sk : SigningKey) (h' : heap) : Prop :=
  KeyOpsSign ∈ ops ∧ ∃ l jwk, h !! l = None ∧ h' = <[l := jwk]> h ∧ Jwk_Alg jwk = alg ∧ Jwk_Ops jwk = ops ∧
    loads_private jwk key ∧ sk = signing_key jwk l key ∧ NewSigningKey h' l ops = Ok sk.

Lemma generated_of h jwk ops alg key sk h' : alloc_signing_key h jwk ops = (Ok sk, h') → Jwk_Alg jwk = alg → Jwk_Ops jwk = ops →
  loads_private jwk key → generated_signing_key h alg ops key sk h'.
Proof.
  intros (l & key' & Hl & -> & Hn & Hs & Hk & ->)%alloc_signing_key_spec Ha Ho Hk'. rewrite (loads_private_unique _ _ _ Hk Hk') in *.
  split; [by rewrite <- Ho|]. exists l, jwk. by split_and!.
Qed.

Lemma RsaGenerate_spec h rand alg bitLen ops sk h' : RsaSigningKeyGenerator_Generate h rand alg bitLen ops = (Ok sk, h') →
  rsaSigningAlgs alg = true ∧ (2048 <= bitLen)%Z ∧
  ∃ key, rsa_GenerateKey rand (Z.to_N bitLen) = Ok key ∧ BitLen (RsaPub_N (RsaPriv_Pub key)) = Z.to_N bitLen ∧
    generated_signing_key h alg ops (SignerRSA key) sk h'.
Proof.
  unfold RsaSigningKeyGenerator_Generate. destruct (rsaSigningAlgs alg) eqn:Ha; [|done]. cbn [negb].
  destruct (generateRsaKey _ _ _ _) as [[jwk key]| |] eqn:Hg; [|done..]. intros Hsk.
  apply generateRsaKey_spec in Hg as (Hb & Hk & Hbl & Halg & Hops & Hl). split_and!; try done. exists key. split_and!; try done.
  by eapply generated_of.
Qed.

Context `{!EcdsaLaws}.

Lemma EcGenerate_spec h rand alg ops sk h' : ECDSASigningKeyGenerator_Generate h rand alg ops = (Ok sk, h') →
  ∃ c key, ecdsAlgs alg = Some c ∧ ecdsa_GenerateKey c rand = Ok key ∧ EcPub_Curve (EcPriv_Pub key) = c ∧ ec_pair key ∧
    generated_signing_key h alg ops (SignerECDSA key) sk h'.
Proof.
  unfold ECDSASigningKeyGenerator_Generate. destruct (ecdsAlgs alg) as [c|] eqn:Ha; [|done].
  destruct (_ ≫= _) as [jwk| |] eqn:Hj; [|done..]. intros Hsk. apply bind_Ok in Hj as (key & Hg & (j & Hj & [= <-])%bind_Ok).
  destruct (ecdsa_GenerateKey_valid _ _ _ Hg) as [Hc Hp]. exists c, key. split_and!; try done.
  destruct (JwkFromPrivateKey_loads _ _ _ _ Hj I) as (Ho & _ & Hl). destruct (ecdsAlgs_curve _ _ Ha) as (Hcu & _ & Hne).
  eapply generated_of; [exact Hsk|apply Alg_SetAlg|by rewrite SetAlg_Ops|].
  destruct j as [| | |v|]; try done. destruct Hl as (c' & Hc' & Hk & Hd). exists c. split_and!; [done| |done].
  subst key. cbn in Hc. subst c'. done.
Qed.

(** C22. A signature of a generated key, RSA or EC, is accepted by the verifier of that
    key; the key has the algorithm it was asked for, and was asked to sign. *)
Theorem generated_signature_verifies h rand alg bitLen ops sk h1 rand' data sig vk h2 :
  RsaSigningKeyGenerator_Generate h rand alg bitLen ops = (Ok sk, h1) ∨ ECDSASigningKeyGenerator_Generate h rand alg ops = (Ok sk, h1) →
  SigningKey_Sign rand' sk KeyOpsSign data = Ok sig → SigningKey_Verifier h1 sk = (Ok vk, h2) →
  VerificationKey_Verify vk KeyOpsVerify data sig = Ok true ∧ SigningKey_Algorithm sk = alg ∧ VerificationKey_Algorithm vk = alg ∧ KeyOpsSign ∈ ops.
Proof.
  intros Hg Hs Hv. assert (∃ key, generated_signing_key h alg ops key sk h1 ∧ ∀ k, key = SignerECDSA k → ec_pair k) as (key & (Hops & l & jwk & Hl & -> & Ha & Ho & Hk & -> & Hn) & Hp).
  { destruct Hg as [(_ & _ & key & _ & _ & Hg)%RsaGenerate_spec|(c & key & _ & _ & _ & Hp & Hg)%EcGenerate_spec]; [by exists (SignerRSA key)|].
    exists (SignerECDSA key). split; [done|]. by intros k [= <-]. }
  assert (∀ k, loads_private jwk (SignerECDSA k) → ec_pair k) as Hpair by (intros k Hk'; apply Hp; by eapply loads_private_unique).
  destruct (sign_verify _ _ _ _ _ _ _ _ _ _ (lookup_insert_eq _ _ _) Hn Hpair Hs Hv) as (Hver & Halg & _).
  assert (SigningKey_Algorithm (signing_key jwk l key) = alg) as Hsa by (rewrite <- Ha; by destruct jwk).
  split_and!; [done|done|by rewrite Halg|done].
Qed.

(** ** Symmetric keys *)
Lemma authenticatedEncryptionAlgs_gcm alg : authenticatedEncryptionAlgs alg = gcm_len alg.
Proof. done. Qed.

(** The JWK of a secret of the right length. *)
Lemma JwkFromSymmetric_Ok key alg : gcm_len alg = Some (len key) →
  ∃ v, JwkFromSymmetric key alg = Ok (JOct v) ∧ Oct_K (Oct_fields v) = key ∧ Jwk_Alg (JOct v) = alg ∧
    CalculateKeyID (JOct v) = Ok (Jwk_Kid (JOct v)).
Proof.
  intros Hn. unfold JwkFromSymmetric. rewrite symmetricAlgs_gcm, Hn. cbn [fmap option_fmap option_map minLen maxLen confidentiality integrity].
  rewrite (proj2 (len_guard (len key) (len key)) eq_refl). cbn. unfold key_id. rewrite hash_sum_Ok by done. cbn. eexists. split; [reflexivity|]. by split_and!.
Qed.

Lemma AeGenerate_cases `{Aes} rand alg ops :
  match AuthenticatedEncryptionKeyGenerator_Generate rand alg ops with
  | Ok (c, jwk) => ∃ n v, gcm_len alg = Some n ∧ (n <= len rand)%N ∧ jwk = JOct v ∧ Oct_K (Oct_fields v) = takeN n rand ∧
      Jwk_Alg jwk = alg ∧ Jwk_Ops jwk = ops ∧ (KeyOpsEncrypt ∈ ops ∨ KeyOpsDecrypt ∈ ops) ∧ NewAesGcmCryptorFromJwk jwk ops = Ok c ∧
      AesGcmCryptor_Algorithm c = alg ∧ AesGcmCryptor_Kid c = Jwk_Kid jwk ∧ CalculateKeyID jwk = Ok (Jwk_Kid jwk)
  | Err e => gcm_len alg = None ∨ (∃ n, gcm_len alg = Some n ∧ (len rand < n)%N) ∨ ¬ (KeyOpsEncrypt ∈ ops ∨ KeyOpsDecrypt ∈ ops)
  | Panic => False
  end.
Proof.
  unfold AuthenticatedEncryptionKeyGenerator_Generate. rewrite authenticatedEncryptionAlgs_gcm. destruct (gcm_len alg) as [n|] eqn:Hn; [|by left].
  unfold ReadFull. destruct (N.leb_spec n (len rand)) as [Hle|Hlt]; cbn [mbind res_bind std_err]; [|right; left; by exists n].
  assert (len (takeN n rand) = n) as Hk by (rewrite takeN_take; unfold len in *; rewrite length_take; lia).
  destruct (JwkFromSymmetric_Ok (takeN n rand) alg) as (v & -> & Hv & Ha & Hid); [by rewrite Hk|]. cbn [mbind res_bind].
  set (jwk := Jwk_SetOps (cloneOps ops) (JOct v)). unfold cloneOps in jwk.
  assert (∀ c, NewAesGcmCryptorFromJwk jwk (cloneOps ops) = Ok c ↔ (KeyOpsEncrypt ∈ ops ∨ KeyOpsDecrypt ∈ ops) ∧
    c = {| Gcm_kid := Jwk_Kid (JOct v); Gcm_alg := alg; Gcm_aead := gcm (takeN n rand); Gcm_opts := ops |}) as Hc.
  { intros c. rewrite NewAesGcmCryptorFromJwk_iff. unfold cloneOps. subst alg. split.
    - intros (Hop & _ & v' & [= <-] & _ & ->). split; [done|]. cbn. by rewrite Hv.
    - intros (Hop & ->). split_and!; [done|done|]. eexists. split; [reflexivity|]. cbn. rewrite Hv. by rewrite Hk. }
  pose proof (NewAesGcmCryptorFromJwk_no_panic jwk (cloneOps ops)) as Hnp.
  destruct (NewAesGcmCryptorFromJwk jwk (cloneOps ops)) as [c|e|] eqn:E; cbn [mbind res_bind]; [|right; right|done].
  - destruct (proj1 (Hc c) eq_refl) as [Hop ->]. eexists n, _. split_and!; try done.
  - assert (¬ (KeyOpsEncrypt ∈ ops ∨ KeyOpsDecrypt ∈ ops)) as Hno by (intros Hop; by pose proof (proj2 (Hc _) (conj Hop eq_refl))).
    exact Hno.
Qed.

(** The generator of AES-GCM keys succeeds exactly for a GCM algorithm, operations
    that encrypt or decrypt, and a random source that has the bytes; the key is
    those bytes, and the JWK is one that the cryptor can be made from again. *)
Theorem AuthenticatedEncryptionKeyGenerator_Generate_spec `{Aes} rand alg ops :
  match AuthenticatedEncryptionKeyGenerator_Generate rand alg ops with
  | Ok (c, jwk) => ∃ n v, gcm_len alg = Some n ∧ (n <= len rand)%N ∧ jwk = JOct v ∧ Oct_K (Oct_fields v) = takeN n rand ∧
      Jwk_Alg jwk = alg ∧ Jwk_Ops jwk = ops ∧ (KeyOpsEncrypt ∈ ops ∨ KeyOpsDecrypt ∈ ops) ∧ NewAesGcmCryptorFromJwk jwk ops = Ok c ∧
      AesGcmCryptor_Algorithm c = alg ∧ AesGcmCryptor_Kid c = Jwk_Kid jwk ∧ CalculateKeyID jwk = Ok (Jwk_Kid jwk)
  | Err e => gcm_len alg = None ∨ (∃ n, gcm_len alg = Some n ∧ (len rand < n)%N) ∨ ¬ (KeyOpsEncrypt ∈ ops ∨ KeyOpsDecrypt ∈ ops)
  | Panic => False
  end.
Proof. exact (AeGenerate_cases rand alg ops). Qed.
End generators.
