(* ===== verification/SavedKeys.v ===== *)
(** Keys that are kept as text: what a generator makes can be written, and what is
    read back signs, verifies and encrypts as the original does. *)

From S2P Require Import Prelude Errors Base64 Json JsonFacts JsonCodec Types Crypto Toy Jwk JwkFacts Jws Jwe Helpers HelpersFacts JwkMade Keys KeysFacts Interfaces Cryptors CryptorsFacts KeyGenerator KeyGeneratorFacts.

Section saved.
Context `{X509, Digests, Rsa, Ecdsa, Signers}.

(** ** What the generators make is well-formed *)
Lemma generateRsaKey_made rand alg bitLen ops jwk key : generateRsaKey rand alg bitLen ops = Ok (jwk, key) → utf8 alg = true →
  (bitLen <= 524288)%Z → ops_ok ops → made jwk.
Proof.
  intros Hg Ha Hb Hops. destruct (generateRsaKey_spec _ _ _ _ _ _ Hg) as (Hmin & Hk & Hn & _).
  unfold generateRsaKey in Hg. destruct (bitLen <? _)%Z; [done|]. apply bind_Ok in Hg as (key' & Hk' & Hg).
  rewrite Hk in Hk'. injection Hk' as <-. apply bind_Ok in Hg as (j & Hj & Hg). injection Hg as <-.
  apply made_alg; [|done]. pose proof (rsa_GenerateKey_valid _ _ _ Hk) as (_ & _ & _ & He). pose proof (rsa_GenerateKey_bounds _ _ _ Hk) as (Hf & Hpre).
  assert (∀ n, (BitLen n <= Z.to_N bitLen)%N → fits n) as Hfit by (intros n Hl; apply fits_BitLen; unfold MaxBlobSize; lia).
  apply list.Forall_cons in Hf as [Hd Hp]. eapply made_private; [exact Hj| | |done|split; [constructor|done]].
  - split; [|by rewrite He]. split; [|apply Hfit; lia]. intros Hz. rewrite Hz in Hn. change (BitLen 0) with 0%N in Hn. lia.
  - split_and!; [by apply Hfit|eapply List.Forall_impl; [|exact Hp]; exact Hfit|]. intros pre Hpr. specialize (Hpre _ Hpr).
    apply list.Forall_cons in Hpre as [? [? [? _]%list.Forall_cons]%list.Forall_cons]. split_and!; by apply Hfit.
Qed.

(** ** Saving and loading *)
(** The text of a signing key is that of its JWK. *)
Lemma SigningKey_Marshal_text h l jwk required sk : h !! l = Some jwk → NewSigningKey h l required = Ok sk →
  SigningKey_Marshal h sk = JwkToString jwk.
Proof.
  intros Hl (_ & _ & _ & key & _ & ->)%(NewSigningKey_spec _ _ _ _ _ Hl).
  destruct jwk; cbn; unfold SigningKeyImpl_Marshal, ECDSASigningKey_Marshal, deref; cbn; by rewrite Hl.
Qed.

(** Two keys that are the same to a caller. *)
Definition same_signer (h h' : heap) (sk sk' : SigningKey) : Prop :=
  SigningKey_Kid h' sk' = SigningKey_Kid h sk ∧ SigningKey_Algorithm sk' = SigningKey_Algorithm sk ∧
  ∀ rand op data, SigningKey_Sign rand sk' op data = SigningKey_Sign rand sk op data.

Lemma same_signer_moved h l h' l' jwk required sk : h !! l = Some jwk → h' !! l' = Some jwk → NewSigningKey h l required = Ok sk →
  ∃ sk', NewSigningKey h' l' required = Ok sk' ∧ same_signer h h' sk sk'.
Proof.
  intros Hl Hl' Hn. pose proof Hn as (Hs & Hr & Ho & key & Hk & ->)%(NewSigningKey_spec _ _ _ _ _ Hl).
  exists (signing_key jwk l' key). split; [apply (NewSigningKey_spec _ _ _ _ _ Hl'); split_and!; try done; by exists key|].
  split_and!; destruct jwk; try done; cbn; unfold SigningKeyImpl_Kid, ECDSASigningKey_Kid, deref; cbn; by rewrite Hl, Hl'.
Qed.

Lemma saved_key h l jwk required sk : h !! l = Some jwk → Jwk_ok jwk → NewSigningKey h l required = Ok sk →
  ∃ text, SigningKey_Marshal h sk = Ok text ∧ ((slen text <= MaxJwksSize)%N → LoadJwk (s2b text) required = Ok jwk).
Proof.
  intros Hl Hj Hn. rewrite (SigningKey_Marshal_text _ _ _ _ _ Hl Hn). apply LoadJwk_JwkToString; [done|].
  apply (NewSigningKey_spec _ _ _ _ _ Hl) in Hn as (_ & Hr & _). done.
Qed.

(** C24. An RSA signing key that was generated, of at most 524288 bits, can be saved as text.
    Where the text is loaded again, into whatever memory, the result is a signing key
    with the same identifier and algorithm that signs everything as the original does. *)
Theorem generated_key_saved h rand alg bitLen ops sk h1 :
  RsaSigningKeyGenerator_Generate h rand alg bitLen ops = (Ok sk, h1) → (bitLen <= 524288)%Z → ops_ok ops →
  ∃ text, SigningKey_Marshal h1 sk = Ok text ∧
    ((slen text <= MaxJwksSize)%N → ∃ jwk, LoadJwk (s2b text) ops = Ok jwk ∧
      ∀ h', let '(l, h') := alloc jwk h' in ∃ sk', NewSigningKey h' l ops = Ok sk' ∧ same_signer h1 h' sk sk').
Proof.
  unfold RsaSigningKeyGenerator_Generate. destruct (rsaSigningAlgs alg) eqn:Ha; [|done]. cbn [negb].
  destruct (generateRsaKey _ _ _ _) as [[jwk k]| |] eqn:Hg; [|done..].
  intros (l & key & _ & -> & Hn & _)%alloc_signing_key_spec Hb Hops. pose proof (lookup_insert_eq h l jwk) as Hl.
  assert (Jwk_ok jwk) as Hj by (eapply made_ok, generateRsaKey_made; [exact Hg|by apply known_alg_utf8, rsaSigningAlgs_opts|done..]).
  destruct (saved_key _ _ _ _ _ Hl Hj Hn) as (text & Ht & Hload). exists text. split; [done|]. intros Hsz. exists jwk. split; [by apply Hload|].
  intros h'. unfold alloc. eapply same_signer_moved; [exact Hl|apply lookup_insert_eq|done].
Qed.
End saved.
