(* ===== verification/Examples.v ===== *)
(** [examples/jwt/jwt.go] and [examples/jwe/jwe.go]: the two programs that show how the
    library is used.

    A program is a function from the random bytes and the clock readings it meets to
    the values that it prints; [fail] prints an error and ends it. *)

From S2P Require Import Prelude Errors Base64 Json JsonFacts JsonCodec Types Crypto Jwk Jws Jwe Helpers Keys KeyStore JwksTrustStore JwtSigner Interfaces Cryptors JweCryptors KeyGenerator.

(** ** [examples/jwt/jwt.go] *)
Definition houseNumberClaim : string := "house_number".
Definition streetClaim : string := "street".
Definition signingOperations : list Types.KeyOps := [KeyOpsSign].

(** The dynamic types of the custom claims, and their JSON. *)
Inductive claim_value :=
  | ClaimInt (z : Z)
  | ClaimString (s : string).
Definition claim_Marshal (v : claim_value) : result json :=
  Ok (match v with ClaimInt z => enc_int64 z | ClaimString s => enc_string s end).

Definition standardClaims (now : Z) : SettableJwtClaims :=
  {| Subject := "my subject"; Aud := Some ["my audience"]; Expiration := wrap64 (now + 60); NotBefore := now |}.
Definition customClaims : gmap string claim_value :=
  {[houseNumberClaim := ClaimInt 29; streetClaim := ClaimString "Acacia Road"]}.

(** What the program prints, in this order. *)
Record jwt_output := {
  out_signing_kid : string;
  out_jwt : string;
  out_jwk : string;
  out_kid : string;
  out_claims : JwtClaims;
  out_house_number : Z;
  out_street : string;
}.

(** A custom claim, which must be there, decoded. *)
Definition custom_claim {A} (dec : decoder A) (zero : A) (missing : string) (claims : JwtClaims) (name : string) : result A :=
  match Untyped claims !! name with
  | None => Err (EText missing)
  | Some rawClaim => json_Unmarshal dec (json_print rawClaim) zero
  end.

Section programs.
Context `{X509, Digests, Rsa, Ecdsa, Signers}.

(** [keyRand] and [signRand] are the random bytes of the generator and of the signature;
    [now], [issued] and [verified] are the readings of the clock in [main], in [Sign]
    and in [Verify]. *)
Definition jwt_main (keyRand signRand : tape) (now issued verified : Z) (uuid : string) : result jwt_output :=
  let '(r, h) := RsaSigningKeyGenerator_Generate ∅ keyRand AlgRS256 2048 signingOperations in
  signingKey ← r;
  signingKid ← SigningKey_Kid h signingKey;
  let jwtSigner := NewJwtSigner "issuer" signingKey in
  jwt ← JwtSignerImpl_Sign claim_Marshal h signRand issued uuid jwtSigner (Some (standardClaims now)) customClaims;
  let '(r, h) := SigningKey_Verifier h signingKey in
  verificationKey ← r;
  jwk ← VerificationKey_Jwk h verificationKey;
  marshalled ← JwkToString jwk;
  let '(l, h) := alloc jwk h in
  keyStore ← NewTrustKeyStore h [("issuer", l)];
  let '(r, _, _) := JwtVerifierImpl_Verify h keyStore verified jwt ["my audience"] in
  '(kid, claims) ← r;
  houseNumber ← custom_claim dec_int64 0%Z "missing house number claim" claims houseNumberClaim;
  street ← custom_claim dec_string "" "missing street claim" claims streetClaim;
  Ok {| out_signing_kid := signingKid; out_jwt := jwt; out_jwk := marshalled; out_kid := kid; out_claims := claims;
        out_house_number := houseNumber; out_street := street |}.

(** ** [examples/jwe/jwe.go] *)
Definition example_keyOps : list Types.KeyOps := [KeyOpsDecrypt; KeyOpsEncrypt].
Definition secretData : string := "This is a really secret thing".
Definition authenticatedData : string := "This data is authenticated and publicly readable".

Record jwe_output := {
  out_encryption_kid : string;
  out_jwe : string;
  out_plaintext : string;
  out_aad : string;
}.

Definition jwe_main `{Aes} (keyRand nonceRand : tape) : result jwe_output :=
  '(key, jwk) ← AuthenticatedEncryptionKeyGenerator_Generate keyRand AlgA256GCM example_keyOps;
  let encryptor := NewJweDirectEncryptorAead key false in
  '(jwe, _) ← JweDirectEncryptorAead_Encrypt nonceRand encryptor (s2b secretData) (s2b authenticatedData);
  decryptionKey ← NewAesGcmCryptorFromJwk jwk [KeyOpsDecrypt];
  let decryptor := NewJweDirectDecryptorAeadImpl [decryptionKey] in
  '(plaintext, aad) ← JweDirectDecryptorAeadImpl_Decrypt decryptor jwe;
  Ok {| out_encryption_kid := AesGcmCryptor_Kid key; out_jwe := jwe; out_plaintext := b2s plaintext; out_aad := b2s aad |}.
End programs.
