(* ===== verification/ExamplesFacts.v ===== *)
(** What the example programs print: the token that was signed is verified, with the
    claims that it was signed with, and what was encrypted is decrypted. *)

From S2P Require Import Prelude Errors Base64 Json JsonFacts JsonCodec Types Crypto Jwk JwkFacts Jws JwsFacts Jwe JweFacts Helpers HelpersFacts JwkMade Keys KeysFacts KeyStore KeyStoreFacts JwksTrustStore JwtSigner JwtFacts Interfaces Cryptors CryptorsFacts JweCryptors DirectAeadFacts KeyGenerator KeyGeneratorFacts SavedKeys Examples.

Section programs.
Context `{X509, Digests, Rsa, Ecdsa, Signers}.

(** ** A generated RSA key and the JWK of its verifier *)
Lemma rsa_key_fields_of f : rsa_key_fields (rsa_pub_of f) = f.
Proof. destruct f as [n e]. unfold rsa_key_fields, rsa_pub_of. cbn. by rewrite N2Z.id. Qed.
Lemma rsa_pub_of_fields k : (0 <= RsaPub_E k)%Z → rsa_pub_of (rsa_key_fields k) = k.
Proof. destruct k as [n e]. unfold rsa_key_fields, rsa_pub_of. cbn. intros He. by rewrite Z2N.id. Qed.

(** A generated JWK has the identifier of its public key, and no certificates. *)
Lemma generateRsaKey_fields rand alg bitLen ops jwk key : generateRsaKey rand alg bitLen ops = Ok (jwk, key) →
  Jwk_Kid jwk = rsa_kid (RsaPriv_Pub key) ∧ Jwk_X5C jwk = [].
Proof.
  intros Hg. pose proof (generateRsaKey_spec _ _ _ _ _ _ Hg) as (_ & Hk & _ & _ & _ & Hl).
  unfold generateRsaKey in Hg. destruct (bitLen <? _)%Z; [done|]. apply bind_Ok in Hg as (key' & Hk' & Hg).
  rewrite Hk in Hk'. injection Hk' as <-. apply bind_Ok in Hg as (j & Hj & Hg). injection Hg as <-.
  pose proof (JwkFromPrivateKey_kid _ _ _ _ Hj) as (pub & Hpub & Hid & _). pose proof (JwkFromPrivateKey_fields _ _ _ _ Hj) as (a & kid & Hf).
  split; [|rewrite Jwk_X5C_id; unfold Jwk_SetAlg; by rewrite Jwk_update_fields, Hf].
  destruct j as [|v| | |]; try done. apply PublicFromPrivate_inv in Hpub as (_ & Hof & _). destruct pub as [[jf pf]| | | |]; try done.
  cbn in Hof. subst pf. cbn in Hl. destruct Hl as (-> & _).
  assert (CalculateKeyID (JPublicRsa {| PubRsa_jwk := jf; PubRsa_fields := rsa_key_fields (rsa_pub_of (PrivRsa_pubfields v)) |}) = Ok (Jwk_Kid (JPrivateRsa v))) as Hid'
    by (by rewrite rsa_key_fields_of).
  rewrite CalculateKeyID_rsa in Hid'. injection Hid' as Hid'. symmetry. exact Hid'.
Qed.

(** The JWK that a verifier hands out names its own key, whose signatures a store
    that trusts it verifies. *)
Lemma rsa_verifier_Jwk h v l j : h !! l = Some j → Jwk_X5C j = [] → (0 <= RsaPub_E (rsa_pub_of (PrivRsa_pubfields v)) <= MaxInt32)%Z →
  RsaPublicKeyImpl_Jwk h (rsa_verifier v l) =
    Ok (rsa_public_jwk (rsa_pub_of (PrivRsa_pubfields v)) (verify_ops (map inverseOps (Jwk_Ops (JPrivateRsa v)))) (Jwk_Alg (JPrivateRsa v)) [] (rsa_kid (rsa_pub_of (PrivRsa_pubfields v)))).
Proof.
  intros Hl Hx He. unfold RsaPublicKeyImpl_Jwk, deref. cbn [Rpub_jwk rsa_verifier]. rewrite Hl. cbn [mbind res_bind]. rewrite Hx.
  cbn [Rpub_key Rpub_ops Rpub_alg]. unfold cloneOps. rewrite JwkFromPublicKey_rsa by done. done.
Qed.

Context `{!EcdsaLaws}.

Lemma rsa_jwk_verifies h l v key required sk (hv : heap) lp :
  h !! l = Some (JPrivateRsa v) → NewSigningKey h l required = Ok sk → is_rsa_signature_alg (Jwk_Alg (JPrivateRsa v)) = true →
  Jwk_Ops (JPrivateRsa v) = [KeyOpsSign] → loads_private (JPrivateRsa v) (SignerRSA key) →
  hv !! lp = Some (rsa_public_jwk (RsaPriv_Pub key) [KeyOpsVerify] (Jwk_Alg (JPrivateRsa v)) [] (rsa_kid (RsaPriv_Pub key))) →
  ∃ vk h', NewVerificationKey hv lp = (Ok vk, h') ∧ key_pair sk vk ∧ VerificationKey_Kid h' vk = Ok (rsa_kid (RsaPriv_Pub key)).
Proof.
  intros Hl Hsk Ha Hops (-> & Hsz & _) Hlp. destruct (RSA_Verifier_Ok _ _ _ _ _ Hl Hsk Ha) as (h0 & _ & Hver & _).
  cbn [RsaPriv_Pub rsa_priv_of] in *. set (pub := rsa_pub_of (PrivRsa_pubfields v)) in *.
  set (vk := VKRsa {| Rpub_key := pub; Rpub_jwk := lp; Rpub_ops := [KeyOpsVerify]; Rpub_alg := Jwk_Alg (JPrivateRsa v) |}).
  pose proof Hsk as (_ & _ & [o Ho] & _)%(NewSigningKey_spec _ _ _ _ _ Hl).
  assert (verifies_with (rsa_public_jwk pub [KeyOpsVerify] (Jwk_Alg (JPrivateRsa v)) [] (rsa_kid pub)) lp vk) as Hw.
  { eexists. split_and!; [by apply (fallback_alg_some _ o)|done|unfold pub; cbn; by rewrite rsa_key_fields_of|]. unfold pub. cbn [PubRsa_fields]. by rewrite rsa_key_fields_of. }
  assert (fst (NewVerificationKey hv lp) = Ok vk) as Hn by (apply (NewVerificationKey_spec _ _ _ _ Hlp); split; [right; apply list_elem_of_here|done]).
  pose proof (vk_Kid hv lp _ vk Hw Hlp _ (NewVerificationKey_heap hv lp)) as Hkid.
  destruct (NewVerificationKey hv lp) as [r h'] eqn:E. cbn in Hn, Hkid. subst r. exists vk, h'. split_and!; [done| |done]. split.
  - pose proof Hsk as (_ & _ & _ & key & _ & ->)%(NewSigningKey_spec _ _ _ _ _ Hl). done.
  - intros rand data sig Hs.
    assert (VerificationKey_Verify vk KeyOpsVerify data sig = VerificationKey_Verify (VKRsa (rsa_verifier v (new_ref h))) KeyOpsVerify data sig) as ->.
    { unfold vk, rsa_verifier. rewrite Hops. done. }
    apply (sign_verify h l (JPrivateRsa v) required sk rand data sig _ h0 Hl Hsk); [by intros key []|done|done].
Qed.

(** ** [examples/jwt] *)
Definition printed_claims (now issued : Z) (uuid : string) : JwtClaims :=
  issued_claims "issuer" issued uuid (standardClaims now)
    (<[houseNumberClaim := enc_int64 29]> {[streetClaim := enc_string "Acacia Road"]}).

Lemma customClaims_encoded : encode_untyped claim_Marshal (map_to_list customClaims) =
  Ok (<[houseNumberClaim := enc_int64 29]> {[streetClaim := enc_string "Acacia Road"]}).
Proof. vm_compute. reflexivity. Qed.

Lemma printed_claims_ok now issued uuid : in_int64 now = true → in_int64 (now + 60) = true → in_int64 issued = true → utf8 uuid = true →
  claims_ok (printed_claims now issued uuid).
Proof.
  intros Hn He Hi Hu. split; try done.
  - eexists _, _. split; [reflexivity|]. by repeat constructor.
  - cbn [SetClaims printed_claims issued_claims standardClaims Expiration]. rewrite wrap64_id; [done|]. unfold in_int64, MinInt64, MaxInt64 in He. lia.
  - intros k v. cbn [Untyped printed_claims issued_claims]. rewrite lookup_insert_Some. intros [[<- <-]|[_ [<- <-]%lookup_singleton_Some]].
    + split; [done|]. by split_and!; vm_compute.
    + split; [done|]. by split_and!; vm_compute.
  - intros k Hk. cbn [Untyped printed_claims issued_claims]. unfold reservedJwtClaims in Hk.
    repeat (apply elem_of_cons in Hk as [->|Hk]; [by vm_compute|]). by apply elem_of_nil in Hk.
Qed.

(** The JWK that is printed can be written. *)
Lemma verifier_jwk_text rand key alg kid : rsa_GenerateKey rand 2048 = Ok key → utf8 alg = true → kid = rsa_kid (RsaPriv_Pub key) →
  ∃ text, JwkToString (rsa_public_jwk (RsaPriv_Pub key) [KeyOpsVerify] alg [] kid) = Ok text.
Proof.
  intros Hg Ha ->. destruct (rsa_GenerateKey_valid _ _ _ Hg) as (_ & _ & Hb & He).
  assert (made (rsa_public_jwk (RsaPriv_Pub key) [KeyOpsVerify] alg [] (rsa_kid (RsaPriv_Pub key)))) as Hm.
  { eapply (made_alg alg (rsa_public_jwk (RsaPriv_Pub key) [KeyOpsVerify] _ [] (rsa_kid (RsaPriv_Pub key)))); [|done].
    eapply (made_public (PubRSA (RsaPriv_Pub key)) [KeyOpsVerify] []).
    - apply JwkFromPublicKey_rsa. rewrite He. unfold MaxInt32. lia.
    - split; [split|by rewrite He].
      + intros Hz. by rewrite Hz in Hb.
      + apply fits_BitLen. rewrite Hb. unfold MaxBlobSize. lia.
    - split_and!; [by repeat constructor|done|by apply (bool_decide_unpack (NoDup _))].
    - split; [constructor|done]. }
  destruct (LoadJwk_JwkToString _ [] (made_ok _ Hm)) as (text & Ht & _); [by intros op ?%elem_of_nil|]. by exists text.
Qed.

Lemma generated_from h rand alg bitLen ops sk h' : RsaSigningKeyGenerator_Generate h rand alg bitLen ops = (Ok sk, h') →
  ∃ jwk key, generateRsaKey rand alg bitLen ops = Ok (jwk, key) ∧ alloc_signing_key h jwk ops = (Ok sk, h').
Proof.
  unfold RsaSigningKeyGenerator_Generate. destruct (negb _); [done|]. destruct (generateRsaKey _ _ _ _) as [[jwk key]| |]; [|done..]. by eauto.
Qed.

(** A store of one key. *)
Lemma NewTrustKeyStore_one h l j : h !! l = Some j → Jwk_Kid j ≠ "" →
  ∃ s, NewTrustKeyStore h [("issuer", l)] = Ok s ∧ trusted s "issuer" (Jwk_Kid j) = Some l.
Proof.
  intros Hl Hk. eexists {| keys := <["issuer" := <[Jwk_Kid j := l]> ∅]> (<["issuer" := ∅]> ∅); revoked := ∅ |}. split.
  - unfold NewTrustKeyStore. cbn [add_all]. unfold TrustKeyStoreImpl_Add, deref. rewrite Hl. cbn [mbind res_bind].
    destruct (str_empty (Jwk_Kid j)) eqn:E; [by destruct (Jwk_Kid j)|]. reflexivity.
  - unfold trusted, is_revoked, stored. cbn [keys revoked]. by rewrite lookup_insert_eq; cbn; rewrite lookup_insert_eq.
Qed.

(** The run of the program, from the results of its calls. *)
Lemma jwt_main_run keyRand signRand now issued verified uuid sk h1 kid token vk h2 jwk text s h4 :
  RsaSigningKeyGenerator_Generate ∅ keyRand AlgRS256 2048 signingOperations = (Ok sk, h1) → SigningKey_Kid h1 sk = Ok kid →
  JwtSignerImpl_Sign claim_Marshal h1 signRand issued uuid (NewJwtSigner "issuer" sk) (Some (standardClaims now)) customClaims = Ok token →
  SigningKey_Verifier h1 sk = (Ok vk, h2) → VerificationKey_Jwk h2 vk = Ok jwk → JwkToString jwk = Ok text →
  NewTrustKeyStore (<[new_ref h2 := jwk]> h2) [("issuer", new_ref h2)] = Ok s →
  JwtVerifierImpl_Verify (<[new_ref h2 := jwk]> h2) s verified token ["my audience"] = (Ok (kid, printed_claims now issued uuid), s, h4) →
  jwt_main keyRand signRand now issued verified uuid = Ok {|
    out_signing_kid := kid; out_jwt := token; out_jwk := text; out_kid := kid; out_claims := printed_claims now issued uuid;
    out_house_number := 29; out_street := "Acacia Road" |}.
Proof.
  intros Hg Hkid Hs Hv Hj Ht Hst Hver. unfold jwt_main. rewrite Hg. cbn [mbind res_bind]. rewrite Hkid. cbn [mbind res_bind]. rewrite Hs.
  cbn [mbind res_bind]. rewrite Hv. cbn [mbind res_bind]. rewrite Hj. cbn [mbind res_bind]. rewrite Ht. cbn [mbind res_bind]. unfold alloc.
  rewrite Hst. cbn [mbind res_bind]. rewrite Hver. cbn [mbind res_bind].
  assert (custom_claim dec_int64 0%Z "missing house number claim" (printed_claims now issued uuid) houseNumberClaim = Ok 29%Z) as -> by (vm_compute; reflexivity).
  cbn [mbind res_bind].
  assert (custom_claim dec_string "" "missing street claim" (printed_claims now issued uuid) streetClaim = Ok "Acacia Road") as -> by (vm_compute; reflexivity).
  reflexivity.
Qed.

(** The program prints the claims that it put into the token, and the identifier of the
    key that signed it, whenever the key is generated, the token is signed and within the
    size bound, and the clock does not leave the minute that the token is good for. *)
Theorem jwt_main_spec keyRand signRand now issued verified uuid sk h1 token :
  RsaSigningKeyGenerator_Generate ∅ keyRand AlgRS256 2048 signingOperations = (Ok sk, h1) →
  JwtSignerImpl_Sign claim_Marshal h1 signRand issued uuid (NewJwtSigner "issuer" sk) (Some (standardClaims now)) customClaims = Ok token →
  (slen token <= MaxCompactSize)%N → in_int64 now = true → in_int64 (now + 60) = true → in_int64 issued = true → utf8 uuid = true →
  (now <= verified < now + 60)%Z →
  ∃ kid text, jwt_main keyRand signRand now issued verified uuid = Ok {|
    out_signing_kid := kid; out_jwt := token; out_jwk := text; out_kid := kid; out_claims := printed_claims now issued uuid;
    out_house_number := 29; out_street := "Acacia Road" |}.
Proof.
  intros Hg Hs Hsz Hn He Hi Hu Hv. destruct (generated_from _ _ _ _ _ _ _ Hg) as (jwk & key & Hgen & Ha).
  destruct (generateRsaKey_spec _ _ _ _ _ _ Hgen) as (_ & Hkey & _ & Halg & Hops & Hload).
  destruct (generateRsaKey_fields _ _ _ _ _ _ Hgen) as [Hkid Hx5c].
  apply alloc_signing_key_spec in Ha as (l & key' & _ & -> & Hsk & _ & Hload' & ->).
  pose proof (loads_private_unique _ _ _ Hload' Hload) as ->. clear Hload'.
  destruct jwk as [v|v|v|v|v]; [destruct Hload| |destruct Hload..]. pose proof (lookup_insert_eq (∅ : heap) l (JPrivateRsa v)) as Hl. set (h1 := <[l := JPrivateRsa v]> ∅) in *.
  set (sk := signing_key (JPrivateRsa v) l (SignerRSA key)) in *.
  assert (is_rsa_signature_alg (Jwk_Alg (JPrivateRsa v)) = true) as Hrsa by by rewrite Halg.
  assert (SigningKey_Kid h1 sk = Ok (Jwk_Kid (JPrivateRsa v))) as Hkid1 by (cbn; unfold SigningKeyImpl_Kid, deref; cbn; by rewrite Hl).
  destruct (RSA_Verifier_Ok _ _ _ _ _ Hl Hsk Hrsa) as (h2 & j & Hver & Hj & Hjx). rewrite Hx5c in Hjx.
  destruct (rsa_GenerateKey_valid _ _ _ Hkey) as (_ & _ & _ & Hexp). pose proof Hload as (Hk & _).
  assert (rsa_pub_of (PrivRsa_pubfields v) = RsaPriv_Pub key) as Hp by by rewrite Hk.
  pose proof (rsa_verifier_Jwk h2 v _ j Hj Hjx) as Hvj. rewrite Hp, Hexp, Hops, Halg in Hvj. specialize (Hvj ltac:(unfold MaxInt32; lia)).
  change (verify_ops (map inverseOps signingOperations)) with [KeyOpsVerify] in Hvj. set (pj := rsa_public_jwk _ _ _ _ _) in Hvj.
  destruct (verifier_jwk_text _ _ AlgRS256 _ Hkey eq_refl eq_refl) as (text & Ht). fold pj in Ht.
  pose proof (lookup_insert_eq h2 (new_ref h2) pj) as Hlp.
  destruct (NewTrustKeyStore_one _ _ pj Hlp) as (s & Hst & Htr); [apply rsa_kid_text|]. change (Jwk_Kid pj) with (rsa_kid (RsaPriv_Pub key)) in Htr. rewrite <- Hkid in Htr.
  destruct (rsa_jwk_verifies h1 l v key _ sk (<[new_ref h2 := pj]> h2) (new_ref h2) Hl Hsk Hrsa Hops Hload) as (vk & h4 & Hvk & Hpair & Hvkid); [by rewrite Halg|].
  exists (Jwk_Kid (JPrivateRsa v)), text.
  eapply (jwt_main_run _ _ _ _ _ _ sk h1 _ token _ h2 pj text s h4 Hg Hkid1 Hs Hver Hvj Ht Hst).
  destruct (rsa_kid_text (RsaPriv_Pub key)) as [Hku Hk0]. rewrite <- Hkid in Hku, Hk0, Hvkid.
  apply (issued_accepted claim_Marshal h1 signRand issued uuid (NewJwtSigner "issuer" sk) (standardClaims now) customClaims _
    (Jwk_Kid (JPrivateRsa v)) token (<[new_ref h2 := pj]> h2) s verified ["my audience"] vk s h4 Hs customClaims_encoded).
  - by apply printed_claims_ok.
  - exact Hkid1.
  - exact Hk0.
  - exact Hku.
  - cbn. by rewrite Halg.
  - exact Hsz.
  - cbn [standardClaims NotBefore Expiration]. rewrite wrap64_id; [lia|]. unfold in_int64, MinInt64, MaxInt64 in He. lia.
  - exists "my audience". split; apply list_elem_of_here.
  - unfold TrustStore_Get, TrustKeyStoreImpl_TrustStore. rewrite Get_refines. cbn [Signer_issuer NewJwtSigner]. by rewrite Htr, Hvk.
  - exact Hpair.
  - exact Hvkid.
Qed.

(** ** [examples/jwe] *)
(** The header, as JSON; its only part that varies is the identifier of the key. *)
Definition jwe_example_header (kid : string) : JweHeader :=
  {| Jwe_Jws := set_Kid kid (set_Alg AlgDir JwsHeader_zero); Jwe_Custom := {| OtherAad := Some (s2b authenticatedData) |};
     Jwe_Enc := EncA256GCM; Jwe_Zip := "" |}.

Lemma jwe_example_header_ok kid : utf8 kid = true → JweHeader_ok (jwe_example_header kid).
Proof.
  intros Hk. split; [by split| |done|done]. intros b [= <-]. split; [done|]. vm_compute. done.
Qed.

(** The octets of a header with an identifier that is not empty, from the quoted identifier. *)
Definition header_octets (kid : bytes) : bytes :=
  json_print (JObj ([(s2b "alg", enc_string AlgDir); (s2b "kid", JStr kid)] ++
    blob_members "_thales_aad" (Some (s2b authenticatedData)) ++ [(s2b "enc", enc_string EncA256GCM)])).

Lemma jwe_example_header_octets kid : kid ≠ "" → jwe_header_doc (jwe_example_header kid) = header_octets (quote (s2b kid)).
Proof. intros Hk. unfold jwe_header_doc, JweHeader_list, JwsHeader_list. cbn [jwe_example_header Jwe_Jws Jws_Kid set_Kid]. by destruct kid. Qed.

Lemma header_octets_len q : len (header_octets q) = (len (header_octets []) + len q)%N.
Proof.
  assert (header_octets q = take 20 (header_octets []) ++ ((q ++ [dq]) ++ take 97 (drop 21 (header_octets []))) ++ ["}"%byte]) as -> by (vm_compute; reflexivity).
  unfold len. rewrite !length_app. assert (length (header_octets []) = 119) as Hl by (vm_compute; reflexivity).
  rewrite !length_take, length_drop, Hl. cbn [length]. lia.
Qed.

Lemma jwe_example_header_len kid : slen kid = 64%N → (len (jwe_header_doc (jwe_example_header kid)) <= 600)%N.
Proof.
  intros Hk. rewrite jwe_example_header_octets by (by intros ->). rewrite header_octets_len.
  assert (len (header_octets []) = 119%N) as -> by (vm_compute; reflexivity). pose proof (quote_length (s2b kid)). rewrite slen_len in Hk. unfold len in *. lia.
Qed.
(** The run of the program with a generated key. *)
Lemma jwe_main_run `{Aes} keyRand nonceRand c jwk token r d : AuthenticatedEncryptionKeyGenerator_Generate keyRand AlgA256GCM example_keyOps = Ok (c, jwk) →
  JweDirectEncryptorAead_Encrypt nonceRand (NewJweDirectEncryptorAead c false) (s2b secretData) (s2b authenticatedData) = Ok (token, r) →
  NewAesGcmCryptorFromJwk jwk [KeyOpsDecrypt] = Ok d →
  JweDirectDecryptorAeadImpl_Decrypt (NewJweDirectDecryptorAeadImpl [d]) token = Ok (s2b secretData, s2b authenticatedData) →
  jwe_main keyRand nonceRand = Ok {| out_encryption_kid := AesGcmCryptor_Kid c; out_jwe := token; out_plaintext := secretData; out_aad := authenticatedData |}.
Proof.
  intros Hg He Hn Hd. unfold jwe_main. rewrite Hg. cbn [mbind res_bind]. rewrite He. cbn [mbind res_bind]. rewrite Hn. cbn [mbind res_bind].
  rewrite Hd. cbn [mbind res_bind]. by rewrite !b2s_s2b.
Qed.

(** With 32 random bytes for the key and twelve for the nonce, and with no fewer, the
    program encrypts, decrypts what it encrypted, and prints the data and the additional
    data that it started from; it never panics. *)
Theorem jwe_main_spec `{Aes} keyRand nonceRand :
  match jwe_main keyRand nonceRand with
  | Ok out => (32 <= len keyRand)%N ∧ (12 <= len nonceRand)%N ∧ slen (out_encryption_kid out) = 64%N ∧
      out_plaintext out = secretData ∧ out_aad out = authenticatedData
  | Err _ => (len keyRand < 32)%N ∨ (len nonceRand < 12)%N
  | Panic => False
  end.
Proof.
  pose proof (AeGenerate_cases keyRand AlgA256GCM example_keyOps) as Hg. change (gcm_len AlgA256GCM) with (Some 32%N) in Hg.
  destruct (AuthenticatedEncryptionKeyGenerator_Generate _ _ _) as [[c jwk]|e|] eqn:E; [| |done].
  2: { unfold jwe_main. rewrite E. cbn [mbind res_bind]. left.
       destruct Hg as [|[(n & [= <-] & Hn)|Hno]]; [done|done|]. exfalso. apply Hno. left. apply list_elem_of_further, list_elem_of_here. }
  destruct Hg as (n & v & [= <-] & Hr & -> & Hk & Ha & Ho & _ & Hc & Halg & Hkid & Hid).
  pose proof (proj1 (NewAesGcmCryptorFromJwk_iff _ _ _) Hc) as (Hops & _ & v' & [= <-] & Hlen & ->).
  rewrite Ho in Hops. rewrite Ha, Hk in *. cbn [AesGcmCryptor_Kid Gcm_kid] in *. set (g := gcm _) in *.
  set (c := {| Gcm_kid := Jwk_Kid (JOct v); Gcm_alg := AlgA256GCM; Gcm_aead := g; Gcm_opts := Jwk_Ops (JOct v) |}) in *.
  destruct (N.lt_ge_cases (len nonceRand) 12) as [Hlt|Hge].
  - unfold jwe_main. rewrite E. cbn [mbind res_bind]. unfold JweDirectEncryptorAead_Encrypt.
    cbn [externalIV NewJweDirectEncryptorAead negb Dea_key AeadKey_GenerateNonce AesGcmCryptor_Aead]. unfold AesGcmCryptor_GenerateNonce, ReadFull.
    cbn [Gcm_aead c]. unfold g. rewrite gcm_NonceSize. destruct (N.leb_spec 12 (len nonceRand)); [lia|]. cbn [mbind res_bind]. by right.
  - pose proof (gcm_laws (takeN 32 keyRand)) as Hl. unfold aes_key in Hl. rewrite len_takeN in Hl by done. specialize (Hl eq_refl). fold g in Hl.
    pose proof (CalculateKeyID_slen _ _ Hid) as Hs. pose proof (CalculateKeyID_utf8 _ _ Hid) as Hu.
    destruct (gcm_encrypts nonceRand c (s2b secretData) (s2b authenticatedData) EncA256GCM) as (token & Ht & Htl);
      [done|apply gcm_NonceSize|apply gcm_Overhead| |apply Hu|done|by vm_compute|by vm_compute|done|].
    { cbn [c Gcm_opts]. rewrite Ho. apply list_elem_of_further, list_elem_of_here. }
    rewrite (jwe_main_run keyRand nonceRand c (JOct v) token _ c E Ht).
    + done.
    + apply NewAesGcmCryptorFromJwk_iff. rewrite Ho. split_and!; [done|by intros op ->%list_elem_of_singleton; apply list_elem_of_here|].
      exists v. unfold c, g. rewrite Ha, Hk, Ho. by rewrite len_takeN by done.
    + apply (aead_decrypted nonceRand c c false _ (s2b secretData) _ EncA256GCM token (drop 12 nonceRand)); try done.
      * apply AesGcm_pair; [by apply aead_laws_opens|done..|]. cbn [c Gcm_opts]. rewrite Ho. apply list_elem_of_here.
      * cbn. apply lookup_insert_eq.
      * apply Hu.
      * apply Hu.
      * rewrite Htl. pose proof (jwe_example_header_len (Jwk_Kid (JOct v)) Hs) as Hd.
        change (aead_header c (s2b authenticatedData)) with (jwe_example_header (Jwk_Kid (JOct v))).
        assert (EncodedLen RawURLEncoding (len (s2b secretData)) = 39%N) as -> by (vm_compute; reflexivity).
        pose proof (EncodedLen_le RawURLEncoding _ 600 Hd) as Hle. change (EncodedLen RawURLEncoding 600) with 800%N in Hle. unfold MaxCompactSize. lia.
Qed.
End programs.
