(* ===== verification/GeneratedServed.v ===== *)
(** From a generated key to a verifier that only knows where the issuer publishes: the
    composition of the generators, the JWKs and their documents, the signer of tokens, the
    JWKS store and the verifier. *)

From S2P Require Import Prelude Errors Base64 Json JsonFacts JsonCodec Types Crypto Jwk JwkFacts Jws JwsFacts Helpers HelpersFacts JwkMade Keys KeysFacts KeyStore KeyStoreFacts JwksTrustStore JwksTrustStoreFacts JwtSigner JwtFacts ServedKeys ServedStore Interfaces Cryptors CryptorsFacts KeyGenerator KeyGeneratorFacts SavedKeys Examples ExamplesFacts.

Section generated.
Context `{X509, Digests, Rsa, Ecdsa, Signers, !EcdsaLaws}.

Lemma rsaSigningAlgs_signature alg : rsaSigningAlgs alg = true → is_rsa_signature_alg alg = true.
Proof. unfold rsaSigningAlgs, is_rsa_signature_alg. rewrite !bool_decide_eq_true. set_solver. Qed.

(** What a generated RSA signing key is made of, and its public half. *)
Record generated_rsa (h1 : heap) (sk : SigningKey) (ops : list Types.KeyOps) (l : ref) (jwk pub : Jwk) : Prop := {
  gr_jwk : h1 !! l = Some jwk;
  gr_key : NewSigningKey h1 l ops = Ok sk;
  gr_rsa key : ¬ loads_private jwk (SignerECDSA key);
  gr_verifier : ∃ vk h2, SigningKey_Verifier h1 sk = (Ok vk, h2);
  gr_pub : PublicFromPrivate jwk = Ok pub;
  gr_ok : Jwk_ok pub;
  gr_kid : Jwk_Kid jwk ≠ "" ∧ utf8 (Jwk_Kid jwk) = true;
  gr_held : SigningKey_Jwk h1 sk = Ok jwk;
}.

Lemma generated_public_half h rand alg bitLen ops sk h1 :
  RsaSigningKeyGenerator_Generate h rand alg bitLen ops = (Ok sk, h1) → (bitLen <= 524288)%Z → ops_ok ops → Forall (λ op, ¬ no_inverse op) ops →
  ∃ l jwk pub, generated_rsa h1 sk ops l jwk pub.
Proof.
  intros Hg Hb Hops Hinv. assert (rsaSigningAlgs alg = true) as Hsa by (unfold RsaSigningKeyGenerator_Generate in Hg; by destruct (rsaSigningAlgs alg)).
  destruct (generated_from _ _ _ _ _ _ _ Hg) as (jwk & key & Hgen & Ha).
  destruct (generateRsaKey_spec _ _ _ _ _ _ Hgen) as (_ & _ & _ & Halg & Hjops & Hload). destruct (generateRsaKey_fields _ _ _ _ _ _ Hgen) as [Hkid _].
  assert (Jwk_ok jwk) as Hj by (eapply made_ok, generateRsaKey_made; [exact Hgen|by apply known_alg_utf8, rsaSigningAlgs_opts|done..]).
  apply alloc_signing_key_spec in Ha as (l & key' & _ & -> & Hsk & _ & Hload' & ->). pose proof (loads_private_unique _ _ _ Hload' Hload) as ->.
  destruct jwk as [v|v|v|v|v]; [destruct Hload| |destruct Hload..]. destruct (PublicFromPrivate_loaded _ _ Hload) as [pub Hpub].
  pose proof (lookup_insert_eq h l (JPrivateRsa v)) as Hl. exists l, (JPrivateRsa v), (JPublicRsa pub). split; try done.
  - by intros k [].
  - assert (is_rsa_signature_alg (Jwk_Alg (JPrivateRsa v)) = true) as Hrsa by by rewrite Halg; apply rsaSigningAlgs_signature.
    destruct (RSA_Verifier_Ok _ _ _ _ _ Hl Hsk Hrsa) as (h2 & j & Hver & _). by eexists _, h2.
  - eapply PublicFromPrivate_ok; [exact Hj|exact Hpub|by rewrite Hjops|done].
  - rewrite Hkid. split; apply rsa_kid_text.
  - cbn. unfold SigningKeyImpl_Jwk, deref. cbn [Ski_jwk]. by rewrite Hl.
Qed.

(** What a store that holds nothing answers to a call, when a set is published and the
    first JWK in it under the identifier is the one. *)
Lemma spec_Get_cold a (now : nat → time) js1 j js2 issuer :
  held a = [] → tried_at a = 0%Z → issuer ∈ vouched a → Forall (λ j', Jwk_Kid j' ≠ Jwk_Kid j) js1 →
  trusted (hold (js1 ++ j :: js2) (now 3) a) (now 4) = true →
  spec_Get a now (Serves (js1 ++ j :: js2)) issuer (Jwk_Kid j) = (Key j, hold (js1 ++ j :: js2) (now 3) (tried (now 2) a)).
Proof.
  intros Hh Ht Hi Hn Htr. unfold spec_Get. rewrite bool_decide_true by done. cbn [negb].
  assert (∀ t, spec_answer a t (Jwk_Kid j) = None) as Ha by (intros t; unfold spec_answer, waiting; by rewrite Hh, Ht).
  rewrite !Ha. unfold spec_fetch, spec_answer. cbn [held hold].
  assert (first_with (js1 ++ j :: js2) (Jwk_Kid j) = Some j) as ->.
  { clear -Hn. induction Hn as [|j' js1 Hj _ IH]; cbn; [by rewrite bool_decide_true|by rewrite bool_decide_false]. }
  by replace (trusted _ _) with true.
Qed.

(** C2. An RSA signing key that was generated, of at most 524288 bits, for operations that
    have an inverse, has a public half that can be published; and where a set of keys with
    that half in it, first under its identifier, is published, a verifier that has fetched
    nothing yet accepts, with their claims, the tokens that the key signs. *)
Theorem generated_key_served {V} (json_Marshal : V → result json) h rand alg bitLen ops sk h1 :
  RsaSigningKeyGenerator_Generate h rand alg bitLen ops = (Ok sk, h1) → (bitLen <= 524288)%Z → ops_ok ops → Forall (λ op, ¬ no_inverse op) ops →
  ∃ pub, (jwk ← SigningKey_Jwk h1 sk; PublicFromPrivate jwk) = Ok pub ∧ Jwk_ok pub ∧ verifies pub ∧
  ∀ signRand iat uuid issuer claims untyped encoded token hv env a outcome now audience js1 js2 body,
    JwtSignerImpl_Sign json_Marshal h1 signRand iat uuid (NewJwtSigner issuer sk) (Some claims) untyped = Ok token →
    encode_untyped json_Marshal (map_to_list untyped) = Ok encoded → claims_ok (issued_claims issuer iat uuid claims encoded) →
    (slen token <= MaxCompactSize)%N → (NotBefore claims <= now < Expiration claims)%Z → (∃ b, b ∈ audience ∧ b ∈ default [] (Aud claims)) →
    Forall Jwk_ok (js1 ++ js2) → Forall verifies (js1 ++ js2) → Forall (λ j, Jwk_Kid j ≠ Jwk_Kid pub) js1 →
    publish (js1 ++ pub :: js2) = Ok body → (len body <= maxJwksBytes)%N → outcome = Response StatusOK body →
    represents hv (env_store env) a → env_outcome env = outcome → issuer ∈ vouched a → held a = [] → tried_at a = 0%Z →
    trusted (hold (js1 ++ pub :: js2) (env_now env 3) a) (env_now env 4) = true →
    ∃ env' h', JwtVerifierImpl_Verify hv env now token audience = (Ok (Jwk_Kid pub, issued_claims issuer iat uuid claims encoded), env', h') ∧
      represents h' (env_store env') (hold (js1 ++ pub :: js2) (env_now env 3) (tried (env_now env 2) a)).
Proof.
  intros Hg Hb Hops Hinv. destruct (generated_public_half _ _ _ _ _ _ _ Hg Hb Hops Hinv) as (l & jwk & pub & [Hl Hsk Hrsa (vk0 & h2 & Hv) Hpub Hok [Hk0 Hk8] Hheld]).
  assert (∀ key, loads_private jwk (SignerECDSA key) → ec_pair key) as Hpair by by intros key ?%Hrsa.
  destruct (public_half _ _ _ _ _ _ _ _ Hl Hsk Hpair Hv Hpub) as (_ & Hpk & _ & Hallow & Hw & _).
  exists pub. split_and!; [by rewrite Hheld|done|by split|]. intros signRand iat uuid issuer claims untyped encoded token hv env a outcome now audience js1 js2 body
    Hs Hu Hc Hsz Ht Ha Hoks Hvs Hn Hp Hl8 -> Hr Ho Hi Hh Htr Htrust.
  rewrite Hpk. eapply (published_accepted json_Marshal h1 l jwk ops sk vk0 h2 pub signRand iat uuid issuer claims untyped encoded token hv env a); try done.
  - rewrite Ho. apply says_keys; [apply publish_decodes; [done..|]|]; apply Forall_app; [apply Forall_app in Hoks as [? ?]|apply Forall_app in Hvs as [? ?]]; by split; [|constructor].
  - rewrite <- Hpk. by apply spec_Get_cold.
Qed.
End generated.
