(* ===== verification/KeyExamples.v ===== *)
(** Concrete runs for the theorems on keys: every theorem is applied once to small
    keys of [Toy], with its hypotheses computed. *)

From S2P Require Import Prelude Errors Base64 Json JsonFacts JsonCodec Types Crypto Toy Jwk JwkFacts Jws Jwe Helpers HelpersFacts Keys KeysFacts Interfaces Cryptors CryptorsFacts KeyGenerator KeyGeneratorFacts.

#[local] Existing Instances toy_X509 toy_Digests toy_Rsa toy_Ecdsa toy_EcdsaLaws toy_Signers toy_Aes.

(** ** Keys *)
Definition ex_key : RsaPrivateKey := toy_generate 2048.
Definition or_oct (r : result Jwk) : Jwk := match r with Ok j => j | _ => JOct OctSecretKey_zero end.
Definition ex_jwk (ops : list Types.KeyOps) : Jwk := or_oct (JwkFromPrivateKey (SignerRSA ex_key) ops []).
Definition ex_pub (alg : Alg) (ops : list Types.KeyOps) : PublicRsaKey :=
  {| PubRsa_jwk := {| KeyUse := ""; KeyOps := ops; KeyAlg := alg; KeyKid := "k"; KeyX5C := []; KeyX5T := None |};
     PubRsa_fields := {| Rsa_N := RsaPub_N (RsaPriv_Pub ex_key); Rsa_E := 65537%N |} |}.

Lemma ex_jwk_Ok : JwkFromPrivateKey (SignerRSA ex_key) [KeyOpsSign] [] = Ok (ex_jwk [KeyOpsSign]).
Proof. vm_compute. reflexivity. Qed.

Lemma JwkFromPrivateKey_LoadPrivateKey_witness :
  JwkFromPrivateKey (SignerRSA ex_key) [KeyOpsSign] [] = Ok (ex_jwk [KeyOpsSign]) ∧
  LoadPrivateKey (ex_jwk [KeyOpsSign]) [KeyOpsSign] = Ok (SignerRSA ex_key).
Proof.
  split; [exact ex_jwk_Ok|].
  apply (JwkFromPrivateKey_LoadPrivateKey _ _ _ _ _ ex_jwk_Ok); [|done].
  split_and!; vm_compute; done.
Defined.

Lemma CalculateKeyID_collision_witness : ∃ id,
  CalculateKeyID (JPublicRsa (ex_pub AlgRS256 [])) = Ok id ∧
  (Jwk_material (JPublicRsa (ex_pub AlgRS256 [])) = Jwk_material (JPublicRsa (ex_pub AlgPS512 [KeyOpsVerify])) ∨
   ∃ a b, a ≠ b ∧ Digest SHA256 a = Digest SHA256 b).
Proof.
  eexists. split; [vm_compute; reflexivity|].
  eapply (CalculateKeyID_collision (JPublicRsa (ex_pub AlgRS256 [])) (JPublicRsa (ex_pub AlgPS512 [KeyOpsVerify]))); vm_compute; reflexivity.
Defined.

Lemma PublicFromPrivate_unknown_ops_witness : ∃ out,
  PublicFromPrivate (ex_jwk [KeyOpsWrapKey; KeyOpsUnwrapKey]) = Ok out ∧
  jwkFields_CheckConsistency (Jwk_fields out) = jose_err Jose.ErrDuplicateKeyOps.
Proof.
  eexists. split; [vm_compute; reflexivity|].
  eapply (PublicFromPrivate_unknown_ops (ex_jwk [KeyOpsWrapKey; KeyOpsUnwrapKey]) _ [] KeyOpsWrapKey [] KeyOpsUnwrapKey []);
    [vm_compute; reflexivity|by apply (bool_decide_unpack (no_inverse _))|by apply (bool_decide_unpack (no_inverse _))|vm_compute; done|vm_compute; reflexivity].
Defined.

(** ** Verification *)
Definition ex_heap (j : Jwk) : heap := {[1%positive := j]}.

Lemma loaded_key_Verify_witness : ∃ vk,
  fst (NewVerificationKey (ex_heap (JPublicRsa (ex_pub AlgRS256 []))) 1) = Ok vk ∧
  VerificationKey_Verify vk KeyOpsVerify [x61] (toy_signature (RsaPriv_Pub ex_key) SHA256 (toy_digest SHA256 [x61])) = Ok true.
Proof.
  eexists. split; [vm_compute; reflexivity|].
  eapply (loaded_key_Verify (ex_heap (JPublicRsa (ex_pub AlgRS256 []))) 1 (JPublicRsa (ex_pub AlgRS256 [])));
    [reflexivity|vm_compute; reflexivity|]. split; [reflexivity|]. vm_compute. reflexivity.
Defined.

(** ** An RSA key that is labelled for EC *)
Definition ex_private (alg : Alg) (ops : list Types.KeyOps) : PrivateRsaKey :=
  {| PrivRsa_pub := ex_pub alg ops;
     PrivRsa_fields := {| Rsa_D := 3%N; Rsa_P := (2 ^ 2047)%N; Rsa_Q := 1%N; Rsa_Dp := 3%N; Rsa_Dq := 5%N; Rsa_Qi := 7%N |} |}.

Lemma RSA_Verifier_witness : ∃ sk,
  NewSigningKey (ex_heap (JPrivateRsa (ex_private AlgES256 [KeyOpsSign]))) 1 [] = Ok sk ∧
  fst (SigningKey_Verifier (ex_heap (JPrivateRsa (ex_private AlgES256 [KeyOpsSign]))) sk) = gose_err Gose.ErrUnsupportedKeyType.
Proof.
  eexists. split; [vm_compute; reflexivity|].
  eapply (RSA_Verifier (ex_heap (JPrivateRsa (ex_private AlgES256 [KeyOpsSign]))) 1 (ex_private AlgES256 [KeyOpsSign]) []);
    [reflexivity|vm_compute; reflexivity].
Defined.

Lemma RSA_verifies_under_EC_name_witness : ∃ k,
  NewRsaPublicKeyImpl (ex_heap (JPublicRsa (ex_pub AlgES256 [KeyOpsVerify; KeyOpsEncrypt]))) 1 = Ok k ∧
  RsaPublicKeyImpl_Algorithm k = AlgES256 ∧
  RsaPublicKeyImpl_Verify k KeyOpsVerify [x61] (toy_signature (RsaPriv_Pub ex_key) SHA256 (toy_digest SHA256 [x61])) = Ok true.
Proof.
  eexists. split; [vm_compute; reflexivity|].
  eapply (RSA_verifies_under_EC_name (ex_heap (JPublicRsa (ex_pub AlgES256 [KeyOpsVerify; KeyOpsEncrypt]))) 1 (ex_pub AlgES256 [KeyOpsVerify; KeyOpsEncrypt]));
    [reflexivity|vm_compute; reflexivity|apply list_elem_of_here|reflexivity|vm_compute; reflexivity].
Defined.

(** ** Generated keys *)
Lemma generated_signature_verifies_witness : ∃ sk h1 sig vk h2,
  ECDSASigningKeyGenerator_Generate ∅ [] AlgES256 [KeyOpsSign] = (Ok sk, h1) ∧
  SigningKey_Sign [] sk KeyOpsSign [x61; x62] = Ok sig ∧ SigningKey_Verifier h1 sk = (Ok vk, h2) ∧
  VerificationKey_Verify vk KeyOpsVerify [x61; x62] sig = Ok true.
Proof.
  do 5 eexists. split; [vm_compute; reflexivity|]. split; [vm_compute; reflexivity|]. split; [vm_compute; reflexivity|].
  eapply (generated_signature_verifies ∅ [] AlgES256 0 [KeyOpsSign] _ _ []); [right; vm_compute; reflexivity|vm_compute; reflexivity|vm_compute; reflexivity].
Defined.

(** ** AES-GCM *)
Definition ex_secret : bytes := replicate 16 x07.
Definition ex_gcm (ops : list Types.KeyOps) : AesGcmCryptor := NewAesGcmCryptor (gcm ex_secret) "g" AlgA128GCM ops.

Lemma AesGcm_Seal_Open_witness : ∃ ct tag,
  AesGcmCryptor_Seal (ex_gcm [KeyOpsEncrypt]) KeyOpsEncrypt (Some (replicate 12 x01)) [x61; x62] [x63] = Ok (ct, tag) ∧
  AesGcmCryptor_Open (ex_gcm [KeyOpsDecrypt]) KeyOpsDecrypt (replicate 12 x01) ct [x63] tag = Ok [x61; x62].
Proof.
  do 2 eexists. split; [vm_compute; reflexivity|].
  eapply (AesGcm_Seal_Open (ex_gcm [KeyOpsEncrypt]) (ex_gcm [KeyOpsDecrypt]));
    [apply toy_gcm_laws|reflexivity|apply list_elem_of_here|apply list_elem_of_here|vm_compute; reflexivity].
Defined.

Lemma AesGcm_Seal_total_witness :
  AesGcmCryptor_Seal (ex_gcm [KeyOpsEncrypt]) KeyOpsEncrypt None [x61] [] = Err (EWrap "seal" (EGose Gose.ErrSealFailed)).
Proof.
  apply (AesGcm_Seal_total (ex_gcm [KeyOpsEncrypt]) KeyOpsEncrypt None [x61] []);
    [apply list_elem_of_here|vm_compute; done|apply toy_gcm_laws].
Defined.
