(* ===== verification/HsmExamples.v ===== *)
(** Concrete runs for the theorems on keys of a token: a token with one key. *)

From S2P Require Import Prelude Errors Base64 Json JsonFacts JsonCodec Types Crypto Toy Jwk Jws Jwe Helpers HelpersFacts Keys KeysFacts Interfaces Cryptors JweCryptors KeyEncryptionFacts Hsm HsmFacts KeyExamples.

#[local] Existing Instances toy_X509 toy_Digests toy_Rsa toy_Ecdsa toy_Signers toy_Aes.

(** The token's key has one identifier, and no certificate. *)
Definition toy_Crypto11 : Crypto11 := {|
  Token := bytes;
  crypto11_Context := unit;
  crypto11_SignerDecrypter := RsaPrivateKey;
  crypto11_SignOnly := unit;
  FindKeyPair id _ kid _ := Ok (if bool_decide (kid = Some id) then Some (inl ex_key) else None);
  FindCertificate _ _ _ _ := Ok None;
  NewRandomReader _ _ := Ok [];
  hsm_Public k := PubRSA (RsaPriv_Pub k);
  hsm_Decrypt _ k _ c h := rsa_DecryptOAEP h k c;
|}.
#[local] Existing Instance toy_Crypto11.

Definition ex_id : bytes := [x6b; x31].
Definition ex_tok : @Token toy_Crypto11 := ex_id.
Definition ex_ctx : @crypto11_Context toy_Crypto11 := tt.
Definition ex_hsm_key : hsm_AsymmetricDecryptionKey := {| Hsm_kid := Some ex_id; Hsm_keylabel := None; Hsm_ctx := ex_ctx; Hsm_key := ex_key |}.
Definition ex_hsm_pub : RsaPublicKey := RsaPriv_Pub ex_key.

Lemma ex_exponent : (0 < RsaPub_E ex_hsm_pub <= MaxInt32)%Z.
Proof. split; [reflexivity|vm_compute; discriminate]. Qed.
Lemma ex_bits : (MinRsaModulusBits <= BitLen (RsaPub_N ex_hsm_pub))%N.
Proof. vm_compute. discriminate. Qed.
Lemma ex_decrypts : token_decrypts ex_tok ex_hsm_key ex_hsm_pub SHA256.
Proof. exists []. split; [reflexivity|]. by intros r m c r' [= <- <-]. Qed.

Lemma Hsm_Encryptor_roundtrip_witness : ∃ enc h' c r', AsymmetricDecryptionKey_Encryptor ex_tok ∅ ex_hsm_key = (Ok enc, h') ∧
  RsaPublicKeyImpl_Encrypt [] enc KeyOpsEncrypt SHA256 [x61] = Ok (c, r') ∧
  AsymmetricDecryptionKey_Decrypt ex_tok ex_hsm_key KeyOpsSign SHA256 c = Ok [x61].
Proof.
  destruct (Hsm_Encryptor_roundtrip ex_tok ∅ ex_hsm_key ex_hsm_pub [None] SHA256 eq_refl ex_exponent ex_bits eq_refl ex_decrypts)
    as (enc & h' & jwk & e & He & _ & _ & Hdec & _).
  assert (RsaPublicKeyImpl_Encrypt [] enc KeyOpsEncrypt SHA256 [x61] = Ok ([x01; x61], [])) as Henc.
  { assert (enc = encryptor_key ex_hsm_pub (new_ref ∅)) as ->; [|reflexivity].
    pose proof (Encryptor_spec ex_tok ex_hsm_key ex_hsm_pub eq_refl ex_exponent ex_bits ∅ [None] eq_refl) as Hs.
    rewrite Hs in He. by injection He as <- _. }
  exists enc, h', [x01; x61], []. split; [exact He|]. split; [exact Henc|]. exact (Hdec _ _ _ _ KeyOpsSign Henc).
Defined.

(** A JWE for the encryptor, whose identifier the token does not have. *)
Lemma ex_sent : ∃ token rs', JweRsaKeyEncryptionEncryptorImpl_Encrypt (replicate 44 x05) (jwe_encryptor ex_hsm_pub) [x61; x62] SHA256 = Ok (token, rs') ∧
  (slen token <= MaxCompactSize)%N.
Proof. do 2 eexists. split; [vm_compute; reflexivity|vm_compute; discriminate]. Qed.

Lemma Hsm_store_needs_computed_id_witness : ∃ enc h' token,
  AsymmetricDecryptionKeyStore_Get ex_tok (NewAsymmetricDecryptionKeyStore ex_ctx) (b2s ex_id) = Ok ex_hsm_key ∧
  AsymmetricDecryptionKey_Encryptor ex_tok ∅ ex_hsm_key = (Ok enc, h') ∧ RsaPublicKeyImpl_Kid h' enc = Ok (rsa_kid ex_hsm_pub) ∧
  @JweRsaKeyEncryptionDecryptorImpl_Decrypt _ _ _ (AsymmetricDecryptionKey_Decryption ex_tok) (AsymmetricDecryptionKeyStore_Store ex_tok)
    [] (NewJweRsaKeyEncryptionDecryptorImpl (NewAsymmetricDecryptionKeyStore ex_ctx)) token None =
    Err (EWrap "error getting key from keystore" (EGose Gose.ErrInvalidKeyType)).
Proof.
  destruct ex_sent as (token & rs' & Henc & Hsz).
  pose proof (Encryptor_spec ex_tok ex_hsm_key ex_hsm_pub eq_refl ex_exponent ex_bits ∅ [None] eq_refl) as Hmade.
  set (h' := <[new_ref ∅ := encryptor_jwk ex_hsm_pub [None]]> ∅) in *.
  pose proof (encryptor_Jwk ex_hsm_pub ex_exponent ex_bits h' (new_ref ∅) [None] (lookup_insert_eq _ _ _)) as Hj.
  pose proof (encryptor_jwe ex_hsm_pub ex_exponent ex_bits [None]) as Hnew.
  assert (AsymmetricDecryptionKeyStore_Get ex_tok (NewAsymmetricDecryptionKeyStore ex_ctx) (b2s ex_id) = Ok ex_hsm_key) as Hget by reflexivity.
  assert (FindKeyPair ex_tok ex_ctx (Some (s2b (rsa_kid ex_hsm_pub))) None = Ok None) as Hf by (vm_compute; reflexivity).
  pose proof (Hsm_store_needs_computed_id ex_tok ∅ (replicate 44 x05) ex_hsm_key (b2s ex_id) ex_hsm_pub _ h' _ _ SHA256 [x61; x62] token rs' []
    (NewAsymmetricDecryptionKeyStore ex_ctx) Hget ex_decrypts eq_refl ex_exponent ex_bits Hmade Hj Hnew Henc Hsz) as (_ & Hkid & Hjk & Hd).
  exists (encryptor_key ex_hsm_pub (new_ref ∅)), h', token. split; [exact Hget|]. split; [exact Hmade|]. split; [exact Hkid|].
  rewrite Hjk in Hd. change (HsmStore_ctx (NewAsymmetricDecryptionKeyStore ex_ctx)) with ex_ctx in Hd. rewrite Hf in Hd. exact Hd.
Defined.

Lemma Hsm_Encryptor_Marshal_panics_witness : ∃ enc h',
  AsymmetricDecryptionKey_Encryptor ex_tok ∅ ex_hsm_key = (Ok enc, h') ∧ RsaPublicKeyImpl_Marshal h' enc = Panic.
Proof. exact (Hsm_Encryptor_Marshal_panics ex_tok ∅ ex_hsm_key ex_hsm_pub eq_refl ex_exponent ex_bits eq_refl). Defined.
