(* ===== verification/JweExamples.v ===== *)
(** Concrete runs for the theorems on JWEs, with the keys of [Toy]. *)

From S2P Require Import Prelude Errors Base64 Json JsonFacts JsonCodec Types Crypto Toy Jwk Jws Jwe JweFacts Helpers HelpersFacts Keys KeysFacts Interfaces Cryptors CryptorsFacts BlockFacts JweCryptors DirectAeadFacts DirectBlockFacts KeyEncryptionFacts KeyExamples.

#[local] Existing Instances toy_X509 toy_Digests toy_Rsa toy_Ecdsa toy_EcdsaLaws toy_Signers toy_Aes.

(** ** Direct encryption with an AEAD *)
Definition ex_aead : AesGcmCryptor := ex_gcm [KeyOpsEncrypt; KeyOpsDecrypt].
Definition ex_rand : tape := map n2b (map N.of_nat (seq 0 64)).

Lemma ex_aead_pair : aead_pair ex_aead ex_aead.
Proof. apply AesGcm_pair; [apply aead_laws_opens, toy_gcm_laws|done..|]. apply list_elem_of_further, list_elem_of_here. Qed.

Definition ex_aead_token : string :=
  match JweDirectEncryptorAead_Encrypt ex_rand (NewJweDirectEncryptorAead ex_aead false) [x61; x62; x63] [x64] with Ok (token, _) => token | _ => "" end.

Lemma ex_aead_token_Ok :
  JweDirectEncryptorAead_Encrypt ex_rand (NewJweDirectEncryptorAead ex_aead false) [x61; x62; x63] [x64] = Ok (ex_aead_token, drop 12 ex_rand).
Proof. vm_compute. reflexivity. Qed.

(** A key in a token, which supplies the nonce. *)
Definition ex_nonce : bytes := replicate 12 x2a.
Definition ex_token_aead (k : bytes) : AEAD := {|
  NonceSize := 12; Overhead := 16;
  aead_Seal n p d := match n with Some n => aead_Seal (toy_gcm k) (Some n) p d | None => Ok ((p ++ toy_tag k ex_nonce p d) ++ ex_nonce) end;
  aead_Open := aead_Open (toy_gcm k);
|}.

Lemma ex_token_aead_opens k : aead_opens (ex_token_aead k).
Proof.
  split; [intros n p d c; apply (aead_Open_Seal _ (toy_gcm_laws k))|]. intros p d c [= <-].
  exists (p ++ toy_tag k ex_nonce p d), ex_nonce. split; [done|]. split; [done|].
  assert (aead_Seal (toy_gcm k) (Some ex_nonce) p d = Ok (p ++ toy_tag k ex_nonce p d)) as Hs by done.
  pose proof (aead_Open_Seal _ (toy_gcm_laws k) _ _ _ _ Hs) as Ho. split; [|exact Ho]. by apply (aead_Open_valid _ (toy_gcm_laws k)) in Ho as [_ ?].
Qed.

Definition ex_token_key : AesGcmCryptor := NewAesGcmCryptor (ex_token_aead ex_secret) "t" AlgA256GCM [KeyOpsEncrypt; KeyOpsDecrypt].

Lemma ex_token_pair : aead_pair ex_token_key ex_token_key.
Proof. apply AesGcm_pair; [apply ex_token_aead_opens|done..|]. apply list_elem_of_further, list_elem_of_here. Qed.

Definition ex_token_jwe : string :=
  match JweDirectEncryptorAead_Encrypt ex_rand (NewJweDirectEncryptorAead ex_token_key true) [x61; x62] [] with Ok (token, _) => token | _ => "" end.

Lemma ex_token_jwe_Ok :
  JweDirectEncryptorAead_Encrypt ex_rand (NewJweDirectEncryptorAead ex_token_key true) [x61; x62] [] = Ok (ex_token_jwe, drop 12 ex_rand).
Proof. vm_compute. reflexivity. Qed.

(** With a drawn nonce, and with one that the key supplies. *)
Lemma JweDirectAead_roundtrip_witness :
  JweDirectDecryptorAeadImpl_Decrypt {| Dda_keystore := {["g" := ex_aead]} |} ex_aead_token = Ok ([x61; x62; x63], [x64]) ∧
  JweDirectDecryptorAeadImpl_Decrypt {| Dda_keystore := {["t" := ex_token_key]} |} ex_token_jwe = Ok ([x61; x62], []).
Proof.
  split.
  - apply (JweDirectAead_roundtrip ex_rand ex_aead ex_aead false {["g" := ex_aead]} [x61; x62; x63] [x64] EncA128GCM ex_aead_token (drop 12 ex_rand)
      ex_aead_pair (lookup_singleton_eq "g" ex_aead)); [vm_compute; discriminate|vm_compute; reflexivity..|vm_compute; discriminate|exact ex_aead_token_Ok|vm_compute; discriminate].
  - apply (JweDirectAead_roundtrip ex_rand ex_token_key ex_token_key true {["t" := ex_token_key]} [x61; x62] [] EncA256GCM ex_token_jwe (drop 12 ex_rand)
      ex_token_pair (lookup_singleton_eq "t" ex_token_key)); [vm_compute; discriminate|vm_compute; reflexivity..|vm_compute; discriminate|exact ex_token_jwe_Ok|vm_compute; discriminate].
Defined.

Lemma JweDirectAead_authentic_witness :
  JweDirectDecryptorAeadImpl_Decrypt (NewJweDirectDecryptorAeadImpl [ex_aead]) ex_aead_token = Ok ([x61; x62; x63], [x64]) ∧
  ∃ t key, Jwe_Unmarshal Jwe_zero ex_aead_token = Ok t ∧ key ∈ [ex_aead] ∧
    aead_Seal (Gcm_aead key) (Some (Dep_Iv t)) [x61; x62; x63] (MarshalledHeader t) = Ok (Dep_Ciphertext t ++ Dep_Tag t).
Proof.
  assert (JweDirectDecryptorAeadImpl_Decrypt (NewJweDirectDecryptorAeadImpl [ex_aead]) ex_aead_token = Ok ([x61; x62; x63], [x64])) as Hd by (vm_compute; reflexivity).
  split; [exact Hd|].
  destruct (JweDirectAead_authentic [ex_aead] ex_aead_token [x61; x62; x63] [x64]) as (t & key & Ht & Hk & _ & _ & _ & Hs);
    [intros key ->%list_elem_of_singleton; apply toy_gcm_laws|exact Hd|]. exists t, key. split; [exact Ht|]. split; [exact Hk|exact Hs].
Defined.

(** ** Direct encryption with CBC and a MAC *)
Definition ex_iv : bytes := replicate 16 x21.
Definition ex_mac : JweHmacVerifierImpl HmacShaCryptor :=
  {| hmacKey := {| Hmac_kid := "m"; Hmac_hash := Some (toy_hmac [x05], []); destroyed := false |} |}.

Lemma ex_mac_live : live_hmac (hmacKey ex_mac) (toy_hmac [x05]).
Proof. split; [reflexivity|]. by eexists. Qed.

Definition ex_tokens : list string :=
  match encrypt_all (block_encryptor [x01] ex_iv "c" AlgA256CBC ex_iv ex_mac) [[x61; x62]; [x63]; replicate 16 x64] with Ok (tokens, _) => tokens | _ => [] end.

Lemma JweDirectBlock_conversation_witness : ∃ tokens e',
  encrypt_all (block_encryptor [x01] ex_iv "c" AlgA256CBC ex_iv ex_mac) [[x61; x62]; [x63]; replicate 16 x64] = Ok (tokens, e') ∧
  decrypt_all (block_decryptor [x01] ex_iv "c" AlgA256CBC ex_mac) tokens = [Ok [x61; x62]; Ok [x63]; Ok (replicate 16 x64)].
Proof.
  destruct (JweDirectBlock_conversation [x01] ex_iv "c" AlgA256CBC EncA256CBC ex_iv ex_mac ex_mac (toy_hmac [x05]) [[x61; x62]; [x63]] (replicate 16 x64))
    as (tokens & e' & He & Hd); [reflexivity|exact ex_mac_live|exact ex_mac_live|reflexivity|reflexivity| | |].
  - repeat (apply list.Forall_cons; split; [vm_compute; done|]). by apply Forall_nil_2.
  - repeat (apply list.Forall_cons; split; [vm_compute; done|]). by apply Forall_nil_2.
  - exists tokens, e'. split; [exact He|]. apply Hd.
    assert (tokens = ex_tokens) as -> by (unfold ex_tokens; cbn [app] in He; by rewrite He).
    apply (bool_decide_unpack (Forall (λ token, slen token <= MaxCompactSize)%N ex_tokens)). vm_compute. exact I.
Defined.

(** A JWE of three blocks, and the same with the first block moved to the vector. *)
Definition ex_long : bytes := map n2b (map N.of_nat (seq 0 40)).
Definition ex_block_token : string := Eval vm_compute in
  match JweDirectEncryptorBlock_Encrypt (block_encryptor [x01] ex_iv "c" AlgA256CBC ex_iv ex_mac) ex_long with Ok (token, _) => token | _ => "" end.
Definition or_jwe (r : result JweRfc7516Compact) : JweRfc7516Compact := match r with Ok j => j | _ => JweRfc7516Compact_zero end.
Definition ex_block_jwe : JweRfc7516Compact := Eval vm_compute in or_jwe (JweRfc7516Compact_Unmarshal JweRfc7516Compact_zero ex_block_token).
Definition ex_moved_token : string := Eval vm_compute in
  match JweRfc7516Compact_Marshal {|
    ProtectedHeader := ProtectedHeader ex_block_jwe; RawProtectedHeader := []; EncryptedKey := [];
    InitializationVector := InitializationVector ex_block_jwe ++ take 16 (Ciphertext ex_block_jwe);
    Ciphertext := drop 16 (Ciphertext ex_block_jwe); AuthenticationTag := AuthenticationTag ex_block_jwe |} with Ok s => s | _ => "" end.
Definition ex_moved_jwe : JweRfc7516Compact := Eval vm_compute in or_jwe (JweRfc7516Compact_Unmarshal JweRfc7516Compact_zero ex_moved_token).
Definition ex_block_decryptor := block_decryptor [x01] ex_iv "c" AlgA256CBC ex_mac.

Lemma JweDirectBlock_authentic_witness : ∃ jwe,
  fst (JweDirectDecryptorBlock_Decrypt ex_block_decryptor ex_block_token) = Ok ex_long ∧
  JweRfc7516Compact_Unmarshal JweRfc7516Compact_zero ex_block_token = Ok jwe ∧ Jws_Alg (Jwe_Jws (ProtectedHeader jwe)) = AlgA256CBC.
Proof.
  assert (fst (JweDirectDecryptorBlock_Decrypt ex_block_decryptor ex_block_token) = Ok ex_long) as Hf by (vm_compute; reflexivity).
  destruct (JweDirectDecryptorBlock_Decrypt ex_block_decryptor ex_block_token) as [r d'] eqn:E. cbn [fst] in Hf.
  destruct (JweDirectBlock_authentic [x01] ex_iv "c" AlgA256CBC ex_mac (toy_hmac [x05]) ex_block_token r d' ex_mac_live E) as (_ & _ & iv' & _ & Hc).
  destruct Hc as (jwe & Hu & Ha & _); [left; by exists ex_long|]. exists jwe. cbn [fst]. by split_and!.
Defined.

(** The recipient gets forty other octets, under a tag that verifies. *)
Lemma ex_block_jwe_Ok : JweRfc7516Compact_Unmarshal JweRfc7516Compact_zero ex_block_token = Ok ex_block_jwe.
Proof. vm_compute. reflexivity. Qed.
Lemma ex_moved_jwe_Ok : JweRfc7516Compact_Unmarshal JweRfc7516Compact_zero ex_moved_token = Ok ex_moved_jwe.
Proof. vm_compute. reflexivity. Qed.

Lemma JweDirectBlock_border_witness : ∃ p2 d2,
  fst (JweDirectDecryptorBlock_Decrypt ex_block_decryptor ex_block_token) = Ok ex_long ∧
  JweDirectDecryptorBlock_Decrypt ex_block_decryptor ex_moved_token = (Ok p2, d2) ∧ len p2 = len ex_long ∧ p2 ≠ ex_long.
Proof.
  assert (fst (JweDirectDecryptorBlock_Decrypt ex_block_decryptor ex_block_token) = Ok ex_long) as Hf by (vm_compute; reflexivity).
  destruct (JweDirectDecryptorBlock_Decrypt ex_block_decryptor ex_block_token) as [r d1] eqn:E. cbn [fst] in Hf. subst r.
  destruct (JweDirectBlock_border [x01] ex_iv "c" AlgA256CBC ex_mac (toy_hmac [x05]) ex_block_token ex_moved_token ex_block_jwe ex_moved_jwe
    (take 16 (Ciphertext ex_block_jwe)) ex_long d1 eq_refl ex_mac_live E ex_block_jwe_Ok ex_moved_jwe_Ok) as (p2 & d2 & Hd & Hl);
    [vm_compute; reflexivity..|vm_compute; discriminate|vm_compute; discriminate|].
  exists p2, d2. split; [reflexivity|]. split; [exact Hd|]. split; [exact Hl|].
  assert (fst (JweDirectDecryptorBlock_Decrypt ex_block_decryptor ex_moved_token) ≠ Ok ex_long) as Hne by (vm_compute; discriminate).
  unfold ex_block_decryptor in Hne. rewrite Hd in Hne. intros ->. by apply Hne.
Defined.

Lemma fst_Ok {A B} (r : result (A * B)) a : fst <$> r = Ok a → ∃ b, r = Ok (a, b).
Proof. destruct r as [[x b]|e|]; [intros [= ->]; by exists b|discriminate..]. Qed.

(** The tag of one verifies the other. *)
Lemma VerifyCompact_binds_witness : ∃ v1 v2,
  JweHmacVerifierImpl_VerifyCompact ex_mac ex_block_jwe = Ok (true, v1) ∧ JweHmacVerifierImpl_VerifyCompact ex_mac ex_moved_jwe = Ok (true, v2).
Proof.
  assert (fst <$> JweHmacVerifierImpl_VerifyCompact ex_mac ex_block_jwe = Ok true) as Hv by (vm_compute; reflexivity).
  apply fst_Ok in Hv as (v1 & Hv1).
  destruct (VerifyCompact_binds ex_mac (toy_hmac [x05]) ex_block_jwe ex_moved_jwe (RawProtectedHeader ex_block_jwe) (RawProtectedHeader ex_moved_jwe) v1 ex_mac_live)
    as [Hsame _]; [vm_compute; reflexivity..|exact Hv1|vm_compute; reflexivity|].
  destruct Hsame as (v2 & Hv2); [split; vm_compute; reflexivity|]. exists v1, v2. split; [exact Hv1|exact Hv2].
Defined.

Lemma computeAL_octets_witness : computeAL [x61] ≠ GetALFromAAD [x61] ∧ be_to_N (GetALFromAAD [x61]) = 8%N.
Proof.
  destruct (computeAL_octets [x61]) as (Hc & Hg & Hn); [vm_compute; done|]. split.
  - intros Heq. by apply Hn in Heq.
  - rewrite Hg, Hc. reflexivity.
Defined.

(** A plaintext of one octet more than the bound. *)
Definition ex_oversized : bytes := replicate (N.to_nat (MaxPlaintextSize + 1)) x00.

Lemma JweDirectBlock_oversized_witness : (MaxPlaintextSize < len ex_oversized)%N ∧ ∃ token e',
  JweDirectEncryptorBlock_Encrypt (block_encryptor [x01] ex_iv "c" AlgA256CBC ex_iv ex_mac) ex_oversized = Ok (token, e').
Proof.
  assert (len ex_oversized = (MaxPlaintextSize + 1)%N) as Hl by (unfold len, ex_oversized; rewrite length_replicate; apply N2Nat.id).
  split; [rewrite Hl; unfold MaxPlaintextSize; lia|].
  assert (MaxPlaintextSize < len ex_oversized < 2 ^ 64)%N as Hb by (rewrite Hl; split; vm_compute; reflexivity).
  destruct (JweDirectBlock_oversized [x01] ex_iv "c" AlgA256CBC EncA256CBC ex_iv ex_mac ex_mac (toy_hmac [x05]) ex_oversized
    eq_refl ex_mac_live ex_mac_live eq_refl eq_refl Hb) as (token & ve' & He & _).
  exists token, (block_encryptor [x01] ex_iv "c" AlgA256CBC ex_iv ve'). exact He.
Defined.

(** ** RSA key encryption *)
Definition ex_rsa_jwk : Jwk := JPrivateRsa (ex_private AlgRSAOAEP [KeyOpsDecrypt]).
Definition ex_rsa_pub : Jwk := or_oct (PublicFromPrivate ex_rsa_jwk).
Definition ex_rsa_decryption : RsaPrivateKeyImpl :=
  {| Rpk_jwk := 1; Rpk_key := ex_key; Rpk_ops := [KeyOpsDecrypt]; Rpk_alg := AlgRSAOAEP |}.
Definition ex_rsa_encryptor : JweRsaKeyEncryptionEncryptorImpl :=
  {| rsaPublicKey := RsaPriv_Pub ex_key; rsaPublicKid := "k"; rsaAlg := AlgRSAOAEP |}.
Definition ex_rsa_store : AsymmetricDecryptionKeyStoreImpl RsaPrivateKeyImpl := {| Adk_keys := {["k" := ex_rsa_decryption]} |}.

Definition ex_rsa_token : string :=
  match JweRsaKeyEncryptionEncryptorImpl_Encrypt ex_rand ex_rsa_encryptor [x61; x62] SHA256 with Ok (token, _) => token | _ => "" end.

Lemma JweRsaKeyEncryption_roundtrip_witness : ∃ aad,
  JweRsaKeyEncryptionDecryptorImpl_Decrypt [] (NewJweRsaKeyEncryptionDecryptorImpl ex_rsa_store) ex_rsa_token None = Ok ([x61; x62], aad).
Proof.
  destruct (JweRsaKeyEncryption_roundtrip (ex_heap ex_rsa_jwk) 1 ex_rsa_jwk ex_rsa_decryption ex_rsa_pub ex_rsa_encryptor ex_rand [x61; x62] SHA256 ex_rsa_token
    (drop 44 ex_rand) [] ex_rsa_store None) as (aad & Ha & _).
  - reflexivity.
  - vm_compute. reflexivity.
  - vm_compute. reflexivity.
  - vm_compute. reflexivity.
  - vm_compute. reflexivity.
  - vm_compute. reflexivity.
  - vm_compute. discriminate.
  - vm_compute. reflexivity.
  - left. reflexivity.
  - exists aad. exact Ha.
Defined.

(** The same JWE for a recipient who has another kind of key: the wrapped key does
    not unwrap, and the answer is that of a tag that does not verify. *)
Definition ex_other_store : AsymmetricDecryptionKeyStoreImpl RsaPrivateKeyImpl :=
  {| Adk_keys := {["k" := {| Rpk_jwk := 1; Rpk_key := ex_key; Rpk_ops := []; Rpk_alg := AlgRSAOAEP |}]} |}.

Lemma unwrap_failure_hidden_witness :
  JweRsaKeyEncryptionDecryptorImpl_Decrypt (reverse ex_rand) (NewJweRsaKeyEncryptionDecryptorImpl ex_other_store) ex_rsa_token None = Err (EStd CryptoFailure).
Proof.
  pose (jwe := or_jwe (JweRfc7516Compact_Unmarshal JweRfc7516Compact_zero ex_rsa_token)).
  assert (∃ cek rand', ReadFull 32 (reverse ex_rand) = Ok (cek, rand')) as (cek & rand' & Hr) by (do 2 eexists; vm_compute; reflexivity).
  destruct (unwrap_failure_hidden (K := RsaPrivateKeyImpl) (reverse ex_rand) (NewJweRsaKeyEncryptionDecryptorImpl ex_other_store) ex_rsa_token None jwe 32
    {| Rpk_jwk := 1; Rpk_key := ex_key; Rpk_ops := []; Rpk_alg := AlgRSAOAEP |} SHA256 (EStd CryptoFailure) cek rand') as [_ He].
  - vm_compute. done.
  - split_and!; vm_compute; reflexivity.
  - intros c. vm_compute. done.
  - intros k nonce ct ad e. cbn. destruct (negb _); [done|]. case_bool_decide; [done|]. by intros [= <-].
  - exact Hr.
  - assert (match JweRsaKeyEncryptionDecryptorImpl_Decrypt (reverse ex_rand) (NewJweRsaKeyEncryptionDecryptorImpl ex_other_store) ex_rsa_token None with
            | Err _ => true | _ => false end = true) as Hx by (vm_compute; reflexivity).
    destruct (JweRsaKeyEncryptionDecryptorImpl_Decrypt _ _ _ _) as [x|e|]; [discriminate| |discriminate].
    rewrite (He e eq_refl). vm_compute. reflexivity.
Defined.

Lemma JweRsaKeyEncryption_no_panic_witness :
  JweRsaKeyEncryptionDecryptorImpl_Decrypt [] (NewJweRsaKeyEncryptionDecryptorImpl ex_other_store) ex_rsa_token (Some SHA1) ≠ Panic.
Proof. apply JweRsaKeyEncryption_no_panic. by intros h [= <-]. Defined.
