(* ===== verification/StoreExamples.v ===== *)
(** Concrete runs for the theorems on trust stores and tokens, with the keys of [Toy]. *)

From S2P Require Import Prelude Errors Base64 Json JsonFacts JsonCodec Types Crypto Toy Jwk JwkFacts Jws JwsFacts Helpers HelpersFacts Keys KeysFacts KeyStore KeyStoreFacts JwksTrustStore JwksTrustStoreFacts JwksProgress JwksMutex JwtSigner JwtFacts KeyExamples.

#[local] Existing Instances toy_X509 toy_Digests toy_Rsa toy_Ecdsa toy_EcdsaLaws toy_Signers toy_Aes.

(** ** A signing key, its public half, and the store that trusts it *)
Definition ex_sign_jwk : Jwk := JPrivateRsa (ex_private AlgPS256 [KeyOpsSign]).
Definition ex_sign_pub : Jwk := or_oct (PublicFromPrivate ex_sign_jwk).
Definition ex_signer : SigningKey :=
  SKImpl {| Ski_jwk := 1; Ski_key := SignerRSA ex_key; Ski_certs := []; Ski_ops := [KeyOpsSign]; Ski_alg := AlgPS256 |}.
Definition ex_vk (l : ref) : VerificationKey :=
  VKRsa {| Rpub_key := RsaPriv_Pub ex_key; Rpub_jwk := l; Rpub_ops := [KeyOpsVerify]; Rpub_alg := AlgPS256 |}.
Definition ex_trust : TrustKeyStoreImpl := {| keys := {["iss" := {["k" := 1%positive]}]}; revoked := ∅ |}.
Definition ex_claims : SettableJwtClaims := {| Subject := "s"; Aud := Some ["a"; "b"]; Expiration := 100; NotBefore := 10 |}.
Definition ex_token : string :=
  match JwtSignerImpl_Sign Ok (ex_heap ex_sign_jwk) [] 7 "u" (NewJwtSigner "iss" ex_signer) (Some ex_claims) {["x" := JBool true]} with Ok s => s | _ => "" end.

Lemma issued_token_accepted_witness : ∃ h',
  JwtVerifierImpl_Verify (ex_heap ex_sign_pub) ex_trust 50 ex_token ["c"; "b"] =
    (Ok ("k", issued_claims "iss" 7 "u" ex_claims {["x" := JBool true]}), ex_trust, h').
Proof.
  apply (issued_token_accepted Ok (ex_heap ex_sign_jwk) 1 ex_sign_jwk [] ex_signer (ex_vk 2)
    (snd (SigningKey_Verifier (ex_heap ex_sign_jwk) ex_signer)) ex_sign_pub [] 7 "u" "iss" ex_claims {["x" := JBool true]} {["x" := JBool true]}
    ex_token (ex_heap ex_sign_pub) ex_trust 1 50 ["c"; "b"]).
  - reflexivity.
  - vm_compute. reflexivity.
  - intros key Hk. destruct Hk.
  - vm_compute. reflexivity.
  - vm_compute. reflexivity.
  - vm_compute. reflexivity.
  - vm_compute. reflexivity.
  - split; try (vm_compute; reflexivity).
    + exists "a", ["b"]. split; [reflexivity|]. repeat (apply list.Forall_cons; split; [reflexivity|]). by apply Forall_nil_2.
    + unfold map_ok, issued_claims. cbn [Untyped]. intros k v [<- <-]%lookup_singleton_Some. split; [by vm_compute|split_and!; by vm_compute].
    + intros k Hk. apply has_reserved_false; [by vm_compute|done].
  - discriminate.
  - reflexivity.
  - vm_compute. discriminate.
  - split; vm_compute; [discriminate|reflexivity].
  - exists "b". split; [apply list_elem_of_further, list_elem_of_here|apply list_elem_of_further, list_elem_of_here].
  - reflexivity.
  - reflexivity.
Defined.

(** ** Verifying, whatever the token *)
Lemma ex_trust_ok : ts_ok (ex_heap ex_sign_pub) ex_trust.
Proof.
  intros i k l Hs. unfold stored, ex_trust in Hs. cbn [keys] in Hs.
  destruct ({["iss" := {["k" := 1%positive]}]} !! i) as [m|] eqn:E; [|discriminate].
  apply lookup_singleton_Some in E as [_ <-]. cbn in Hs. apply lookup_singleton_Some in Hs as [<- <-].
  exists ex_sign_pub. split; [reflexivity|]. split; [reflexivity|]. intros c. vm_compute. discriminate.
Qed.

Lemma JwtVerifierImpl_Verify_no_panic_witness : ∃ r store' h',
  JwtVerifierImpl_Verify (ex_heap ex_sign_pub) ex_trust 50 ex_token ["c"] = (r, store', h') ∧ r ≠ Panic.
Proof.
  destruct (JwtVerifierImpl_Verify (ex_heap ex_sign_pub) ex_trust 50 ex_token ["c"]) as [[r store'] h'] eqn:E.
  exists r, store', h'. split; [reflexivity|].
  exact (proj1 (JwtVerifierImpl_Verify_no_panic (ex_heap ex_sign_pub) ex_trust 50 ex_token ["c"] r store' h' ex_trust_ok E)).
Defined.

(** ** The trust store *)
Definition ex_store (s : result TrustKeyStoreImpl) : TrustKeyStoreImpl := match s with Ok s => s | _ => TrustKeyStoreImpl_zero end.
Definition ex_added : TrustKeyStoreImpl := ex_store (TrustKeyStoreImpl_Add (ex_heap ex_sign_pub) TrustKeyStoreImpl_zero "iss" 1).
Definition ex_removed : TrustKeyStoreImpl := snd (TrustKeyStoreImpl_Remove ex_added "iss" "k").
Definition ex_readded : TrustKeyStoreImpl := ex_store (TrustKeyStoreImpl_Add (ex_heap ex_sign_pub) ex_removed "iss" 1).

Lemma ex_zero_represents : represents TrustKeyStoreImpl_zero spec_zero.
Proof.
  split; [done|intros i k; by rewrite bool_decide_false by set_solver|].
  intros i. cbn. rewrite lookup_empty. split; [by intros []|set_solver].
Qed.

(** The store after [Add] represents the specification after [spec_add]. *)
Lemma TrustKeyStore_refinement_witness : ∃ a,
  spec_add (ex_heap ex_sign_pub) spec_zero "iss" 1 = Ok a ∧ represents ex_added a.
Proof.
  destruct (TrustKeyStore_refinement (ex_heap ex_sign_pub) TrustKeyStoreImpl_zero spec_zero "iss" "k" 1 ex_zero_represents) as [Ha _].
  eexists. split; [reflexivity|exact Ha].
Defined.

(** Removed, added again, and still not found. *)
Lemma revocation_sticky_witness :
  TrustKeyStoreImpl_Add (ex_heap ex_sign_pub) ex_removed "iss" 1 = Ok ex_readded ∧
  TrustKeyStoreImpl_Get (ex_heap ex_sign_pub) ex_readded "iss" "k" = (gose_err Gose.ErrUnknownKey, ex_heap ex_sign_pub).
Proof.
  split; [reflexivity|].
  apply (revocation_sticky ex_added (ex_heap ex_sign_pub) "iss" "k" ex_removed); [reflexivity|].
  apply rtc_once. by apply (step_add _ _ "iss" 1).
Defined.

Definition ex_other_heap : heap := <[2%positive := ex_sign_pub]> (ex_heap ex_sign_pub).

(** Another JWK under the same identifier does not take the place of the first. *)
Lemma trusted_until_revoked_witness :
  trusted ex_trust "iss" "k" = Some 1%positive ∧ ∃ s', TrustKeyStoreImpl_Add ex_other_heap ex_trust "iss" 2 = Ok s' ∧
  (trusted s' "iss" "k" = Some 1%positive ∨ is_revoked s' "iss" "k" = true).
Proof.
  split; [reflexivity|]. exists (ex_store (TrustKeyStoreImpl_Add ex_other_heap ex_trust "iss" 2)). split; [reflexivity|].
  apply (trusted_until_revoked ex_trust ex_other_heap "iss" "k" 1 _ ex_other_heap); [reflexivity|].
  apply rtc_once. by apply (step_add _ _ "iss" 2).
Defined.

(** ** The JWKS store: two calls for an identifier that is not in the set *)
Definition ex_jwks : JwksTrustStore := set_keys [ex_vk 1] 5%Z (NewJwksKeyStore "iss" "https://iss/jwks" []).
Definition ex_start : jwks_state := jwks_init ex_jwks (ex_heap ex_sign_pub) 10%Z.


Tactic Notation "run" uconstr(c) := eapply rtc_l; [eapply c; vm_compute; first [reflexivity|discriminate]|].

Lemma rtc_eq {A} (R : relation A) x y : x = y → rtc R x y.
Proof. intros ->. apply rtc_refl. Qed.

(** At ten the first call asks the server, the answer of which is lost; a second one
    asks again as soon as it may. *)
Definition ex_mid : jwks_state :=
  {| st_store := set_lastAttempt 10%Z (set_issuers ["iss"] ex_jwks); st_heap := ex_heap ex_sign_pub; st_clock := 30000000010%Z; st_owner := None;
     st_calls := {[0 := PDone (Err (EWrap "error encountered retrieving JWKS" (EStd NetFailure)))]}; st_attempts := [10%Z]; st_responses := [DoFailed] |}.
Definition ex_end : jwks_state :=
  {| st_store := set_lastAttempt 30000000010%Z (set_issuers ["iss"] ex_jwks); st_heap := ex_heap ex_sign_pub; st_clock := 30000000010%Z; st_owner := Some 1;
     st_calls := <[1 := PFetch "z"]> (st_calls ex_mid); st_attempts := [30000000010%Z; 10%Z]; st_responses := [DoFailed] |}.

Lemma ex_run_mid : rtc jwks_step ex_start ex_mid.
Proof.
  run (js_spawn _ 0 "iss" "z"). run (js_issuer _ 0). run (js_lookup _ 0). run (js_lock _ 0). run (js_recheck _ 0). run (js_attempt _ 0).
  run (js_fetch _ 0 _ DoFailed). run (js_unlock _ 0). run (js_tick _ 30000000010%Z). apply rtc_eq. vm_compute. reflexivity.
Qed.

Lemma ex_run_end : rtc jwks_step ex_mid ex_end.
Proof.
  run (js_spawn _ 1 "iss" "z"). run (js_issuer _ 1). run (js_lookup _ 1). run (js_lock _ 1). run (js_recheck _ 1). run (js_attempt _ 1).
  apply rtc_eq. vm_compute. reflexivity.
Qed.

Lemma ex_run : rtc jwks_step ex_start ex_end.
Proof. etrans; [exact ex_run_mid|exact ex_run_end]. Qed.

Lemma fetch_rate_limit_witness : spaced DefaultJwksMinRefreshInterval [30000000010%Z; 10%Z].
Proof. apply (fetch_rate_limit ex_jwks (ex_heap ex_sign_pub) 10%Z ex_end); [reflexivity|split; vm_compute; discriminate|reflexivity|exact ex_run]. Defined.

(** Two attempts in one interval and a moment: the bound is reached. *)
Lemma fetch_count_witness : (2 <= (30000000010 - 10) / DefaultJwksMinRefreshInterval + 1)%Z.
Proof.
  apply (fetch_count ex_jwks (ex_heap ex_sign_pub) 10%Z ex_end); [reflexivity|split; vm_compute; [reflexivity|discriminate]|reflexivity|exact ex_run].
Defined.

Lemma jwks_calls_end_witness : ∃ s', jwks_step ex_end s' ∧ work s' < work ex_end.
Proof.
  apply (jwks_calls_end ex_jwks (ex_heap ex_sign_pub) 10%Z ex_end ex_run). exists 1, (PFetch "z"). split; [reflexivity|discriminate].
Defined.

(** The first call has [fetchMu] and, to look again, [mu]; the second waits for [mu] with
    the answer to whether it knows the issuer. *)
Lemma ex_mutex_run : ∃ m, rtc mutex_step (mutex_init ex_jwks (ex_heap ex_sign_pub) 10%Z) m ∧
  mx_mu m = Some 0 ∧ mx_fetchMu m = Some 0 ∧ mx_calls m !! 0 = Some (Read (PRecheck "z") 10%Z) ∧ mx_calls m !! 1 = Some (At (PLookup "z")).
Proof.
  eexists. split; [|split_and!].
  - run (mx_spawn _ 0 "iss" "z"). run (mx_lock _ 0). run (mx_issuer _ 0). run (mx_unlock _ 0).
    run (mx_lock _ 0). run (mx_now _ 0). run (mx_lookup _ 0). run (mx_unlock _ 0). run (mx_fetch_lock _ 0).
    run (mx_spawn _ 1 "iss" "z"). run (mx_lock _ 1). run (mx_issuer _ 1). run (mx_unlock _ 1).
    run (mx_lock _ 0). run (mx_now _ 0). run (mx_tick _ 20%Z). apply rtc_refl.
  - reflexivity.
  - reflexivity.
  - reflexivity.
  - reflexivity.
Qed.

(** They can go on, but not for ever. *)
Lemma jwks_mutexes_end_witness : ∃ m, rtc mutex_step (mutex_init ex_jwks (ex_heap ex_sign_pub) 10%Z) m ∧
  mx_mu m = Some 0 ∧ mx_fetchMu m = Some 0 ∧ sn mutex_internal m ∧ ¬ nf mutex_internal m.
Proof.
  destruct ex_mutex_run as (m & Hm & Hmu & Hf & _ & H1). exists m. split; [exact Hm|]. split; [exact Hmu|]. split; [exact Hf|].
  destruct (jwks_mutexes_end _ _ _ m Hm) as (_ & Hsn & Hnf & _). split; [exact Hsn|]. intros Hn. exact (proj1 Hnf Hn 1 _ H1).
Defined.

(** A call for a cached identifier finds it. *)
Definition ex_asked : jwks_state := goto 0 (PLookup "k") ex_start.

Lemma answers_are_fresh_witness : jwks_step ex_asked (goto 0 (PDone (Ok (Some (ex_vk 1)))) ex_asked) ∧
  ex_vk 1 ∈ jwks_keys (st_store ex_asked) ∧ fresh_at (st_store ex_asked) (st_clock ex_asked) = true.
Proof.
  assert (jwks_step ex_asked (goto 0 (PDone (Ok (Some (ex_vk 1)))) ex_asked)) as Hs by (apply (js_lookup ex_asked 0 "k"); reflexivity).
  split; [exact Hs|].
  destruct (answers_are_fresh _ _ 0 (ex_vk 1) Hs) as [Hx|[Hx|Hx]]; [right; reflexivity|discriminate|discriminate|exact Hx].
Defined.

(** The same call, by the sequential function. *)
Lemma JwksTrustStore_Get_steps_witness : ∃ s',
  rtc jwks_step (goto 0 (PCall "iss" "k") ex_start) s' ∧ st_calls s' !! 0 = Some (PDone (Ok (Some (ex_vk 1)))).
Proof.
  destruct (JwksTrustStore_Get_steps (goto 0 (PCall "iss" "k") ex_start) 0 "iss" "k" (λ _, 10%Z) DoFailed (Ok (Some (ex_vk 1)))
    (set_issuers ["iss"] ex_jwks) (ex_heap ex_sign_pub)) as (s' & Hr & Hc & _);
    [reflexivity|reflexivity|split; vm_compute; discriminate|split; vm_compute; discriminate|vm_compute; discriminate|vm_compute; reflexivity|].
  exists s'. split; [exact Hr|]. rewrite Hc. apply lookup_insert_eq.
Defined.
