(* ===== verification/ProgramExamples.v ===== *)
(** Concrete runs for the theorems on made and saved keys, on key sets that are served,
    on concurrent calls of a HMAC key and on the example programs, with the keys of [Toy]. *)

From S2P Require Import Prelude Errors Base64 Json JsonFacts JsonCodec Types Crypto Toy Jwk JwkFacts Jws Jwe Helpers HelpersFacts JwkMade Keys KeysFacts KeyStore JwksTrustStore JwksTrustStoreFacts JwtSigner JwtFacts ServedKeys ServedStore JwksConcurrent Interfaces Cryptors BlockFacts HmacSteps JweCryptors KeyGenerator KeyGeneratorFacts SavedKeys Examples ExamplesFacts GeneratedServed KeyExamples StoreExamples.

#[local] Existing Instances toy_X509 toy_Digests toy_Rsa toy_Ecdsa toy_EcdsaLaws toy_Signers toy_Aes.

(** ** Made and saved keys *)
(** A certified RSA key for signing and for wrapping keys. *)
Definition ex_leaf : x509_Certificate :=
  {| Cert_Raw := x52 :: be_bytes (RsaPub_N (RsaPriv_Pub ex_key)); Cert_PublicKey := PubRSA (RsaPriv_Pub ex_key); Cert_SignatureAlgorithm := SHA256WithRSA |}.
Definition ex_wrapping : making := FromPrivate (SignerRSA ex_key) [KeyOpsSign; KeyOpsWrapKey; KeyOpsUnwrapKey] [Some ex_leaf].
Definition ex_made_of (m : making) : Jwk := or_oct (make m).

Lemma ex_wrapping_Ok : make ex_wrapping = Ok (ex_made_of ex_wrapping).
Proof. vm_compute. reflexivity. Qed.
Lemma ex_half_Ok : make (PublicHalf (ex_made_of ex_wrapping)) = Ok (ex_made_of (PublicHalf (ex_made_of ex_wrapping))).
Proof. vm_compute. reflexivity. Qed.

Lemma ex_wrapping_form : has_form ex_wrapping.
Proof.
  cbn [has_form ex_wrapping]. split_and!.
  - split; [split; vm_compute; discriminate|reflexivity].
  - split_and!; [vm_compute; discriminate|repeat constructor; vm_compute; discriminate|]. intros pre [= <-]. split_and!; vm_compute; discriminate.
  - by repeat constructor.
  - constructor; [|constructor]. split_and!; [vm_compute; reflexivity|discriminate|vm_compute; discriminate].
Qed.

Lemma ex_wrapping_importable : importable_making ex_wrapping.
Proof.
  cbn [importable_making ex_wrapping]. split; [split; [vm_compute; discriminate|by apply (bool_decide_unpack (NoDup _))]|]. by intros leaf [= <-].
Qed.

Lemma ex_wrapping_well_formed j : make ex_wrapping = Ok j → Jwk_ok j.
Proof.
  destruct ex_wrapping_form as (Hk & Hf & Hu & Hc), ex_wrapping_importable as [[Hl Hn] Hleaf]. unfold make, ex_wrapping. intros Hj.
  exact (JwkFromPrivateKey_ok _ _ _ _ Hj Hk Hf (conj Hu (conj Hl Hn)) (conj Hc Hleaf)).
Qed.

Lemma ex_wrapping_ops : Jwk_Ops (ex_made_of ex_wrapping) = [KeyOpsSign; KeyOpsWrapKey; KeyOpsUnwrapKey].
Proof. vm_compute. reflexivity. Qed.

(** The text is short enough. *)
Definition short_text (j : Jwk) : bool := match JwkToString j with Ok text => (slen text <=? MaxJwksSize)%N | _ => true end.
Lemma short_text_spec j text : short_text j = true → JwkToString j = Ok text → (slen text <= MaxJwksSize)%N.
Proof. unfold short_text. intros Hs Ht. rewrite Ht in Hs. by apply N.leb_le. Qed.

(** The JWK is imported again, but not its public half, in which wrapping and unwrapping
    become the same. *)
Lemma made_imports_witness :
  (∃ text, JwkToString (ex_made_of ex_wrapping) = Ok text ∧ LoadJwk (s2b text) [] = Ok (ex_made_of ex_wrapping)) ∧
  (∃ text, JwkToString (ex_made_of (PublicHalf (ex_made_of ex_wrapping))) = Ok text ∧
    LoadJwk (s2b text) [] ≠ Ok (ex_made_of (PublicHalf (ex_made_of ex_wrapping)))).
Proof.
  split.
  - destruct (made_imports ex_wrapping _ ex_wrapping_Ok ex_wrapping_form) as (text & Ht & Hi). exists text. split; [exact Ht|].
    apply Hi; [|exact ex_wrapping_importable]. apply (short_text_spec _ _ (eq_refl true <: short_text (ex_made_of ex_wrapping) = true) Ht).
  - destruct (made_imports (PublicHalf (ex_made_of ex_wrapping)) _ ex_half_Ok (conj (ex_wrapping_well_formed _ ex_wrapping_Ok) I)) as (text & Ht & Hi). exists text. split; [exact Ht|].
    intros Hl. apply Hi in Hl.
    + cbn [importable_making] in Hl. rewrite ex_wrapping_ops in Hl.
      assert (KeyOpsWrapKey = KeyOpsUnwrapKey) as He by (apply Hl; by apply (bool_decide_unpack _)). discriminate He.
    + apply (short_text_spec _ _ (eq_refl true <: short_text (ex_made_of (PublicHalf (ex_made_of ex_wrapping))) = true) Ht).
Defined.

Definition ex_sign (sk : SigningKey) (h : heap) : result string :=
  JwtSignerImpl_Sign claim_Marshal h [] 1000 "u" (NewJwtSigner "issuer" sk) (Some (standardClaims 1000)) customClaims.

Lemma ex_jwt : ∃ sk h1 token, RsaSigningKeyGenerator_Generate ∅ [] AlgRS256 2048 signingOperations = (Ok sk, h1) ∧
  ex_sign sk h1 = Ok token ∧ (slen token <= MaxCompactSize)%N.
Proof. do 3 eexists. split; [vm_compute; reflexivity|]. split; [vm_compute; reflexivity|]. vm_compute. discriminate. Qed.

Lemma generated_key_saved_witness : ∃ sk h1 text,
  RsaSigningKeyGenerator_Generate ∅ [] AlgRS256 2048 signingOperations = (Ok sk, h1) ∧ SigningKey_Marshal h1 sk = Ok text.
Proof.
  destruct ex_jwt as (sk & h1 & token & Hg & _).
  destruct (generated_key_saved ∅ [] AlgRS256 2048 signingOperations sk h1 Hg) as (text & Ht & _).
  - discriminate.
  - split; [by repeat constructor|]. split; [vm_compute; discriminate|]. by apply (bool_decide_unpack (NoDup _)).
  - exists sk, h1, text. split; [exact Hg|exact Ht].
Defined.

(** ** A key set that is served *)
Definition ex_issuer_pub : Jwk := JPublicRsa (ex_pub AlgPS256 [KeyOpsVerify]).
Definition ex_cold : JwksTrustStore := NewJwksKeyStore "a,issuer" "https://issuer/jwks" [].
Definition ex_clock (i : nat) : time := (1000 + Z.of_nat i)%Z.

Lemma ex_pub_half : PublicFromPrivate ex_sign_jwk = Ok ex_issuer_pub.
Proof. vm_compute. reflexivity. Qed.

Lemma ex_pub_ok : Jwk_ok ex_issuer_pub.
Proof.
  assert (∀ n, (len (be_bytes n) <=? 256)%N && negb (n =? 0)%N = true → bignum_ok n) as Hb.
  { intros n Hn. unfold bignum_ok, MaxBlobSize. lia. }
  split; [|split; [by vm_compute|split; [by apply Hb; vm_compute|split; [by apply Hb|by vm_compute]]]].
  split; try reflexivity; [by repeat constructor|constructor|by intros f Hf].
Qed.

Lemma ex_issued : ∃ vk0 h0 token body, SigningKey_Verifier (ex_heap ex_sign_jwk) ex_signer = (Ok vk0, h0) ∧
  JwtSignerImpl_Sign claim_Marshal (ex_heap ex_sign_jwk) [] 1000 "u" (NewJwtSigner "issuer" ex_signer) (Some (standardClaims 1000)) customClaims = Ok token ∧
  (slen token <= MaxCompactSize)%N ∧ publish [ex_issuer_pub] = Ok body ∧ (len body <= maxJwksBytes)%N.
Proof.
  do 4 eexists. split; [vm_compute; reflexivity|]. split; [vm_compute; reflexivity|]. split; [vm_compute; discriminate|].
  split; [vm_compute; reflexivity|vm_compute; discriminate].
Qed.

Lemma served_token_accepted_witness : ∃ token body s' h', publish [ex_issuer_pub] = Ok body ∧
  JwtVerifierImpl_Verify ∅ {| env_store := ex_cold; env_now := ex_clock; env_outcome := Response StatusOK body |} 1030 token ["my audience"] =
    (Ok (Jwk_Kid ex_sign_jwk, printed_claims 1000 1000 "u"), s', h').
Proof.
  destruct ex_issued as (vk0 & h0 & token & body & Hv & Hs & Hsz & Hp & Hb). exists token, body.
  destruct (served_token_accepted claim_Marshal (ex_heap ex_sign_jwk) 1 ex_sign_jwk [] ex_signer vk0 h0 ex_issuer_pub [] 1000 "u" "issuer"
    (standardClaims 1000) customClaims (<[houseNumberClaim := enc_int64 29]> {[streetClaim := enc_string "Acacia Road"]}) token
    ∅ ex_cold ex_clock [] [] body 1030 ["my audience"]) as (s' & h' & Hd).
  - reflexivity.
  - vm_compute. reflexivity.
  - intros key Hk. destruct Hk.
  - exact Hv.
  - exact ex_pub_half.
  - exact Hs.
  - exact customClaims_encoded.
  - apply (printed_claims_ok 1000 1000 "u"); reflexivity.
  - vm_compute. discriminate.
  - vm_compute. reflexivity.
  - exact Hsz.
  - split; vm_compute; [discriminate|reflexivity].
  - exists "my audience". split; apply list_elem_of_here.
  - exact Hp.
  - exact Hb.
  - constructor; [exact ex_pub_ok|constructor].
  - constructor.
  - constructor.
  - reflexivity.
  - reflexivity.
  - vm_compute. reflexivity.
  - discriminate.
  - right. split; vm_compute; discriminate.
  - exists s', h'. split; [exact Hp|exact Hd].
Defined.

(** ** A key set that is held, and one that is withdrawn *)
Lemma ex_pub_verifies : Forall verifies [ex_issuer_pub].
Proof.
  assert (∃ vk, fst (NewVerificationKey {[1%positive := ex_issuer_pub]} 1) = Ok vk) as [vk Hvk] by (eexists; vm_compute; reflexivity).
  apply (NewVerificationKey_spec _ _ ex_issuer_pub) in Hvk as [Ho Hw]; [|reflexivity].
  constructor; [|constructor]. split; [exact Ho|]. exists 1%positive, vk. exact Hw.
Qed.

Definition ex_spec : spec_store :=
  {| vouched := ["a"; "issuer"]; trust_for := 300; retry_after := 30; held := []; held_at := 0%Z; tried_at := 0%Z |}.
Definition ex_served_store : JwksTrustStore :=
  NewJwksKeyStore "a,issuer" "https://issuer/jwks" [WithJwksRefreshInterval 300; WithJwksMinRefreshInterval 30].
Definition ex_held : spec_store := hold [ex_issuer_pub] 1003%Z (tried 1002%Z ex_spec).
Definition ex_later (i : nat) : time := (1100 + Z.of_nat i)%Z.
Definition ex_late (i : nat) : time := (2000 + Z.of_nat i)%Z.

Lemma ex_served_store_represents : represents ∅ ex_served_store ex_spec.
Proof. apply (new_represents ∅ "a,issuer" "https://issuer/jwks" 300 30); vm_compute; split; (discriminate || reflexivity). Qed.

Lemma ex_served : ∃ outcome, server_says outcome (Serves [ex_issuer_pub]).
Proof.
  destruct ex_issued as (_ & _ & _ & body & _ & _ & _ & Hp & Hb). exists (Response StatusOK body). apply says_keys; [|exact ex_pub_verifies].
  apply publish_decodes; [exact Hp|exact Hb|]. constructor; [exact ex_pub_ok|constructor].
Qed.

(** Two calls: the second one finds what the first one fetched, with the server down. *)
Lemma JwksTrustStore_refinement_witness : ∃ outcome rs s' h',
  Gets ∅ ex_served_store [ {| c_now := ex_clock; c_outcome := outcome; c_server := Serves [ex_issuer_pub]; c_issuer := "issuer"; c_kid := "k" |};
                    {| c_now := ex_later; c_outcome := DoFailed; c_server := Down; c_issuer := "issuer"; c_kid := "k" |} ] = (rs, s', h') ∧
  Forall2 (answers h') rs [Key ex_issuer_pub; Key ex_issuer_pub] ∧ represents h' s' ex_held.
Proof.
  destruct ex_served as [outcome Ho]. exists outcome.
  pose proof (JwksTrustStore_refinement ∅ ex_served_store ex_spec
    [ {| c_now := ex_clock; c_outcome := outcome; c_server := Serves [ex_issuer_pub]; c_issuer := "issuer"; c_kid := "k" |};
      {| c_now := ex_later; c_outcome := DoFailed; c_server := Down; c_issuer := "issuer"; c_kid := "k" |} ] ex_served_store_represents) as Hr.
  destruct (Gets _ _ _) as [[rs s'] h']. exists rs, s', h'. split; [reflexivity|].
  change (spec_Gets _ _) with ([Key ex_issuer_pub; Key ex_issuer_pub], ex_held) in Hr.
  destruct Hr as (_ & Ha & Hs); [constructor; [exact Ho|constructor; [exact says_nothing|constructor]]|]. split; [exact Ha|exact Hs].
Defined.

Lemma ex_warm : ∃ s h, represents h s ex_held.
Proof.
  destruct ex_served as [outcome Ho]. pose proof (Get_answers _ _ _ ex_clock _ _ "issuer" "k" ex_served_store_represents Ho) as Hg.
  destruct (JwksTrustStore_Get _ _ _ _ _ _) as [[r s] h].
  change (spec_Get _ _ _ _ _) with (Key ex_issuer_pub, ex_held) in Hg. exists s, h. apply Hg.
Qed.

(** The server publishes an empty set, long after. *)
Lemma withdrawn_key_rejected_witness : ∃ s h body, represents h s ex_held ∧ publish [] = Ok body ∧ ∀ token claims env' h',
  JwtVerifierImpl_Verify h {| env_store := s; env_now := ex_late; env_outcome := Response StatusOK body |} 2000 token ["my audience"] ≠
    (Ok ("k", claims), env', h').
Proof.
  destruct ex_warm as (s & h & Hr). exists s, h. eexists. split; [exact Hr|]. split; [vm_compute; reflexivity|]. intros token claims env' h'.
  eapply (withdrawn_key_rejected h _ ex_held (Serves [])); [exact Hr|..].
  - apply says_keys; [|constructor]. apply publish_decodes; [vm_compute; reflexivity|vm_compute; discriminate|constructor].
  - reflexivity.
  - reflexivity.
  - constructor.
Defined.

(** The token of [ex_issued], with the server down. *)
Lemma published_token_accepted_witness : ∃ s h token env' h', represents h s ex_held ∧
  JwtVerifierImpl_Verify h {| env_store := s; env_now := ex_later; env_outcome := DoFailed |} 1030 token ["my audience"] =
    (Ok (Jwk_Kid ex_sign_jwk, printed_claims 1000 1000 "u"), env', h').
Proof.
  destruct ex_warm as (s & h & Hr). destruct ex_issued as (vk0 & h0 & token & body & Hv & Hs & Hsz & _). exists s, h, token.
  destruct (published_token_accepted claim_Marshal (ex_heap ex_sign_jwk) 1 ex_sign_jwk [] ex_signer vk0 h0 ex_issuer_pub [] 1000 "u" "issuer"
    (standardClaims 1000) customClaims (<[houseNumberClaim := enc_int64 29]> {[streetClaim := enc_string "Acacia Road"]}) token
    h {| env_store := s; env_now := ex_later; env_outcome := DoFailed |} ex_held Down ex_held 1030 ["my audience"]) as (env' & h' & Hd & _).
  - reflexivity.
  - vm_compute. reflexivity.
  - intros key Hk. destruct Hk.
  - exact Hv.
  - exact ex_pub_half.
  - exact Hs.
  - exact customClaims_encoded.
  - apply (printed_claims_ok 1000 1000 "u"); reflexivity.
  - vm_compute. discriminate.
  - vm_compute. reflexivity.
  - exact Hsz.
  - split; vm_compute; [discriminate|reflexivity].
  - exists "my audience". split; apply list_elem_of_here.
  - exact Hr.
  - exact says_nothing.
  - reflexivity.
  - exists env', h'. split; [exact Hr|exact Hd].
Defined.

(** A call that fetches the set and ends with its key. *)
Lemma ex_fetching_run : ∃ s vk, rtc jwks_step (jwks_init ex_cold ∅ 1000%Z) s ∧ st_calls s !! 0 = Some (PDone (Ok (Some vk))).
Proof.
  destruct ex_served as [outcome Ho]. pose proof (fetch_keys_says ∅ _ _ Ho) as Hf. destruct (fetch_keys ∅ outcome) as [r h] eqn:Ef.
  destruct Hf as (_ & ks & -> & Hm). inversion Hm as [|? vk ? ? (_ & _ & _ & Hk) Hm' E1 E2]; subst. inversion Hm'; subst.
  set (store := set_keys [vk] 1000%Z (set_lastAttempt 1000%Z (snd (knownIssuer ex_cold "issuer")))).
  assert (lookup_kid h store 1000%Z "k" = Done (Ok (Some vk))) as Hlk.
  { apply lookup_key. split; [|reflexivity]. cbn. rewrite Hk. reflexivity. }
  eexists _, vk. split.
  - run (js_spawn _ 0 "issuer" "k"). run (js_issuer _ 0). run (js_lookup _ 0). run (js_lock _ 0). run (js_recheck _ 0). run (js_attempt _ 0).
    eapply rtc_l; [eapply (js_fetch _ 0 _ outcome _ h); [reflexivity|exact Ef]|]. run (js_install _ 0).
    eapply rtc_l; [by eapply (js_final _ 0 "k")|]. eapply rtc_l; [|apply rtc_refl]. apply (js_unlock _ 0 (Ok (Some vk))).
    change (Some (after_lookup (lookup_kid h store 1000%Z "k") PUnlock (PUnlock (Ok None))) = Some (PUnlock (Ok (Some vk)))). by rewrite Hlk.
  - reflexivity.
Qed.

Lemma concurrent_calls_safe_witness : ∃ s vk o js jwk, st_calls s !! 0 = Some (PDone (Ok (Some vk))) ∧
  o ∈ st_responses s ∧ server_says o (Serves js) ∧ jwk ∈ js ∧ made_of (st_heap s) jwk vk.
Proof.
  destruct ex_fetching_run as (s & vk & Hs & Hc). exists s, vk.
  destruct (concurrent_calls_safe ex_cold ∅ 1000%Z s eq_refl Hs) as [_ Ha].
  destruct (proj2 (Ha 0 _ Hc) vk eq_refl) as (o & js & jwk & Hin & Ho & Hj & _ & Hm). exists o, js, jwk.
  split; [exact Hc|]. split; [exact Hin|]. split; [exact Ho|]. split; [exact Hj|exact Hm].
Defined.

(** ** From a generated key to a verifier *)
Lemma ex_generated : ∃ sk h1 token pub body, RsaSigningKeyGenerator_Generate ∅ [] AlgRS256 2048 signingOperations = (Ok sk, h1) ∧
  ex_sign sk h1 = Ok token ∧ (slen token <= MaxCompactSize)%N ∧ (jwk ← SigningKey_Jwk h1 sk; PublicFromPrivate jwk) = Ok pub ∧
  publish [pub] = Ok body ∧ (len body <= maxJwksBytes)%N.
Proof.
  do 5 eexists. split; [vm_compute; reflexivity|]. split; [vm_compute; reflexivity|]. split; [vm_compute; discriminate|].
  split; [vm_compute; reflexivity|]. split; [vm_compute; reflexivity|vm_compute; discriminate].
Qed.

Lemma generated_key_served_witness : ∃ token pub body env' h', publish [pub] = Ok body ∧
  JwtVerifierImpl_Verify ∅ {| env_store := ex_served_store; env_now := ex_clock; env_outcome := Response StatusOK body |} 1030 token ["my audience"] =
    (Ok (Jwk_Kid pub, printed_claims 1000 1000 "u"), env', h').
Proof.
  destruct ex_generated as (sk & h1 & token & pub & body & Hg & Hs & Hsz & Hpub & Hp & Hb).
  destruct (generated_key_served claim_Marshal ∅ [] AlgRS256 2048 signingOperations sk h1 Hg) as (pub' & Hpub' & Hok & Hv & Hall).
  - discriminate.
  - split; [by repeat constructor|]. split; [vm_compute; discriminate|]. by apply (bool_decide_unpack (NoDup _)).
  - by apply (bool_decide_unpack (Forall _ _)).
  - rewrite Hpub in Hpub'. injection Hpub' as <-. exists token, pub, body.
    destruct (Hall [] 1000%Z "u" "issuer" (standardClaims 1000) customClaims (<[houseNumberClaim := enc_int64 29]> {[streetClaim := enc_string "Acacia Road"]})
      token ∅ {| env_store := ex_served_store; env_now := ex_clock; env_outcome := Response StatusOK body |} ex_spec (Response StatusOK body)
      1030%Z ["my audience"] [] [] body) as (env' & h' & Hd & _).
    + exact Hs.
    + exact customClaims_encoded.
    + apply (printed_claims_ok 1000 1000 "u"); reflexivity.
    + exact Hsz.
    + split; vm_compute; [discriminate|reflexivity].
    + exists "my audience". split; apply list_elem_of_here.
    + constructor.
    + constructor.
    + constructor.
    + exact Hp.
    + exact Hb.
    + reflexivity.
    + exact ex_served_store_represents.
    + reflexivity.
    + apply list_elem_of_further, list_elem_of_here.
    + reflexivity.
    + reflexivity.
    + reflexivity.
    + exists env', h'. split; [exact Hp|exact Hd].
Defined.

(** ** A HMAC key that two goroutines use *)
Definition ex_live : HmacShaCryptor := {| Hmac_kid := "m"; Hmac_hash := Some (toy_hmac [x05], []); destroyed := false |}.

(** One hashes, while the other waits to destroy the key and then has the mutex. *)
Lemma ex_hmac_run : ∃ s, rtc hmac_step (hmac_init ex_live) s ∧
  hs_calls s !! 0 = Some (HDone [x61] (Ok (hash_mac (toy_hmac [x05]) [x61]))) ∧ hs_calls s !! 1 = Some DMark.
Proof.
  eexists. split.
  - eapply rtc_l; [by apply (hm_spawn_hash _ 0 [x61])|]. eapply rtc_l; [by apply (hm_spawn_destroy _ 1)|].
    eapply rtc_l; [by apply (hm_lock _ 0 [x61])|]. eapply rtc_l; [by apply (hm_check _ 0 [x61])|].
    eapply rtc_l; [by apply (hm_reset _ 0 [x61])|]. eapply rtc_l; [by apply (hm_write _ 0 [x61])|].
    eapply rtc_l; [by apply (hm_sum _ 0 [x61])|]. eapply rtc_l; [by apply (hm_unlock _ 0 [x61] (Ok (hash_mac (toy_hmac [x05]) [x61])))|].
    eapply rtc_l; [by apply (hm_dlock _ 1)|]. apply rtc_refl.
  - by split.
Qed.

Lemma hmac_calls_atomic_witness : ∃ s, rtc hmac_step (hmac_init ex_live) s ∧
  EvHash 0 [x61] (Ok (hash_mac (toy_hmac [x05]) [x61])) ∈ hs_log s.
Proof.
  destruct ex_hmac_run as (s & Hs & H0 & _). exists s. split; [exact Hs|].
  assert (live_hmac ex_live (toy_hmac [x05])) as Hl by (split; [reflexivity|by exists []]).
  destruct (hmac_calls_atomic ex_live (toy_hmac [x05]) s Hl Hs) as [_ Ha]. exact (proj1 (Ha 0 [x61] _ H0)).
Defined.

(** It can go on, but not for ever. *)
Lemma hmac_calls_end_witness : ∃ s, rtc hmac_step (hmac_init ex_live) s ∧ sn hmac_internal s ∧ ¬ nf hmac_internal s.
Proof.
  destruct ex_hmac_run as (s & Hs & _ & H1). exists s. split; [exact Hs|].
  destruct (hmac_calls_end ex_live s Hs) as [Hsn Hnf]. split; [exact Hsn|]. intros Hn. exact (proj1 Hnf Hn 1 DMark H1).
Defined.

(** ** The program of [examples/jwt] *)
Lemma jwt_main_spec_witness : ∃ out, jwt_main [] [] 1000 1000 1030 "u" = Ok out ∧ out_street out = "Acacia Road".
Proof.
  destruct ex_jwt as (sk & h1 & token & Hg & Hs & Hsz).
  destruct (jwt_main_spec [] [] 1000 1000 1030 "u" sk h1 token Hg Hs Hsz) as (kid & text & Hm); [reflexivity..|lia|].
  eexists. split; [exact Hm|reflexivity].
Defined.
